(** * kidney_uae: the helper functions of [functions.py]

    A shallow embedding of [move_column_before], [evaluate_model_metrics],
    [plot_calibration_curves] and [plot_roc_curves_by_category] together with
    the numpy, scikit-learn, pandas and os.path operations they call.

    Conventions of the embedding.
    - A Python float is a rational ([Q]) or [NaN]; [nan] is modelled because
      the library calls produce it (with a warning, not an exception) on
      labels of a single class.  The functions that compute with floats are
      written twice: in exact arithmetic ([np], [sklearn],
      [evaluate_model_metrics]), and with a rounding after every float
      operation ([fl]), of which [binary64.round], the nearest double, is the
      one of Python and numpy.
    - Binary labels 0/1 are [bool] ([true] is the positive class 1).
    - A Python [dict] is an association list in insertion order.
    - A raised exception is the [Raise] branch of [result]; warnings are not
      modelled.
    - The library functions are written from the behaviour of scikit-learn 1.x
      ([precision_recall_curve] sets recall to 1 when no label is positive)
      and of pandas before 3.0 ([idxmax] of a column of nan only is the label
      nan, on which [.loc] raises KeyError; later versions raise in [idxmax]
      already).  The development checks them on the examples of the
      libraries' documentation.
    - A call of matplotlib is an event of a trace; whether the library
      returns or raises on a call is a parameter of the functions that plot,
      and so is the formatting of numbers in the labels of the plots. *)

From Stdlib Require Import QArith Qround Qpower Lqa ZArith Lia List String Bool.
From stdpp Require Import gmap strings.
Import ListNotations.

Local Open Scope string_scope.
Local Open Scope list_scope.
Local Open Scope Z_scope.

(** ** Exceptions *)

Inductive exn : Set := ValueError | IndexError | KeyError | TypeError.

Inductive result (A : Type) : Type :=
| Ok (a : A)
| Raise (e : exn).
Arguments Ok {A} a.
Arguments Raise {A} e.

Definition bind {A B} (c : result A) (k : A -> result B) : result B :=
  match c with
  | Ok a => k a
  | Raise e => Raise e
  end.

Notation "'let*' x := c 'in' k" := (bind c (fun x => k))
  (at level 10, x pattern, c at level 100, k at level 200).

(** ** Floats: a rational or nan *)

Inductive score : Type :=
| Fin (q : Q)
| NaN.

Definition s_lift2 (f : Q -> Q -> Q) (a b : score) : score :=
  match a, b with
  | Fin x, Fin y => Fin (f x y)
  | _, _ => NaN
  end.

Definition s_add := s_lift2 Qplus.
Definition s_sub := s_lift2 Qminus.
Definition s_mul := s_lift2 Qmult.
Definition s_neg (a : score) : score := s_mul (Fin (-1)) a.
Definition s_half (a : score) : score := s_lift2 Qdiv a (Fin 2).

(** Comparisons with nan are false. *)
Definition Qltb (x y : Q) : bool := negb (Qle_bool y x).
Definition s_ltb (a b : score) : bool :=
  match a, b with Fin x, Fin y => Qltb x y | _, _ => false end.
Definition s_leb (a b : score) : bool :=
  match a, b with Fin x, Fin y => Qle_bool x y | _, _ => false end.

(** [higher q b]: [q] is strictly above [b]; [lower q b]: strictly below. *)
Definition higher (q b : Q) : bool := Qltb b q.
Definition lower (q b : Q) : bool := Qltb q b.

Definition z2q (z : Z) : Q := inject_Z z.
Definition b2z (b : bool) : Z := if b then 1 else 0.
Definition b2q (b : bool) : Q := z2q (b2z b).

(** ** numpy *)

Module np.

(** [np.where(a > t, 1, 0)] *)
Definition where_gt (a : list Q) (t : Q) : list bool :=
  map (fun p => Qltb t p) a.

(** [np.diff]: a[i+1] - a[i] *)
Fixpoint diff {A} (sub : A -> A -> A) (a : list A) : list A :=
  match a with
  | x :: ((y :: _) as t) => sub y x :: diff sub t
  | _ => []
  end.

(** [np.where(mask)[0]]: the positions at which the mask holds *)
Fixpoint where_from (i : nat) (mask : list bool) : list nat :=
  match mask with
  | [] => []
  | b :: m => if b then i :: where_from (S i) m else where_from (S i) m
  end.
Definition where_true (mask : list bool) : list nat := where_from 0 mask.

(** [a[idx]] for an index array; the index arrays built below are in range *)
Definition take {A} (d : A) (a : list A) (idx : list nat) : list A :=
  map (fun i => nth i a d) idx.

Fixpoint cumsum_from (acc : Z) (a : list Z) : list Z :=
  match a with
  | [] => []
  | x :: t => (acc + x) :: cumsum_from (acc + x) t
  end.
Definition cumsum (a : list Z) : list Z := cumsum_from 0 a.

(** [np.argsort(a, kind="mergesort")]: the stable ascending order of the
    positions. A stable sort has one result, computed here by insertion. *)
Fixpoint insert (x : Q * nat) (l : list (Q * nat)) : list (Q * nat) :=
  match l with
  | [] => [x]
  | y :: t => if Qle_bool (fst x) (fst y) then x :: l else y :: insert x t
  end.
Definition sort (l : list (Q * nat)) : list (Q * nat) :=
  fold_right insert [] l.
Definition argsort (a : list Q) : list nat :=
  map snd (sort (combine a (seq 0 (length a)))).

Definition sum (a : list score) : score := fold_right s_add (Fin 0) a.

Fixpoint zip_with {A B C} (f : A -> B -> C) (a : list A) (b : list B) : list C :=
  match a, b with
  | x :: a', y :: b' => f x y :: zip_with f a' b'
  | _, _ => []
  end.

(** [np.trapz(y, x)]: sum(diff(x) * (y[1:] + y[:-1]) / 2) *)
Definition trapz (y x : list score) : score :=
  sum (zip_with (fun d s => s_half (s_mul d s))
         (diff s_sub x) (zip_with s_add (tl y) (removelast y))).

(** The division of two integer counts: 0/0 is nan (a RuntimeWarning).  A
    nonzero count over 0 would be inf; it does not arise below, where the
    numerator is one of the summands of the denominator. *)
Definition true_divide (a b : Z) : score :=
  if b =? 0 then NaN else Fin (z2q a / z2q b).

End np.

(** ** scikit-learn (sklearn.metrics)

    The functions below follow the library's implementation for binary 0/1
    labels, no sample weights and the default arguments, which is how
    [functions.py] calls them.  Thresholds returned by the curve functions are
    left out: every caller discards them. *)

Module sklearn.

Definition check_consistent_length {A B} (a : list A) (b : list B) : result unit :=
  if (length a =? length b)%nat then Ok tt else Raise ValueError.

Definition count {A} (f : A -> bool) (l : list A) : Z :=
  Z.of_nat (length (List.filter f l)).

Definition nonzero (a : list Z) : list bool := map (fun d => negb (d =? 0)) a.

(** [_binary_clf_curve]: the samples are put in decreasing order of score;
    at the last position of every run of equal scores, the number of positives
    (tps) and of negatives (fps) up to that position. *)
Definition binary_clf_curve (y_true : list bool) (y_score : list Q)
  : result (list Z * list Z) :=
  let* _ := check_consistent_length y_true y_score in
  let desc_score_indices := rev (np.argsort y_score) in
  let y_score := np.take 0%Q y_score desc_score_indices in
  let y_true := np.take false y_true desc_score_indices in
  let distinct_value_indices :=
    np.where_true (map (fun d => negb (Qeq_bool d 0)) (np.diff Qminus y_score)) in
  match y_true with
  | [] => Raise IndexError
  | _ :: _ =>
      let threshold_idxs := distinct_value_indices ++ [(length y_true - 1)%nat] in
      let tps := np.take 0 (np.cumsum (map b2z y_true)) threshold_idxs in
      let fps := np.zip_with (fun i t => 1 + Z.of_nat i - t) threshold_idxs tps in
      Ok (fps, tps)
  end.

(** [counts / counts[-1]], or nan everywhere when the last count is not
    positive (UndefinedMetricWarning). *)
Definition rate (counts : list Z) : list score :=
  let total := List.last counts 0 in
  if total <=? 0 then repeat NaN (length counts)
  else map (fun c => Fin (z2q c / z2q total)) counts.

(** [roc_curve(y_true, y_score)], with [drop_intermediate=True] *)
Definition roc_curve (y_true : list bool) (y_score : list Q)
  : result (list score * list score) :=
  let* (fps, tps) := binary_clf_curve y_true y_score in
  let '(fps, tps) :=
    if (2 <? length fps)%nat then
      let optimal_idxs :=
        np.where_true
          (true :: np.zip_with orb
                     (nonzero (np.diff Z.sub (np.diff Z.sub fps)))
                     (nonzero (np.diff Z.sub (np.diff Z.sub tps)))
                ++ [true]) in
      (np.take 0 fps optimal_idxs, np.take 0 tps optimal_idxs)
    else (fps, tps) in
  let tps := 0 :: tps in
  let fps := 0 :: fps in
  Ok (rate fps, rate tps).

(** [precision_recall_curve(y_true, probas_pred)] *)
Definition precision_recall_curve (y_true : list bool) (probas_pred : list Q)
  : result (list score * list score) :=
  let* (fps, tps) := binary_clf_curve y_true probas_pred in
  let ps := np.zip_with Z.add tps fps in
  let precision :=
    np.zip_with (fun t p => if p =? 0 then 0%Q else (z2q t / z2q p)%Q) tps ps in
  let recall :=
    let total := List.last tps 0 in
    if total =? 0 then map (fun _ => 1%Q) tps
    else map (fun t => (z2q t / z2q total)%Q) tps in
  Ok (map Fin (rev precision ++ [1%Q]), map Fin (rev recall ++ [0%Q])).

(** [auc(x, y)]: trapezoidal rule, x increasing or decreasing *)
Definition auc (x y : list score) : result score :=
  let* _ := check_consistent_length x y in
  if (length x <? 2)%nat then Raise ValueError
  else
    let dx := np.diff s_sub x in
    let* direction :=
      if existsb (fun d => s_ltb d (Fin 0)) dx then
        if forallb (fun d => s_leb d (Fin 0)) dx then Ok (-1)%Q
        else Raise ValueError
      else Ok 1%Q in
    Ok (s_mul (Fin direction) (np.trapz y x)).

(** [average_precision_score]: -sum(diff(recall) * precision[:-1]) *)
Definition average_precision_score (y_true : list bool) (y_score : list Q)
  : result score :=
  let* (precision, recall) := precision_recall_curve y_true y_score in
  Ok (s_neg (np.sum (np.zip_with s_mul (np.diff s_sub recall)
                       (removelast precision)))).

(** [brier_score_loss]: mean((y_true - y_proba) ** 2); probabilities outside
    [0, 1] are rejected. *)
Definition brier_score_loss (y_true : list bool) (y_proba : list Q)
  : result score :=
  let* _ := check_consistent_length y_true y_proba in
  match y_proba with
  | [] => Raise ValueError
  | _ :: _ =>
      if existsb (fun p => Qltb 1 p) y_proba then Raise ValueError
      else if existsb (fun p => Qltb p 0) y_proba then Raise ValueError
      else
        let sq := np.zip_with (fun y p => ((b2q y - p) * (b2q y - p))%Q)
                    y_true y_proba in
        Ok (Fin (fold_right Qplus 0%Q sq / z2q (Z.of_nat (length sq))))
  end.

(** [precision_score]: tp / (tp + fp), and 0 when nothing is predicted
    positive ([zero_division="warn"]). *)
Definition precision_score (y_true y_pred : list bool) : result score :=
  let* _ := check_consistent_length y_true y_pred in
  let tp_sum := count (fun '(t, p) => t && p) (combine y_true y_pred) in
  let pred_sum := count (fun p => p) y_pred in
  Ok (Fin (if pred_sum =? 0 then 0%Q else (z2q tp_sum / z2q pred_sum)%Q)).

(** [recall_score]: tp / (tp + fn), and 0 when there is no positive label. *)
Definition recall_score (y_true y_pred : list bool) : result score :=
  let* _ := check_consistent_length y_true y_pred in
  let tp_sum := count (fun '(t, p) => t && p) (combine y_true y_pred) in
  let true_sum := count (fun t => t) y_true in
  Ok (Fin (if true_sum =? 0 then 0%Q else (z2q tp_sum / z2q true_sum)%Q)).

(** The sorted labels that occur in either array. *)
Definition unique_labels (y_true y_pred : list bool) : list bool :=
  List.filter (fun c => existsb (Bool.eqb c) (y_true ++ y_pred)) [false; true].

(** [confusion_matrix(y_true, y_pred)]: entry (i, j) counts the samples of
    true label i predicted j, over the labels that occur: 2x2 when both 0 and
    1 occur, 1x1 when only one of them does. *)
Definition confusion_matrix (y_true y_pred : list bool) : result (list (list Z)) :=
  let* _ := check_consistent_length y_true y_pred in
  match unique_labels y_true y_pred with
  | [] => Raise ValueError
  | labels =>
      Ok (map (fun i =>
                 map (fun j =>
                        count (fun '(t, p) => Bool.eqb t i && Bool.eqb p j)
                          (combine y_true y_pred))
                   labels)
            labels)
  end.

End sklearn.

(** ** pandas *)

(** A value held in a frame or used as a row or column label. *)
Inductive cell : Type :=
| CNum (x : score)
| CStr (s : string)
| CInt (n : nat).

Definition cell_eqb (a b : cell) : bool :=
  match a, b with
  | CStr s, CStr t => String.eqb s t
  | CInt n, CInt m => (n =? m)%nat
  | CNum (Fin x), CNum (Fin y) => Qeq_bool x y
  | CNum NaN, CNum NaN => true
  | _, _ => false
  end.

Module pd.

Record Series : Type := mkSeries {
  s_index : list cell;
  s_values : list cell
}.

(** A frame: the row labels, and the columns in order, each with its label. *)
Record DataFrame : Type := mkDataFrame {
  index : list cell;
  cols : list (cell * list cell)
}.

Definition columns (df : DataFrame) : list cell := map fst (cols df).

Fixpoint position (key : cell) (l : list cell) : option nat :=
  match l with
  | [] => None
  | c :: t => if cell_eqb key c then Some 0%nat
              else option_map S (position key t)
  end.

Fixpoint remove_nth {A} (n : nat) (l : list A) : list A :=
  match n, l with
  | _, [] => []
  | O, _ :: t => t
  | S n', x :: t => x :: remove_nth n' t
  end.

(** [pd.DataFrame(d)] for a dict of lists: one column per key, a RangeIndex;
    the lists must have one length. *)
Definition of_dict (d : list (string * list cell)) : result DataFrame :=
  let n := match d with [] => 0%nat | (_, l) :: _ => length l end in
  if forallb (fun kv => (length (snd kv) =? n)%nat) d then
    Ok {| index := map CInt (seq 0 n);
          cols := map (fun kv => (CStr (fst kv), snd kv)) d |}
  else Raise ValueError.

(** [df[key]] for one label *)
Definition getitem (df : DataFrame) (key : cell) : result Series :=
  match position key (columns df) with
  | Some j => Ok {| s_index := index df;
                    s_values := nth j (map snd (cols df)) [] |}
  | None => Raise KeyError
  end.

(** [df[keys]] for a list of labels: each must be a column label, and selects
    every column that carries it. *)
Definition getitem_list (df : DataFrame) (keys : list cell) : result DataFrame :=
  if forallb (fun k => existsb (cell_eqb k) (columns df)) keys then
    Ok {| index := index df;
          cols := flat_map
                    (fun k => List.filter (fun c => cell_eqb k (fst c)) (cols df))
                    keys |}
  else Raise KeyError.

(** The numeric content of a column; a string has no order with a float. *)
Fixpoint numeric (vals : list cell) : result (list score) :=
  match vals with
  | [] => Ok []
  | CNum x :: t => let* r := numeric t in Ok (x :: r)
  | CInt n :: t => let* r := numeric t in Ok (Fin (z2q (Z.of_nat n)) :: r)
  | CStr _ :: _ => Raise TypeError
  end.

(** The first position of the best value, nan skipped: the value at [i]
    replaces the best so far only when it is strictly better. *)
Fixpoint nanarg (better : Q -> Q -> bool) (best : option (nat * Q)) (i : nat)
  (l : list score) : option nat :=
  match l with
  | [] => option_map fst best
  | NaN :: t => nanarg better best (S i) t
  | Fin q :: t =>
      match best with
      | None => nanarg better (Some (i, q)) (S i) t
      | Some (_, b) =>
          if better q b then nanarg better (Some (i, q)) (S i) t
          else nanarg better best (S i) t
      end
  end.

(** [Series.idxmax()] / [Series.idxmin()]: the row label of the first
    maximum / minimum; ValueError on an empty series; the label nan when
    every value is nan. *)
Definition idx_best (better : Q -> Q -> bool) (s : Series) : result cell :=
  match s_values s with
  | [] => Raise ValueError
  | _ :: _ =>
      let* xs := numeric (s_values s) in
      match nanarg better None 0%nat xs with
      | Some i => Ok (nth i (s_index s) (CNum NaN))
      | None => Ok (CNum NaN)
      end
  end.
Definition idxmax : Series -> result cell := idx_best higher.
Definition idxmin : Series -> result cell := idx_best lower.

(** [df.loc[label]]: the row of that label, as a series over the columns *)
Definition loc (df : DataFrame) (label : cell) : result Series :=
  match position label (index df) with
  | Some i => Ok {| s_index := columns df;
                    s_values := map (fun c => nth i (snd c) (CNum NaN)) (cols df) |}
  | None => Raise KeyError
  end.

(** [s[key]] *)
Definition series_getitem (s : Series) (key : cell) : result cell :=
  match position key (s_index s) with
  | Some j => Ok (nth j (s_values s) (CNum NaN))
  | None => Raise KeyError
  end.

(** [df.set_index(key)]: the column becomes the row labels *)
Definition set_index (df : DataFrame) (key : cell) : result DataFrame :=
  match position key (columns df) with
  | Some j => Ok {| index := nth j (map snd (cols df)) [];
                    cols := remove_nth j (cols df) |}
  | None => Raise KeyError
  end.

(** [df.T] *)
Definition T (df : DataFrame) : DataFrame :=
  {| index := columns df;
     cols := combine (index df)
               (map (fun i => map (fun c => nth i (snd c) (CNum NaN)) (cols df))
                  (seq 0 (length (index df)))) |}.

(** [df[key] = values]: replaces the column of that label, or appends one *)
Definition setitem (df : DataFrame) (key : cell) (values : list cell)
  : result DataFrame :=
  if (length values =? length (index df))%nat then
    if existsb (cell_eqb key) (columns df) then
      Ok {| index := index df;
            cols := map (fun c => if cell_eqb key (fst c) then (fst c, values)
                                  else c)
                      (cols df) |}
    else Ok {| index := index df; cols := cols df ++ [(key, values)] |}
  else Raise ValueError.

End pd.

(** ** Python lists *)

Module py.

(** [l.remove(x)]: drops the first occurrence; ValueError when there is none *)
Fixpoint list_remove (x : cell) (l : list cell) : result (list cell) :=
  match l with
  | [] => Raise ValueError
  | c :: t => if cell_eqb x c then Ok t
              else let* t' := list_remove x t in Ok (c :: t')
  end.

(** [l.index(x)]: the first position; ValueError when there is none *)
Fixpoint list_index (x : cell) (l : list cell) : result nat :=
  match l with
  | [] => Raise ValueError
  | c :: t => if cell_eqb x c then Ok 0%nat
              else let* i := list_index x t in Ok (S i)
  end.

(** [l.insert(i, x)] for [i >= 0]: before position [i], at the end when [i]
    is past it *)
Fixpoint list_insert (i : nat) (x : cell) (l : list cell) : list cell :=
  match i, l with
  | O, _ => x :: l
  | S _, [] => [x]
  | S i', c :: t => c :: list_insert i' x t
  end.

(** [x in l] *)
Definition contains (x : cell) (l : list cell) : bool := existsb (cell_eqb x) l.

End py.

(** ** functions.py: [move_column_before] *)

Definition not_found_message (target_column before_column : string) : string :=
  String.append "One or both specified columns ('"
    (String.append target_column
       (String.append "', '"
          (String.append before_column "') are not in the DataFrame."))).

(** The first component is what the call prints. *)
Definition move_column_before (df : pd.DataFrame)
  (target_column before_column : string) : list string * result pd.DataFrame :=
  if negb (py.contains (CStr target_column) (pd.columns df))
     || negb (py.contains (CStr before_column) (pd.columns df))
  then ([not_found_message target_column before_column], Ok df)
  else
    ([],
     let cols := pd.columns df in
     let* cols := py.list_remove (CStr target_column) cols in
     let* before_column_index := py.list_index (CStr before_column) cols in
     let cols := py.list_insert before_column_index (CStr target_column) cols in
     pd.getitem_list df cols).

(** ** functions.py: [evaluate_model_metrics] *)

(** [model_dict]: model name to predicted probabilities, in insertion order. *)
Definition ModelMap : Type := list (string * list Q).

Definition metrics_dict_init : list (string * list cell) :=
  [("Metric", []); ("AUC ROC", []); ("PR AUC", []); ("Precision", []);
   ("Recall", []); ("Specificity", []); ("Average Precision", []);
   ("Brier Score", [])].

(** [d[key].append(v)] *)
Definition dict_append (d : list (string * list cell)) (key : string) (v : cell)
  : list (string * list cell) :=
  map (fun kv => if String.eqb key (fst kv) then (fst kv, snd kv ++ [v]) else kv) d.

(** The values that one pass of the loop over [model_dict.items()] holds in
    its local variables once they are all computed. *)
Record Scores : Type := mkScores {
  roc_auc : score;
  pr_auc : score;
  model_precision : score;
  model_recall : score;
  model_specificity : score;
  avg_precision : score;
  brier_score : score
}.

(** The first half of the loop body: the metrics of one model. *)
Definition compute_scores (y_test : list bool) (proba : list Q) (threshold : Q)
  : result Scores :=
  let* (fpr, tpr) := sklearn.roc_curve y_test proba in
  let* roc_auc := sklearn.auc fpr tpr in
  let* (precision, recall) := sklearn.precision_recall_curve y_test proba in
  let* pr_auc := sklearn.auc recall precision in
  let predicted_labels := np.where_gt proba threshold in
  let* model_precision := sklearn.precision_score y_test predicted_labels in
  let* model_recall := sklearn.recall_score y_test predicted_labels in
  let* cm := sklearn.confusion_matrix y_test predicted_labels in
  (* tn, fp, _, _ = cm.ravel() *)
  match concat cm with
  | [tn; fp; _; _] =>
      let model_specificity := np.true_divide tn (tn + fp) in
      let* avg_precision := sklearn.average_precision_score y_test proba in
      let* brier_score := sklearn.brier_score_loss y_test proba in
      Ok (mkScores roc_auc pr_auc model_precision model_recall
            model_specificity avg_precision brier_score)
  | _ => Raise ValueError
  end.

(** The second half of the loop body: the eight appends. *)
Definition append_scores (metrics_dict : list (string * list cell))
  (name : string) (s : Scores) : list (string * list cell) :=
  let d := dict_append metrics_dict "Metric" (CStr name) in
  let d := dict_append d "AUC ROC" (CNum (roc_auc s)) in
  let d := dict_append d "PR AUC" (CNum (pr_auc s)) in
  let d := dict_append d "Precision" (CNum (model_precision s)) in
  let d := dict_append d "Recall" (CNum (model_recall s)) in
  let d := dict_append d "Specificity" (CNum (model_specificity s)) in
  let d := dict_append d "Average Precision" (CNum (avg_precision s)) in
  dict_append d "Brier Score" (CNum (brier_score s)).

Fixpoint evaluate_models (y_test : list bool) (threshold : Q)
  (items : ModelMap) (metrics_dict : list (string * list cell))
  : result (list (string * list cell)) :=
  match items with
  | [] => Ok metrics_dict
  | (name, proba) :: rest =>
      let* s := compute_scores y_test proba threshold in
      evaluate_models y_test threshold rest (append_scores metrics_dict name s)
  end.

(** The loop over [metrics_dict.keys()] that fills [best_models]. *)
Fixpoint select_best (metrics_df : pd.DataFrame) (keys : list string)
  (best_models : list cell) : result (list cell) :=
  match keys with
  | [] => Ok best_models
  | metric :: rest =>
      if negb (String.eqb metric "Metric") then
        let* column := pd.getitem metrics_df (CStr metric) in
        let* label :=
          if String.eqb metric "Brier Score" then pd.idxmin column
          else pd.idxmax column in
        let* row := pd.loc metrics_df label in
        let* best := pd.series_getitem row (CStr "Metric") in
        select_best metrics_df rest (best_models ++ [best])
      else select_best metrics_df rest best_models
  end.

Definition evaluate_model_metrics (y_test : list bool) (model_dict : ModelMap)
  (threshold : Q) : result pd.DataFrame :=
  let* metrics_dict :=
    evaluate_models y_test threshold model_dict metrics_dict_init in
  let* metrics_df := pd.of_dict metrics_dict in
  let* best_models := select_best metrics_df (map fst metrics_dict) [] in
  let* metrics_df := pd.set_index metrics_df (CStr "Metric") in
  let metrics_df := pd.T metrics_df in
  pd.setitem metrics_df (CStr "Best Model") best_models.

(** The rows of the returned table, and the order of a model's scores in its
    column. *)
Definition metric_names : list string :=
  ["AUC ROC"; "PR AUC"; "Precision"; "Recall"; "Specificity";
   "Average Precision"; "Brier Score"].

Definition scores_list (s : Scores) : list score :=
  [roc_auc s; pr_auc s; model_precision s; model_recall s;
   model_specificity s; avg_precision s; brier_score s].

(** ** The table as a function of the scores

    The definitions below restate, in closed form, what the loops build; the
    lemmas of the next part prove that [evaluate_model_metrics] computes
    exactly this. *)

(** [metrics_dict] after the models [names] have been appended with the
    scores [rows]. *)
Definition dict_rows (names : list string) (rows : list Scores)
  : list (string * list cell) :=
  [("Metric", map CStr names);
   ("AUC ROC", map (fun s => CNum (roc_auc s)) rows);
   ("PR AUC", map (fun s => CNum (pr_auc s)) rows);
   ("Precision", map (fun s => CNum (model_precision s)) rows);
   ("Recall", map (fun s => CNum (model_recall s)) rows);
   ("Specificity", map (fun s => CNum (model_specificity s)) rows);
   ("Average Precision", map (fun s => CNum (avg_precision s)) rows);
   ("Brier Score", map (fun s => CNum (brier_score s)) rows)].

(** The scores of every model, in insertion order, or the first exception. *)
Fixpoint all_scores (y_test : list bool) (threshold : Q) (items : ModelMap)
  : result (list Scores) :=
  match items with
  | [] => Ok []
  | (_, proba) :: rest =>
      let* s := compute_scores y_test proba threshold in
      let* ss := all_scores y_test threshold rest in
      Ok (s :: ss)
  end.

(** For each row of the table: which way is better, and the score it shows. *)
Definition selectors : list ((Q -> Q -> bool) * (Scores -> score)) :=
  [(higher, roc_auc); (higher, pr_auc); (higher, model_precision);
   (higher, model_recall); (higher, model_specificity);
   (higher, avg_precision); (lower, brier_score)].

(** The name at the first best position of a column of scores. *)
Definition best_of (better : Q -> Q -> bool) (names : list string)
  (col : list score) : result cell :=
  match col with
  | [] => Raise ValueError
  | _ :: _ =>
      match pd.nanarg better None 0%nat col with
      | Some i => Ok (CStr (nth i names ""))
      | None => Raise KeyError
      end
  end.

Fixpoint best_models_of (names : list string) (rows : list Scores)
  (sel : list ((Q -> Q -> bool) * (Scores -> score))) : result (list cell) :=
  match sel with
  | [] => Ok []
  | (better, f) :: rest =>
      let* b := best_of better names (map f rows) in
      let* bs := best_models_of names rows rest in
      Ok (b :: bs)
  end.

(** The column that the table shows for a model. *)
Definition column_of (name : string) (s : Scores) : cell * list cell :=
  (CStr name, map CNum (scores_list s)).

Definition final_table (names : list string) (rows : list Scores)
  (best_models : list cell) : result pd.DataFrame :=
  pd.setitem
    {| pd.index := map CStr metric_names;
       pd.cols := np.zip_with column_of names rows |}
    (CStr "Best Model") best_models.

(** ** The call on a heap of Python objects

    The arguments of a Python call are references.  To state that the call
    leaves its arguments alone, the function is written a second time over a
    heap: the label array, the model map and the probability arrays are
    objects of the heap, and [metrics_dict], [metrics_df], [best_models] and
    the transposed frame are objects that the call creates and mutates.  The
    library functions read their arguments and return new values. *)

Module Heap.

Abbreviation loc := positive.

Inductive object : Type :=
| OLabels (a : list bool)                      (* the array of labels *)
| OArray (a : list Q)                          (* an array of probabilities *)
| ODict (d : list (string * loc))              (* model_dict: name to array *)
| OListDict (d : list (string * list cell))    (* metrics_dict with its lists *)
| OList (l : list cell)                        (* best_models *)
| OFrame (df : pd.DataFrame).

Abbreviation heap := (gmap positive object).

(** A computation on the heap: a result or an exception, and the heap after. *)
Definition Py (A : Type) : Type := heap -> result A * heap.

Definition ret {A} (a : A) : Py A := fun h => (Ok a, h).

Definition lift {A} (r : result A) : Py A := fun h => (r, h).

Definition bind_py {A B} (c : Py A) (k : A -> Py B) : Py B :=
  fun h => match c h with
           | (Ok a, h') => k a h'
           | (Raise e, h') => (Raise e, h')
           end.

Notation "'let!' x := c 'in' k" := (bind_py c (fun x => k))
  (at level 10, x pattern, c at level 100, k at level 200).

(** A new object, at a location that the heap does not use. *)
Definition new (o : object) : Py loc :=
  fun h => let l := fresh (dom h) in (Ok l, <[l := o]> h).

Definition load (l : loc) : Py object :=
  fun h => match h !! l with
           | Some o => (Ok o, h)
           | None => (Raise TypeError, h)
           end.

(** In-place mutation of the object at [l]. *)
Definition store (l : loc) (o : object) : Py unit :=
  fun h => (Ok tt, <[l := o]> h).

Definition load_labels (l : loc) : Py (list bool) :=
  let! o := load l in
  match o with OLabels a => ret a | _ => lift (Raise TypeError) end.

Definition load_array (l : loc) : Py (list Q) :=
  let! o := load l in
  match o with OArray a => ret a | _ => lift (Raise TypeError) end.

Definition load_dict (l : loc) : Py (list (string * loc)) :=
  let! o := load l in
  match o with ODict d => ret d | _ => lift (Raise TypeError) end.

Definition load_listdict (l : loc) : Py (list (string * list cell)) :=
  let! o := load l in
  match o with OListDict d => ret d | _ => lift (Raise TypeError) end.

Definition load_list (l : loc) : Py (list cell) :=
  let! o := load l in
  match o with OList d => ret d | _ => lift (Raise TypeError) end.

Definition load_frame (l : loc) : Py pd.DataFrame :=
  let! o := load l in
  match o with OFrame d => ret d | _ => lift (Raise TypeError) end.

Fixpoint for_each {A} (l : list A) (body : A -> Py unit) : Py unit :=
  match l with
  | [] => ret tt
  | a :: t => let! _ := body a in for_each t body
  end.

(** The name of the best model of one metric row. *)
Definition best_model (metrics_df : pd.DataFrame) (metric : string) : result cell :=
  let* column := pd.getitem metrics_df (CStr metric) in
  let* label :=
    if String.eqb metric "Brier Score" then pd.idxmin column
    else pd.idxmax column in
  let* row := pd.loc metrics_df label in
  pd.series_getitem row (CStr "Metric").

Definition evaluate_model_metrics_py (y_test model_dict : loc) (threshold : Q)
  : Py loc :=
  let! metrics_dict := new (OListDict metrics_dict_init) in
  let! items := load_dict model_dict in
  let! _ :=
    for_each items
      (fun item =>
         let! y := load_labels y_test in
         let! proba := load_array (snd item) in
         let! s := lift (compute_scores y proba threshold) in
         let! d := load_listdict metrics_dict in
         store metrics_dict (OListDict (append_scores d (fst item) s))) in
  let! d := load_listdict metrics_dict in
  let! df := lift (pd.of_dict d) in
  let! metrics_df := new (OFrame df) in
  let! best_models := new (OList []) in
  let! _ :=
    for_each (map fst d)
      (fun metric =>
         if negb (String.eqb metric "Metric") then
           let! df := load_frame metrics_df in
           let! best := lift (best_model df metric) in
           let! l := load_list best_models in
           store best_models (OList (l ++ [best]))
         else ret tt) in
  (* metrics_df.set_index("Metric", inplace=True) *)
  let! df := load_frame metrics_df in
  let! df := lift (pd.set_index df (CStr "Metric")) in
  let! _ := store metrics_df (OFrame df) in
  (* metrics_df = metrics_df.T *)
  let! transposed := new (OFrame (pd.T df)) in
  (* metrics_df["Best Model"] = best_models *)
  let! df := load_frame transposed in
  let! l := load_list best_models in
  let! df := lift (pd.setitem df (CStr "Best Model") l) in
  let! _ := store transposed (OFrame df) in
  ret transposed.

(** The arguments as the heap holds them: the labels at [y_test], the model
    map at [model_dict], each of its values an array of probabilities. *)
Definition holds (h : heap) (y_test model_dict : loc)
  (y : list bool) (models : ModelMap) : Prop :=
  h !! y_test = Some (OLabels y)
  /\ exists refs,
       h !! model_dict = Some (ODict refs)
       /\ Forall2 (fun r m => fst r = fst m /\ h !! snd r = Some (OArray (snd m)))
            refs models.

(** The outcome of a run agrees with a result of the function on values:
    the same exception, or a reference to the same table. *)
Definition agrees (outcome : result loc * heap) (r : result pd.DataFrame) : Prop :=
  match fst outcome, r with
  | Ok l, Ok df => snd outcome !! l = Some (OFrame df)
  | Raise e, Raise e' => e = e'
  | _, _ => False
  end.

End Heap.

(** ** Predicates and examples of the statements *)

(** What the running best knows about the part of the column already read. *)
Definition best_so_far (R : Q -> Q -> Prop) (pre : list score)
  (best : option (nat * Q)) : Prop :=
  match best with
  | None => forall j x, nth_error pre j <> Some (Fin x)
  | Some (bi, bq) =>
      nth_error pre bi = Some (Fin bq)
      /\ (forall j x, nth_error pre j = Some (Fin x) -> ~ R x bq)
      /\ (forall j x, (j < bi)%nat -> nth_error pre j = Some (Fin x) -> R bq x)
  end.

Definition metrics_frame (names : list string) (rows : list Scores) : pd.DataFrame :=
  {| pd.index := map CInt (seq 0 (length names));
     pd.cols := map (fun kv => (CStr (fst kv), snd kv)) (dict_rows names rows) |}.

Definition no_scores : Scores := mkScores NaN NaN NaN NaN NaN NaN NaN.

Definition example_labels : list bool := [false; false; true; true].

Definition example_proba : list Q := [0.1; 0.4; 0.6; 0.9]%Q.

(** The value that the table shows for a model and a metric: [df[model][metric]]. *)
Definition table_value (df : pd.DataFrame) (model metric : string) : result cell :=
  let* column := pd.getitem df (CStr model) in
  pd.series_getitem column (CStr metric).

Definition shows (df : pd.DataFrame) (model metric : string) (v : Q) : Prop :=
  exists q, table_value df model metric = Ok (CNum (Fin q)) /\ (q == v)%Q.

(** No two labels of the list are equal as labels. *)
Fixpoint distinct_labels (l : list cell) : bool :=
  match l with
  | [] => true
  | c :: t => negb (py.contains c t) && distinct_labels t
  end.

Definition two_columns : pd.DataFrame :=
  {| pd.index := [CInt 0; CInt 1];
     pd.cols := [(CStr "a", [CInt 1; CInt 2]); (CStr "b", [CInt 3; CInt 4])] |}.

(** The column of a model holds its scores, unless the model itself is named
    "Best Model": that column is the one the last assignment overwrites. *)
Definition shows_scores (df : pd.DataFrame) (j : nat) (name : string)
  (s : Scores) : Prop :=
  name <> "Best Model" -> nth_error (pd.cols df) j = Some (column_of name s).

(** Consecutive elements are related. *)
Fixpoint chain {A} (R : A -> A -> Prop) (l : list A) : Prop :=
  match l with
  | x :: ((y :: _) as t) => R x y /\ chain R t
  | _ => True
  end.

Definition unit_interval (q : Q) : Prop := (0 <= q <= 1)%Q.

(** The number of labels satisfying [f] among the first [k + 1]. *)
Definition seen (f : bool -> bool) (ys : list bool) (k : nat) : Z :=
  sklearn.count f (firstn (S k) ys).

(** The positions at which the curve is sampled: increasing, inside the
    array, ending at its last position. *)
Definition sample_points (n : nat) (idxs : list nat) : Prop :=
  idxs <> [] /\ chain lt idxs /\ Forall (fun k => (k < n)%nat) idxs
  /\ List.last idxs 0%nat = (n - 1)%nat.

Definition ratio (total c : Z) : Q := (z2q c / z2q total)%Q.

Definition unit_score (x : score) : Prop :=
  exists q, x = Fin q /\ unit_interval q.

Definition unit_score_result (r : result score) : Prop :=
  exists q, r = Ok (Fin q) /\ unit_interval q.

Definition valid_proba (y_test : list bool) (proba : list Q) : Prop :=
  length proba = length y_test /\ Forall unit_interval proba.

Definition both_classes (y_test : list bool) : Prop :=
  In true y_test /\ In false y_test.

Definition valid_models (y_test : list bool) (model_dict : ModelMap) : Prop :=
  model_dict <> [] /\ Forall (fun item => valid_proba y_test (snd item)) model_dict.

Definition unit_scores (s : Scores) : Prop := Forall unit_score (scores_list s).

(** [k] is the first position of the highest number of the column: nothing in
    the column is above it, and everything before it is strictly below. *)
Definition first_highest (col : list score) (k : nat) : Prop :=
  exists q, nth_error col k = Some (Fin q)
    /\ (forall j x, nth_error col j = Some (Fin x) -> (x <= q)%Q)
    /\ (forall j x, (j < k)%nat -> nth_error col j = Some (Fin x) -> (x < q)%Q).

Definition first_lowest (col : list score) (k : nat) : Prop :=
  exists q, nth_error col k = Some (Fin q)
    /\ (forall j x, nth_error col j = Some (Fin x) -> (q <= x)%Q)
    /\ (forall j x, (j < k)%nat -> nth_error col j = Some (Fin x) -> (q < x)%Q).

(** The score of row [r] of the table. *)
Definition metric_score (r : nat) (s : Scores) : score := nth r (scores_list s) NaN.

(** [rows] are the scores of the models, in the order of the model map, and
    the table shows them. *)
Definition scores_in_table (y_test : list bool) (threshold : Q)
  (model_dict : ModelMap) (df : pd.DataFrame) (rows : list Scores) : Prop :=
  length rows = length model_dict
  /\ forall j name proba,
       nth_error model_dict j = Some (name, proba) ->
       exists s, nth_error rows j = Some s
                 /\ compute_scores y_test proba threshold = Ok s
                 /\ shows_scores df j name s.

Definition unit_cell (c : cell) : Prop :=
  exists q, c = CNum (Fin q) /\ unit_interval q.

Definition example_models : ModelMap :=
  [("A", example_proba); ("B", [0.1; 0.7; 0.6; 0.9]%Q)].

Definition empty_frame : pd.DataFrame := {| pd.index := []; pd.cols := [] |}.

Definition table_at (threshold : Q) : pd.DataFrame :=
  match evaluate_model_metrics example_labels example_models threshold with
  | Ok df => df
  | Raise _ => empty_frame
  end.

Definition example_table : pd.DataFrame := Eval vm_compute in table_at 0.5.



Definition example_scores : Scores :=
  Eval vm_compute in
    match compute_scores example_labels example_proba 0.5 with
    | Ok s => s
    | Raise _ => no_scores
    end.

Definition example_heap : gmap positive Heap.object :=
  <[3%positive := Heap.ODict [("A", 2%positive)]]>
    (<[2%positive := Heap.OArray example_proba]>
       (<[1%positive := Heap.OLabels example_labels]> ∅)).

(** The inputs of the examples in the libraries' documentation, and the
    comparison of a computed curve or score with the documented one. *)
Definition doc_labels : list bool := [false; false; true; true].
Definition doc_scores : list Q := [0.1; 0.4; 0.35; 0.8]%Q.

Fixpoint same_scores (a b : list score) : bool :=
  match a, b with
  | [], [] => true
  | x :: a', y :: b' => cell_eqb (CNum x) (CNum y) && same_scores a' b'
  | _, _ => false
  end.

Definition same_curve (r : result (list score * list score)) (x y : list Q) : bool :=
  match r with
  | Ok (a, b) => same_scores a (map Fin x) && same_scores b (map Fin y)
  | Raise _ => false
  end.

Definition same_score (r : result score) (v : Q) : bool :=
  match r with
  | Ok x => cell_eqb (CNum x) (CNum (Fin v))
  | Raise _ => false
  end.

(** ** Python dicts *)

Module dict.

(** [d[k] = v]: a key that is present keeps its place *)
Fixpoint setitem {V} (d : list (string * V)) (k : string) (v : V)
  : list (string * V) :=
  match d with
  | [] => [(k, v)]
  | (k', v') :: t => if String.eqb k k' then (k', v) :: t
                     else (k', v') :: setitem t k v
  end.

(** [d[k]]: KeyError when the key is absent *)
Fixpoint getitem {V} (d : list (string * V)) (k : string) : result V :=
  match d with
  | [] => Raise KeyError
  | (k', v) :: t => if String.eqb k k' then Ok v else getitem t k
  end.

End dict.

(** ** os.path *)

Module os.

Definition sep : string := "/".

(** [s.startswith(sep)] and [s.endswith(sep)] *)
Definition startswith_sep (s : string) : bool := String.prefix sep s.

Definition endswith_sep (s : string) : bool :=
  String.eqb (String.substring (String.length s - 1) 1 s) sep.

(** [os.path.join(a, b)] (posixpath): TypeError when an argument is [None];
    an absolute [b] replaces [a]; otherwise the two are joined by one
    separator, which is left out when [a] is empty or already ends with it. *)
Definition path_join (a b : option string) : result string :=
  match a, b with
  | Some a, Some b =>
      Ok (if startswith_sep b then b
          else if String.eqb a "" || endswith_sep a then String.append a b
          else String.append a (String.append sep b))
  | _, _ => Raise TypeError
  end.

End os.

(** ** scikit-learn (sklearn.calibration) *)

Module calibration.

(** [np.linspace(0.0, 1.0, n_bins + 1)] *)
Definition linspace (n_bins : nat) : list Q :=
  map (fun k => (z2q (Z.of_nat k) / z2q (Z.of_nat n_bins))%Q) (seq 0 (S n_bins)).

(** [np.searchsorted(a, v)] for an increasing [a]: the number of its elements
    strictly below [v]. *)
Definition searchsorted (a : list Q) (v : Q) : nat :=
  length (List.filter (fun e => Qltb e v) a).

(** [np.bincount(ids, weights, minlength)]: entry [k] is the sum of the
    weights of the positions whose id is [k]. *)
Definition bincount (ids : list nat) (weights : list Q) (minlength : nat)
  : list Q :=
  map (fun k =>
         fold_right Qplus 0%Q
           (map snd (List.filter (fun iw => (fst iw =? k)%nat) (combine ids weights))))
    (seq 0 (Nat.max minlength (S (list_max ids)))).

(** [calibration_curve(y_true, y_prob, n_bins=n_bins, strategy="uniform")]:
    for every bin of [0, 1] that holds a sample, the fraction of positives and
    the mean probability of its samples.  The number of bins is at least 1,
    the arrays have one length and are not empty, the probabilities are in
    [0, 1]: ValueError otherwise. *)
Definition calibration_curve (y_true : list bool) (y_prob : list Q) (n_bins : nat)
  : result (list Q * list Q) :=
  if (n_bins =? 0)%nat then Raise ValueError
  else
    let* _ := sklearn.check_consistent_length y_true y_prob in
    match y_prob with
    | [] => Raise ValueError
    | _ :: _ =>
        if existsb (fun p => Qltb p 0) y_prob || existsb (fun p => Qltb 1 p) y_prob
        then Raise ValueError
        else
          let bins := linspace n_bins in
          let binids := map (searchsorted (removelast (tl bins))) y_prob in
          let bin_sums := bincount binids y_prob (length bins) in
          let bin_true := bincount binids (map b2q y_true) (length bins) in
          let bin_total := bincount binids (map (fun _ => 1%Q) y_prob) (length bins) in
          let nonzero := map (fun t => negb (Qeq_bool t 0)) bin_total in
          let select (a : list Q) :=
            map fst (List.filter snd (combine a nonzero)) in
          Ok (np.zip_with Qdiv (select bin_true) (select bin_total),
              np.zip_with Qdiv (select bin_sums) (select bin_total))
    end.

End calibration.

(** ** matplotlib.pyplot

    A call of the plotting library is an event: what it draws or writes is
    outside the program.  The library answers each call, given the calls made
    before it, by returning or by raising. *)

Module plt.

Record line : Type := mkLine {
  xdata : list score;
  ydata : list score;
  fmt : option string;
  marker : option string;
  linestyle : option string;
  label : option string
}.

Inductive call : Type :=
| title (s : string)
| xlabel (s : string)
| ylabel (s : string)
| figure (figsize : Q * Q)
| plot (l : line)
| legend (loc : option string)
| savefig (fname : string)
| show.

Definition is_savefig (c : call) : bool :=
  match c with savefig _ => true | _ => false end.

Definition is_show (c : call) : bool :=
  match c with show => true | _ => false end.

Definition is_plot (c : call) : bool :=
  match c with plot _ => true | _ => false end.

End plt.

(** A computation that plots: a result or an exception, and the calls made. *)
Definition Plot (A : Type) : Type := list plt.call -> result A * list plt.call.

Definition plot_ret {A} (a : A) : Plot A := fun tr => (Ok a, tr).

Definition plot_lift {A} (r : result A) : Plot A := fun tr => (r, tr).

Definition plot_bind {A B} (c : Plot A) (k : A -> Plot B) : Plot B :=
  fun tr => match c tr with
            | (Ok a, tr') => k a tr'
            | (Raise e, tr') => (Raise e, tr')
            end.

Fixpoint plot_for {A} (l : list A) (body : A -> Plot unit) : Plot unit :=
  match l with
  | [] => plot_ret tt
  | a :: t => plot_bind (body a) (fun _ => plot_for t body)
  end.

(** ** functions.py: [plot_calibration_curves] *)

(** The dict comprehension of the Brier scores. *)
Fixpoint brier_scores_of (y_true : list bool) (items : ModelMap)
  (brier_scores : list (string * score)) : result (list (string * score)) :=
  match items with
  | [] => Ok brier_scores
  | (name, proba) :: rest =>
      let* b := sklearn.brier_score_loss y_true proba in
      brier_scores_of y_true rest (dict.setitem brier_scores name b)
  end.

Definition perfectly_calibrated : plt.line :=
  {| plt.xdata := [Fin 0; Fin 1]; plt.ydata := [Fin 0; Fin 1];
     plt.fmt := None; plt.marker := None; plt.linestyle := Some "--";
     plt.label := Some "Perfectly Calibrated" |}.

Section Plotting.

(** The answer of the plotting library to a call, after the calls [tr]. *)
Variable backend : list plt.call -> plt.call -> result unit.

(** [format(x, ".<digits>f")] of a float. *)
Variable format_fixed : nat -> score -> string.

Definition plt_call (c : plt.call) : Plot unit :=
  fun tr => (backend tr c, tr ++ [c]).

Local Notation "'let!' x := c 'in' k" := (plot_bind c (fun x => k))
  (at level 10, x pattern, c at level 100, k at level 200).

Definition calibration_label (name : string) (brier : score) : string :=
  String.append name
    (String.append " (Brier score: "
       (String.append (format_fixed 4 brier) ")")).

Definition plot_calibration_curves (y_true : list bool) (model_dict : ModelMap)
  (figsize : Q * Q) (n_bins : nat) (image_path img_string : option string)
  : Plot (list (string * score)) :=
  let! brier_scores := plot_lift (brier_scores_of y_true model_dict []) in
  let! _ := plt_call (plt.figure figsize) in
  let! _ :=
    plot_for model_dict
      (fun '(name, proba) =>
         let! (prob_true, prob_pred) :=
           plot_lift (calibration.calibration_curve y_true proba n_bins) in
         let! brier := plot_lift (dict.getitem brier_scores name) in
         plt_call
           (plt.plot
              {| plt.xdata := map Fin prob_pred; plt.ydata := map Fin prob_true;
                 plt.fmt := None; plt.marker := Some "o"; plt.linestyle := None;
                 plt.label := Some (calibration_label name brier) |})) in
  let! _ := plt_call (plt.plot perfectly_calibrated) in
  let! _ := plt_call (plt.ylabel "Fraction of Positives") in
  let! _ := plt_call (plt.xlabel "Mean Predicted Value") in
  let! _ := plt_call (plt.title "Calibration Plots (Reliability Curves)") in
  let! _ := plt_call (plt.legend None) in
  let! path := plot_lift (os.path_join image_path img_string) in
  let! _ := plt_call (plt.savefig path) in
  let! _ := plt_call plt.show in
  plot_ret brier_scores.

End Plotting.

(** ** pandas and numpy: what [plot_roc_curves_by_category] uses *)

Module series.

Definition number (c : cell) : option Q :=
  match c with
  | CInt n => Some (z2q (Z.of_nat n))
  | CNum (Fin q) => Some q
  | _ => None
  end.

(** [a == b] on scalars: numbers by value, strings by content; nan equals
    nothing. *)
Definition eq (a b : cell) : bool :=
  match a, b with
  | CStr s, CStr t => String.eqb s t
  | _, _ =>
      match number a, number b with
      | Some x, Some y => Qeq_bool x y
      | _, _ => false
      end
  end.

(** The values that [unique] keeps apart: nan is one value. *)
Definition same (a b : cell) : bool := eq a b || cell_eqb a b.

(** [s.unique()]: the values in order of first appearance *)
Fixpoint unique_from (seen vals : list cell) : list cell :=
  match vals with
  | [] => []
  | x :: t => if existsb (same x) seen then unique_from seen t
              else x :: unique_from (seen ++ [x]) t
  end.
Definition unique (vals : list cell) : list cell := unique_from [] vals.

(** [(s == v).values] *)
Definition eq_values (vals : list cell) (v : cell) : list bool :=
  map (fun c => eq c v) vals.

(** [a[mask]] for a boolean array of the length of [a]: the entries at which
    the mask holds. *)
Definition select {A} (a : list A) (mask : list bool) : list A :=
  map fst (List.filter snd (combine a mask)).

(** [k in d] and [d[k]] for a dict keyed by scalars *)
Definition contains {V} (d : list (cell * V)) (k : cell) : bool :=
  existsb (fun kv => eq k (fst kv)) d.

Fixpoint getitem {V} (d : list (cell * V)) (k : cell) : result V :=
  match d with
  | [] => Raise KeyError
  | (k', v) :: t => if eq k k' then Ok v else getitem t k
  end.

(** [s.value_counts()[label]] for a series of 0/1 labels: the number of
    entries equal to the label, KeyError when there is none. *)
Definition value_count (labels : list bool) (label : bool) : result Z :=
  let n := sklearn.count (Bool.eqb label) labels in
  if n =? 0 then Raise KeyError else Ok n.

End series.

(** [y_test]: the source selects its rows with a mask and then its column
    [outcome] ([y_test_filtered[outcome]]), so it is a frame; it holds the
    0/1 labels in one column. *)
Record LabelFrame : Type := mkLabelFrame {
  outcome_column : string;
  outcome_labels : list bool
}.

(** [y_test[mask]]: the rows at which the mask holds; ValueError when the mask
    does not have the length of the frame. *)
Definition frame_select (y_test : LabelFrame) (mask : list bool) : result LabelFrame :=
  if (length mask =? length (outcome_labels y_test))%nat then
    Ok {| outcome_column := outcome_column y_test;
          outcome_labels := series.select (outcome_labels y_test) mask |}
  else Raise ValueError.

(** [predictions[mask]]: IndexError when the lengths differ. *)
Definition array_select (predictions : list Q) (mask : list bool) : result (list Q) :=
  if (length mask =? length predictions)%nat then Ok (series.select predictions mask)
  else Raise IndexError.

(** [y[outcome]]: the column of that name. *)
Definition frame_getitem (y : LabelFrame) (outcome : string) : result (list bool) :=
  if String.eqb outcome (outcome_column y) then Ok (outcome_labels y)
  else Raise KeyError.

(** ** functions.py: [plot_roc_curves_by_category] *)

Definition chance_line : plt.line :=
  {| plt.xdata := [Fin 0; Fin 1]; plt.ydata := [Fin 0; Fin 1];
     plt.fmt := Some "r--"; plt.marker := None; plt.linestyle := None;
     plt.label := None |}.

Section PlottingByCategory.

Variable backend : list plt.call -> plt.call -> result unit.

(** [format(x, ".<digits>f")] of a float and [str(n)] of an integer. *)
Variable format_fixed : nat -> score -> string.
Variable str : Z -> string.

Local Notation "'let!' x := c 'in' k" := (plot_bind c (fun x => k))
  (at level 10, x pattern, c at level 100, k at level 200).

Definition category_label (description : string) (count h0 h1 : Z) (roc_auc : score)
  : string :=
  String.append description
    (String.append ", "
       (String.append "count = "
          (String.append (str count)
             (String.append ", "
                (String.append "$H_0$ = "
                   (String.append (str h0)
                      (String.append ", "
                         (String.append "$H_1$ = "
                            (String.append (str h1)
                               (String.append ", "
                                  (String.append "(AUC = "
                                     (String.append (format_fixed 2 roc_auc)
                                        ")")))))))))))).

(** The body of the loop over the categories. *)
Definition plot_category (feature_values : list cell) (y_test : LabelFrame)
  (predictions : list Q) (category_labels : list (cell * string))
  (outcome : string) (category : cell) : Plot unit :=
  if series.contains category_labels category then
    let category_filter := series.eq_values feature_values category in
    let! y_test_filtered := plot_lift (frame_select y_test category_filter) in
    let! predictions_filtered := plot_lift (array_select predictions category_filter) in
    let! (fpr, tpr) :=
      plot_lift (sklearn.roc_curve (outcome_labels y_test_filtered)
                   predictions_filtered) in
    let! roc_auc := plot_lift (sklearn.auc fpr tpr) in
    let! description := plot_lift (series.getitem category_labels category) in
    let count := Z.of_nat (length (outcome_labels y_test_filtered)) in
    let! column := plot_lift (frame_getitem y_test_filtered outcome) in
    let! h0 := plot_lift (series.value_count column false) in
    let! column := plot_lift (frame_getitem y_test_filtered outcome) in
    let! h1 := plot_lift (series.value_count column true) in
    plt_call backend
      (plt.plot
         {| plt.xdata := fpr; plt.ydata := tpr;
            plt.fmt := None; plt.marker := None; plt.linestyle := None;
            plt.label := Some (category_label description count h0 h1 roc_auc) |})
  else plot_ret tt.

Definition plot_roc_curves_by_category (X_test : pd.DataFrame)
  (y_test : LabelFrame) (predictions : list Q) (feature : string)
  (category_labels : list (cell * string)) (outcome title : string)
  (image_path img_string : option string) : Plot unit :=
  let! _ := plt_call backend (plt.title title) in
  let! _ := plt_call backend (plt.plot chance_line) in
  let! _ := plt_call backend (plt.xlabel "False Positive Rate") in
  let! _ := plt_call backend (plt.ylabel "True Positive Rate") in
  let! column := plot_lift (pd.getitem X_test (CStr feature)) in
  let categories := series.unique (pd.s_values column) in
  let! _ :=
    plot_for categories
      (plot_category (pd.s_values column) y_test predictions category_labels
         outcome) in
  let! _ := plt_call backend (plt.legend (Some "lower right")) in
  let! path := plot_lift (os.path_join image_path img_string) in
  let! _ := plt_call backend (plt.savefig path) in
  plt_call backend plt.show.

End PlottingByCategory.

(** ** Predicates and examples of the further properties *)


(** The columns of a frame other than the one labelled [name]. *)
Definition other_columns (name : string) (df : pd.DataFrame)
  : list (cell * list cell) :=
  List.filter (fun c => negb (cell_eqb (CStr name) (fst c))) (pd.cols df).

(** The table of a model map for the example labels. *)
Definition table_of (model_dict : ModelMap) (threshold : Q) : pd.DataFrame :=
  match evaluate_model_metrics example_labels model_dict threshold with
  | Ok df => df
  | Raise _ => empty_frame
  end.

Definition best_model_clash : ModelMap :=
  [("A", example_proba); ("Best Model", [0.1; 0.7; 0.6; 0.9]%Q)].


Definition twin_models : ModelMap :=
  [("A", example_proba); ("B", example_proba)].

Definition two_columns_moved : pd.DataFrame :=
  {| pd.index := [CInt 0; CInt 1];
     pd.cols := [(CStr "b", [CInt 3; CInt 4]); (CStr "a", [CInt 1; CInt 2])] |}.

(** The calls made leave the file system and the screen alone. *)
Definition draws_only (calls : list plt.call) : Prop :=
  Forall (fun c => plt.is_savefig c = false /\ plt.is_show c = false) calls.

(** [c] only appends calls that draw. *)
Definition quiet {A} (c : Plot A) : Prop :=
  forall tr, exists calls, snd (c tr) = tr ++ calls /\ draws_only calls.

(** [c] does not return a value. *)
Definition fails {A} (c : Plot A) : Prop :=
  forall tr, exists e, fst (c tr) = Raise e.



(** A plotting library that accepts every call, and a number format, for the
    examples. *)
Definition accepting : list plt.call -> plt.call -> result unit :=
  fun _ _ => Ok tt.

Definition no_digits : nat -> score -> string := fun _ _ => "?".

(** The example of the documentation of [calibration_curve]. *)
Definition doc_calibration_labels : list bool :=
  [false; false; false; false; true; true; true; true; true].
Definition doc_calibration_scores : list Q :=
  [0.1; 0.2; 0.3; 0.4; 0.65; 0.7; 0.8; 0.9; 1.0]%Q.

Definition same_numbers (a b : list Q) : bool :=
  same_scores (map Fin a) (map Fin b).

(** The sum of the weights that fall into bin [k]. *)
Definition bin_sum (ids : list nat) (weights : list Q) (k : nat) : Q :=
  fold_right Qplus 0%Q
    (map snd (List.filter (fun iw => (fst iw =? k)%nat) (combine ids weights))).

(** A plotted line with as many x as y values, all in [0, 1]. *)
Definition in_unit_square (l : plt.line) : Prop :=
  length (plt.xdata l) = length (plt.ydata l)
  /\ Forall unit_score (plt.xdata l) /\ Forall unit_score (plt.ydata l).

(** The call that plots the calibration curve of a model. *)
Definition calibration_line (n_bins : nat) (c : plt.call) : Prop :=
  exists l, c = plt.plot l /\ in_unit_square l
            /\ (length (plt.xdata l) <= n_bins)%nat /\ plt.marker l = Some "o".


(** The labels of the rows of a category, and the categories that have a
    descriptive label. *)
Definition category_rows (vals : list cell) (y_test : LabelFrame) (category : cell)
  : list bool :=
  series.select (outcome_labels y_test) (series.eq_values vals category).

Definition listed_categories (vals : list cell) (category_labels : list (cell * string))
  : list cell :=
  List.filter (series.contains category_labels) (series.unique vals).

Definition example_features : pd.DataFrame :=
  {| pd.index := [CInt 0; CInt 1; CInt 2; CInt 3; CInt 4; CInt 5];
     pd.cols := [(CStr "sex", [CInt 1; CInt 2; CInt 1; CInt 2; CInt 1; CInt 3])] |}.

Definition example_series (feature : string) : pd.Series :=
  match pd.getitem example_features (CStr feature) with
  | Ok column => column
  | Raise _ => {| pd.s_index := []; pd.s_values := [] |}
  end.

Definition example_outcomes : LabelFrame :=
  {| outcome_column := "outcome";
     outcome_labels := [false; false; true; true; true; false] |}.

Definition example_predictions : list Q := [0.2; 0.3; 0.8; 0.6; 0.4; 0.5]%Q.

Definition example_category_labels : list (cell * string) :=
  [(CInt 1, "Male"); (CInt 2, "Female")].

Definition no_str : Z -> string := fun _ => "?".


(** ** [evaluate_model_metrics] over the metrics of one model

    The function once more, with the first half of the loop body (the calls
    of scikit-learn and numpy that compute the seven scores of one model) as
    a parameter [metrics]: what the function does with the scores, whatever
    their values are.  [evaluate_model_metrics] is the instance at
    [compute_scores]. *)

Section Metrics.

Variable metrics : list bool -> list Q -> Q -> result Scores.

Fixpoint evaluate_models_with (y_test : list bool) (threshold : Q)
  (items : ModelMap) (metrics_dict : list (string * list cell))
  : result (list (string * list cell)) :=
  match items with
  | [] => Ok metrics_dict
  | (name, proba) :: rest =>
      let* s := metrics y_test proba threshold in
      evaluate_models_with y_test threshold rest
        (append_scores metrics_dict name s)
  end.

Definition evaluate_model_metrics_with (y_test : list bool)
  (model_dict : ModelMap) (threshold : Q) : result pd.DataFrame :=
  let* metrics_dict :=
    evaluate_models_with y_test threshold model_dict metrics_dict_init in
  let* metrics_df := pd.of_dict metrics_dict in
  let* best_models := select_best metrics_df (map fst metrics_dict) [] in
  let* metrics_df := pd.set_index metrics_df (CStr "Metric") in
  let metrics_df := pd.T metrics_df in
  pd.setitem metrics_df (CStr "Best Model") best_models.

(** The scores of every model, in insertion order, or the first exception. *)
Fixpoint all_scores_with (y_test : list bool) (threshold : Q) (items : ModelMap)
  : result (list Scores) :=
  match items with
  | [] => Ok []
  | (_, proba) :: rest =>
      let* s := metrics y_test proba threshold in
      let* ss := all_scores_with y_test threshold rest in
      Ok (s :: ss)
  end.

(** [rows] are the scores of the models, in the order of the model map, and
    the table shows them. *)
Definition scores_in_table_with (y_test : list bool) (threshold : Q)
  (model_dict : ModelMap) (df : pd.DataFrame) (rows : list Scores) : Prop :=
  length rows = length model_dict
  /\ forall j name proba,
       nth_error model_dict j = Some (name, proba) ->
       exists s, nth_error rows j = Some s
                 /\ metrics y_test proba threshold = Ok s
                 /\ shows_scores df j name s.

End Metrics.

(** ** Floating point

    A float operation returns the exact result rounded.  The functions of
    numpy and scikit-learn are written a second time with a rounding [rnd]
    after every operation on floats, in the order in which the libraries
    carry the operations out; sorting, counting and comparing are exact and
    shared with the versions above.  A count enters a float operation as it
    is: an array holds fewer than 2^53 elements, and the integers up to 2^53
    are floats.  [rnd] is a parameter: the identity gives exact arithmetic,
    [binary64.round] the doubles of Python and numpy. *)

Module fl.

Section Rounded.

Variable rnd : Q -> Q.

Definition add (x y : Q) : Q := rnd (x + y).
Definition sub (x y : Q) : Q := rnd (x - y).
Definition mul (x y : Q) : Q := rnd (x * y).
Definition div (x y : Q) : Q := rnd (x / y).

Definition s_add := s_lift2 add.
Definition s_sub := s_lift2 sub.
Definition s_mul := s_lift2 mul.
Definition s_div := s_lift2 div.

(** [-a]: the sign is flipped, nothing is rounded *)
Definition s_neg (a : score) : score :=
  match a with Fin x => Fin (- x) | NaN => NaN end.

(** *** numpy *)

(** The loop of [pairwise_sum] over whole blocks of 8: accumulator [j] adds
    the elements at the positions [j] modulo 8. *)
Fixpoint add_blocks (k : nat) (r a : list score) : list score * list score :=
  match k with
  | O => (r, a)
  | S k' => add_blocks k' (np.zip_with s_add r (firstn 8 a)) (skipn 8 a)
  end.

(** An array of 8 to 128 elements: 8 accumulators over the whole blocks,
    added pairwise, then the elements left over one by one. *)
Definition block_sum (a : list score) : score :=
  match add_blocks (length a / 8 - 1) (firstn 8 a) (skipn 8 a) with
  | ([r0; r1; r2; r3; r4; r5; r6; r7], rest) =>
      fold_left s_add rest
        (s_add (s_add (s_add r0 r1) (s_add r2 r3))
               (s_add (s_add r4 r5) (s_add r6 r7)))
  | _ => NaN
  end.

(** [pairwise_sum], the summation of [np.add.reduce] over a contiguous array
    of floats: fewer than 8 elements are added from left to right, up to 128
    with 8 accumulators, a longer array is cut in two near the middle, at a
    multiple of 8.  [fuel] bounds the depth of the cuts. *)
Fixpoint pairwise_sum (fuel : nat) (a : list score) : score :=
  let n := length a in
  if (n <? 8)%nat then fold_left s_add a (Fin 0)
  else
    match fuel with
    | O => block_sum a
    | S fuel' =>
        if (n <=? 128)%nat then block_sum a
        else
          let n2 := (n / 2 - (n / 2) mod 8)%nat in
          s_add (pairwise_sum fuel' (firstn n2 a))
                (pairwise_sum fuel' (skipn n2 a))
    end.

(** [np.sum(a)], [a.sum()]: the sum is added to the initial value 0 of the
    reduction.  A cut leaves two shorter arrays, so that the length of the
    array is fuel enough. *)
Definition sum (a : list score) : score :=
  s_add (Fin 0) (pairwise_sum (length a) a).

(** [np.trapz(y, x)]: sum(diff(x) * (y[1:] + y[:-1]) / 2.0) *)
Definition trapz (y x : list score) : score :=
  sum (np.zip_with (fun d s => s_div (s_mul d s) (Fin 2))
         (np.diff s_sub x) (np.zip_with s_add (tl y) (removelast y))).

(** The division of two integer counts as floats; 0/0 is nan. *)
Definition true_divide (a b : Z) : score :=
  if b =? 0 then NaN else Fin (div (z2q a) (z2q b)).

(** *** scikit-learn *)

(** [counts / counts[-1]], or nan everywhere when the last count is not
    positive. *)
Definition rate (counts : list Z) : list score :=
  let total := List.last counts 0 in
  if total <=? 0 then repeat NaN (length counts)
  else map (fun c => Fin (div (z2q c) (z2q total))) counts.

Definition roc_curve (y_true : list bool) (y_score : list Q)
  : result (list score * list score) :=
  let* (fps, tps) := sklearn.binary_clf_curve y_true y_score in
  let '(fps, tps) :=
    if (2 <? length fps)%nat then
      let optimal_idxs :=
        np.where_true
          (true :: np.zip_with orb
                     (sklearn.nonzero (np.diff Z.sub (np.diff Z.sub fps)))
                     (sklearn.nonzero (np.diff Z.sub (np.diff Z.sub tps)))
                ++ [true]) in
      (np.take 0 fps optimal_idxs, np.take 0 tps optimal_idxs)
    else (fps, tps) in
  let tps := 0 :: tps in
  let fps := 0 :: fps in
  Ok (rate fps, rate tps).

Definition precision_recall_curve (y_true : list bool) (probas_pred : list Q)
  : result (list score * list score) :=
  let* (fps, tps) := sklearn.binary_clf_curve y_true probas_pred in
  let ps := np.zip_with Z.add tps fps in
  let precision :=
    np.zip_with (fun t p => if p =? 0 then 0%Q else div (z2q t) (z2q p)) tps ps in
  let recall :=
    let total := List.last tps 0 in
    if total =? 0 then map (fun _ => 1%Q) tps
    else map (fun t => div (z2q t) (z2q total)) tps in
  Ok (map Fin (rev precision ++ [1%Q]), map Fin (rev recall ++ [0%Q])).

Definition auc (x y : list score) : result score :=
  let* _ := sklearn.check_consistent_length x y in
  if (length x <? 2)%nat then Raise ValueError
  else
    let dx := np.diff s_sub x in
    let* direction :=
      if existsb (fun d => s_ltb d (Fin 0)) dx then
        if forallb (fun d => s_leb d (Fin 0)) dx then Ok (-1)%Q
        else Raise ValueError
      else Ok 1%Q in
    Ok (s_mul (Fin direction) (trapz y x)).

Definition average_precision_score (y_true : list bool) (y_score : list Q)
  : result score :=
  let* (precision, recall) := precision_recall_curve y_true y_score in
  Ok (s_neg (sum (np.zip_with s_mul (np.diff s_sub recall)
                    (removelast precision)))).

(** [np.average((y_true - y_proba) ** 2)]: the sum over the count *)
Definition brier_score_loss (y_true : list bool) (y_proba : list Q)
  : result score :=
  let* _ := sklearn.check_consistent_length y_true y_proba in
  match y_proba with
  | [] => Raise ValueError
  | _ :: _ =>
      if existsb (fun p => Qltb 1 p) y_proba then Raise ValueError
      else if existsb (fun p => Qltb p 0) y_proba then Raise ValueError
      else
        let sq := np.zip_with (fun y p => mul (sub (b2q y) p) (sub (b2q y) p))
                    y_true y_proba in
        Ok (s_div (sum (map Fin sq)) (Fin (z2q (Z.of_nat (length sq)))))
  end.

Definition precision_score (y_true y_pred : list bool) : result score :=
  let* _ := sklearn.check_consistent_length y_true y_pred in
  let tp_sum := sklearn.count (fun '(t, p) => t && p) (combine y_true y_pred) in
  let pred_sum := sklearn.count (fun p => p) y_pred in
  Ok (Fin (if pred_sum =? 0 then 0%Q else div (z2q tp_sum) (z2q pred_sum))).

Definition recall_score (y_true y_pred : list bool) : result score :=
  let* _ := sklearn.check_consistent_length y_true y_pred in
  let tp_sum := sklearn.count (fun '(t, p) => t && p) (combine y_true y_pred) in
  let true_sum := sklearn.count (fun t => t) y_true in
  Ok (Fin (if true_sum =? 0 then 0%Q else div (z2q tp_sum) (z2q true_sum))).

(** *** functions.py *)

(** The first half of the loop body of [evaluate_model_metrics]. *)
Definition compute_scores (y_test : list bool) (proba : list Q) (threshold : Q)
  : result Scores :=
  let* (fpr, tpr) := roc_curve y_test proba in
  let* roc_auc := auc fpr tpr in
  let* (precision, recall) := precision_recall_curve y_test proba in
  let* pr_auc := auc recall precision in
  let predicted_labels := np.where_gt proba threshold in
  let* model_precision := precision_score y_test predicted_labels in
  let* model_recall := recall_score y_test predicted_labels in
  let* cm := sklearn.confusion_matrix y_test predicted_labels in
  (* tn, fp, _, _ = cm.ravel() *)
  match concat cm with
  | [tn; fp; _; _] =>
      let model_specificity := true_divide tn (tn + fp) in
      let* avg_precision := average_precision_score y_test proba in
      let* brier_score := brier_score_loss y_test proba in
      Ok (mkScores roc_auc pr_auc model_precision model_recall
            model_specificity avg_precision brier_score)
  | _ => Raise ValueError
  end.

Definition evaluate_model_metrics (y_test : list bool) (model_dict : ModelMap)
  (threshold : Q) : result pd.DataFrame :=
  evaluate_model_metrics_with compute_scores y_test model_dict threshold.

End Rounded.

End fl.

(** ** IEEE 754 binary64: the nearest double *)

Module binary64.

(** The exponent of a positive rational: the [e] with 2^e <= q < 2^(e+1). *)
Definition ilog2 (q : Q) : Z :=
  let k := Z.log2 (Qnum q) - Z.log2 (Zpos (Qden q)) in
  if Qle_bool (2 ^ k) q then k else k - 1.

(** The nearest integer, the even one of two that are equally near. *)
Definition rne (q : Q) : Z :=
  let f := Qfloor q in
  match (q - inject_Z f ?= 1 # 2)%Q with
  | Lt => f
  | Gt => f + 1
  | Eq => if Z.even f then f else f + 1
  end.

(** The nearest double of a positive rational: 53 significant bits, and the
    fixed spacing 2^-1074 below 2^-1022 (subnormal numbers).  Overflow to inf
    is left out: the numbers rounded below are at most the number of
    samples. *)
Definition nearest (q : Q) : Q :=
  let s := 52 - Z.max (ilog2 q) (-1022) in
  Qred (inject_Z (rne (q * 2 ^ s)) * 2 ^ (- s)).

Definition round (q : Q) : Q :=
  match Qnum q with
  | Z0 => 0%Q
  | Zpos _ => nearest q
  | Zneg _ => (- nearest (- q))%Q
  end.

End binary64.

(** ** Examples in doubles *)

(** The probabilities of the worked example as Python reads them. *)
Definition example_doubles : list Q := map binary64.round example_proba.

(** One negative label with the lowest probability and nine positive ones,
    under two models that both separate them. *)
Definition separated_labels : list bool :=
  [false; true; true; true; true; true; true; true; true; true].

Definition separated_models : ModelMap :=
  [("A", map binary64.round
           [0.05; 0.5; 0.5; 0.5; 0.5; 0.5; 0.5; 0.5; 0.5; 0.5]%Q);
   ("B", map binary64.round
           [0.05; 0.2; 0.2; 0.2; 0.2; 0.2; 0.2; 0.3; 0.4; 0.5]%Q)].

(** The doubles of 1/3, 1/4, ..., [n] of them. *)
Definition harmonic_doubles (n : nat) : list score :=
  map (fun i => Fin (binary64.round (1 # Pos.of_nat (i + 3)))) (seq 0 n).

(** One positive label with the highest probability and 52 negative ones,
    tied in groups of 5, 2, 3, 4, 1, 2 and 35. *)
Definition tied_labels : list bool := true :: repeat false 52.

Definition tied_probabilities : list Q :=
  map binary64.round
    (0.9 :: repeat 0.7 5 ++ repeat 0.65 2 ++ repeat 0.6 3 ++ repeat 0.55 4
         ++ repeat 0.5 1 ++ repeat 0.45 2 ++ repeat 0.4 35)%Q.

Definition table_or_empty (r : result pd.DataFrame) : pd.DataFrame :=
  match r with
  | Ok df => df
  | Raise _ => empty_frame
  end.

Definition example_table_doubles : pd.DataFrame :=
  Eval vm_compute in
    table_or_empty
      (fl.evaluate_model_metrics binary64.round example_labels
         [("M", example_doubles)] 0.5).

Definition separated_table : pd.DataFrame :=
  Eval vm_compute in
    table_or_empty
      (fl.evaluate_model_metrics binary64.round separated_labels
         separated_models 0.5).

(** ** Roundings and the bounds that they keep *)

(** What the statements ask of a rounding: it keeps the order, and it leaves
    the integers up to 2^53 as they are. *)
Definition rounding (rnd : Q -> Q) : Prop :=
  (forall x y, (x <= y)%Q -> (rnd x <= rnd y)%Q)
  /\ (forall k, Z.abs k <= 2 ^ 53 -> (rnd (inject_Z k) == inject_Z k)%Q).

Definition nonneg_score (x : score) : Prop :=
  exists q, x = Fin q /\ (0 <= q)%Q.

Definition nonpos_score (x : score) : Prop :=
  exists q, x = Fin q /\ (q <= 0)%Q.

(** A number between 0 and [m], when [m] is at most 2^53. *)
Definition counted_score (m : nat) (x : score) : Prop :=
  Z.of_nat m <= 2 ^ 53 ->
  exists q, x = Fin q /\ (0 <= q <= inject_Z (Z.of_nat m))%Q.

(** The bounds of the scores under a rounding: the three areas are numbers
    that are not negative, the four other scores are numbers in [0, 1]. *)
Definition rounded_bounds (s : Scores) : Prop :=
  nonneg_score (roc_auc s) /\ nonneg_score (pr_auc s)
  /\ unit_score (model_precision s) /\ unit_score (model_recall s)
  /\ unit_score (model_specificity s)
  /\ nonneg_score (avg_precision s) /\ unit_score (brier_score s).

(** * Properties *)

(** ** The result monad *)

Lemma bind_ok {A B} (c : result A) (k : A -> result B) (b : B) :
  bind c k = Ok b -> exists a, c = Ok a /\ k a = Ok b.
Proof. destruct c as [a|e]; simpl; [eauto | discriminate]. Qed.

Lemma Ok_inj {A} (a b : A) : Ok a = Ok b -> a = b.
Proof. congruence. Qed.

Lemma Some_inj {A} (a b : A) : Some a = Some b -> a = b.
Proof. congruence. Qed.

Ltac inv_bind H :=
  let a := fresh "a" in
  let Ha := fresh "Ha" in
  apply bind_ok in H; destruct H as (a & Ha & H).

(** ** The loop over the models *)

Lemma append_scores_rows names rows name s :
  append_scores (dict_rows names rows) name s
  = dict_rows (names ++ [name]) (rows ++ [s]).
Proof.
  unfold append_scores, dict_rows, dict_append. simpl.
  rewrite !map_app. reflexivity.
Qed.

Lemma evaluate_models_rows y_test threshold items : forall names rows,
  evaluate_models y_test threshold items (dict_rows names rows)
  = let* ss := all_scores y_test threshold items in
    Ok (dict_rows (names ++ map fst items) (rows ++ ss)).
Proof.
  induction items as [|[name proba] rest IH]; intros names rows; simpl.
  - rewrite !app_nil_r. reflexivity.
  - destruct (compute_scores y_test proba threshold) as [s|e]; simpl; [|reflexivity].
    rewrite append_scores_rows, IH.
    destruct (all_scores y_test threshold rest) as [ss|e]; simpl; [|reflexivity].
    rewrite <- !app_assoc. reflexivity.
Qed.

Lemma all_scores_length y_test threshold items : forall ss,
  all_scores y_test threshold items = Ok ss -> length ss = length items.
Proof.
  induction items as [|[name proba] rest IH]; intros ss H; simpl in H.
  - injection H as <-. reflexivity.
  - inv_bind H. inv_bind H. injection H as <-. simpl. f_equal. eauto.
Qed.

Lemma all_scores_nth y_test threshold items : forall ss,
  all_scores y_test threshold items = Ok ss ->
  forall j name proba, nth_error items j = Some (name, proba) ->
  exists s, nth_error ss j = Some s
            /\ compute_scores y_test proba threshold = Ok s.
Proof.
  induction items as [|[n p] rest IH]; intros ss H j name proba Hj.
  - destruct j; discriminate.
  - simpl in H. inv_bind H. inv_bind H. injection H as <-.
    destruct j as [|j]; simpl in *.
    + injection Hj as <- <-. eauto.
    + eauto.
Qed.

(** ** The first best position *)

Section NanArg.

Variable better : Q -> Q -> bool.
(** [R q b]: [q] is strictly better than [b]. *)
Variable R : Q -> Q -> Prop.
Hypothesis better_spec : forall q b, better q b = true <-> R q b.
Hypothesis R_irrefl : forall q, ~ R q q.
Hypothesis R_asym : forall q b, R q b -> ~ R b q.
Hypothesis R_carry : forall q b x, R q b -> ~ R x b -> R q x.

Lemma nth_error_snoc {A} (pre : list A) (a : A) j x :
  nth_error (pre ++ [a]) j = Some x ->
  nth_error pre j = Some x \/ (j = length pre /\ x = a).
Proof.
  intros H. destruct (Nat.lt_ge_cases j (length pre)) as [Hlt|Hge].
  - rewrite nth_error_app1 in H by exact Hlt. auto.
  - rewrite nth_error_app2 in H by exact Hge.
    destruct (j - length pre)%nat as [|m] eqn:E; simpl in H.
    + injection H as <-. right. split; [lia | reflexivity].
    + destruct m; discriminate.
Qed.

Lemma nanarg_spec l : forall pre best,
  best_so_far R pre best ->
  best_so_far R (pre ++ l)
    (match pd.nanarg better best (length pre) l with
     | Some k => match nth k (pre ++ l) NaN with
                 | Fin q => Some (k, q)
                 | NaN => Some (k, 0%Q)
                 end
     | None => None
     end)
  /\ (pd.nanarg better best (length pre) l = None -> best = None).
Proof.
  induction l as [|[q|] l IH]; intros pre best Hb; simpl.
  - rewrite app_nil_r. destruct best as [[bi bq]|]; simpl.
    + split; [|discriminate]. destruct Hb as (H1 & H2 & H3).
      rewrite (nth_error_nth _ _ _ H1). simpl. auto.
    + split; auto.
  - assert (Hlen : length (pre ++ [Fin q]) = S (length pre))
      by (rewrite length_app; simpl; lia).
    assert (Hstep : forall best',
      best_so_far R (pre ++ [Fin q]) best' ->
      best_so_far R (pre ++ Fin q :: l)
        (match pd.nanarg better best' (S (length pre)) l with
         | Some k => match nth k (pre ++ Fin q :: l) NaN with
                     | Fin q0 => Some (k, q0)
                     | NaN => Some (k, 0%Q)
                     end
         | None => None
         end)
      /\ (pd.nanarg better best' (S (length pre)) l = None -> best' = None)).
    { intros best' Hb'. specialize (IH (pre ++ [Fin q]) best' Hb').
      rewrite Hlen, <- app_assoc in IH. exact IH. }
    assert (Hnew : best_so_far R (pre ++ [Fin q]) (Some (length pre, q)) ->
      best_so_far R (pre ++ Fin q :: l)
        (match pd.nanarg better (Some (length pre, q)) (S (length pre)) l with
         | Some k => match nth k (pre ++ Fin q :: l) NaN with
                     | Fin q0 => Some (k, q0)
                     | NaN => Some (k, 0%Q)
                     end
         | None => None
         end)
      /\ (pd.nanarg better (Some (length pre, q)) (S (length pre)) l = None ->
          best = None)).
    { intros Hb'. destruct (Hstep _ Hb') as [H1 H2]. split; [exact H1|].
      intros E. apply H2 in E. discriminate. }
    destruct best as [[bi bq]|].
    + destruct Hb as (H1 & H2 & H3).
      destruct (better q bq) eqn:E.
      * apply better_spec in E. apply Hnew. simpl. repeat split.
        -- rewrite nth_error_app2 by lia. rewrite Nat.sub_diag. reflexivity.
        -- intros j x Hj. apply nth_error_snoc in Hj.
           destruct Hj as [Hj|[_ Hj]].
           ++ apply R_asym. eapply R_carry; eauto.
           ++ injection Hj as ->. apply R_irrefl.
        -- intros j x Hlt Hj. rewrite nth_error_app1 in Hj by exact Hlt.
           eapply R_carry; eauto.
      * destruct (Hstep (Some (bi, bq))) as [G1 G2].
        { simpl. repeat split.
          - rewrite nth_error_app1; [exact H1|].
            apply nth_error_Some. congruence.
          - intros j x Hj. apply nth_error_snoc in Hj.
            destruct Hj as [Hj|[_ Hj]]; [eauto|].
            injection Hj as ->. intros HR. apply better_spec in HR. congruence.
          - intros j x Hlt Hj.
            assert (bi < length pre)%nat by (apply nth_error_Some; congruence).
            rewrite nth_error_app1 in Hj by lia. eauto. }
        split; [exact G1|]. intros E'. apply G2 in E'. discriminate.
    + apply Hnew. simpl. repeat split.
      * rewrite nth_error_app2 by lia. rewrite Nat.sub_diag. reflexivity.
      * intros j x Hj. apply nth_error_snoc in Hj.
        destruct Hj as [Hj|[_ Hj]]; [exfalso; eapply Hb; eauto|].
        injection Hj as ->. apply R_irrefl.
      * intros j x Hlt Hj. rewrite nth_error_app1 in Hj by exact Hlt.
        exfalso; eapply Hb; eauto.
  - assert (Hlen : length (pre ++ [NaN]) = S (length pre))
      by (rewrite length_app; simpl; lia).
    specialize (IH (pre ++ [NaN]) best).
    rewrite Hlen, <- app_assoc in IH. apply IH.
    destruct best as [[bi bq]|]; simpl in *.
    + destruct Hb as (H1 & H2 & H3). repeat split.
      * rewrite nth_error_app1; [exact H1|]. apply nth_error_Some. congruence.
      * intros j x Hj. apply nth_error_snoc in Hj.
        destruct Hj as [Hj|[_ Hj]]; [eauto|discriminate].
      * intros j x Hlt Hj.
        assert (bi < length pre)%nat by (apply nth_error_Some; congruence).
        rewrite nth_error_app1 in Hj by lia. eauto.
    + intros j x Hj. apply nth_error_snoc in Hj.
      destruct Hj as [Hj|[_ Hj]]; [eapply Hb; eauto|discriminate].
Qed.

(** The position chosen in a column: it holds a number, no number of the
    column is strictly better, and every number before it is strictly worse. *)
Lemma nanarg_first_best (col : list score) (k : nat) :
  pd.nanarg better None 0%nat col = Some k ->
  exists q, nth_error col k = Some (Fin q)
    /\ (forall j x, nth_error col j = Some (Fin x) -> ~ R x q)
    /\ (forall j x, (j < k)%nat -> nth_error col j = Some (Fin x) -> R q x).
Proof.
  intros H. destruct (nanarg_spec col [] None) as [G _].
  { intros j x Hj. destruct j; discriminate. }
  simpl in G. rewrite H in G.
  destruct (nth k col NaN) as [q|] eqn:E; simpl in G.
  - exists q. exact G.
  - destruct G as (G1 & _). exists 0%Q.
    rewrite (nth_error_nth _ _ NaN G1) in E. discriminate.
Qed.

End NanArg.

(** ** Best-model selection on the frame built from [metrics_dict] *)

Lemma of_dict_rows names rows :
  length names = length rows ->
  pd.of_dict (dict_rows names rows) = Ok (metrics_frame names rows).
Proof.
  intros H. unfold pd.of_dict, metrics_frame. simpl.
  rewrite !length_map, <- H, Nat.eqb_refl. reflexivity.
Qed.

Lemma numeric_scores {A} (f : A -> score) (rows : list A) :
  pd.numeric (map (fun s => CNum (f s)) rows) = Ok (map f rows).
Proof.
  induction rows as [|s rows IH]; simpl; [reflexivity|].
  rewrite IH. reflexivity.
Qed.

Lemma nanarg_range better l : forall best i k,
  pd.nanarg better best i l = Some k ->
  (i <= k < i + length l)%nat \/ (exists q, best = Some (k, q)).
Proof.
  induction l as [|[q|] l IH]; intros best i k H; simpl in H.
  - destruct best as [[bi bq]|]; [|discriminate].
    injection H as <-. eauto.
  - destruct best as [[bi bq]|].
    + destruct (better q bq).
      * apply IH in H. destruct H as [H|[q' H]]; simpl.
        -- left; lia.
        -- injection H as <- <-. left; lia.
      * apply IH in H. destruct H as [H|[q' H]]; simpl; [left; lia|eauto].
    + apply IH in H. destruct H as [H|[q' H]]; simpl.
      * left; lia.
      * injection H as <- <-. left; lia.
  - apply IH in H. destruct H as [H|H]; simpl; [left; lia|auto].
Qed.

Lemma nanarg_lt better l k :
  pd.nanarg better None 0%nat l = Some k -> (k < length l)%nat.
Proof.
  intros H. apply nanarg_range in H. destruct H as [H|[q H]]; [lia|discriminate].
Qed.

Lemma position_range n : forall i k,
  (k < n)%nat -> pd.position (CInt (i + k)) (map CInt (seq i n)) = Some k.
Proof.
  induction n as [|n IH]; intros i k Hk; [lia|]. simpl.
  destruct k as [|k].
  - rewrite Nat.add_0_r, Nat.eqb_refl. reflexivity.
  - destruct (Nat.eqb_spec (i + S k) i); [lia|].
    replace (i + S k)%nat with (S i + k)%nat by lia.
    rewrite IH by lia. reflexivity.
Qed.

Lemma position_nan n : forall i,
  pd.position (CNum NaN) (map CInt (seq i n)) = None.
Proof.
  induction n as [|n IH]; intros i; simpl; [reflexivity|].
  rewrite IH. reflexivity.
Qed.

(** Reading the best label of a column, then its row, then the model name of
    that row. *)
Lemma pick_best {B} names rows better (f : Scores -> score)
  (k : cell -> result B) :
  length names = length rows ->
  (let* label :=
     pd.idx_best better
       {| pd.s_index := map CInt (seq 0 (length names));
          pd.s_values := map (fun s => CNum (f s)) rows |} in
   let* row := pd.loc (metrics_frame names rows) label in
   let* best := pd.series_getitem row (CStr "Metric") in
   k best)
  = let* b := best_of better names (map f rows) in k b.
Proof.
  intros Hlen. unfold pd.idx_best, best_of. cbn [pd.s_values pd.s_index].
  rewrite numeric_scores. cbn [bind].
  assert (Hcol : length (map f rows) = length names)
    by (rewrite length_map; congruence).
  destruct rows as [|s0 rows']; [reflexivity|].
  cbn [map] in *. remember (f s0 :: map f rows') as col eqn:Ecol.
  destruct (pd.nanarg better None 0%nat col) as [i|] eqn:E.
  - assert (Hi : (i < length names)%nat).
    { apply nanarg_lt in E. lia. }
    replace (nth i (map CInt (seq 0 (length names))) (CNum NaN)) with (CInt i).
    2:{ rewrite (nth_indep _ _ (CInt 0)) by (rewrite length_map, length_seq; exact Hi).
        rewrite map_nth, seq_nth by exact Hi. reflexivity. }
    cbn [bind]. unfold pd.loc. cbn [pd.index metrics_frame].
    pose proof (position_range (length names) 0 i Hi) as P.
    rewrite Nat.add_0_l in P. rewrite P. cbn [bind].
    unfold pd.series_getitem, pd.columns, metrics_frame, dict_rows.
    cbn [pd.s_index pd.s_values pd.columns pd.cols dict_rows map fst snd
         pd.position cell_eqb String.eqb Ascii.eqb Bool.eqb nth bind].
    rewrite (nth_indep _ _ (CStr "")) by (rewrite length_map; exact Hi).
    rewrite map_nth. reflexivity.
  - cbn [bind]. unfold pd.loc. cbn [pd.index metrics_frame].
    rewrite position_nan. reflexivity.
Qed.

Lemma select_best_frame names rows :
  length names = length rows ->
  select_best (metrics_frame names rows) (map fst (dict_rows names rows)) []
  = best_models_of names rows selectors.
Proof.
  intros Hlen. simpl map.
  unfold select_best, best_models_of, selectors.
  cbn [String.eqb Ascii.eqb Bool.eqb negb].
  unfold pd.getitem. cbn [metrics_frame pd.columns pd.cols dict_rows map fst snd
    pd.position cell_eqb String.eqb Ascii.eqb Bool.eqb option_map nth bind].
  unfold pd.idxmax, pd.idxmin. cbn [pd.index].
  repeat (rewrite (pick_best names rows) by exact Hlen;
          match goal with
          | |- context [best_of ?b ?n ?c] =>
              destruct (best_of b n c); [cbn [bind]|reflexivity]
          end).
  reflexivity.
Qed.

(** ** The returned table in closed form *)

Lemma map_seq_nth {A B} (F : nat -> B) (G : A -> B) (d : A) (l : list A) :
  (forall i, (i < length l)%nat -> F i = G (nth i l d)) ->
  map F (seq 0 (length l)) = map G l.
Proof.
  induction l as [|a l IH] using rev_ind; intros H; [reflexivity|].
  rewrite length_app, Nat.add_comm. cbn [length plus].
  rewrite seq_S, !map_app. cbn [map plus]. f_equal.
  - apply IH. intros i Hi. rewrite H by (rewrite length_app; simpl; lia).
    rewrite app_nth1 by exact Hi. reflexivity.
  - rewrite H by (rewrite length_app; simpl; lia).
    rewrite app_nth2, Nat.sub_diag by lia. reflexivity.
Qed.

Lemma nth_score_column (f : Scores -> score) (rows : list Scores) (i : nat) :
  (i < length rows)%nat ->
  nth i (map (fun s => CNum (f s)) rows) (CNum NaN)
  = CNum (f (nth i rows no_scores)).
Proof.
  intros Hi.
  rewrite (nth_indep _ (CNum NaN) ((fun s => CNum (f s)) no_scores))
    by (rewrite length_map; exact Hi).
  apply (map_nth (fun s => CNum (f s))).
Qed.

Lemma transposed_rows (rows : list Scores) :
  map (fun i =>
         map (fun c : cell * list cell => nth i (snd c) (CNum NaN))
           (pd.remove_nth 0
              (map (fun kv : string * list cell => (CStr (fst kv), snd kv))
                 (dict_rows [] rows))))
    (seq 0 (length rows))
  = map (fun s => map CNum (scores_list s)) rows.
Proof.
  apply (map_seq_nth _ _ no_scores). intros i Hi.
  cbn [dict_rows map fst snd pd.remove_nth].
  rewrite !nth_score_column by exact Hi. reflexivity.
Qed.

Lemma combine_columns (names : list string) : forall rows : list Scores,
  combine (map CStr names) (map (fun s => map CNum (scores_list s)) rows)
  = np.zip_with column_of names rows.
Proof.
  induction names as [|n names IH]; intros [|s rows]; simpl; try reflexivity.
  rewrite IH. reflexivity.
Qed.

Theorem evaluate_closed_form y_test model_dict threshold :
  evaluate_model_metrics y_test model_dict threshold
  = let* rows := all_scores y_test threshold model_dict in
    let* best_models := best_models_of (map fst model_dict) rows selectors in
    final_table (map fst model_dict) rows best_models.
Proof.
  unfold evaluate_model_metrics.
  change metrics_dict_init with (dict_rows [] []).
  rewrite evaluate_models_rows. cbn [app].
  destruct (all_scores y_test threshold model_dict) as [rows|e] eqn:E;
    [|reflexivity].
  cbn [bind].
  assert (Hlen : length (map fst model_dict) = length rows).
  { rewrite length_map. symmetry. eapply all_scores_length; eauto. }
  rewrite of_dict_rows by exact Hlen. cbn [bind].
  rewrite select_best_frame by exact Hlen.
  destruct (best_models_of (map fst model_dict) rows selectors) as [bests|e];
    [|reflexivity].
  cbn [bind]. unfold final_table. f_equal.
  unfold pd.set_index, pd.columns, metrics_frame.
  cbn [pd.cols dict_rows map fst snd pd.position cell_eqb String.eqb Ascii.eqb
       Bool.eqb nth bind].
  unfold pd.T. cbn [pd.index pd.cols pd.columns].
  rewrite length_map, Hlen.
  pose proof (transposed_rows rows) as Ht.
  cbn [dict_rows map fst snd pd.remove_nth] in Ht.
  unfold pd.columns. cbn [pd.remove_nth pd.cols map fst snd]. rewrite Ht.
  rewrite combine_columns. reflexivity.
Qed.

(** ** [move_column_before] *)

Lemma cell_eqb_refl c : cell_eqb c c = true.
Proof.
  destruct c as [[q|]|s|n]; simpl.
  - apply Qeq_bool_iff. reflexivity.
  - reflexivity.
  - apply String.eqb_refl.
  - apply Nat.eqb_refl.
Qed.

Lemma cell_eqb_sym a b : cell_eqb a b = cell_eqb b a.
Proof.
  destruct a as [[x|]|s|n], b as [[y|]|t|m]; simpl; try reflexivity.
  - destruct (Qeq_bool x y) eqn:E1, (Qeq_bool y x) eqn:E2; try reflexivity.
    + apply Qeq_bool_iff in E1. symmetry in E1. apply Qeq_bool_iff in E1. congruence.
    + apply Qeq_bool_iff in E2. symmetry in E2. apply Qeq_bool_iff in E2. congruence.
  - apply String.eqb_sym.
  - apply Nat.eqb_sym.
Qed.

Lemma cell_eqb_str s c : cell_eqb (CStr s) c = true -> c = CStr s.
Proof.
  destruct c as [[q|]|t|n]; simpl; try discriminate.
  intros H. apply String.eqb_eq in H. congruence.
Qed.

Lemma remove_label (L : list (cell * list cell)) (t : string) :
  py.contains (CStr t) (map fst L) = true ->
  exists L1 c L2,
    L = L1 ++ c :: L2 /\ fst c = CStr t
    /\ py.list_remove (CStr t) (map fst L) = Ok (map fst (L1 ++ L2)).
Proof.
  unfold py.contains.
  induction L as [|c L IH]; cbn [map existsb py.list_remove]; [discriminate|].
  destruct (cell_eqb (CStr t) (fst c)) eqn:E; cbn [orb].
  - intros _. exists [], c, L. apply cell_eqb_str in E.
    split; [reflexivity|]. split; [exact E|reflexivity].
  - intros H. destruct (IH H) as (L1 & c' & L2 & -> & Hc & Hr).
    exists (c :: L1), c', L2. rewrite Hr.
    split; [reflexivity|]. split; [exact Hc|reflexivity].
Qed.

Lemma index_label (C : list cell) (b : cell) :
  py.contains b C = true ->
  exists i, py.list_index b C = Ok i
            /\ exists b', nth_error C i = Some b' /\ cell_eqb b b' = true.
Proof.
  induction C as [|c C IH]; simpl; [discriminate|].
  destruct (cell_eqb b c) eqn:E; simpl.
  - intros _. exists 0%nat. simpl. eauto.
  - intros H. destruct (IH H) as (i & -> & Hi). exists (S i). auto.
Qed.

Lemma list_insert_split (x : cell) (l : list cell) : forall i,
  py.list_insert i x l = firstn i l ++ x :: skipn i l.
Proof.
  induction l as [|c l IH]; intros [|i]; simpl; try reflexivity.
  rewrite IH. reflexivity.
Qed.

Lemma contains_app x l1 l2 :
  py.contains x (l1 ++ l2) = py.contains x l1 || py.contains x l2.
Proof. apply existsb_app. Qed.

Lemma distinct_lookup (L1 : list (cell * list cell)) : forall c L2,
  distinct_labels (map fst (L1 ++ c :: L2)) = true ->
  List.filter (fun c' => cell_eqb (fst c) (fst c')) (L1 ++ c :: L2) = [c].
Proof.
  assert (Hno : forall (k : cell) (M : list (cell * list cell)),
             py.contains k (map fst M) = false ->
             List.filter (fun c' => cell_eqb k (fst c')) M = []).
  { intros k M. induction M as [|m M IH]; simpl; [reflexivity|].
    destruct (cell_eqb k (fst m)); simpl; [discriminate|exact IH]. }
  induction L1 as [|a L1 IH]; intros c L2 H; simpl in *.
  - apply andb_prop in H. destruct H as [H _].
    rewrite cell_eqb_refl, Hno; [reflexivity|].
    destruct (py.contains (fst c) (map fst L2)); [discriminate|reflexivity].
  - apply andb_prop in H. destruct H as [Ha H].
    rewrite map_app, contains_app in Ha. simpl in Ha.
    rewrite (cell_eqb_sym (fst c) (fst a)).
    destruct (cell_eqb (fst a) (fst c)).
    + rewrite orb_true_r in Ha. discriminate.
    + apply IH. exact H.
Qed.

Lemma lookup_columns (L M : list (cell * list cell)) :
  distinct_labels (map fst L) = true ->
  incl M L ->
  flat_map (fun k => List.filter (fun c' => cell_eqb k (fst c')) L) (map fst M) = M.
Proof.
  intros Hd. induction M as [|m M IH]; intros Hin; simpl; [reflexivity|].
  destruct (in_split m L (Hin m (or_introl eq_refl))) as (L1 & L2 & ->).
  rewrite (distinct_lookup L1 m L2 Hd). simpl. f_equal.
  apply IH. intros x Hx. apply Hin. right. exact Hx.
Qed.

Lemma contains_In (c : cell) (l : list cell) : In c l -> py.contains c l = true.
Proof.
  intros H. apply existsb_exists. exists c. split; [exact H|apply cell_eqb_refl].
Qed.

(** C10 fails as stated: both names are column labels of the frame (they are
    the same label), and the call raises ValueError instead of returning a
    frame. *)
Lemma move_column_before_itself_raises :
  py.contains (CStr "a") (pd.columns two_columns) = true
  /\ move_column_before two_columns "a" "a" = ([], Raise ValueError).
Proof. split; reflexivity. Qed.

(** C10, as the code has it.  If one of the two names is not a column label
    of the frame, the call prints the message and returns the frame it was
    given.  Otherwise, when the two names differ and the column labels of the
    frame are distinct, it prints nothing and returns a frame with the same
    row labels and the same columns in another order, in which the target
    column is immediately to the left of the other one. *)
Theorem move_column_before_spec (df : pd.DataFrame)
  (target_column before_column : string) :
  (py.contains (CStr target_column) (pd.columns df) = false
   \/ py.contains (CStr before_column) (pd.columns df) = false ->
   move_column_before df target_column before_column
   = ([not_found_message target_column before_column], Ok df))
  /\ (py.contains (CStr target_column) (pd.columns df) = true ->
      py.contains (CStr before_column) (pd.columns df) = true ->
      target_column <> before_column ->
      distinct_labels (pd.columns df) = true ->
      exists df' i,
        move_column_before df target_column before_column = ([], Ok df')
        /\ pd.index df' = pd.index df
        /\ Permutation (pd.cols df') (pd.cols df)
        /\ nth_error (pd.columns df') i = Some (CStr target_column)
        /\ nth_error (pd.columns df') (S i) = Some (CStr before_column)).
Proof.
  unfold move_column_before. split.
  - intros [H|H]; rewrite H; simpl; [reflexivity|].
    rewrite orb_true_r. reflexivity.
  - intros Ht Hb Hne Hd. rewrite Ht, Hb. cbn [negb orb].
    unfold pd.columns in *.
    destruct (remove_label (pd.cols df) target_column Ht)
      as (L1 & c & L2 & HL & Hc & Hr).
    rewrite Hr. cbn [bind].
    assert (Hb' : py.contains (CStr before_column) (map fst (L1 ++ L2)) = true).
    { rewrite HL, map_app, contains_app in Hb. cbn [map] in Hb.
      unfold py.contains in Hb at 2. cbn [existsb] in Hb.
      rewrite Hc in Hb. cbn [cell_eqb] in Hb.
      destruct (String.eqb_spec before_column target_column) as [E|_];
        [congruence|].
      rewrite map_app, contains_app. exact Hb. }
    destruct (index_label _ _ Hb') as (i & Hi & b' & Hnth & Eb).
    apply cell_eqb_str in Eb. subst b'.
    rewrite Hi. cbn [bind]. rewrite list_insert_split.
    set (M := firstn i (L1 ++ L2) ++ c :: skipn i (L1 ++ L2)).
    assert (Hkeys : firstn i (map fst (L1 ++ L2))
                    ++ CStr target_column :: skipn i (map fst (L1 ++ L2))
                    = map fst M).
    { unfold M.
      rewrite (map_app fst (firstn i (L1 ++ L2)) (c :: skipn i (L1 ++ L2))).
      rewrite map_cons, Hc, firstn_map, skipn_map. reflexivity. }
    assert (Hperm : Permutation M (pd.cols df)).
    { unfold M. rewrite HL. rewrite <- Permutation_middle.
      rewrite firstn_skipn. apply Permutation_middle. }
    assert (Hi' : (i < length (map fst (L1 ++ L2)))%nat).
    { apply nth_error_Some. congruence. }
    rewrite Hkeys. unfold pd.getitem_list, pd.columns.
    assert (Hall : forallb (fun k => existsb (cell_eqb k) (map fst (pd.cols df)))
                     (map fst M) = true).
    { apply forallb_forall. intros k Hk. apply contains_In.
      apply in_map_iff in Hk. destruct Hk as (m & <- & Hm).
      apply in_map. eapply Permutation_in; eauto. }
    rewrite Hall.
    rewrite (lookup_columns (pd.cols df) M Hd)
      by (intros x Hx; eapply Permutation_in; eauto).
    exists {| pd.index := pd.index df; pd.cols := M |}, i.
    split; [reflexivity|]. split; [reflexivity|]. split; [exact Hperm|].
    cbn [pd.cols]. rewrite <- Hkeys.
    assert (Hlen : length (firstn i (map fst (L1 ++ L2))) = i).
    { rewrite length_firstn. lia. }
    split.
    + rewrite nth_error_app2 by lia. rewrite Hlen, Nat.sub_diag. reflexivity.
    + rewrite nth_error_app2 by lia. rewrite Hlen.
      replace (S i - i)%nat with 1%nat by lia. cbn [nth_error].
      destruct (skipn i (map fst (L1 ++ L2))) as [|x r] eqn:Es.
      * pose proof (firstn_skipn i (map fst (L1 ++ L2))) as Hfs.
        rewrite Es, app_nil_r in Hfs.
        apply (f_equal (@length cell)) in Hfs. rewrite Hlen in Hfs. lia.
      * cbn [nth_error]. f_equal.
        pose proof (firstn_skipn i (map fst (L1 ++ L2))) as Hfs.
        rewrite <- Hfs, Es in Hnth.
        rewrite nth_error_app2 in Hnth by lia.
        rewrite Hlen, Nat.sub_diag in Hnth. cbn in Hnth. congruence.
Qed.

Lemma move_column_before_spec_witness :
  move_column_before two_columns "c" "a"
  = ([not_found_message "c" "a"], Ok two_columns)
  /\ exists df' i,
       move_column_before two_columns "b" "a" = ([], Ok df')
       /\ pd.index df' = pd.index two_columns
       /\ Permutation (pd.cols df') (pd.cols two_columns)
       /\ nth_error (pd.columns df') i = Some (CStr "b")
       /\ nth_error (pd.columns df') (S i) = Some (CStr "a").
Proof.
  split.
  - apply (proj1 (move_column_before_spec two_columns "c" "a")).
    left. reflexivity.
  - apply (proj2 (move_column_before_spec two_columns "b" "a"));
      first [reflexivity | discriminate].
Defined.

(** ** The loop body, read backwards *)

Lemma compute_scores_inv y_test proba threshold s :
  compute_scores y_test proba threshold = Ok s ->
  let predicted_labels := np.where_gt proba threshold in
  (exists fpr tpr, sklearn.roc_curve y_test proba = Ok (fpr, tpr)
                   /\ sklearn.auc fpr tpr = Ok (roc_auc s))
  /\ (exists precision recall,
         sklearn.precision_recall_curve y_test proba = Ok (precision, recall)
         /\ sklearn.auc recall precision = Ok (pr_auc s))
  /\ sklearn.precision_score y_test predicted_labels = Ok (model_precision s)
  /\ sklearn.recall_score y_test predicted_labels = Ok (model_recall s)
  /\ (exists cm tn fp fn tp,
         sklearn.confusion_matrix y_test predicted_labels = Ok cm
         /\ concat cm = [tn; fp; fn; tp]
         /\ model_specificity s = np.true_divide tn (tn + fp))
  /\ sklearn.average_precision_score y_test proba = Ok (avg_precision s)
  /\ sklearn.brier_score_loss y_test proba = Ok (brier_score s).
Proof.
  unfold compute_scores. intros H.
  apply bind_ok in H. destruct H as ([fpr tpr] & Hroc & H).
  apply bind_ok in H. destruct H as (a1 & Hauc & H).
  apply bind_ok in H. destruct H as ([precision recall] & Hprc & H).
  apply bind_ok in H. destruct H as (a2 & Hpr & H).
  apply bind_ok in H. destruct H as (a3 & Hp & H).
  apply bind_ok in H. destruct H as (a4 & Hr & H).
  apply bind_ok in H. destruct H as (cm & Hcm & H).
  destruct (concat cm) as [|tn [|fp [|fn [|tp [|x r]]]]] eqn:Ecm;
    try discriminate.
  apply bind_ok in H. destruct H as (a6 & Hap & H).
  apply bind_ok in H. destruct H as (a7 & Hb & H).
  injection H as <-. cbn [roc_auc pr_auc model_precision model_recall
    model_specificity avg_precision brier_score].
  repeat split; eauto 10.
Qed.

(** ** Counting under a threshold *)

Lemma where_gt_length proba threshold :
  length (np.where_gt proba threshold) = length proba.
Proof. apply length_map. Qed.

Lemma Qltb_lt x y : Qltb x y = true <-> (x < y)%Q.
Proof.
  unfold Qltb. rewrite negb_true_iff. split; intros H.
  - apply Qnot_le_lt. intros Hle. apply Qle_bool_iff in Hle. congruence.
  - destruct (Qle_bool y x) eqn:E; [|reflexivity].
    apply Qle_bool_iff in E. exfalso. eapply Qlt_not_le; eauto.
Qed.

Lemma Qltb_ge x y : Qltb x y = false <-> (y <= x)%Q.
Proof.
  unfold Qltb. rewrite negb_false_iff. apply Qle_bool_iff.
Qed.

Lemma count_nonneg {A} (f : A -> bool) l : 0 <= sklearn.count f l.
Proof. unfold sklearn.count. lia. Qed.

Lemma count_cons {A} (f : A -> bool) a l :
  sklearn.count f (a :: l) = b2z (f a) + sklearn.count f l.
Proof.
  unfold sklearn.count. simpl. destruct (f a); simpl; lia.
Qed.

Lemma count_ext {A} (f g : A -> bool) l :
  (forall a, f a = g a) -> sklearn.count f l = sklearn.count g l.
Proof.
  intros H. unfold sklearn.count. f_equal. f_equal.
  apply List.filter_ext. exact H.
Qed.

Lemma count_le {A} (f g : A -> bool) l :
  (forall a, In a l -> f a = true -> g a = true) ->
  sklearn.count f l <= sklearn.count g l.
Proof.
  induction l as [|a l IH]; intros H; [reflexivity|].
  rewrite !count_cons.
  assert (Hrec : sklearn.count f l <= sklearn.count g l)
    by (apply IH; intros; apply H; [right|]; assumption).
  pose proof (H a (or_introl eq_refl)) as Ha.
  destruct (f a), (g a); simpl; first [lia | discriminate (Ha eq_refl)].
Qed.

(** The counts over the pairs (true label, predicted label), position by
    position. *)
Lemma count_pairs_split (f : bool -> bool) (y pred : list bool) :
  length y = length pred ->
  sklearn.count (fun '(t, p) => f t && negb p) (combine y pred)
  + sklearn.count (fun '(t, p) => f t && p) (combine y pred)
  = sklearn.count f y.
Proof.
  revert pred. induction y as [|t y IH]; intros [|p pred] H; try discriminate.
  - reflexivity.
  - simpl combine. rewrite !count_cons. injection H as H.
    specialize (IH pred H). destruct (f t), p; simpl; lia.
Qed.



Lemma unique_labels_both y pred :
  In true y -> In false y -> sklearn.unique_labels y pred = [false; true].
Proof.
  intros Ht Hf. unfold sklearn.unique_labels. cbn [List.filter].
  assert (E1 : existsb (Bool.eqb false) (y ++ pred) = true).
  { apply existsb_exists. exists false. split; [|reflexivity].
    apply in_or_app. auto. }
  assert (E2 : existsb (Bool.eqb true) (y ++ pred) = true).
  { apply existsb_exists. exists true. split; [|reflexivity].
    apply in_or_app. auto. }
  rewrite E1, E2. reflexivity.
Qed.

Lemma count_pos_In {A} (f : A -> bool) l a :
  In a l -> f a = true -> 0 < sklearn.count f l.
Proof.
  induction l as [|x l IH]; intros Hin Hf; [destruct Hin|].
  destruct Hin as [->|H].
  - rewrite count_cons, Hf. pose proof (count_nonneg f l). simpl. lia.
  - rewrite count_cons. specialize (IH H Hf). destruct (f x); simpl; lia.
Qed.

(** The confusion matrix of labels with both classes. *)
Lemma confusion_matrix_both y pred :
  In true y -> In false y -> length y = length pred ->
  sklearn.confusion_matrix y pred
  = Ok [[sklearn.count (fun '(t, p) => negb t && negb p) (combine y pred);
         sklearn.count (fun '(t, p) => negb t && p) (combine y pred)];
        [sklearn.count (fun '(t, p) => t && negb p) (combine y pred);
         sklearn.count (fun '(t, p) => t && p) (combine y pred)]].
Proof.
  intros Ht Hf Hlen. unfold sklearn.confusion_matrix, sklearn.check_consistent_length.
  rewrite Hlen, Nat.eqb_refl. cbn [bind].
  rewrite unique_labels_both by assumption. cbn [map].
  f_equal.
  repeat match goal with
         | |- _ :: _ = _ :: _ => f_equal
         | |- sklearn.count _ _ = sklearn.count _ _ =>
             apply count_ext; intros [[] []]; reflexivity
         end.
Qed.

(** ** The columns of the returned table *)

Lemma best_models_of_length names rows sel : forall bests,
  best_models_of names rows sel = Ok bests -> length bests = length sel.
Proof.
  induction sel as [|[better f] sel IH]; intros bests H; simpl in H.
  - injection H as <-. reflexivity.
  - inv_bind H. inv_bind H. injection H as <-. simpl. f_equal. eauto.
Qed.

Lemma zip_with_nth_error {A B C} (f : A -> B -> C) (a : list A) :
  forall (b : list B) j x y,
  nth_error a j = Some x -> nth_error b j = Some y ->
  nth_error (np.zip_with f a b) j = Some (f x y).
Proof.
  induction a as [|x0 a IH]; intros [|y0 b] [|j] x y Ha Hb;
    simpl in *; try discriminate.
  - congruence.
  - eauto.
Qed.

Lemma zip_with_length {A B C} (f : A -> B -> C) (a : list A) :
  forall b : list B, length a = length b -> length (np.zip_with f a b) = length a.
Proof.
  induction a as [|x a IH]; intros [|y b] H; simpl in *; try discriminate;
    [reflexivity|]. f_equal. apply IH. lia.
Qed.

Lemma zip_with_In {A B C} (f : A -> B -> C) (a : list A) : forall (b : list B) c,
  In c (np.zip_with f a b) -> exists x y, In x a /\ In y b /\ c = f x y.
Proof.
  induction a as [|x a IH]; intros [|y b] c H; simpl in H; try contradiction.
  destruct H as [<-|H].
  - exists x, y. simpl. auto.
  - destruct (IH b c H) as (x' & y' & Hx & Hy & ->).
    exists x', y'. simpl. auto.
Qed.

Section SetBestModel.

Variable bests : list cell.

Let key : cell := CStr "Best Model".
Let replace (c : cell * list cell) : cell * list cell :=
  if cell_eqb key (fst c) then (fst c, bests) else c.

Lemma replaced_lookup (l : list (cell * list cell)) :
  existsb (cell_eqb key) (map fst l) = true ->
  exists j, pd.position key (map fst (map replace l)) = Some j
            /\ nth j (map snd (map replace l)) [] = bests.
Proof.
  induction l as [|c l IH]; cbn [map existsb pd.position]; [discriminate|].
  unfold replace at 1 3. destruct (cell_eqb key (fst c)) eqn:E; cbn [fst snd orb].
  - intros _. rewrite E. exists 0%nat. split; reflexivity.
  - intros H. rewrite E. destruct (IH H) as (j & -> & Hj).
    exists (S j). split; [reflexivity|exact Hj].
Qed.

Lemma appended_lookup (l : list (cell * list cell)) :
  existsb (cell_eqb key) (map fst l) = false ->
  pd.position key (map fst (l ++ [(key, bests)])) = Some (length l)
  /\ nth (length l) (map snd (l ++ [(key, bests)])) [] = bests.
Proof.
  induction l as [|c l IH]; cbn [map existsb pd.position app length].
  - intros _. split; reflexivity.
  - destruct (cell_eqb key (fst c)) eqn:E; cbn [orb]; [discriminate|].
    intros H. destruct (IH H) as (-> & Hn). split; [reflexivity|exact Hn].
Qed.

Lemma final_table_inv names rows df :
  final_table names rows bests = Ok df ->
  pd.index df = map CStr metric_names
  /\ (forall j name s,
        nth_error names j = Some name -> nth_error rows j = Some s ->
        nth_error (pd.cols df) j
        = Some (if String.eqb "Best Model" name then (CStr name, bests)
                else column_of name s))
  /\ pd.getitem df key
     = Ok {| pd.s_index := map CStr metric_names; pd.s_values := bests |}
  /\ (forall label col,
        In (label, col) (pd.cols df) -> label <> key ->
        exists name s, In name names /\ In s rows
                       /\ (label, col) = column_of name s).
Proof.
  unfold final_table, pd.setitem. cbn [pd.index pd.columns pd.cols].
  destruct (length bests =? length (map CStr metric_names))%nat; [|discriminate].
  fold key. set (l := np.zip_with column_of names rows).
  assert (Hcol : forall j name s,
             nth_error names j = Some name -> nth_error rows j = Some s ->
             nth_error l j = Some (column_of name s)).
  { intros j name s Hn Hs. apply zip_with_nth_error; assumption. }
  destruct (existsb (cell_eqb key) (pd.columns {| pd.index := map CStr metric_names; pd.cols := l |})) eqn:E;
    unfold pd.columns in E; cbn [pd.cols] in E;
    intros H; apply Ok_inj in H; subst df; cbn [pd.index pd.cols];
    (split; [reflexivity|]); (split; [|split]).
  - intros j name s Hn Hs. fold replace.
    rewrite nth_error_map, (Hcol j name s Hn Hs). reflexivity.
  - unfold pd.getitem, pd.columns. cbn [pd.index pd.cols]. fold replace.
    destruct (replaced_lookup l E) as (j & -> & ->). reflexivity.
  - intros label col Hin Hne. fold replace in Hin.
    apply in_map_iff in Hin. destruct Hin as (c & Hc & Hin).
    unfold replace in Hc. destruct (cell_eqb key (fst c)) eqn:Ec.
    + apply cell_eqb_str in Ec. injection Hc as <- _. destruct (Hne Ec).
    + subst c. apply zip_with_In in Hin. destruct Hin as (x & y & Hx & Hy & Hxy).
      eauto.
  - intros j name s Hn Hs. pose proof (Hcol j name s Hn Hs) as Hj.
    rewrite nth_error_app1 by (apply nth_error_Some; congruence).
    rewrite Hj. destruct (String.eqb "Best Model" name) eqn:En; [|reflexivity].
    exfalso. apply nth_error_In in Hj.
    assert (existsb (cell_eqb key) (map fst l) = true); [|congruence].
    apply existsb_exists. exists (CStr name). split.
    + apply in_map_iff. exists (column_of name s). split; [reflexivity|exact Hj].
    + exact En.
  - unfold pd.getitem, pd.columns. cbn [pd.index pd.cols].
    destruct (appended_lookup l E) as (-> & ->). reflexivity.
  - intros label col Hin Hne. apply in_app_or in Hin. destruct Hin as [Hin|Hin].
    + apply zip_with_In in Hin. destruct Hin as (x & y & Hx & Hy & Hxy). eauto.
    + destruct Hin as [Hin|[]]. injection Hin as <- _. destruct (Hne eq_refl).
Qed.

End SetBestModel.

(** What a returned table is made of. *)
Lemma evaluate_ok_inv y_test model_dict threshold df :
  evaluate_model_metrics y_test model_dict threshold = Ok df ->
  exists rows bests,
    all_scores y_test threshold model_dict = Ok rows
    /\ best_models_of (map fst model_dict) rows selectors = Ok bests
    /\ final_table (map fst model_dict) rows bests = Ok df.
Proof.
  rewrite evaluate_closed_form. intros H.
  apply bind_ok in H. destruct H as (rows & Hr & H).
  apply bind_ok in H. destruct H as (bests & Hb & H).
  eauto.
Qed.

Lemma table_column y_test model_dict threshold df :
  evaluate_model_metrics y_test model_dict threshold = Ok df ->
  forall j name proba,
    nth_error model_dict j = Some (name, proba) ->
    exists s, compute_scores y_test proba threshold = Ok s
              /\ shows_scores df j name s.
Proof.
  intros H j name proba Hj.
  destruct (evaluate_ok_inv _ _ _ _ H) as (rows & bests & Hr & Hb & Hf).
  destruct (all_scores_nth _ _ _ _ Hr j name proba Hj) as (s & Hs & Hc).
  exists s. split; [exact Hc|]. intros Hne.
  destruct (final_table_inv bests _ _ _ Hf) as (_ & Hcols & _ & _).
  rewrite (Hcols j name s); [|rewrite nth_error_map, Hj; reflexivity|exact Hs].
  destruct (String.eqb_spec "Best Model" name); [congruence|reflexivity].
Qed.

(** ** Areas under monotone curves *)

Lemma chain_map {A B} (R : A -> A -> Prop) (R' : B -> B -> Prop) (f : A -> B) l :
  (forall x y, R x y -> R' (f x) (f y)) -> chain R l -> chain R' (map f l).
Proof.
  intros Hf. induction l as [|x [|y l] IH]; simpl; auto.
  intros [H1 H2]. split; [auto|]. apply IH. exact H2.
Qed.

Lemma chain_snoc {A} (R : A -> A -> Prop) (d : A) l x :
  chain R l -> (l <> [] -> R (List.last l d) x) -> chain R (l ++ [x]).
Proof.
  induction l as [|a l IH]; intros Hc Hl; [exact I|].
  destruct l as [|b l].
  - split; [apply Hl; discriminate|exact I].
  - destruct Hc as [H1 H2].
    change (R a b /\ chain R ((b :: l) ++ [x])). split; [exact H1|].
    apply IH; [exact H2|]. intros _. apply Hl. discriminate.
Qed.

Lemma chain_rev {A} (R : A -> A -> Prop) l :
  chain R l -> chain (fun x y => R y x) (rev l).
Proof.
  induction l as [|a l IH]; intros Hc; [exact I|].
  destruct l as [|b l]; [exact I|].
  destruct Hc as [H1 H2]. specialize (IH H2).
  change (rev (a :: b :: l)) with (rev (b :: l) ++ [a]).
  apply (chain_snoc _ a); [exact IH|].
  intros _. change (rev (b :: l)) with (rev l ++ [b]).
  rewrite last_last. exact H1.
Qed.

Lemma last_cons_default {A} (l : list A) : forall x d,
  List.last (x :: l) d = List.last l x.
Proof.
  induction l as [|a l IH]; intros x d; [reflexivity|].
  change (List.last (x :: a :: l) d) with (List.last (a :: l) d).
  rewrite (IH a d), (IH a x). reflexivity.
Qed.

Lemma trapz_cons (y0 y1 x0 x1 : score) (ys xs : list score) :
  np.trapz (y0 :: y1 :: ys) (x0 :: x1 :: xs)
  = s_add (s_half (s_mul (s_sub x1 x0) (s_add y1 y0)))
      (np.trapz (y1 :: ys) (x1 :: xs)).
Proof.
  unfold np.trapz. cbn [tl]. change (removelast (y0 :: y1 :: ys))
    with (y0 :: removelast (y1 :: ys)). reflexivity.
Qed.

(** Over increasing abscissas and ordinates in [0, 1], the trapezoid sum is a
    number between 0 and the width. *)
Lemma trapz_increasing (xs : list Q) : forall (ys : list Q) x0 y0,
  length xs = length ys ->
  chain Qle (x0 :: xs) -> Forall unit_interval (y0 :: ys) ->
  exists a, np.trapz (map Fin (y0 :: ys)) (map Fin (x0 :: xs)) = Fin a
            /\ (0 <= a <= List.last xs x0 - x0)%Q.
Proof.
  induction xs as [|x1 xs IH]; intros [|y1 ys] x0 y0 Hlen Hc Hy;
    try discriminate.
  - exists 0%Q. split; [reflexivity|]. simpl. lra.
  - cbn [map]. rewrite trapz_cons.
    destruct Hc as [H01 Hc]. inversion Hy as [|? ? Hy0 Hy']; subst.
    injection Hlen as Hlen.
    destruct (IH ys x1 y1 Hlen Hc Hy') as (a & Ha & Hb).
    cbn [map] in Ha. rewrite Ha.
    exists ((x1 - x0) * (y1 + y0) / 2 + a)%Q. split; [reflexivity|].
    inversion Hy' as [|? ? Hy1 _]; subst. unfold unit_interval in *.
    rewrite (last_cons_default xs x1 x0).
    assert (0 <= (x1 - x0) * (y1 + y0))%Q by nra.
    assert ((x1 - x0) * (y1 + y0) <= 2 * (x1 - x0))%Q by nra.
    unfold Qdiv. change (/ 2)%Q with (1 # 2)%Q. lra.
Qed.

(** The same with decreasing abscissas: the sum is negative. *)
Lemma trapz_decreasing (xs : list Q) : forall (ys : list Q) x0 y0,
  length xs = length ys ->
  chain (fun a b => b <= a)%Q (x0 :: xs) -> Forall unit_interval (y0 :: ys) ->
  exists a, np.trapz (map Fin (y0 :: ys)) (map Fin (x0 :: xs)) = Fin a
            /\ (0 <= - a <= x0 - List.last xs x0)%Q.
Proof.
  induction xs as [|x1 xs IH]; intros [|y1 ys] x0 y0 Hlen Hc Hy;
    try discriminate.
  - exists 0%Q. split; [reflexivity|]. simpl. lra.
  - cbn [map]. rewrite trapz_cons.
    destruct Hc as [H01 Hc]. inversion Hy as [|? ? Hy0 Hy']; subst.
    injection Hlen as Hlen.
    destruct (IH ys x1 y1 Hlen Hc Hy') as (a & Ha & Hb).
    cbn [map] in Ha. rewrite Ha.
    exists ((x1 - x0) * (y1 + y0) / 2 + a)%Q. split; [reflexivity|].
    inversion Hy' as [|? ? Hy1 _]; subst. unfold unit_interval in *.
    rewrite (last_cons_default xs x1 x0).
    assert (0 <= (x0 - x1) * (y1 + y0))%Q by nra.
    assert ((x0 - x1) * (y1 + y0) <= 2 * (x0 - x1))%Q by nra.
    assert ((x1 - x0) * (y1 + y0) == - ((x0 - x1) * (y1 + y0)))%Q by ring.
    unfold Qdiv. change (/ 2)%Q with (1 # 2)%Q. lra.
Qed.

Lemma diff_fin (xs : list Q) :
  np.diff s_sub (map Fin xs) = map Fin (np.diff Qminus xs).
Proof.
  induction xs as [|a xs IH]; [reflexivity|].
  destruct xs as [|b xs]; [reflexivity|].
  change (s_sub (Fin b) (Fin a) :: np.diff s_sub (map Fin (b :: xs))
          = Fin (b - a) :: map Fin (np.diff Qminus (b :: xs))).
  rewrite IH. reflexivity.
Qed.

Lemma chain_le_diff (xs : list Q) :
  chain Qle xs <-> Forall (fun d => 0 <= d)%Q (np.diff Qminus xs).
Proof.
  induction xs as [|a xs IH]; [split; constructor|].
  destruct xs as [|b xs]; [split; constructor|].
  change (chain Qle (a :: b :: xs)) with ((a <= b)%Q /\ chain Qle (b :: xs)).
  change (np.diff Qminus (a :: b :: xs))
    with ((b - a)%Q :: np.diff Qminus (b :: xs)).
  rewrite IH. split.
  - intros [H1 H2]. constructor; [lra|exact H2].
  - intros H. inversion H; subst. split; [lra|assumption].
Qed.

Lemma chain_ge_diff (xs : list Q) :
  chain (fun a b => b <= a)%Q xs <-> Forall (fun d => d <= 0)%Q (np.diff Qminus xs).
Proof.
  induction xs as [|a xs IH]; [split; constructor|].
  destruct xs as [|b xs]; [split; constructor|].
  change (chain (fun a b => b <= a)%Q (a :: b :: xs))
    with ((b <= a)%Q /\ chain (fun a b => b <= a)%Q (b :: xs)).
  change (np.diff Qminus (a :: b :: xs))
    with ((b - a)%Q :: np.diff Qminus (b :: xs)).
  rewrite IH. split.
  - intros [H1 H2]. constructor; [lra|exact H2].
  - intros H. inversion H; subst. split; [lra|assumption].
Qed.

(** [auc] over a curve whose abscissas run monotonically across a width of at
    most 1 and whose ordinates are in [0, 1]: a number in [0, 1]. *)
Lemma auc_unit (xs ys : list Q) (x0 y0 : Q) :
  length xs = length ys -> xs <> [] ->
  Forall unit_interval (y0 :: ys) ->
  (chain Qle (x0 :: xs) /\ (List.last xs x0 - x0 <= 1)%Q)
  \/ (chain (fun a b => b <= a)%Q (x0 :: xs) /\ (x0 - List.last xs x0 <= 1)%Q) ->
  exists a, sklearn.auc (map Fin (x0 :: xs)) (map Fin (y0 :: ys)) = Ok (Fin a)
            /\ unit_interval a.
Proof.
  intros Hlen Hne Hy Hx. unfold sklearn.auc, sklearn.check_consistent_length.
  rewrite !length_map. cbn [length]. rewrite Hlen, Nat.eqb_refl. cbn [bind].
  assert (Hl2 : (S (length ys) <? 2)%nat = false).
  { apply Nat.ltb_ge. destruct xs; [congruence|]. simpl in Hlen. lia. }
  rewrite Hl2, diff_fin.
  set (dx := np.diff Qminus (x0 :: xs)).
  assert (Hex : existsb (fun d => s_ltb d (Fin 0)) (map Fin dx)
                = existsb (fun d => Qltb d 0) dx).
  { clear. induction dx as [|d dx IH]; [reflexivity|]. simpl. rewrite IH. reflexivity. }
  assert (Hall : forallb (fun d => s_leb d (Fin 0)) (map Fin dx)
                 = forallb (fun d => Qle_bool d 0) dx).
  { clear. induction dx as [|d dx IH]; [reflexivity|]. simpl. rewrite IH. reflexivity. }
  rewrite Hex, Hall.
  destruct (existsb (fun d => Qltb d 0) dx) eqn:E.
  - (* some step goes down: the abscissas decrease *)
    destruct Hx as [[Hinc _]|[Hdec Hw]].
    + exfalso. apply chain_le_diff in Hinc. fold dx in Hinc.
      apply existsb_exists in E. destruct E as (d & Hd & Hlt).
      apply Qltb_lt in Hlt. rewrite List.Forall_forall in Hinc.
      specialize (Hinc d Hd). simpl in Hinc. lra.
    + assert (Hf : forallb (fun d => Qle_bool d 0) dx = true).
      { apply forallb_forall. intros d Hd. apply Qle_bool_iff.
        apply chain_ge_diff in Hdec. fold dx in Hdec.
        rewrite List.Forall_forall in Hdec. exact (Hdec d Hd). }
      rewrite Hf. cbn [bind].
      destruct (trapz_decreasing xs ys x0 y0 Hlen Hdec Hy) as (a & -> & Ha).
      exists (-1 * a)%Q. split; [reflexivity|]. unfold unit_interval. lra.
  - (* no step goes down: the abscissas increase *)
    assert (Hinc : chain Qle (x0 :: xs)).
    { apply chain_le_diff. fold dx. apply List.Forall_forall. intros d Hd.
      apply Qltb_ge. destruct (Qltb d 0) eqn:Ed; [|reflexivity].
      assert (existsb (fun d => Qltb d 0) dx = true); [|congruence].
      apply existsb_exists. eauto. }
    cbn [bind].
    destruct (trapz_increasing xs ys x0 y0 Hlen Hinc Hy) as (a & -> & Ha).
    exists (1 * a)%Q. split; [reflexivity|]. unfold unit_interval.
    destruct Hx as [[_ Hw]|[Hdec Hw]]; [lra|].
    assert (List.last xs x0 <= x0)%Q; [|lra].
    clear - Hdec. revert x0 Hdec.
    induction xs as [|b xs IH]; intros x0 Hdec; [simpl; lra|].
    destruct Hdec as [H1 H2]. rewrite last_cons_default.
    specialize (IH b H2). lra.
Qed.

(** ** The curve of cumulated counts *)

Lemma insert_perm x l : Permutation (np.insert x l) (x :: l).
Proof.
  induction l as [|y l IH]; simpl; [reflexivity|].
  destruct (Qle_bool (fst x) (fst y)); [reflexivity|].
  rewrite IH. apply perm_swap.
Qed.

Lemma sort_perm l : Permutation (np.sort l) l.
Proof.
  induction l as [|x l IH]; simpl; [reflexivity|].
  rewrite insert_perm. constructor. exact IH.
Qed.

Lemma map_snd_combine_seq {A} (a : list A) : forall i,
  map snd (combine a (seq i (length a))) = seq i (length a).
Proof.
  induction a as [|x a IH]; intros i; simpl; [reflexivity|].
  rewrite IH. reflexivity.
Qed.

Lemma argsort_perm (a : list Q) : Permutation (np.argsort a) (seq 0 (length a)).
Proof.
  unfold np.argsort. rewrite sort_perm. rewrite map_snd_combine_seq. reflexivity.
Qed.

Lemma take_perm {A} (d : A) (y : list A) (idx : list nat) :
  Permutation idx (seq 0 (length y)) -> Permutation (np.take d y idx) y.
Proof.
  intros H. unfold np.take. rewrite H.
  rewrite (map_seq_nth (fun i => nth i y d) (fun x => x) d y) by reflexivity.
  rewrite map_id. reflexivity.
Qed.

Lemma diff_length {A} (sub : A -> A -> A) (l : list A) :
  length (np.diff sub l) = (length l - 1)%nat.
Proof.
  induction l as [|a l IH]; [reflexivity|].
  destruct l as [|b l]; [reflexivity|].
  change (np.diff sub (a :: b :: l)) with (sub b a :: np.diff sub (b :: l)).
  cbn [length] in *. rewrite IH. lia.
Qed.

Lemma where_from_range mask : forall i,
  Forall (fun k => (i <= k < i + length mask)%nat) (np.where_from i mask).
Proof.
  induction mask as [|b mask IH]; intros i; simpl; [constructor|].
  assert (H : Forall (fun k => (i <= k < i + S (length mask))%nat)
                (np.where_from (S i) mask)).
  { eapply List.Forall_impl; [|apply IH]. simpl. intros k Hk. lia. }
  destruct b; [constructor; [lia|exact H]|exact H].
Qed.

Lemma where_from_chain mask : forall i, chain lt (np.where_from i mask).
Proof.
  induction mask as [|b mask IH]; intros i; simpl; [exact I|].
  destruct b; [|apply IH].
  pose proof (where_from_range mask (S i)) as Hr.
  specialize (IH (S i)).
  destruct (np.where_from (S i) mask) as [|k r]; [exact I|].
  split; [|exact IH]. inversion Hr; subst. lia.
Qed.

Lemma last_in_range {A} {P : A -> Prop} (l : list A) d :
  l <> [] -> Forall P l -> P (List.last l d).
Proof.
  induction l as [|a l IH]; intros Hne Hf; [congruence|].
  inversion Hf; subst. destruct l as [|b l]; [assumption|].
  apply IH; [discriminate|assumption].
Qed.

Lemma sample_points_of_mask (mask : list bool) :
  sample_points (S (length mask)) (np.where_true mask ++ [length mask]).
Proof.
  unfold sample_points, np.where_true.
  pose proof (where_from_range mask 0) as Hr.
  pose proof (where_from_chain mask 0) as Hc.
  split; [intros E; apply app_eq_nil in E; destruct E; discriminate|].
  split; [|split].
  - apply (chain_snoc lt 0%nat); [exact Hc|]. intros Hne.
    pose proof (last_in_range _ 0%nat Hne Hr) as Hl. simpl in Hl. lia.
  - apply Forall_app. split.
    + eapply List.Forall_impl; [|exact Hr]. simpl. intros k Hk. lia.
    + constructor; [lia|constructor].
  - rewrite last_last. lia.
Qed.

Lemma count_firstn_total (ys : list bool) (k : nat) :
  (k < length ys)%nat ->
  seen (fun t => t) ys k + seen negb ys k = Z.of_nat (S k).
Proof.
  revert k. induction ys as [|y ys IH]; intros k Hk; [simpl in Hk; lia|].
  unfold seen in *. cbn [firstn]. rewrite !count_cons.
  destruct k as [|k].
  - simpl firstn. unfold sklearn.count. simpl. destruct y; simpl; lia.
  - simpl in Hk. specialize (IH k ltac:(lia)).
    destruct y; simpl b2z; lia.
Qed.

Lemma cumsum_from_nth (ys : list bool) : forall acc k,
  (k < length ys)%nat ->
  nth k (np.cumsum_from acc (map b2z ys)) 0
  = acc + seen (fun t => t) ys k.
Proof.
  induction ys as [|y ys IH]; intros acc k Hk; [simpl in Hk; lia|].
  unfold seen in *. cbn [map np.cumsum_from firstn]. rewrite count_cons.
  destruct k as [|k].
  - simpl. unfold sklearn.count. simpl. lia.
  - cbn [nth]. simpl in Hk. rewrite IH by lia. lia.
Qed.

Lemma map_ext_Forall {A B} (f g : A -> B) (P : A -> Prop) l :
  Forall P l -> (forall a, P a -> f a = g a) -> map f l = map g l.
Proof.
  intros Hf Hfg. induction Hf as [|a l Ha Hl IH]; simpl; [reflexivity|].
  rewrite IH, Hfg by assumption. reflexivity.
Qed.

Lemma zip_with_map_r {A B C} (f : A -> B -> C) (g : A -> B) (l : list A) :
  np.zip_with f l (map g l) = map (fun a => f a (g a)) l.
Proof.
  induction l as [|a l IH]; simpl; [reflexivity|]. rewrite IH. reflexivity.
Qed.

(** On arrays of one length, not empty, [_binary_clf_curve] returns the
    counts of negatives and of positives seen up to each sample point of a
    reordering of the labels. *)
Lemma binary_clf_curve_ok (y_true : list bool) (y_score : list Q) :
  length y_true = length y_score -> y_true <> [] ->
  exists ys idxs,
    Permutation ys y_true
    /\ sample_points (length y_true) idxs
    /\ sklearn.binary_clf_curve y_true y_score
       = Ok (map (seen negb ys) idxs, map (seen (fun t => t) ys) idxs).
Proof.
  intros Hlen Hne. unfold sklearn.binary_clf_curve, sklearn.check_consistent_length.
  rewrite (proj2 (Nat.eqb_eq _ _) Hlen). cbn [bind].
  set (desc := rev (np.argsort y_score)).
  assert (Hperm : Permutation desc (seq 0 (length y_true))).
  { unfold desc. rewrite <- Permutation_rev, argsort_perm, Hlen. reflexivity. }
  set (ys := np.take false y_true desc).
  set (ss := np.take 0%Q y_score desc).
  assert (Hys : Permutation ys y_true) by (apply take_perm; exact Hperm).
  assert (Hn : length ys = length y_true) by (apply Permutation_length; exact Hys).
  assert (Hss : length ss = length y_true).
  { unfold ss, np.take. rewrite length_map.
    rewrite (Permutation_length Hperm), length_seq. reflexivity. }
  set (mask := map (fun d => negb (Qeq_bool d 0)) (np.diff Qminus ss)).
  assert (Hmask : S (length mask) = length y_true).
  { unfold mask. rewrite length_map, diff_length, Hss.
    destruct y_true; [congruence|]. simpl. lia. }
  destruct ys as [|y0 ys'] eqn:Eys.
  { exfalso. destruct y_true; [congruence|]. discriminate. }
  rewrite <- Eys in *. clear Eys.
  replace (length ys - 1)%nat with (length mask) by lia.
  pose proof (sample_points_of_mask mask) as Hsp. rewrite Hmask in Hsp.
  set (idxs := np.where_true mask ++ [length mask]) in *.
  exists ys, idxs. split; [exact Hys|]. split; [exact Hsp|].
  destruct Hsp as (_ & _ & Hrange & _).
  assert (Htps : np.take 0 (np.cumsum (map b2z ys)) idxs
                 = map (seen (fun t => t) ys) idxs).
  { unfold np.take, np.cumsum.
    apply (map_ext_Forall _ _ _ _ Hrange). intros k Hk.
    rewrite cumsum_from_nth by lia. lia. }
  rewrite Htps, zip_with_map_r. do 2 f_equal.
  apply (map_ext_Forall _ _ _ _ Hrange). intros k Hk.
  pose proof (count_firstn_total ys k ltac:(lia)). lia.
Qed.

Lemma count_app {A} (f : A -> bool) l1 l2 :
  sklearn.count f (l1 ++ l2) = sklearn.count f l1 + sklearn.count f l2.
Proof.
  unfold sklearn.count. rewrite List.filter_app, length_app. lia.
Qed.

Lemma count_perm {A} (f : A -> bool) l1 l2 :
  Permutation l1 l2 -> sklearn.count f l1 = sklearn.count f l2.
Proof.
  intros H. induction H; rewrite ?count_cons; lia.
Qed.

Lemma seen_mono f ys k k' : (k <= k')%nat -> seen f ys k <= seen f ys k'.
Proof.
  intros H. unfold seen.
  replace (S k') with (S k + (k' - k))%nat by lia.
  rewrite <- (firstn_skipn (S k) (firstn (S k + (k' - k)) ys)).
  rewrite firstn_firstn, Nat.min_l by lia.
  rewrite count_app. pose proof (count_nonneg f (skipn (S k) (firstn (S k + (k' - k)) ys))).
  lia.
Qed.

Lemma seen_le_total f ys k : seen f ys k <= sklearn.count f ys.
Proof.
  unfold seen. rewrite <- (firstn_skipn (S k) ys) at 2. rewrite count_app.
  pose proof (count_nonneg f (skipn (S k) ys)). lia.
Qed.

Lemma seen_last f ys : seen f ys (length ys - 1) = sklearn.count f ys.
Proof.
  unfold seen. rewrite firstn_all2 by lia. reflexivity.
Qed.

Lemma last_map {A B} (f : A -> B) (l : list A) (d : A) :
  l <> [] -> List.last (map f l) (f d) = f (List.last l d).
Proof.
  induction l as [|a l IH]; intros Hne; [congruence|].
  destruct l as [|b l]; [reflexivity|].
  change (List.last (map f (b :: l)) (f d) = f (List.last (b :: l) d)).
  apply IH. discriminate.
Qed.

Lemma last_indep {A} (l : list A) (d d' : A) :
  l <> [] -> List.last l d = List.last l d'.
Proof.
  induction l as [|a l IH]; intros Hne; [congruence|].
  destruct l as [|b l]; [reflexivity|].
  change (List.last (b :: l) d = List.last (b :: l) d').
  apply IH. discriminate.
Qed.

(** The counts sampled along the curve: increasing, between 0 and the total,
    ending at the total. *)
Lemma sampled_counts f ys idxs :
  sample_points (length ys) idxs ->
  let counts := map (seen f ys) idxs in
  counts <> []
  /\ chain Z.le counts
  /\ Forall (fun c => 0 <= c <= sklearn.count f ys) counts
  /\ List.last counts 0 = sklearn.count f ys.
Proof.
  intros (Hne & Hc & Hr & Hl). cbn zeta. repeat split.
  - destruct idxs; [congruence|discriminate].
  - eapply chain_map; [|exact Hc]. intros x y Hxy. apply seen_mono. lia.
  - apply Forall_map. eapply List.Forall_impl; [|exact Hr].
    intros k _. simpl. split; [apply count_nonneg|apply seen_le_total].
  - rewrite (last_indep _ 0 (seen f ys 0)) by (destruct idxs; [congruence|discriminate]).
    rewrite last_map by exact Hne. rewrite Hl. apply seen_last.
Qed.

Lemma where_from_snoc mask : forall i,
  np.where_from i (mask ++ [true]) = np.where_from i mask ++ [(i + length mask)%nat].
Proof.
  induction mask as [|b mask IH]; intros i; simpl.
  - rewrite Nat.add_0_r. reflexivity.
  - rewrite IH. replace (S i + length mask)%nat with (i + S (length mask))%nat by lia.
    destruct b; reflexivity.
Qed.

Lemma chain_lt_head (l : list nat) : forall a j,
  chain lt (a :: l) -> (j < length l)%nat -> (a < nth j l 0)%nat.
Proof.
  induction l as [|b l IH]; intros a j Hc Hj; [simpl in Hj; lia|].
  destruct Hc as [Hab Hc]. destruct j as [|j]; [exact Hab|].
  simpl in Hj. specialize (IH b j Hc ltac:(lia)). simpl. lia.
Qed.

Lemma chain_nth_lt (l : list nat) : forall i j,
  chain lt l -> (i < j < length l)%nat -> (nth i l 0 < nth j l 0)%nat.
Proof.
  induction l as [|a l IH]; intros i j Hc Hij; [simpl in Hij; lia|].
  destruct j as [|j]; [lia|]. simpl in Hij. destruct i as [|i].
  - cbn [nth]. apply (chain_lt_head l a j); [exact Hc|lia].
  - cbn [nth]. apply IH; [|lia]. destruct l; [exact I|apply Hc].
Qed.

Lemma nth_last_eq {A} (l : list A) (d : A) :
  nth (length l - 1) l d = List.last l d.
Proof.
  induction l as [|a l IH]; [reflexivity|].
  destruct l as [|b l]; [reflexivity|].
  change (List.last (a :: b :: l) d) with (List.last (b :: l) d).
  rewrite <- IH. cbn [length]. replace (S (S (length l)) - 1)%nat with (S (length l)) by lia.
  replace (S (length l) - 1)%nat with (length l) by lia. reflexivity.
Qed.

(** Keeping the sample points at chosen positions (increasing, ending at the
    last one) leaves sample points. *)
Lemma select_sample_points (n : nat) (idxs opt : list nat) :
  sample_points n idxs -> sample_points (length idxs) opt ->
  sample_points n (np.take 0%nat idxs opt).
Proof.
  intros (Hne & Hc & Hr & Hl) (One & Oc & Or & Ol). unfold np.take.
  repeat split.
  - destruct opt; [congruence|discriminate].
  - assert (Oc' : chain (fun i j => (i < j < length idxs)%nat) opt).
    { clear - Oc Or. induction opt as [|a opt IH]; [exact I|].
      destruct opt as [|b opt]; [exact I|].
      destruct Oc as [Hab Oc]. inversion Or as [|? ? _ Or']; subst.
      split; [|apply IH; assumption]. inversion Or'; subst. lia. }
    eapply chain_map; [|exact Oc']. intros i j Hij. apply chain_nth_lt; assumption.
  - apply Forall_map. eapply List.Forall_impl; [|exact Or].
    intros i Hi. simpl. rewrite List.Forall_forall in Hr. apply Hr.
    apply nth_In. exact Hi.
  - rewrite (last_indep _ 0%nat (nth 0 idxs 0%nat))
      by (destruct opt; [congruence|discriminate]).
    rewrite (last_map (fun i => nth i idxs 0%nat)) by exact One.
    rewrite Ol, nth_last_eq. exact Hl.
Qed.

Lemma take_map {A B} (f : A -> B) (d : A) (d' : B) (l : list A) (idx : list nat) :
  Forall (fun i => (i < length l)%nat) idx ->
  np.take d' (map f l) idx = map f (np.take d l idx).
Proof.
  intros H. unfold np.take. rewrite map_map.
  apply (map_ext_Forall _ _ _ _ H). intros i Hi.
  rewrite (nth_indep _ d' (f d)) by (rewrite length_map; exact Hi).
  apply map_nth.
Qed.

Lemma zip_with_length_min {A B C} (f : A -> B -> C) (a : list A) :
  forall b : list B, length (np.zip_with f a b) = Nat.min (length a) (length b).
Proof.
  induction a as [|x a IH]; intros [|y b]; simpl; try reflexivity.
  rewrite IH. reflexivity.
Qed.

(** [roc_curve] on arrays of one length, not empty: the two rates of the
    counts seen at sample points, after the origin. *)
Lemma roc_curve_ok (y_true : list bool) (y_score : list Q) :
  length y_true = length y_score -> y_true <> [] ->
  exists ys idxs,
    Permutation ys y_true
    /\ sample_points (length ys) idxs
    /\ sklearn.roc_curve y_true y_score
       = Ok (sklearn.rate (0 :: map (seen negb ys) idxs),
             sklearn.rate (0 :: map (seen (fun t => t) ys) idxs)).
Proof.
  intros Hlen Hne.
  destruct (binary_clf_curve_ok y_true y_score Hlen Hne)
    as (ys & idxs & Hperm & Hsp & Hcurve).
  rewrite <- (Permutation_length Hperm) in Hsp.
  unfold sklearn.roc_curve. rewrite Hcurve. cbn [bind].
  exists ys. rewrite length_map.
  destruct (2 <? length idxs)%nat eqn:E.
  - set (m := np.zip_with orb
                (sklearn.nonzero (np.diff Z.sub (np.diff Z.sub (map (seen negb ys) idxs))))
                (sklearn.nonzero (np.diff Z.sub (np.diff Z.sub
                                                   (map (seen (fun t => t) ys) idxs))))).
    assert (Hm : S (length (true :: m)) = length idxs).
    { cbn [length]. unfold m, sklearn.nonzero.
      rewrite zip_with_length_min, !length_map, !diff_length.
      rewrite !length_map. apply Nat.ltb_lt in E. lia. }
    assert (Hopt : sample_points (length idxs) (np.where_true (true :: m ++ [true]))).
    { unfold np.where_true.
      change (true :: m ++ [true]) with ((true :: m) ++ [true]).
      rewrite where_from_snoc. rewrite <- Hm. apply sample_points_of_mask. }
    exists (np.take 0%nat idxs (np.where_true (true :: m ++ [true]))).
    split; [exact Hperm|]. split; [apply select_sample_points; assumption|].
    destruct Hopt as (_ & _ & Hor & _).
    rewrite !(take_map _ 0%nat 0) by exact Hor. reflexivity.
  - exists idxs. auto.
Qed.

(** ** Rates *)

Lemma ratio_mono t a b : 0 < t -> a <= b -> (ratio t a <= ratio t b)%Q.
Proof.
  intros Ht Hab. unfold ratio, Qdiv, z2q. apply Qmult_le_compat_r.
  - rewrite <- Zle_Qle. exact Hab.
  - apply Qinv_le_0_compat. change 0%Q with (inject_Z 0). rewrite <- Zle_Qle. lia.
Qed.

Lemma ratio_zero t : (ratio t 0 == 0)%Q.
Proof. unfold ratio, Qdiv, z2q. ring. Qed.

Lemma ratio_one t : 0 < t -> (ratio t t == 1)%Q.
Proof.
  intros Ht. unfold ratio, Qdiv, z2q. apply Qmult_inv_r.
  intros E. change 0%Q with (inject_Z 0) in E. rewrite inject_Z_injective in E. lia.
Qed.

Lemma ratio_unit t c : 0 < t -> 0 <= c <= t -> unit_interval (ratio t c).
Proof.
  intros Ht [H0 H1]. unfold unit_interval.
  pose proof (ratio_mono t 0 c Ht H0). pose proof (ratio_mono t c t Ht H1).
  pose proof (ratio_zero t). pose proof (ratio_one t Ht). lra.
Qed.

Lemma rate_positive (counts : list Z) :
  0 < List.last counts 0 ->
  sklearn.rate counts = map Fin (map (ratio (List.last counts 0)) counts).
Proof.
  intros H. unfold sklearn.rate.
  destruct (Z.leb_spec (List.last counts 0) 0); [lia|].
  rewrite map_map. reflexivity.
Qed.

Lemma rate_undefined (counts : list Z) :
  List.last counts 0 <= 0 ->
  sklearn.rate counts = repeat NaN (length counts).
Proof.
  intros H. unfold sklearn.rate.
  destruct (Z.leb_spec (List.last counts 0) 0); [reflexivity|lia].
Qed.

Lemma chain_cons {A} (R : A -> A -> Prop) (a : A) (l : list A) :
  chain R l -> (forall b, In b l -> R a b) -> chain R (a :: l).
Proof.
  intros Hc Ha. destruct l as [|b l]; [exact I|].
  split; [apply Ha; left; reflexivity|exact Hc].
Qed.

(** The rates of a sampled count, after the origin: from 0 up to 1. *)
Lemma rates_of_counts (counts : list Z) (total : Z) :
  0 < total -> counts <> [] -> chain Z.le counts ->
  Forall (fun c => 0 <= c <= total) counts -> List.last counts 0 = total ->
  let rates := map (ratio total) counts in
  sklearn.rate (0 :: counts) = map Fin (ratio total 0 :: rates)
  /\ chain Qle (ratio total 0 :: rates)
  /\ Forall unit_interval (ratio total 0 :: rates)
  /\ (List.last rates (ratio total 0) == 1)%Q.
Proof.
  intros Ht Hne Hc Hr Hl. cbn zeta.
  assert (Hlast : List.last (0 :: counts) 0 = total).
  { rewrite last_cons_default. exact Hl. }
  repeat split.
  - rewrite rate_positive by lia. rewrite Hlast. reflexivity.
  - change (chain Qle (map (ratio total) (0 :: counts))).
    eapply chain_map; [intros x y Hxy; apply ratio_mono; [exact Ht|exact Hxy]|].
    apply chain_cons; [exact Hc|]. intros b Hb.
    rewrite List.Forall_forall in Hr. apply Hr in Hb. lia.
  - constructor; [apply ratio_unit; lia|].
    apply Forall_map. eapply List.Forall_impl; [|exact Hr].
    intros c Hc'. apply ratio_unit; assumption.
  - rewrite (last_map (ratio total) counts 0) by exact Hne.
    rewrite Hl. apply ratio_one. exact Ht.
Qed.

(** With both classes among the labels, the area under the ROC curve is a
    number in [0, 1]. *)
Lemma roc_auc_unit (y_true : list bool) (y_score : list Q) :
  length y_true = length y_score -> In true y_true -> In false y_true ->
  exists fpr tpr a,
    sklearn.roc_curve y_true y_score = Ok (fpr, tpr)
    /\ sklearn.auc fpr tpr = Ok (Fin a) /\ unit_interval a.
Proof.
  intros Hlen Ht Hf.
  assert (Hne : y_true <> []) by (intros ->; destruct Ht).
  destruct (roc_curve_ok y_true y_score Hlen Hne) as (ys & idxs & Hperm & Hsp & Hroc).
  set (P := sklearn.count (fun t => t) ys).
  set (N := sklearn.count negb ys).
  assert (HP : 0 < P).
  { unfold P. rewrite (count_perm _ _ _ Hperm).
    apply (count_pos_In _ _ true); [exact Ht|reflexivity]. }
  assert (HN : 0 < N).
  { unfold N. rewrite (count_perm _ _ _ Hperm).
    apply (count_pos_In _ _ false); [exact Hf|reflexivity]. }
  destruct (sampled_counts (fun t => t) ys idxs Hsp) as (P1 & P2 & P3 & P4).
  destruct (sampled_counts negb ys idxs Hsp) as (N1 & N2 & N3 & N4).
  destruct (rates_of_counts _ P HP P1 P2 P3 P4) as (Pr & _ & Pu & _).
  destruct (rates_of_counts _ N HN N1 N2 N3 N4) as (Nr & Nc & _ & Nl).
  rewrite Pr, Nr in Hroc. do 2 eexists.
  destruct (auc_unit (map (ratio N) (map (seen negb ys) idxs))
              (map (ratio P) (map (seen (fun t => t) ys) idxs))
              (ratio N 0) (ratio P 0)) as (a & Ha & Hu).
  - rewrite !length_map. reflexivity.
  - destruct idxs; [destruct Hsp; congruence|discriminate].
  - exact Pu.
  - left. split; [exact Nc|]. pose proof (ratio_zero N). lra.
  - exists a. split; [exact Hroc|]. split; [exact Ha|exact Hu].
Qed.

(** ** The precision-recall curve *)

Lemma auc_unit_list (X Y : list Q) :
  length X = length Y -> (2 <= length X)%nat -> Forall unit_interval Y ->
  (chain Qle X /\ (List.last X 0 - hd 0 X <= 1)%Q)
  \/ (chain (fun a b => b <= a)%Q X /\ (hd 0 X - List.last X 0 <= 1)%Q) ->
  exists a, sklearn.auc (map Fin X) (map Fin Y) = Ok (Fin a) /\ unit_interval a.
Proof.
  destruct X as [|x0 xs]; [simpl; lia|]. destruct Y as [|y0 ys]; [discriminate|].
  intros Hlen H2 Hy Hx. cbn [hd] in Hx. rewrite last_cons_default in Hx.
  apply auc_unit.
  - simpl in Hlen. lia.
  - destruct xs; [simpl in H2; lia|discriminate].
  - exact Hy.
  - exact Hx.
Qed.

(** The sum of the average precision: steps of a decreasing abscissa weighted
    by ordinates in [0, 1]. *)
Lemma step_sum_decreasing (xs : list Q) : forall (ps : list Q) x0,
  length xs = length ps ->
  chain (fun a b => b <= a)%Q (x0 :: xs) -> Forall unit_interval ps ->
  exists a,
    np.sum (np.zip_with s_mul (np.diff s_sub (map Fin (x0 :: xs))) (map Fin ps))
    = Fin a
    /\ (0 <= - a <= x0 - List.last xs x0)%Q.
Proof.
  induction xs as [|x1 xs IH]; intros [|p ps] x0 Hlen Hc Hp; try discriminate.
  - exists 0%Q. split; [reflexivity|]. simpl. lra.
  - destruct Hc as [H01 Hc]. inversion Hp as [|? ? Hp0 Hp']; subst.
    injection Hlen as Hlen.
    destruct (IH ps x1 Hlen Hc Hp') as (a & Ha & Hb).
    change (np.sum (np.zip_with s_mul (np.diff s_sub (map Fin (x0 :: x1 :: xs)))
                      (map Fin (p :: ps))))
      with (s_add (s_mul (s_sub (Fin x1) (Fin x0)) (Fin p))
              (np.sum (np.zip_with s_mul (np.diff s_sub (map Fin (x1 :: xs)))
                         (map Fin ps)))).
    rewrite Ha. exists ((x1 - x0) * p + a)%Q. split; [reflexivity|].
    rewrite last_cons_default. unfold unit_interval in Hp0.
    assert (0 <= (x0 - x1) * p)%Q by nra.
    assert ((x0 - x1) * p <= x0 - x1)%Q by nra.
    assert ((x1 - x0) * p == - ((x0 - x1) * p))%Q by ring.
    lra.
Qed.

Lemma zip_with_map2 {A B C D} (f : B -> C -> D) (g : A -> B) (h : A -> C) (l : list A) :
  np.zip_with f (map g l) (map h l) = map (fun a => f (g a) (h a)) l.
Proof.
  induction l as [|a l IH]; simpl; [reflexivity|]. rewrite IH. reflexivity.
Qed.

Lemma hd_rev_app {A} (l t : list A) (d : A) :
  l <> [] -> hd d (rev l ++ t) = List.last l d.
Proof.
  induction l as [|a l IH] using rev_ind; intros Hne; [congruence|].
  rewrite rev_app_distr, last_last. reflexivity.
Qed.

(** What [precision_recall_curve] returns when the labels hold a positive:
    recall decreasing from 1 to 0, precision in [0, 1]. *)
Lemma precision_recall_curve_ok (y_true : list bool) (y_score : list Q) :
  length y_true = length y_score -> In true y_true ->
  exists precision recall,
    sklearn.precision_recall_curve y_true y_score
    = Ok (map Fin precision, map Fin recall)
    /\ length recall = length precision
    /\ (2 <= length recall)%nat
    /\ Forall unit_interval precision
    /\ List.last precision 0%Q = 1%Q
    /\ chain (fun a b => b <= a)%Q recall
    /\ (hd 0 recall == 1)%Q
    /\ List.last recall 0%Q = 0%Q.
Proof.
  intros Hlen Ht.
  assert (Hne : y_true <> []) by (intros ->; destruct Ht).
  destruct (binary_clf_curve_ok y_true y_score Hlen Hne)
    as (ys & idxs & Hperm & Hsp & Hcurve).
  rewrite <- (Permutation_length Hperm) in Hsp.
  set (P := sklearn.count (fun t => t) ys).
  assert (HP : 0 < P).
  { unfold P. rewrite (count_perm _ _ _ Hperm).
    apply (count_pos_In _ _ true); [exact Ht|reflexivity]. }
  destruct (sampled_counts (fun t => t) ys idxs Hsp) as (P1 & P2 & P3 & P4).
  fold P in P3, P4.
  unfold sklearn.precision_recall_curve. rewrite Hcurve. cbn [bind].
  rewrite P4. destruct (Z.eqb_spec P 0) as [E|_]; [lia|].
  rewrite !zip_with_map2.
  set (prec := map (fun k =>
                      if seen (fun t => t) ys k + seen negb ys k =? 0 then 0%Q
                      else (z2q (seen (fun t => t) ys k)
                            / z2q (seen (fun t => t) ys k + seen negb ys k))%Q) idxs).
  set (rec := map (fun t => (z2q t / z2q P)%Q) (map (seen (fun t => t) ys) idxs)).
  exists (rev prec ++ [1%Q]), (rev rec ++ [0%Q]).
  assert (Hidx : idxs <> []) by (destruct Hsp; assumption).
  assert (Hrec : rec <> []).
  { unfold rec. destruct idxs; [congruence|discriminate]. }
  assert (Hrec_unit : Forall unit_interval rec).
  { unfold rec. apply Forall_map. eapply List.Forall_impl; [|exact P3].
    intros c Hc. apply (ratio_unit P c HP Hc). }
  split; [reflexivity|]. repeat split.
  - rewrite !length_app, !length_rev. unfold rec, prec. rewrite !length_map. reflexivity.
  - rewrite length_app, length_rev. simpl. destruct rec; [congruence|simpl; lia].
  - apply Forall_app. split; [|constructor; [unfold unit_interval; lra|constructor]].
    apply Forall_rev. unfold prec. apply Forall_map.
    apply List.Forall_forall. intros k _.
    pose proof (count_nonneg (fun t => t) (firstn (S k) ys)) as H1.
    pose proof (count_nonneg negb (firstn (S k) ys)) as H2.
    fold (seen (fun t => t) ys k) in H1. fold (seen negb ys k) in H2.
    destruct (Z.eqb_spec (seen (fun t => t) ys k + seen negb ys k) 0).
    + unfold unit_interval. lra.
    + apply (ratio_unit (seen (fun t => t) ys k + seen negb ys k)); lia.
  - apply last_last.
  - apply (chain_snoc _ 0%Q).
    + apply chain_rev. unfold rec.
      eapply chain_map; [intros x y Hxy; apply (ratio_mono P x y HP Hxy)|exact P2].
    + intros _. apply Forall_rev in Hrec_unit.
      apply (last_in_range (rev rec) 0%Q) in Hrec_unit.
      * apply Hrec_unit.
      * intros E. apply (f_equal (@rev Q)) in E. rewrite rev_involutive in E.
        simpl in E. congruence.
  - rewrite hd_rev_app by exact Hrec. unfold rec.
    rewrite (last_indep _ 0%Q (ratio P 0))
      by (destruct idxs; [congruence|discriminate]).
    rewrite (last_map (ratio P) _ 0) by exact P1.
    rewrite P4. apply ratio_one. exact HP.
  - apply last_last.
Qed.

(** ** Every score of a valid input is a number in [0, 1] *)

Lemma pr_auc_unit (y_true : list bool) (y_score : list Q) :
  length y_true = length y_score -> In true y_true ->
  exists precision recall a,
    sklearn.precision_recall_curve y_true y_score = Ok (precision, recall)
    /\ sklearn.auc recall precision = Ok (Fin a) /\ unit_interval a.
Proof.
  intros Hlen Ht.
  destruct (precision_recall_curve_ok y_true y_score Hlen Ht)
    as (prec & rec & Hc & Hl & H2 & Hp & _ & Hr & Hh & Hlast).
  destruct (auc_unit_list rec prec Hl H2 Hp) as (a & Ha & Hu).
  { right. split; [exact Hr|]. rewrite Hlast. lra. }
  eauto 10.
Qed.

Lemma removelast_map {A B} (f : A -> B) (l : list A) :
  removelast (map f l) = map f (removelast l).
Proof.
  induction l as [|a l IH]; [reflexivity|].
  destruct l as [|b l]; [reflexivity|].
  change (f a :: removelast (map f (b :: l)) = f a :: map f (removelast (b :: l))).
  rewrite IH. reflexivity.
Qed.

Lemma removelast_Forall {A} (P : A -> Prop) (l : list A) :
  Forall P l -> Forall P (removelast l).
Proof.
  induction l as [|a l IH]; intros H; [constructor|].
  destruct l as [|b l]; [constructor|].
  inversion H; subst. change (Forall P (a :: removelast (b :: l))).
  constructor; [assumption|]. apply IH. assumption.
Qed.

Lemma removelast_length {A} (l : list A) :
  length (removelast l) = (length l - 1)%nat.
Proof.
  induction l as [|a l IH]; [reflexivity|].
  destruct l as [|b l]; [reflexivity|].
  change (length (a :: removelast (b :: l)) = (length (a :: b :: l) - 1)%nat).
  cbn [length] in *. rewrite IH. lia.
Qed.

Lemma avg_precision_unit (y_true : list bool) (y_score : list Q) :
  length y_true = length y_score -> In true y_true ->
  unit_score_result (sklearn.average_precision_score y_true y_score).
Proof.
  intros Hlen Ht.
  destruct (precision_recall_curve_ok y_true y_score Hlen Ht)
    as (prec & rec & Hc & Hl & H2 & Hp & _ & Hr & Hh & Hlast).
  unfold sklearn.average_precision_score. rewrite Hc. cbn [bind].
  rewrite removelast_map.
  destruct rec as [|x0 xs]; [simpl in H2; lia|].
  destruct (step_sum_decreasing xs (removelast prec) x0) as (a & Ha & Hb).
  - rewrite removelast_length, <- Hl. simpl. lia.
  - exact Hr.
  - apply removelast_Forall. exact Hp.
  - rewrite Ha. exists (-1 * a)%Q. split; [reflexivity|].
    cbn [hd] in Hh. rewrite last_cons_default in Hlast. rewrite Hlast in Hb.
    unfold unit_interval. lra.
Qed.

Lemma sum_unit (l : list Q) :
  Forall unit_interval l ->
  (0 <= fold_right Qplus 0 l <= z2q (Z.of_nat (length l)))%Q.
Proof.
  induction 1 as [|q l Hq Hl IH].
  - split; apply Qle_refl.
  - cbn [fold_right length]. rewrite Nat2Z.inj_succ. unfold z2q, Z.succ in *.
    rewrite inject_Z_plus. unfold unit_interval in Hq.
    change (inject_Z 1) with 1%Q.
    set (n := inject_Z (Z.of_nat (length l))) in *.
    set (t := fold_right Qplus 0%Q l) in *. clearbody n t. lra.
Qed.

Lemma existsb_false_Forall {A} (f : A -> bool) (l : list A) :
  existsb f l = false <-> Forall (fun a => f a = false) l.
Proof.
  induction l as [|a l IH]; simpl.
  - split; constructor.
  - rewrite orb_false_iff, IH. split.
    + intros [H1 H2]. constructor; assumption.
    + intros H. inversion H; subst. split; assumption.
Qed.

Lemma zip_with_Forall {A B C} (f : A -> B -> C) (P : C -> Prop) (Q : B -> Prop)
  (a : list A) : forall b : list B,
  Forall Q b -> (forall x y, Q y -> P (f x y)) -> Forall P (np.zip_with f a b).
Proof.
  induction a as [|x a IH]; intros [|y b] Hb Hf; simpl; try constructor.
  - inversion Hb; subst. apply Hf. assumption.
  - inversion Hb; subst. apply IH; assumption.
Qed.

Lemma brier_unit (y_true : list bool) (y_proba : list Q) :
  y_true <> [] -> valid_proba y_true y_proba ->
  unit_score_result (sklearn.brier_score_loss y_true y_proba).
Proof.
  intros Hne [Hlen Hp]. unfold sklearn.brier_score_loss, sklearn.check_consistent_length.
  rewrite (proj2 (Nat.eqb_eq _ _) (eq_sym Hlen)). cbn [bind].
  destruct y_proba as [|p0 ps] eqn:E.
  { destruct y_true; [congruence|discriminate]. }
  rewrite <- E in *. clear E p0 ps.
  assert (H1 : existsb (fun p => Qltb 1 p) y_proba = false).
  { apply existsb_false_Forall. eapply List.Forall_impl; [|exact Hp].
    intros p [_ Hp1]. apply Qltb_ge. exact Hp1. }
  assert (H0 : existsb (fun p => Qltb p 0) y_proba = false).
  { apply existsb_false_Forall. eapply List.Forall_impl; [|exact Hp].
    intros p [Hp0 _]. apply Qltb_ge. exact Hp0. }
  rewrite H1, H0.
  set (sq := np.zip_with (fun y p => ((b2q y - p) * (b2q y - p))%Q) y_true y_proba).
  assert (Hsq : Forall unit_interval sq).
  { unfold sq. apply (zip_with_Forall _ _ unit_interval); [exact Hp|].
    intros y p [Hp0 Hp1]. unfold unit_interval.
    destruct y; unfold b2q, b2z, z2q; simpl inject_Z.
    - change (inject_Z 1) with 1%Q. nra.
    - change (inject_Z 0) with 0%Q. nra. }
  assert (Hn : (0 < length sq)%nat).
  { unfold sq. rewrite zip_with_length by (symmetry; exact Hlen).
    destruct y_true; [congruence|simpl; lia]. }
  pose proof (sum_unit sq Hsq) as [Hs0 Hs1].
  eexists. split; [reflexivity|].
  assert (Hpos : (0 < z2q (Z.of_nat (length sq)))%Q).
  { unfold z2q. change 0%Q with (inject_Z 0). rewrite <- Zlt_Qlt. lia. }
  unfold unit_interval. split.
  - apply Qle_shift_div_l; [exact Hpos|]. lra.
  - apply Qle_shift_div_r; [exact Hpos|]. lra.
Qed.

Lemma count_combine_snd {A B} (g : B -> bool) (a : list A) : forall b : list B,
  length a = length b ->
  sklearn.count (fun '(_, p) => g p) (combine a b) = sklearn.count g b.
Proof.
  induction a as [|x a IH]; intros [|y b] H; try discriminate; [reflexivity|].
  simpl combine. rewrite !count_cons. rewrite IH by (simpl in H; lia). reflexivity.
Qed.

Lemma count_combine_fst {A B} (g : A -> bool) (a : list A) : forall b : list B,
  length a = length b ->
  sklearn.count (fun '(t, _) => g t) (combine a b) = sklearn.count g a.
Proof.
  induction a as [|x a IH]; intros [|y b] H; try discriminate; [reflexivity|].
  simpl combine. rewrite !count_cons. rewrite IH by (simpl in H; lia). reflexivity.
Qed.

Lemma fraction_unit (a b : Z) :
  0 <= a <= b ->
  unit_interval (if b =? 0 then 0%Q else (z2q a / z2q b)%Q).
Proof.
  intros H. destruct (Z.eqb_spec b 0).
  - unfold unit_interval. lra.
  - apply (ratio_unit b a); lia.
Qed.

Lemma precision_unit (y_true y_pred : list bool) :
  length y_true = length y_pred ->
  unit_score_result (sklearn.precision_score y_true y_pred).
Proof.
  intros Hlen. unfold sklearn.precision_score, sklearn.check_consistent_length.
  rewrite (proj2 (Nat.eqb_eq _ _) Hlen). cbn [bind].
  eexists. split; [reflexivity|]. apply fraction_unit. split.
  - apply count_nonneg.
  - rewrite <- (count_combine_snd (fun p => p) y_true y_pred Hlen).
    apply count_le. intros [t p] _. destruct t, p; simpl; congruence.
Qed.

Lemma recall_unit (y_true y_pred : list bool) :
  length y_true = length y_pred ->
  unit_score_result (sklearn.recall_score y_true y_pred).
Proof.
  intros Hlen. unfold sklearn.recall_score, sklearn.check_consistent_length.
  rewrite (proj2 (Nat.eqb_eq _ _) Hlen). cbn [bind].
  eexists. split; [reflexivity|]. apply fraction_unit. split.
  - apply count_nonneg.
  - rewrite <- (count_combine_fst (fun t => t) y_true y_pred Hlen).
    apply count_le. intros [t p] _. destruct t, p; simpl; congruence.
Qed.

(** The counts of the first row of the confusion matrix add up to the number
    of negative labels. *)
Lemma negatives_split (y pred : list bool) :
  length y = length pred ->
  sklearn.count (fun '(t, p) => negb t && negb p) (combine y pred)
  + sklearn.count (fun '(t, p) => negb t && p) (combine y pred)
  = sklearn.count negb y.
Proof. apply (count_pairs_split negb). Qed.

(** With both classes among the labels the specificity is a number: the
    denominator counts the negative labels. *)
Lemma specificity_value (y_test pred : list bool) :
  In false y_test -> length y_test = length pred ->
  let tn := sklearn.count (fun '(t, p) => negb t && negb p) (combine y_test pred) in
  let fp := sklearn.count (fun '(t, p) => negb t && p) (combine y_test pred) in
  tn + fp = sklearn.count negb y_test
  /\ 0 < tn + fp
  /\ np.true_divide tn (tn + fp) = Fin (z2q tn / z2q (tn + fp))
  /\ unit_interval (z2q tn / z2q (tn + fp)).
Proof.
  intros Hf Hlen tn fp.
  assert (Hsum : tn + fp = sklearn.count negb y_test)
    by (apply negatives_split; exact Hlen).
  assert (Hpos : 0 < tn + fp).
  { rewrite Hsum. apply (count_pos_In _ _ false); [exact Hf|reflexivity]. }
  split; [exact Hsum|]. split; [exact Hpos|]. split.
  - unfold np.true_divide. destruct (Z.eqb_spec (tn + fp) 0); [lia|reflexivity].
  - apply (ratio_unit (tn + fp) tn Hpos).
    pose proof (count_nonneg (fun '(t, p) => negb t && negb p) (combine y_test pred)).
    pose proof (count_nonneg (fun '(t, p) => negb t && p) (combine y_test pred)).
    fold tn in H. fold fp in H0. lia.
Qed.

(** The loop body on a valid input: it returns, and every score is a number
    in [0, 1]. *)
Lemma compute_scores_valid (y_test : list bool) (proba : list Q) (threshold : Q) :
  both_classes y_test -> valid_proba y_test proba ->
  exists s, compute_scores y_test proba threshold = Ok s
            /\ Forall unit_score (scores_list s).
Proof.
  intros [Ht Hf] Hv. pose proof Hv as [Hlen Hp].
  assert (Hne : y_test <> []) by (intros ->; destruct Ht).
  assert (Hlen' : length y_test = length proba) by (symmetry; exact Hlen).
  assert (Hpred : length y_test = length (np.where_gt proba threshold))
    by (rewrite where_gt_length; exact Hlen').
  destruct (roc_auc_unit y_test proba Hlen' Ht Hf) as (fpr & tpr & a1 & R1 & R2 & U1).
  destruct (pr_auc_unit y_test proba Hlen' Ht) as (prec & rec & a2 & Q1 & Q2 & U2).
  destruct (precision_unit y_test _ Hpred) as (a3 & R3 & U3).
  destruct (recall_unit y_test _ Hpred) as (a4 & R4 & U4).
  destruct (specificity_value y_test _ Hf Hpred) as (_ & _ & R5 & U5).
  destruct (avg_precision_unit y_test proba Hlen' Ht) as (a6 & R6 & U6).
  destruct (brier_unit y_test proba Hne Hv) as (a7 & R7 & U7).
  unfold compute_scores.
  rewrite R1. cbn [bind]. rewrite R2. cbn [bind]. rewrite Q1. cbn [bind].
  rewrite Q2. cbn [bind]. rewrite R3. cbn [bind]. rewrite R4. cbn [bind].
  rewrite (confusion_matrix_both y_test _ Ht Hf Hpred). cbn [bind concat app].
  rewrite R5, R6. cbn [bind]. rewrite R7. cbn [bind].
  eexists. split; [reflexivity|].
  unfold scores_list. cbn [roc_auc pr_auc model_precision model_recall
    model_specificity avg_precision brier_score].
  repeat constructor; eexists; (split; [reflexivity|assumption]).
Qed.

(** ** The first highest and the first lowest score of a column *)

Lemma higher_first_best (col : list score) (k : nat) :
  pd.nanarg higher None 0%nat col = Some k ->
  exists q, nth_error col k = Some (Fin q)
    /\ (forall j x, nth_error col j = Some (Fin x) -> (x <= q)%Q)
    /\ (forall j x, (j < k)%nat -> nth_error col j = Some (Fin x) -> (x < q)%Q).
Proof.
  intros H.
  destruct (nanarg_first_best higher (fun q b => (b < q)%Q)) with (col := col) (k := k)
    as (q & H1 & H2 & H3).
  - intros q b. apply Qltb_lt.
  - intros q. apply Qlt_irrefl.
  - intros q b Hqb Hbq. apply (Qlt_irrefl q). eapply Qlt_trans; eauto.
  - intros q b x Hqb Hxb. apply Qnot_lt_le in Hxb. eapply Qle_lt_trans; eauto.
  - exact H.
  - exists q. split; [exact H1|]. split; [|exact H3].
    intros j x Hj. apply Qnot_lt_le. eapply H2; eauto.
Qed.

Lemma lower_first_best (col : list score) (k : nat) :
  pd.nanarg lower None 0%nat col = Some k ->
  exists q, nth_error col k = Some (Fin q)
    /\ (forall j x, nth_error col j = Some (Fin x) -> (q <= x)%Q)
    /\ (forall j x, (j < k)%nat -> nth_error col j = Some (Fin x) -> (q < x)%Q).
Proof.
  intros H.
  destruct (nanarg_first_best lower (fun q b => (q < b)%Q)) with (col := col) (k := k)
    as (q & H1 & H2 & H3).
  - intros q b. apply Qltb_lt.
  - intros q. apply Qlt_irrefl.
  - intros q b Hqb Hbq. apply (Qlt_irrefl q). eapply Qlt_trans; eauto.
  - intros q b x Hqb Hxb. apply Qnot_lt_le in Hxb. eapply Qlt_le_trans; eauto.
  - exact H.
  - exists q. split; [exact H1|]. split; [|exact H3].
    intros j x Hj. apply Qnot_lt_le. eapply H2; eauto.
Qed.

Lemma nanarg_none_no_number (better : Q -> Q -> bool) (l : list score) :
  forall best i, pd.nanarg better best i l = None ->
  best = None /\ forall j x, nth_error l j <> Some (Fin x).
Proof.
  induction l as [|[q|] l IH]; intros best i H; simpl in H.
  - destruct best as [[bi bq]|]; [discriminate|].
    split; [reflexivity|]. intros [|j] x; discriminate.
  - destruct best as [[bi bq]|].
    + destruct (better q bq); apply IH in H; destruct H; discriminate.
    + apply IH in H. destruct H; discriminate.
  - apply IH in H. destruct H as [-> H]. split; [reflexivity|].
    intros [|j] x; [discriminate|apply H].
Qed.

Lemma best_of_inv better names col c :
  best_of better names col = Ok c ->
  exists i, pd.nanarg better None 0%nat col = Some i
            /\ (i < length col)%nat /\ c = CStr (nth i names "").
Proof.
  unfold best_of. destruct col as [|x col]; [discriminate|].
  destruct (pd.nanarg better None 0%nat (x :: col)) as [i|] eqn:E; [|discriminate].
  intros H. apply Ok_inj in H. subst c. exists i.
  split; [reflexivity|]. split; [|reflexivity]. apply nanarg_lt in E. exact E.
Qed.

Lemma best_of_total better names col q :
  nth_error col 0 = Some (Fin q) -> exists c, best_of better names col = Ok c.
Proof.
  intros H. unfold best_of. destruct col as [|x col]; [discriminate|].
  destruct (pd.nanarg better None 0%nat (x :: col)) as [i|] eqn:E; [eauto|].
  apply nanarg_none_no_number in E. destruct E as [_ E].
  exfalso. eapply E; eauto.
Qed.

Lemma nanarg_points_to_number (better : Q -> Q -> bool) (l : list score) :
  forall i best k, pd.nanarg better best i l = Some k ->
  (exists q, best = Some (k, q))
  \/ exists x, nth_error l (k - i) = Some (Fin x) /\ (i <= k)%nat.
Proof.
  induction l as [|[q|] l IH]; intros i0 best k Hk; simpl in Hk.
  - destruct best as [[bi bq]|]; [|discriminate]. injection Hk as <-. eauto.
  - destruct best as [[bi bq]|].
    + destruct (better q bq).
      * apply IH in Hk. destruct Hk as [[q' Hk]|(x' & Hx & Hle)].
        -- injection Hk as <- <-. right. exists q. rewrite Nat.sub_diag. auto.
        -- right. exists x'. split; [|lia].
           replace (k - i0)%nat with (S (k - S i0)) by lia. exact Hx.
      * apply IH in Hk. destruct Hk as [Hk|(x' & Hx & Hle)]; [auto|].
        right. exists x'. split; [|lia].
        replace (k - i0)%nat with (S (k - S i0)) by lia. exact Hx.
    + apply IH in Hk. destruct Hk as [[q' Hk]|(x' & Hx & Hle)].
      * injection Hk as <- <-. right. exists q. rewrite Nat.sub_diag. auto.
      * right. exists x'. split; [|lia].
        replace (k - i0)%nat with (S (k - S i0)) by lia. exact Hx.
  - apply IH in Hk. destruct Hk as [Hk|(x' & Hx & Hle)]; [auto|].
    right. exists x'. split; [|lia].
    replace (k - i0)%nat with (S (k - S i0)) by lia. exact Hx.
Qed.

(** A column without any number: the selection fails. *)
Lemma best_of_all_nan better names col :
  (forall j x, nth_error col j <> Some (Fin x)) ->
  exists e, best_of better names col = Raise e.
Proof.
  intros H. unfold best_of. destruct col as [|x col]; [eauto|].
  destruct (pd.nanarg better None 0%nat (x :: col)) as [i|] eqn:E; [|eauto].
  exfalso. apply nanarg_points_to_number in E.
  destruct E as [[q E]|(x' & Hx & _)]; [discriminate|].
  eapply H; eauto.
Qed.

(** ** A valid input returns a table *)

Lemma all_scores_valid y_test threshold model_dict :
  both_classes y_test ->
  Forall (fun item => valid_proba y_test (snd item)) model_dict ->
  exists rows, all_scores y_test threshold model_dict = Ok rows
               /\ Forall unit_scores rows.
Proof.
  intros Hy Hv. induction Hv as [|[name proba] rest Hp Hrest IH].
  - exists []. split; [reflexivity|constructor].
  - destruct IH as (rows & Hr & Hu).
    destruct (compute_scores_valid y_test proba threshold Hy Hp) as (s & Hs & Hsu).
    exists (s :: rows). simpl. rewrite Hs. cbn [bind]. rewrite Hr. cbn [bind].
    split; [reflexivity|]. constructor; assumption.
Qed.

Lemma best_models_of_total names rows :
  rows <> [] -> Forall unit_scores rows ->
  exists bests, best_models_of names rows selectors = Ok bests.
Proof.
  intros Hne Hu. destruct rows as [|s0 rows]; [congruence|].
  inversion Hu as [|? ? Hs0 _]; subst. unfold unit_scores, scores_list in Hs0.
  repeat match goal with
         | H : Forall _ (_ :: _) |- _ => inversion H; clear H; subst
         end.
  repeat match goal with
         | H : unit_score _ |- _ => destruct H as (? & ? & _)
         end.
  unfold selectors, best_models_of.
  repeat match goal with
         | |- context [best_of ?b names (map ?f (s0 :: rows))] =>
             let c := fresh "c" in
             let Hc := fresh "Hc" in
             destruct (best_of_total b names (map f (s0 :: rows)) _
                         ltac:(cbn [map nth_error]; f_equal; eassumption))
               as (c & Hc);
             rewrite Hc; cbn [bind]
         end.
  eauto.
Qed.

Lemma final_table_total names rows bests :
  length bests = length selectors ->
  exists df, final_table names rows bests = Ok df.
Proof.
  intros H. unfold final_table, pd.setitem. cbn [pd.index].
  unfold metric_names. cbn [map length]. rewrite H. cbn [selectors length Nat.eqb].
  destruct (existsb _ _); eauto.
Qed.

(** Labels with both classes, at least one model, probability vectors of the
    labels' length with values in [0, 1]: the call returns a table, whatever
    the threshold. *)
Lemma evaluate_valid y_test model_dict threshold :
  both_classes y_test -> valid_models y_test model_dict ->
  exists df, evaluate_model_metrics y_test model_dict threshold = Ok df.
Proof.
  intros Hy [Hne Hv]. rewrite evaluate_closed_form.
  destruct (all_scores_valid y_test threshold model_dict Hy Hv) as (rows & Hr & Hu).
  rewrite Hr. cbn [bind].
  assert (Hrows : rows <> []).
  { apply all_scores_length in Hr. destruct rows; [|discriminate].
    destruct model_dict; [congruence|discriminate]. }
  destruct (best_models_of_total (map fst model_dict) rows Hrows Hu) as (bests & Hb).
  rewrite Hb. cbn [bind].
  apply final_table_total. eapply best_models_of_length; eauto.
Qed.

(** ** Inputs on which no table is returned *)

Lemma binary_clf_curve_checks y_true y_score r :
  sklearn.binary_clf_curve y_true y_score = Ok r ->
  length y_true = length y_score /\ y_true <> [].
Proof.
  unfold sklearn.binary_clf_curve, sklearn.check_consistent_length.
  destruct (Nat.eqb_spec (length y_true) (length y_score)) as [E|E];
    [|discriminate].
  cbn [bind]. intros H. split; [exact E|]. intros ->.
  destruct y_score; [|discriminate]. discriminate.
Qed.

Lemma shape_mismatch_raises y_test proba threshold :
  length proba <> length y_test ->
  compute_scores y_test proba threshold = Raise ValueError.
Proof.
  intros H. unfold compute_scores, sklearn.roc_curve, sklearn.binary_clf_curve,
    sklearn.check_consistent_length.
  destruct (Nat.eqb_spec (length y_test) (length proba)) as [E|E];
    [congruence|reflexivity].
Qed.

Lemma trapz_nan_x (y0 y1 : score) (ys xs : list score) :
  np.trapz (y0 :: y1 :: ys) (NaN :: NaN :: xs) = NaN.
Proof. rewrite trapz_cons. reflexivity. Qed.

Lemma trapz_nan_y (x0 x1 : score) (ys xs : list score) :
  np.trapz (NaN :: NaN :: ys) (x0 :: x1 :: xs) = NaN.
Proof.
  rewrite trapz_cons. destruct (s_sub x1 x0); reflexivity.
Qed.

Lemma auc_nan (x y : list score) (r : score) :
  (exists xs, x = NaN :: NaN :: xs) \/ (exists ys, y = NaN :: NaN :: ys) ->
  sklearn.auc x y = Ok r -> r = NaN.
Proof.
  unfold sklearn.auc, sklearn.check_consistent_length. intros Hnan H.
  destruct (length x =? length y)%nat eqn:El; [|discriminate].
  apply Nat.eqb_eq in El. cbn [bind] in H.
  destruct (length x <? 2)%nat eqn:E2; [discriminate|].
  apply Nat.ltb_ge in E2.
  apply bind_ok in H. destruct H as (dir & _ & H). apply Ok_inj in H. subst r.
  destruct x as [|x0 [|x1 xs]]; try (simpl in E2; lia).
  destruct y as [|y0 [|y1 ys]]; try (simpl in El; lia).
  destruct Hnan as [(xs' & E)|(ys' & E)]; injection E as -> -> _.
  - rewrite trapz_nan_x. reflexivity.
  - rewrite trapz_nan_y. reflexivity.
Qed.

Lemma count_zero {A} (f : A -> bool) (l : list A) :
  (forall a, In a l -> f a = false) -> sklearn.count f l = 0.
Proof.
  induction l as [|a l IH]; intros H; [reflexivity|].
  rewrite count_cons, IH by (intros; apply H; right; assumption).
  rewrite (H a (or_introl eq_refl)). reflexivity.
Qed.

Lemma rate_nan_head (counts : list Z) :
  counts <> [] -> List.last counts 0 = 0 ->
  exists r, sklearn.rate (0 :: counts) = NaN :: NaN :: r.
Proof.
  intros Hne Hl. rewrite rate_undefined by (rewrite last_cons_default; lia).
  destruct counts as [|c counts]; [congruence|]. simpl. eauto.
Qed.

(** Without both classes among the labels the area under the ROC curve is
    nan: one of the two rates is undefined. *)
Lemma roc_auc_single_class y_test proba threshold s :
  ~ both_classes y_test ->
  compute_scores y_test proba threshold = Ok s -> roc_auc s = NaN.
Proof.
  intros Hy H. apply compute_scores_inv in H.
  destruct H as ((fpr & tpr & Hroc & Hauc) & _).
  assert (Hchk : length y_test = length proba /\ y_test <> []).
  { unfold sklearn.roc_curve in Hroc. apply bind_ok in Hroc.
    destruct Hroc as (r & Hr & _). eapply binary_clf_curve_checks; eauto. }
  destruct Hchk as [Hlen Hne].
  destruct (roc_curve_ok y_test proba Hlen Hne) as (ys & idxs & Hperm & Hsp & Hroc').
  rewrite Hroc' in Hroc. apply Ok_inj in Hroc. injection Hroc as <- <-.
  destruct (sampled_counts (fun t => t) ys idxs Hsp) as (P1 & _ & _ & P4).
  destruct (sampled_counts negb ys idxs Hsp) as (N1 & _ & _ & N4).
  apply (auc_nan _ _ _ ) in Hauc; [exact Hauc|].
  destruct (in_dec Bool.bool_dec true y_test) as [Ht|Ht].
  - (* no negative label *)
    assert (Hf : ~ In false y_test) by (intros Hf; apply Hy; split; assumption).
    left. apply rate_nan_head; [exact N1|]. rewrite N4.
    apply count_zero. intros [] Ha; [reflexivity|].
    exfalso. apply Hf. eapply Permutation_in; eauto.
  - right. apply rate_nan_head; [exact P1|]. rewrite P4.
    apply count_zero. intros [] Ha; [|reflexivity].
    exfalso. apply Ht. eapply Permutation_in; eauto.
Qed.

(** Labels that lack one of the two classes: no table is returned. *)
Lemma single_class_raises y_test model_dict threshold :
  ~ both_classes y_test ->
  exists e, evaluate_model_metrics y_test model_dict threshold = Raise e.
Proof.
  intros Hy. rewrite evaluate_closed_form.
  destruct (all_scores y_test threshold model_dict) as [rows|e] eqn:Hr; [|eauto].
  cbn [bind]. unfold selectors, best_models_of.
  destruct (best_of_all_nan higher (map fst model_dict) (map roc_auc rows))
    as (e & He).
  - intros j x Hj. rewrite nth_error_map in Hj.
    destruct (nth_error rows j) as [s|] eqn:Es; [|discriminate].
    injection Hj as Hj.
    assert (Hs : exists name proba, nth_error model_dict j = Some (name, proba)
                   /\ compute_scores y_test proba threshold = Ok s).
    { clear - Hr Es. revert rows j Hr Es.
      induction model_dict as [|[n p] rest IH]; intros rows j Hr Es; simpl in Hr.
      - apply Ok_inj in Hr. subst rows. destruct j; discriminate.
      - apply bind_ok in Hr. destruct Hr as (s0 & Hs0 & Hr).
        apply bind_ok in Hr. destruct Hr as (ss & Hss & Hr).
        apply Ok_inj in Hr. subst rows. destruct j as [|j]; simpl in Es.
        + injection Es as <-. exists n, p. auto.
        + destruct (IH ss j Hss Es) as (n' & p' & H1 & H2). exists n', p'. auto. }
    destruct Hs as (name & proba & _ & Hs).
    rewrite (roc_auc_single_class y_test proba threshold s Hy Hs) in Hj.
    discriminate.
  - rewrite He. eauto.
Qed.

Lemma evaluate_ok_both_classes y_test model_dict threshold df :
  evaluate_model_metrics y_test model_dict threshold = Ok df ->
  both_classes y_test.
Proof.
  intros H.
  destruct (in_dec Bool.bool_dec true y_test) as [Ht|Ht];
    destruct (in_dec Bool.bool_dec false y_test) as [Hf|Hf];
    try (split; assumption);
    destruct (single_class_raises y_test model_dict threshold) as (e & He);
    try (intros [? ?]; contradiction); congruence.
Qed.

Lemma empty_model_map_raises y_test threshold :
  evaluate_model_metrics y_test [] threshold = Raise ValueError.
Proof. reflexivity. Qed.

Lemma all_scores_mismatch y_test threshold model_dict :
  Exists (fun item => length (snd item) <> length y_test) model_dict ->
  exists e, all_scores y_test threshold model_dict = Raise e.
Proof.
  induction 1 as [[name proba] rest H|[name proba] rest H IH]; simpl.
  - simpl in H. rewrite shape_mismatch_raises by exact H. eauto.
  - destruct (compute_scores y_test proba threshold); [|eauto].
    destruct IH as (e & ->). eauto.
Qed.

Lemma shape_mismatch_no_table y_test model_dict threshold :
  Exists (fun item => length (snd item) <> length y_test) model_dict ->
  exists e, evaluate_model_metrics y_test model_dict threshold = Raise e.
Proof.
  intros H. rewrite evaluate_closed_form.
  destruct (all_scores_mismatch y_test threshold model_dict H) as (e & ->). eauto.
Qed.

(** ** The "Best Model" column *)

Lemma evaluate_rows y_test model_dict threshold df :
  evaluate_model_metrics y_test model_dict threshold = Ok df ->
  exists rows bests,
    scores_in_table y_test threshold model_dict df rows
    /\ best_models_of (map fst model_dict) rows selectors = Ok bests
    /\ pd.getitem df (CStr "Best Model")
       = Ok {| pd.s_index := map CStr metric_names; pd.s_values := bests |}.
Proof.
  intros H.
  destruct (evaluate_ok_inv _ _ _ _ H) as (rows & bests & Hr & Hb & Hf).
  destruct (final_table_inv bests _ _ _ Hf) as (_ & _ & Hg & _).
  exists rows, bests. split; [|split; assumption].
  split; [eapply all_scores_length; eauto|].
  intros j name proba Hj.
  destruct (all_scores_nth _ _ _ _ Hr j name proba Hj) as (s & Hs & Hc).
  destruct (table_column _ _ _ _ H j name proba Hj) as (s' & Hc' & Hshow).
  exists s. split; [exact Hs|]. split; [exact Hc|].
  rewrite Hc in Hc'. apply Ok_inj in Hc'. subst s'. exact Hshow.
Qed.

Lemma best_models_inv names rows bests :
  best_models_of names rows selectors = Ok bests ->
  exists b0 b1 b2 b3 b4 b5 b6,
    bests = [b0; b1; b2; b3; b4; b5; b6]
    /\ best_of higher names (map roc_auc rows) = Ok b0
    /\ best_of higher names (map pr_auc rows) = Ok b1
    /\ best_of higher names (map model_precision rows) = Ok b2
    /\ best_of higher names (map model_recall rows) = Ok b3
    /\ best_of higher names (map model_specificity rows) = Ok b4
    /\ best_of higher names (map avg_precision rows) = Ok b5
    /\ best_of lower names (map brier_score rows) = Ok b6.
Proof.
  unfold selectors, best_models_of. intros H.
  repeat match goal with
         | H : bind _ _ = Ok _ |- _ =>
             let b := fresh "b" in
             let Hb := fresh "Hb" in
             apply bind_ok in H; destruct H as (b & Hb & H)
         | H : Ok _ = Ok _ |- _ => apply Ok_inj in H; subst
         end.
  do 7 eexists. split; [reflexivity|]. repeat split; eassumption.
Qed.

Lemma best_entry (model_dict : ModelMap) rows better (f : Scores -> score) b :
  length rows = length model_dict ->
  best_of better (map fst model_dict) (map f rows) = Ok b ->
  exists k name proba,
    nth_error model_dict k = Some (name, proba)
    /\ b = CStr name
    /\ pd.nanarg better None 0%nat (map f rows) = Some k.
Proof.
  intros Hlen H. apply best_of_inv in H. destruct H as (i & Hi & Hlt & ->).
  rewrite length_map, Hlen in Hlt.
  destruct (nth_error model_dict i) as [[name proba]|] eqn:E.
  - exists i, name, proba. split; [exact E|]. split; [|exact Hi].
    f_equal. apply nth_error_nth. rewrite nth_error_map, E. reflexivity.
  - apply nth_error_None in E. lia.
Qed.

(** C9. When a table is returned, its "Best Model" column holds one entry per
    metric row, and every entry is a key of the input model map. *)
Theorem best_model_is_an_input_name y_test model_dict threshold df :
  evaluate_model_metrics y_test model_dict threshold = Ok df ->
  exists bests,
    pd.getitem df (CStr "Best Model")
    = Ok {| pd.s_index := map CStr metric_names; pd.s_values := bests |}
    /\ length bests = length metric_names
    /\ Forall (fun c => exists name, c = CStr name /\ In name (map fst model_dict))
         bests.
Proof.
  intros H.
  destruct (evaluate_rows _ _ _ _ H) as (rows & bests & [Hlen _] & Hb & Hg).
  exists bests. split; [exact Hg|].
  destruct (best_models_inv _ _ _ Hb)
    as (b0 & b1 & b2 & b3 & b4 & b5 & b6 & -> & B0 & B1 & B2 & B3 & B4 & B5 & B6).
  split; [reflexivity|].
  repeat constructor;
    match goal with
    | |- exists name, ?b = _ /\ _ =>
        match goal with
        | Hbest : best_of _ _ (map ?f rows) = Ok b |- _ =>
            destruct (best_entry model_dict rows _ f b Hlen Hbest)
              as (k & name & proba & Hk & -> & _);
            exists name; split; [reflexivity|];
            apply in_map_iff; exists (name, proba); split; [reflexivity|];
            eapply nth_error_In; exact Hk
        end
    end.
Qed.

(** ** Bounds of the table *)

(** With exact arithmetic: on a valid input (both classes among the labels,
    a non-empty model map, probability vectors of the labels' length with
    values in [0, 1]) a table is returned; every score of every model is a
    number in [0, 1], the table shows it in the column of the model, and every
    column of the table other than "Best Model" holds numbers in [0, 1]
    only. *)
Lemma exact_scores_in_unit_interval y_test model_dict threshold :
  both_classes y_test -> valid_models y_test model_dict ->
  (0 < threshold < 1)%Q ->
  exists df,
    evaluate_model_metrics y_test model_dict threshold = Ok df
    /\ (forall j name proba,
          nth_error model_dict j = Some (name, proba) ->
          exists s, compute_scores y_test proba threshold = Ok s
                    /\ unit_scores s /\ shows_scores df j name s)
    /\ (forall label col,
          In (label, col) (pd.cols df) -> label <> CStr "Best Model" ->
          length col = length metric_names /\ Forall unit_cell col).
Proof.
  intros Hy Hv _. pose proof Hv as [Hne Hvp].
  destruct (evaluate_valid y_test model_dict threshold Hy Hv) as (df & Hdf).
  exists df. split; [exact Hdf|].
  assert (Hunit : forall proba s,
            In proba (map snd model_dict) ->
            compute_scores y_test proba threshold = Ok s -> unit_scores s).
  { intros proba s Hin Hs. apply in_map_iff in Hin.
    destruct Hin as ([n p] & <- & Hin). rewrite List.Forall_forall in Hvp.
    destruct (compute_scores_valid y_test p threshold Hy (Hvp _ Hin))
      as (s' & Hs' & Hu). cbn [snd] in Hs. rewrite Hs' in Hs.
    apply Ok_inj in Hs. subst s'. exact Hu. }
  split.
  - intros j name proba Hj.
    destruct (table_column _ _ _ _ Hdf j name proba Hj) as (s & Hs & Hshow).
    exists s. split; [exact Hs|]. split; [|exact Hshow].
    apply (Hunit proba s); [|exact Hs].
    apply in_map_iff. exists (name, proba). split; [reflexivity|].
    eapply nth_error_In; eauto.
  - intros label col Hin Hlabel.
    destruct (evaluate_ok_inv _ _ _ _ Hdf) as (rows & bests & Hr & Hb & Hf).
    destruct (final_table_inv bests _ _ _ Hf) as (_ & _ & _ & Hcols).
    destruct (Hcols label col Hin Hlabel) as (name & s & _ & Hs & Hcol).
    unfold column_of in Hcol. apply pair_equal_spec in Hcol.
    destruct Hcol as [-> ->].
    assert (Hsu : unit_scores s).
    { apply In_nth_error in Hs. destruct Hs as (j & Hj).
      destruct (nth_error model_dict j) as [[n p]|] eqn:E.
      - destruct (all_scores_nth _ _ _ _ Hr j n p E) as (s' & Hs' & Hc).
        rewrite Hj in Hs'. apply Some_inj in Hs'. subst s'.
        apply (Hunit p s); [|exact Hc].
        apply in_map_iff. exists (n, p). split; [reflexivity|].
        eapply nth_error_In; eauto.
      - apply nth_error_None in E. apply all_scores_length in Hr.
        assert (j < length rows)%nat by (apply nth_error_Some; congruence). lia. }
    split; [rewrite length_map; reflexivity|].
    apply Forall_map. eapply List.Forall_impl; [|exact Hsu].
    intros x (q & -> & Hq). exists q. auto.
Qed.

(** ** Precision, recall and specificity at a threshold *)

Lemma compute_scores_checks y_test proba threshold s :
  compute_scores y_test proba threshold = Ok s ->
  length y_test = length proba /\ y_test <> [].
Proof.
  intros H. apply compute_scores_inv in H.
  destruct H as ((fpr & tpr & Hroc & _) & _).
  unfold sklearn.roc_curve in Hroc. apply bind_ok in Hroc.
  destruct Hroc as (r & Hr & _). eapply binary_clf_curve_checks; eauto.
Qed.



(** C4. The predictions used for precision, recall and the confusion matrix
    (hence specificity) are the probabilities binarized with a strict
    comparison: 1 above the threshold, 0 at the threshold and below.  The
    area under the ROC curve, the area under the precision-recall curve, the
    average precision and the Brier score are computed from the raw
    probabilities, and stay the same when the threshold changes. *)
Theorem threshold_binarization y_test proba threshold :
  (forall i p, nth_error proba i = Some p ->
     exists b, nth_error (np.where_gt proba threshold) i = Some b
               /\ ((threshold < p)%Q -> b = true)
               /\ ((p <= threshold)%Q -> b = false)
               /\ ((p == threshold)%Q -> b = false))
  /\ (forall s, compute_scores y_test proba threshold = Ok s ->
        let predicted_labels := np.where_gt proba threshold in
        sklearn.precision_score y_test predicted_labels = Ok (model_precision s)
        /\ sklearn.recall_score y_test predicted_labels = Ok (model_recall s)
        /\ (exists cm tn fp fn tp,
              sklearn.confusion_matrix y_test predicted_labels = Ok cm
              /\ concat cm = [tn; fp; fn; tp]
              /\ model_specificity s = np.true_divide tn (tn + fp))
        /\ (exists fpr tpr, sklearn.roc_curve y_test proba = Ok (fpr, tpr)
                            /\ sklearn.auc fpr tpr = Ok (roc_auc s))
        /\ (exists precision recall,
              sklearn.precision_recall_curve y_test proba = Ok (precision, recall)
              /\ sklearn.auc recall precision = Ok (pr_auc s))
        /\ sklearn.average_precision_score y_test proba = Ok (avg_precision s)
        /\ sklearn.brier_score_loss y_test proba = Ok (brier_score s))
  /\ (forall threshold' s s',
        compute_scores y_test proba threshold = Ok s ->
        compute_scores y_test proba threshold' = Ok s' ->
        roc_auc s = roc_auc s' /\ pr_auc s = pr_auc s'
        /\ avg_precision s = avg_precision s' /\ brier_score s = brier_score s').
Proof.
  split; [|split].
  - intros i p Hp. unfold np.where_gt. rewrite nth_error_map, Hp. cbn [option_map].
    eexists. split; [reflexivity|]. repeat split.
    + intros H. apply Qltb_lt. exact H.
    + intros H. apply Qltb_ge. exact H.
    + intros H. apply Qltb_ge. rewrite H. apply Qle_refl.
  - intros s Hs. apply compute_scores_inv in Hs. cbn zeta in *.
    destruct Hs as (H1 & H2 & H3 & H4 & H5 & H6 & H7).
    repeat split; assumption.
  - intros t' s s' Hs Hs'.
    apply compute_scores_inv in Hs. apply compute_scores_inv in Hs'.
    destruct Hs as ((fpr & tpr & R1 & R2) & (pr & rc & P1 & P2) & _ & _ & _ & A & B).
    destruct Hs' as ((fpr' & tpr' & R1' & R2') & (pr' & rc' & P1' & P2')
                     & _ & _ & _ & A' & B').
    rewrite R1 in R1'. apply Ok_inj in R1'. injection R1' as <- <-.
    rewrite P1 in P1'. apply Ok_inj in P1'. injection P1' as <- <-.
    rewrite R2 in R2'. rewrite P2 in P2'. rewrite A in A'. rewrite B in B'.
    apply Ok_inj in R2', P2', A', B'. auto.
Qed.

(** ** Validation *)

(** C2 fails as stated: with a threshold outside (0, 1) and otherwise valid
    arguments the call returns a table instead of raising. *)
Lemma threshold_out_of_range_returns_table :
  ~ (0 < 2 < 1)%Q
  /\ exists df,
       evaluate_model_metrics example_labels [("M", example_proba)] 2 = Ok df.
Proof.
  split.
  - intros [_ H]. apply Qlt_not_le in H. apply H. discriminate.
  - eexists. vm_compute. reflexivity.
Qed.

(** C2, as the code has it.  The function validates nothing itself and the
    threshold is never checked: on labels with both classes and
    length-matched probability vectors in [0, 1] every threshold returns a
    table.  An empty model map, a probability vector whose length differs
    from the labels', and labels lacking one of the classes each end in an
    exception of the libraries, so that no table is returned. *)
Theorem validation_behaviour y_test model_dict threshold :
  (model_dict = [] ->
   evaluate_model_metrics y_test model_dict threshold = Raise ValueError)
  /\ (Exists (fun item => length (snd item) <> length y_test) model_dict ->
      exists e, evaluate_model_metrics y_test model_dict threshold = Raise e)
  /\ (~ both_classes y_test ->
      exists e, evaluate_model_metrics y_test model_dict threshold = Raise e)
  /\ (both_classes y_test -> valid_models y_test model_dict ->
      exists df, evaluate_model_metrics y_test model_dict threshold = Ok df).
Proof.
  split; [|split; [|split]].
  - intros ->. apply empty_model_map_raises.
  - apply shape_mismatch_no_table.
  - apply single_class_raises.
  - apply evaluate_valid.
Qed.

Lemma validation_behaviour_witness :
  evaluate_model_metrics example_labels [] 0.5 = Raise ValueError
  /\ (exists e, evaluate_model_metrics example_labels
                  [("M", [0.1; 0.4; 0.6]%Q)] 0.5 = Raise e)
  /\ (exists e, evaluate_model_metrics [false; false; false; false]
                  [("M", example_proba)] 0.5 = Raise e)
  /\ (exists df, evaluate_model_metrics example_labels
                   [("M", example_proba)] 2 = Ok df).
Proof.
  split; [|split; [|split]].
  - apply (proj1 (validation_behaviour example_labels [] 0.5)). reflexivity.
  - apply (proj1 (proj2 (validation_behaviour example_labels
                           [("M", [0.1; 0.4; 0.6]%Q)] 0.5))).
    constructor. simpl. discriminate.
  - apply (proj1 (proj2 (proj2 (validation_behaviour [false; false; false; false]
                                  [("M", example_proba)] 0.5)))).
    intros [H _]. simpl in H. intuition discriminate.
  - apply (proj2 (proj2 (proj2
             (validation_behaviour example_labels [("M", example_proba)] 2)))).
    + split; simpl; auto.
    + split; [discriminate|].
      repeat constructor; simpl; reflexivity || discriminate.
Defined.

(** ** The call on the heap *)

Section HeapRun.

Import Heap.

Lemma load_labels_ok (h : heap) l a :
  h !! l = Some (OLabels a) -> load_labels l h = (Ok a, h).
Proof. intros H. unfold load_labels, bind_py, load. rewrite H. reflexivity. Qed.

Lemma load_array_ok (h : heap) l a :
  h !! l = Some (OArray a) -> load_array l h = (Ok a, h).
Proof. intros H. unfold load_array, bind_py, load. rewrite H. reflexivity. Qed.

Lemma load_dict_ok (h : heap) l d :
  h !! l = Some (ODict d) -> load_dict l h = (Ok d, h).
Proof. intros H. unfold load_dict, bind_py, load. rewrite H. reflexivity. Qed.

Lemma load_listdict_ok (h : heap) l d :
  h !! l = Some (OListDict d) -> load_listdict l h = (Ok d, h).
Proof. intros H. unfold load_listdict, bind_py, load. rewrite H. reflexivity. Qed.

Lemma load_list_ok (h : heap) l d :
  h !! l = Some (OList d) -> load_list l h = (Ok d, h).
Proof. intros H. unfold load_list, bind_py, load. rewrite H. reflexivity. Qed.

Lemma load_frame_ok (h : heap) l d :
  h !! l = Some (OFrame d) -> load_frame l h = (Ok d, h).
Proof. intros H. unfold load_frame, bind_py, load. rewrite H. reflexivity. Qed.

Lemma fresh_unused (h : heap) : h !! fresh (dom h) = None.
Proof. apply not_elem_of_dom. apply is_fresh. Qed.

Lemma select_best_step df metric rest acc :
  select_best df (metric :: rest) acc
  = if negb (String.eqb metric "Metric") then
      let* best := best_model df metric in
      select_best df rest (acc ++ [best])
    else select_best df rest acc.
Proof.
  cbn [select_best]. destruct (negb (String.eqb metric "Metric")); [|reflexivity].
  unfold best_model.
  destruct (pd.getitem df (CStr metric)) as [column|e]; [|reflexivity].
  cbn [bind].
  destruct (if String.eqb metric "Brier Score" then pd.idxmin column
            else pd.idxmax column) as [label|e]; [|reflexivity].
  cbn [bind]. destruct (pd.loc df label) as [row|e]; reflexivity.
Qed.

Variable h0 : heap.
Variables y_test model_dict : loc.
Variable y : list bool.
Variable threshold : Q.
Hypothesis Hy : h0 !! y_test = Some (OLabels y).

Lemma bind_py_ok {A B} (c : Py A) (k : A -> Py B) (h h' : heap) (a : A) :
  c h = (Ok a, h') -> bind_py c k h = k a h'.
Proof. intros H. unfold bind_py. rewrite H. reflexivity. Qed.

Lemma bind_py_raise {A B} (c : Py A) (k : A -> Py B) (h h' : heap) (e : exn) :
  c h = (Raise e, h') -> bind_py c k h = (Raise e, h').
Proof. intros H. unfold bind_py. rewrite H. reflexivity. Qed.

(** One pass of the loop over the models. *)
Lemma run_model (m r : loc) (name : string) (proba : list Q)
  (d : list (string * list cell)) (h : heap) :
  h !! y_test = Some (OLabels y) -> h !! r = Some (OArray proba) ->
  h !! m = Some (OListDict d) ->
  (let! y := load_labels y_test in
   let! proba := load_array r in
   let! s := lift (compute_scores y proba threshold) in
   let! d := load_listdict m in
   store m (OListDict (append_scores d name s))) h
  = match compute_scores y proba threshold with
    | Ok s => (Ok tt, <[m := OListDict (append_scores d name s)]> h)
    | Raise e => (Raise e, h)
    end.
Proof.
  intros H1 H2 H3.
  rewrite (bind_py_ok _ _ h h y) by (apply load_labels_ok; exact H1).
  rewrite (bind_py_ok _ _ h h proba) by (apply load_array_ok; exact H2).
  destruct (compute_scores y proba threshold) as [s|e].
  - rewrite (bind_py_ok _ _ h h s) by reflexivity.
    rewrite (bind_py_ok _ _ h h d) by (apply load_listdict_ok; exact H3).
    reflexivity.
  - apply bind_py_raise. reflexivity.
Qed.

(** The loop over the models: it only writes the object of [metrics_dict]. *)
Lemma run_models (m : loc) (refs : list (string * loc)) : forall models d h,
  Forall2 (fun r md => fst r = fst md /\ h0 !! snd r = Some (OArray (snd md)))
    refs models ->
  h0 ⊆ h -> h0 !! m = None -> h !! m = Some (OListDict d) ->
  exists h',
    for_each refs
      (fun item =>
         let! y := load_labels y_test in
         let! proba := load_array (snd item) in
         let! s := lift (compute_scores y proba threshold) in
         let! d := load_listdict m in
         store m (OListDict (append_scores d (fst item) s))) h
    = (match evaluate_models y threshold models d with
       | Ok _ => Ok tt
       | Raise e => Raise e
       end, h')
    /\ h0 ⊆ h'
    /\ forall d', evaluate_models y threshold models d = Ok d' ->
                  h' !! m = Some (OListDict d').
Proof.
  induction refs as [|[rname r] refs IH]; intros models d h Hf Hsub Hm Hd;
    inversion Hf as [|? [name proba] ? models' [Hname Hr] Hf']; subst.
  - exists h. split; [reflexivity|]. split; [exact Hsub|].
    intros d' H. apply Ok_inj in H. subst d'. exact Hd.
  - cbn [fst snd] in *. subst rname. cbn [for_each evaluate_models].
    pose proof (run_model m r name proba d h
                  (lookup_weaken _ _ _ _ Hy Hsub) (lookup_weaken _ _ _ _ Hr Hsub) Hd)
      as Hrun.
    destruct (compute_scores y proba threshold) as [s|e].
    + rewrite (bind_py_ok _ _ _ _ _ Hrun). cbn [bind].
      apply IH; [exact Hf'| |exact Hm|].
      * apply insert_subseteq_r; assumption.
      * apply lookup_insert_eq.
    + rewrite (bind_py_raise _ _ _ _ _ Hrun).
      exists h. split; [reflexivity|]. split; [exact Hsub|]. discriminate.
Qed.

(** One pass of the loop over the metrics. *)
Lemma run_metric (f b : loc) (df : pd.DataFrame) (metric : string)
  (acc : list cell) (h : heap) :
  h !! f = Some (OFrame df) -> h !! b = Some (OList acc) ->
  (let! df := load_frame f in
   let! best := lift (best_model df metric) in
   let! l := load_list b in
   store b (OList (l ++ [best]))) h
  = match best_model df metric with
    | Ok best => (Ok tt, <[b := OList (acc ++ [best])]> h)
    | Raise e => (Raise e, h)
    end.
Proof.
  intros H1 H2.
  rewrite (bind_py_ok _ _ h h df) by (apply load_frame_ok; exact H1).
  destruct (best_model df metric) as [best|e].
  - rewrite (bind_py_ok _ _ h h best) by reflexivity.
    rewrite (bind_py_ok _ _ h h acc) by (apply load_list_ok; exact H2).
    reflexivity.
  - apply bind_py_raise. reflexivity.
Qed.

(** The loop over the metrics: it only writes the object of [best_models]. *)
Lemma run_best (f b : loc) (df : pd.DataFrame) (keys : list string) : forall acc h,
  h0 ⊆ h -> h0 !! b = None -> f <> b ->
  h !! f = Some (OFrame df) -> h !! b = Some (OList acc) ->
  exists h',
    for_each keys
      (fun metric =>
         if negb (String.eqb metric "Metric") then
           let! df := load_frame f in
           let! best := lift (best_model df metric) in
           let! l := load_list b in
           store b (OList (l ++ [best]))
         else ret tt) h
    = (match select_best df keys acc with
       | Ok _ => Ok tt
       | Raise e => Raise e
       end, h')
    /\ h0 ⊆ h'
    /\ h' !! f = Some (OFrame df)
    /\ forall l, select_best df keys acc = Ok l -> h' !! b = Some (OList l).
Proof.
  induction keys as [|metric keys IH]; intros acc h Hsub Hb Hne Hf Hacc.
  - exists h. split; [reflexivity|]. split; [exact Hsub|]. split; [exact Hf|].
    intros l H. apply Ok_inj in H. subst l. exact Hacc.
  - rewrite select_best_step. cbn [for_each].
    destruct (negb (String.eqb metric "Metric")).
    + pose proof (run_metric f b df metric acc h Hf Hacc) as Hrun.
      destruct (best_model df metric) as [best|e].
      * rewrite (bind_py_ok _ _ _ _ _ Hrun). cbn [bind].
        apply IH; [|exact Hb|exact Hne| |].
        -- apply insert_subseteq_r; assumption.
        -- rewrite lookup_insert_ne by congruence. exact Hf.
        -- apply lookup_insert_eq.
      * rewrite (bind_py_raise _ _ _ _ _ Hrun).
        exists h. split; [reflexivity|]. split; [exact Hsub|].
        split; [exact Hf|]. discriminate.
    + rewrite (bind_py_ok _ _ h h tt) by reflexivity. apply IH; assumption.
Qed.

End HeapRun.

Section HeapCall.

Import Heap.

Lemma new_run (o : object) (h : heap) :
  new o h = (Ok (fresh (dom h)), <[fresh (dom h) := o]> h).
Proof. reflexivity. Qed.

Lemma fresh_unused_below (h0 h : heap) : h0 ⊆ h -> h0 !! fresh (dom h) = None.
Proof. intros H. eapply lookup_weaken_None; [apply fresh_unused|exact H]. Qed.

Lemma fresh_differs (h : heap) (l : loc) (o : object) :
  h !! l = Some o -> fresh (dom h) <> l.
Proof. intros H E. rewrite <- E, fresh_unused in H. discriminate. Qed.

(** The run on the heap computes what the function on values computes, and
    every object that the heap held before the call is still there,
    unchanged, after it. *)
Lemma run_evaluate (h : heap) (y_test model_dict : loc) (y : list bool)
  (models : ModelMap) (threshold : Q) :
  holds h y_test model_dict y models ->
  exists r h',
    Heap.evaluate_model_metrics_py y_test model_dict threshold h = (r, h')
    /\ h ⊆ h'
    /\ agrees (r, h') (evaluate_model_metrics y models threshold).
Proof.
  intros (Hy & refs & Hmd & Hrefs).
  unfold Heap.evaluate_model_metrics_py, evaluate_model_metrics, agrees.
  (* metrics_dict = {...} *)
  rewrite (bind_py_ok _ _ _ _ _ (new_run _ h)).
  set (m := fresh (dom h)). set (h1 := <[m := OListDict metrics_dict_init]> h).
  assert (Hm : h !! m = None) by apply fresh_unused.
  assert (S1 : h ⊆ h1) by (apply insert_subseteq; exact Hm).
  rewrite (bind_py_ok _ _ h1 h1 refs)
    by (apply load_dict_ok; eapply lookup_weaken; eauto).
  (* the loop over the models *)
  destruct (run_models h y_test y threshold Hy m refs models metrics_dict_init h1
              Hrefs S1 Hm (lookup_insert_eq _ _ _)) as (h2 & Hrun & S2 & Hd).
  destruct (evaluate_models y threshold models metrics_dict_init) as [d|e].
  2:{ rewrite (bind_py_raise _ _ _ _ _ Hrun). exists (Raise e), h2.
      split; [reflexivity|]. split; [exact S2|reflexivity]. }
  rewrite (bind_py_ok _ _ _ _ _ Hrun). cbn [bind].
  rewrite (bind_py_ok _ _ h2 h2 d) by (apply load_listdict_ok; auto).
  (* metrics_df = pd.DataFrame(metrics_dict) *)
  destruct (pd.of_dict d) as [df|e].
  2:{ exists (Raise e), h2. split; [apply bind_py_raise; reflexivity|].
      split; [exact S2|reflexivity]. }
  rewrite (bind_py_ok _ _ h2 h2 df) by reflexivity. cbn [bind].
  rewrite (bind_py_ok _ _ _ _ _ (new_run _ h2)).
  set (f := fresh (dom h2)). set (h3 := <[f := OFrame df]> h2).
  assert (Hf : h !! f = None) by (apply fresh_unused_below; exact S2).
  assert (S3 : h ⊆ h3) by (apply insert_subseteq_r; assumption).
  (* best_models = [] *)
  rewrite (bind_py_ok _ _ _ _ _ (new_run _ h3)).
  set (b := fresh (dom h3)). set (h4 := <[b := OList []]> h3).
  assert (Hb : h !! b = None) by (apply fresh_unused_below; exact S3).
  assert (S4 : h ⊆ h4) by (apply insert_subseteq_r; assumption).
  assert (Hfb : f <> b).
  { intros E. symmetry in E. revert E. apply (fresh_differs h3 f (OFrame df)).
    apply lookup_insert_eq. }
  (* the loop over the metrics *)
  destruct (run_best h f b df (map fst d) [] h4 S4 Hb Hfb)
    as (h5 & Hrun5 & S5 & Hf5 & Hb5).
  { unfold h4. rewrite lookup_insert_ne by congruence. apply lookup_insert_eq. }
  { apply lookup_insert_eq. }
  destruct (select_best df (map fst d) []) as [bests|e].
  2:{ rewrite (bind_py_raise _ _ _ _ _ Hrun5). exists (Raise e), h5.
      split; [reflexivity|]. split; [exact S5|reflexivity]. }
  rewrite (bind_py_ok _ _ _ _ _ Hrun5). cbn [bind].
  (* set_index, transpose, the new column *)
  rewrite (bind_py_ok _ _ h5 h5 df) by (apply load_frame_ok; exact Hf5).
  destruct (pd.set_index df (CStr "Metric")) as [df1|e].
  2:{ exists (Raise e), h5. split; [apply bind_py_raise; reflexivity|].
      split; [exact S5|reflexivity]. }
  rewrite (bind_py_ok _ _ h5 h5 df1) by reflexivity. cbn [bind].
  set (h6 := <[f := OFrame df1]> h5).
  rewrite (bind_py_ok _ _ h5 h6 tt) by reflexivity.
  assert (S6 : h ⊆ h6) by (apply insert_subseteq_r; assumption).
  rewrite (bind_py_ok _ _ _ _ _ (new_run _ h6)).
  set (t := fresh (dom h6)). set (h7 := <[t := OFrame (pd.T df1)]> h6).
  assert (Ht : h !! t = None) by (apply fresh_unused_below; exact S6).
  assert (S7 : h ⊆ h7) by (apply insert_subseteq_r; assumption).
  rewrite (bind_py_ok _ _ h7 h7 (pd.T df1))
    by (apply load_frame_ok; apply lookup_insert_eq).
  assert (Hb7 : h7 !! b = Some (OList bests)).
  { assert (Hb6 : h6 !! b = Some (OList bests)).
    { unfold h6. rewrite lookup_insert_ne by congruence. apply Hb5. reflexivity. }
    unfold h7. rewrite lookup_insert_ne; [exact Hb6|].
    apply (fresh_differs h6 b _ Hb6). }
  rewrite (bind_py_ok _ _ h7 h7 bests) by (apply load_list_ok; exact Hb7).
  destruct (pd.setitem (pd.T df1) (CStr "Best Model") bests) as [df2|e].
  2:{ exists (Raise e), h7. split; [apply bind_py_raise; reflexivity|].
      split; [exact S7|reflexivity]. }
  rewrite (bind_py_ok _ _ h7 h7 df2) by reflexivity.
  rewrite (bind_py_ok _ _ h7 (<[t := OFrame df2]> h7) tt) by reflexivity.
  exists (Ok t), (<[t := OFrame df2]> h7).
  split; [reflexivity|]. split; [apply insert_subseteq_r; assumption|].
  apply lookup_insert_eq.
Qed.

Lemma holds_weaken (h h' : heap) y_test model_dict y models :
  h ⊆ h' -> holds h y_test model_dict y models ->
  holds h' y_test model_dict y models.
Proof.
  intros Hsub (Hy & refs & Hmd & Hrefs). split; [eapply lookup_weaken; eauto|].
  exists refs. split; [eapply lookup_weaken; eauto|].
  eapply Forall2_impl; [exact Hrefs|]. intros r md [H1 H2].
  split; [exact H1|]. eapply lookup_weaken; eauto.
Qed.

(** C8. The call is deterministic and leaves its arguments alone.  Two
    successive calls on a heap that holds the labels and the model map return
    (or raise) what the function on the values of the arguments gives, the
    same both times; after each call the heap still holds every object it held
    before, unchanged, in particular the labels, the model map and the
    probability arrays; the second call starts from the heap that the first
    one left and is not affected by it, and it leaves the first table as it
    was. *)
Theorem evaluate_is_deterministic_and_pure (h : heap) (y_test model_dict : loc)
  (y : list bool) (models : ModelMap) (threshold : Q) :
  holds h y_test model_dict y models ->
  exists r1 h1 r2 h2,
    Heap.evaluate_model_metrics_py y_test model_dict threshold h = (r1, h1)
    /\ Heap.evaluate_model_metrics_py y_test model_dict threshold h1 = (r2, h2)
    /\ h ⊆ h1 /\ h1 ⊆ h2
    /\ holds h1 y_test model_dict y models
    /\ holds h2 y_test model_dict y models
    /\ agrees (r1, h1) (evaluate_model_metrics y models threshold)
    /\ agrees (r2, h2) (evaluate_model_metrics y models threshold)
    /\ agrees (r1, h2) (evaluate_model_metrics y models threshold).
Proof.
  intros H.
  destruct (run_evaluate h y_test model_dict y models threshold H)
    as (r1 & h1 & Hrun1 & S1 & A1).
  pose proof (holds_weaken h h1 _ _ _ _ S1 H) as H1.
  destruct (run_evaluate h1 y_test model_dict y models threshold H1)
    as (r2 & h2 & Hrun2 & S2 & A2).
  exists r1, h1, r2, h2.
  split; [exact Hrun1|]. split; [exact Hrun2|].
  split; [exact S1|]. split; [exact S2|]. split; [exact H1|].
  split; [apply (holds_weaken h1 h2 _ _ _ _ S2 H1)|].
  split; [exact A1|]. split; [exact A2|].
  unfold agrees in *. cbn [fst snd] in *.
  destruct r1 as [l|e], (evaluate_model_metrics y models threshold) as [df|e'];
    try assumption.
  eapply lookup_weaken; eauto.
Qed.

End HeapCall.

(** ** The theorems at concrete inputs *)

Lemma best_model_is_an_input_name_witness :
  evaluate_model_metrics example_labels example_models 0.5 = Ok example_table
  /\ exists bests,
       pd.getitem example_table (CStr "Best Model")
       = Ok {| pd.s_index := map CStr metric_names; pd.s_values := bests |}
       /\ length bests = length metric_names
       /\ Forall (fun c => exists name, c = CStr name
                                        /\ In name (map fst example_models))
            bests.
Proof.
  split; [vm_compute; reflexivity|].
  apply (best_model_is_an_input_name example_labels example_models 0.5 example_table).
  vm_compute. reflexivity.
Defined.


Lemma threshold_binarization_witness :
  compute_scores example_labels example_proba 0.5 = Ok example_scores
  /\ sklearn.precision_score example_labels (np.where_gt example_proba 0.5)
     = Ok (model_precision example_scores)
  /\ sklearn.brier_score_loss example_labels example_proba
     = Ok (brier_score example_scores).
Proof.
  assert (H : compute_scores example_labels example_proba 0.5 = Ok example_scores)
    by (vm_compute; reflexivity).
  split; [exact H|].
  pose proof (proj1 (proj2 (threshold_binarization example_labels example_proba 0.5))
                example_scores H) as G.
  cbn zeta in G. split; [apply G|apply G].
Defined.

Section HeapExample.

Import Heap.

Lemma evaluate_is_deterministic_and_pure_witness :
  holds example_heap 1%positive 3%positive example_labels [("A", example_proba)]
  /\ exists r1 h1 r2 h2,
       evaluate_model_metrics_py 1%positive 3%positive 0.5 example_heap = (r1, h1)
       /\ evaluate_model_metrics_py 1%positive 3%positive 0.5 h1 = (r2, h2)
       /\ example_heap ⊆ h1 /\ h1 ⊆ h2
       /\ holds h1 1%positive 3%positive example_labels [("A", example_proba)]
       /\ holds h2 1%positive 3%positive example_labels [("A", example_proba)]
       /\ agrees (r1, h1)
            (evaluate_model_metrics example_labels [("A", example_proba)] 0.5)
       /\ agrees (r2, h2)
            (evaluate_model_metrics example_labels [("A", example_proba)] 0.5)
       /\ agrees (r1, h2)
            (evaluate_model_metrics example_labels [("A", example_proba)] 0.5).
Proof.
  assert (H : holds example_heap 1%positive 3%positive example_labels
                [("A", example_proba)]).
  { split; [reflexivity|]. exists [("A", 2%positive)].
    split; [reflexivity|]. repeat constructor. }
  split; [exact H|].
  apply (evaluate_is_deterministic_and_pure example_heap 1%positive 3%positive
           example_labels [("A", example_proba)] 0.5).
  exact H.
Defined.

End HeapExample.

(** With a repeated column label the selection [df[cols]] repeats columns: the
    frame that comes back has five columns for the three it was given. *)
Lemma move_column_before_repeated_labels :
  let df := {| pd.index := [CInt 0];
               pd.cols := [(CStr "a", [CInt 1]); (CStr "a", [CInt 2]);
                           (CStr "b", [CInt 3])] |} in
  exists df', move_column_before df "a" "b" = ([], Ok df')
              /\ length (pd.cols df') = 5%nat.
Proof. eexists. split; reflexivity. Qed.

(** ** The library functions on the examples of their documentation *)

(** [roc_curve]: fpr = [0, 0, 0.5, 0.5, 1], tpr = [0, 0.5, 0.5, 1, 1] *)
Example roc_curve_documented :
  same_curve (sklearn.roc_curve doc_labels doc_scores)
    [0; 0; 0.5; 0.5; 1]%Q [0; 0.5; 0.5; 1; 1]%Q = true.
Proof. vm_compute. reflexivity. Qed.

(** [precision_recall_curve]: precision = [0.5, 0.667, 0.5, 1, 1],
    recall = [1, 1, 0.5, 0.5, 0] *)
Example precision_recall_curve_documented :
  same_curve (sklearn.precision_recall_curve doc_labels doc_scores)
    [1 # 2; 2 # 3; 1 # 2; 1; 1]%Q [1; 1; 0.5; 0.5; 0]%Q = true.
Proof. vm_compute. reflexivity. Qed.

(** [average_precision_score]: 0.83... *)
Example average_precision_documented :
  same_score (sklearn.average_precision_score doc_labels doc_scores) (5 # 6) = true.
Proof. vm_compute. reflexivity. Qed.

(** [roc_auc_score], that is [auc] of [roc_curve]: 0.75 *)
Example roc_auc_documented :
  same_score (let* (fpr, tpr) := sklearn.roc_curve doc_labels doc_scores in
              sklearn.auc fpr tpr) 0.75 = true.
Proof. vm_compute. reflexivity. Qed.

(** [brier_score_loss([0, 1, 1, 0], [0.1, 0.9, 0.8, 0.3])]: 0.0375 *)
Example brier_score_documented :
  same_score (sklearn.brier_score_loss [false; true; true; false]
                [0.1; 0.9; 0.8; 0.3]%Q) 0.0375 = true.
Proof. vm_compute. reflexivity. Qed.

(** [confusion_matrix([0, 1, 0, 1], [1, 1, 1, 0]).ravel()]: (0, 2, 1, 1) *)
Example confusion_matrix_documented :
  sklearn.confusion_matrix [false; true; false; true] [true; true; true; false]
  = Ok [[0; 2]; [1; 1]].
Proof. reflexivity. Qed.

(** * Further properties of [evaluate_model_metrics] *)

(** ** Exactly which inputs give a table *)

Lemma brier_ok_range y_true y_proba s :
  sklearn.brier_score_loss y_true y_proba = Ok s -> Forall unit_interval y_proba.
Proof.
  unfold sklearn.brier_score_loss. intros H.
  apply bind_ok in H. destruct H as (_ & _ & H).
  destruct y_proba as [|p0 ps] eqn:E; [discriminate|]. rewrite <- E in *.
  destruct (existsb (fun p => Qltb 1 p) y_proba) eqn:E1; [discriminate|].
  destruct (existsb (fun p => Qltb p 0) y_proba) eqn:E0; [discriminate|].
  apply existsb_false_Forall in E1. apply existsb_false_Forall in E0.
  rewrite List.Forall_forall in *. intros p Hp. split.
  - apply Qltb_ge. apply E0. exact Hp.
  - apply Qltb_ge. apply E1. exact Hp.
Qed.

Lemma compute_scores_ok_valid y_test proba threshold s :
  compute_scores y_test proba threshold = Ok s -> valid_proba y_test proba.
Proof.
  intros H. split.
  - symmetry. eapply compute_scores_checks; eauto.
  - apply compute_scores_inv in H.
    destruct H as (_ & _ & _ & _ & _ & _ & Hb). eapply brier_ok_range; eauto.
Qed.

(** X1. The call returns a table exactly when the labels contain both classes,
    the model map is not empty and every probability vector has the length of
    the labels and values in [0, 1]; the threshold plays no part in it. *)
Theorem table_returned_iff_valid y_test model_dict threshold :
  (exists df, evaluate_model_metrics y_test model_dict threshold = Ok df)
  <-> both_classes y_test /\ valid_models y_test model_dict.
Proof.
  split.
  - intros (df & H). split; [eapply evaluate_ok_both_classes; eauto|]. split.
    + intros ->. rewrite empty_model_map_raises in H. discriminate.
    + apply List.Forall_forall. intros [name proba] Hin.
      apply In_nth_error in Hin. destruct Hin as (j & Hj).
      destruct (table_column _ _ _ _ H j name proba Hj) as (s & Hs & _).
      cbn [snd]. eapply compute_scores_ok_valid; eauto.
  - intros [Hy Hv]. apply evaluate_valid; assumption.
Qed.

(** ** The layout of the table *)

Lemma zip_with_labels names : forall rows,
  length rows = length names ->
  map fst (np.zip_with column_of names rows) = map CStr names.
Proof.
  induction names as [|n names IH]; intros [|s rows] H; try discriminate;
    [reflexivity|].
  cbn [np.zip_with map column_of fst]. f_equal. apply IH. simpl in H. lia.
Qed.

Lemma contains_name name names :
  py.contains (CStr name) (map CStr names) = true <-> In name names.
Proof.
  unfold py.contains. rewrite existsb_exists. split.
  - intros (c & Hc & E). apply cell_eqb_str in E. subst c.
    apply in_map_iff in Hc. destruct Hc as (n & Hn & Hin). congruence.
  - intros H. exists (CStr name). split; [apply in_map; exact H|apply cell_eqb_refl].
Qed.

Lemma column_lengths names rows :
  Forall (fun c : cell * list cell => length (snd c) = length metric_names)
    (np.zip_with column_of names rows).
Proof.
  apply List.Forall_forall. intros c Hc. apply zip_with_In in Hc.
  destruct Hc as (n & s & _ & _ & ->). reflexivity.
Qed.

(** X2. A returned table has the seven metric names as its row labels, in
    the order of [metric_names]; when no model is named "Best Model", its
    column labels are the model names in the insertion order of the model map
    followed by "Best Model", and every column has one entry per metric. *)
Theorem table_layout y_test model_dict threshold df :
  evaluate_model_metrics y_test model_dict threshold = Ok df ->
  ~ In "Best Model" (map fst model_dict) ->
  pd.index df = map CStr metric_names
  /\ pd.columns df = map CStr (map fst model_dict) ++ [CStr "Best Model"]
  /\ Forall (fun c => length (snd c) = length metric_names) (pd.cols df).
Proof.
  intros H Hnot.
  destruct (evaluate_ok_inv _ _ _ _ H) as (rows & bests & Hr & Hb & Hf).
  apply all_scores_length in Hr. apply best_models_of_length in Hb.
  unfold final_table, pd.setitem, pd.columns in Hf. cbn [pd.index pd.cols] in Hf.
  rewrite zip_with_labels in Hf by (rewrite length_map; exact Hr).
  destruct (length bests =? length (map CStr metric_names))%nat; [|discriminate].
  destruct (existsb (cell_eqb (CStr "Best Model")) (map CStr (map fst model_dict)))
    eqn:E.
  { apply (contains_name "Best Model") in E. destruct (Hnot E). }
  apply Ok_inj in Hf. subst df. unfold pd.columns. cbn [pd.index pd.cols].
  split; [reflexivity|]. split.
  - rewrite map_app, zip_with_labels by (rewrite length_map; exact Hr). reflexivity.
  - apply Forall_app. split; [apply column_lengths|].
    constructor; [exact Hb|constructor].
Qed.

Lemma table_layout_witness :
  evaluate_model_metrics example_labels example_models 0.5 = Ok example_table
  /\ pd.index example_table = map CStr metric_names
  /\ pd.columns example_table
     = map CStr (map fst example_models) ++ [CStr "Best Model"]
  /\ Forall (fun c => length (snd c) = length metric_names) (pd.cols example_table).
Proof.
  split; [vm_compute; reflexivity|].
  apply (table_layout example_labels example_models 0.5 example_table).
  - vm_compute. reflexivity.
  - simpl. intros [H|[H|[]]]; discriminate.
Defined.

(** ** The names of the "Best Model" column *)

Lemma best_models_pointwise names rows sel : forall bests,
  best_models_of names rows sel = Ok bests ->
  Forall2 (fun s b => best_of (fst s) names (map (snd s) rows) = Ok b) sel bests.
Proof.
  induction sel as [|[better f] sel IH]; intros bests H; simpl in H.
  - apply Ok_inj in H. subst bests. constructor.
  - apply bind_ok in H. destruct H as (b & Hb & H).
    apply bind_ok in H. destruct H as (bs & Hbs & H).
    apply Ok_inj in H. subst bests. constructor; [exact Hb|apply IH; exact Hbs].
Qed.

Lemma bests_are_names (model_dict : ModelMap) rows sel bests :
  length rows = length model_dict ->
  best_models_of (map fst model_dict) rows sel = Ok bests ->
  Forall (fun c => exists name, c = CStr name /\ In name (map fst model_dict)) bests.
Proof.
  intros Hlen H. apply best_models_pointwise in H.
  induction H as [|[better f] b sel bests Hb _ IH]; constructor; [|exact IH].
  destruct (best_entry model_dict rows better f b Hlen Hb)
    as (k & name & proba & Hk & -> & _).
  exists name. split; [reflexivity|].
  apply in_map_iff. exists (name, proba). split; [reflexivity|].
  eapply nth_error_In; exact Hk.
Qed.

(** X3. A model named "Best Model" loses its scores: the table then has
    exactly one column per model and none besides, and the column at the
    position of that model holds the names of the best models where its
    scores would be. *)
Theorem model_named_best_model_is_overwritten y_test model_dict threshold df j proba :
  evaluate_model_metrics y_test model_dict threshold = Ok df ->
  nth_error model_dict j = Some ("Best Model", proba) ->
  pd.columns df = map CStr (map fst model_dict)
  /\ exists bests,
       nth_error (pd.cols df) j = Some (CStr "Best Model", bests)
       /\ length bests = length metric_names
       /\ Forall (fun c => exists name, c = CStr name /\ In name (map fst model_dict))
            bests.
Proof.
  intros H Hj.
  destruct (evaluate_ok_inv _ _ _ _ H) as (rows & bests & Hr & Hb & Hf).
  pose proof (all_scores_length _ _ _ _ Hr) as Hlen.
  destruct (all_scores_nth _ _ _ _ Hr j _ _ Hj) as (s & Hs & _).
  split.
  - unfold final_table, pd.setitem, pd.columns in Hf. cbn [pd.index pd.cols] in Hf.
    rewrite zip_with_labels in Hf by (rewrite length_map; exact Hlen).
    destruct (length bests =? length (map CStr metric_names))%nat; [|discriminate].
    destruct (existsb (cell_eqb (CStr "Best Model")) (map CStr (map fst model_dict)))
      eqn:E.
    + apply Ok_inj in Hf. subst df. unfold pd.columns. cbn [pd.cols].
      rewrite map_map.
      rewrite <- (zip_with_labels (map fst model_dict) rows)
        by (rewrite length_map; exact Hlen).
      apply map_ext. intros c. destruct (cell_eqb (CStr "Best Model") (fst c));
        reflexivity.
    + exfalso. apply not_true_iff_false in E. apply E.
      apply (contains_name "Best Model"). apply in_map_iff.
      exists ("Best Model", proba). split; [reflexivity|].
      eapply nth_error_In; exact Hj.
  - exists bests.
    destruct (final_table_inv bests _ _ _ Hf) as (_ & Hcols & _ & _).
    split; [|split].
    + rewrite (Hcols j "Best Model" s);
        [reflexivity|rewrite nth_error_map, Hj; reflexivity|exact Hs].
    + apply best_models_of_length in Hb. exact Hb.
    + eapply bests_are_names; eauto.
Qed.

Lemma model_named_best_model_is_overwritten_witness :
  evaluate_model_metrics example_labels best_model_clash 0.5
  = Ok (table_of best_model_clash 0.5)
  /\ pd.columns (table_of best_model_clash 0.5)
     = map CStr (map fst best_model_clash)
  /\ exists bests,
       nth_error (pd.cols (table_of best_model_clash 0.5)) 1
       = Some (CStr "Best Model", bests)
       /\ length bests = length metric_names
       /\ Forall (fun c => exists name,
                    c = CStr name /\ In name (map fst best_model_clash))
            bests.
Proof.
  split; [vm_compute; reflexivity|].
  apply (model_named_best_model_is_overwritten example_labels best_model_clash 0.5
           (table_of best_model_clash 0.5) 1 [0.1; 0.7; 0.6; 0.9]%Q).
  - vm_compute. reflexivity.
  - reflexivity.
Defined.




(** ** Extreme thresholds *)





Lemma count_const_false {A} (l : list A) : sklearn.count (fun _ => false) l = 0.
Proof. apply count_zero. reflexivity. Qed.








(** ** Models with equal scores *)

(** The position that the selection names is not a later copy of a score. *)
Lemma first_best_not_later_copy better (col : list score) (i k : nat) :
  better = higher \/ better = lower ->
  pd.nanarg better None 0%nat col = Some k ->
  (i < k)%nat -> nth_error col i = nth_error col k -> False.
Proof.
  intros [-> | ->] Hk Hlt Heq.
  - destruct (higher_first_best col k Hk) as (q & Hq & _ & Hfirst).
    rewrite Hq in Heq. specialize (Hfirst i q Hlt Heq). lra.
  - destruct (lower_first_best col k Hk) as (q & Hq & _ & Hfirst).
    rewrite Hq in Heq. specialize (Hfirst i q Hlt Heq). lra.
Qed.

Lemma selectors_better better f :
  In (better, f) selectors -> better = higher \/ better = lower.
Proof.
  unfold selectors. cbn [In]. intros H.
  repeat (destruct H as [H|H]; [apply pair_equal_spec in H; destruct H; auto|]).
  destruct H.
Qed.

Lemma best_entries (df : pd.DataFrame) bests metric :
  pd.getitem df (CStr "Best Model")
  = Ok {| pd.s_index := map CStr metric_names; pd.s_values := bests |} ->
  length bests = length selectors ->
  In metric metric_names ->
  exists r sel b,
    nth_error selectors r = Some sel /\ nth_error bests r = Some b
    /\ table_value df "Best Model" metric = Ok b.
Proof.
  intros Hg Hlen Hin. unfold table_value. rewrite Hg. cbn [bind].
  destruct bests as [|b0 [|b1 [|b2 [|b3 [|b4 [|b5 [|b6 [|b7 bests]]]]]]]];
    try discriminate.
  unfold metric_names in Hin. cbn [In] in Hin.
  repeat (destruct Hin as [<-|Hin];
          [eexists _, _, _; split; [|split; [|reflexivity]];
           [|match goal with
             | |- nth_error _ ?r = Some (nth ?n _ _) => unify r n; reflexivity
             end]; reflexivity|]).
  destruct Hin.
Qed.

(** X5. A model whose probabilities repeat those of a model inserted before
    it is never named in the "Best Model" column, on any metric row: on equal
    scores the earlier model wins.  The names of a Python dict are pairwise
    distinct. *)
Theorem later_copy_is_never_best y_test model_dict threshold df
  i j name name' proba metric :
  evaluate_model_metrics y_test model_dict threshold = Ok df ->
  List.NoDup (map fst model_dict) ->
  nth_error model_dict i = Some (name, proba) ->
  nth_error model_dict j = Some (name', proba) ->
  (i < j)%nat ->
  In metric metric_names ->
  exists best,
    table_value df "Best Model" metric = Ok (CStr best) /\ best <> name'.
Proof.
  intros H Hnd Hi Hj Hlt Hin.
  destruct (evaluate_rows _ _ _ _ H) as (rows & bests & [Hlen Hrows] & Hb & Hg).
  pose proof (best_models_of_length _ _ _ _ Hb) as Hbl.
  destruct (best_entries df bests metric Hg Hbl Hin) as (r & [better f] & b & Hsel & Hbr & Hv).
  apply best_models_pointwise in Hb.
  assert (Hbest : best_of better (map fst model_dict) (map f rows) = Ok b).
  { clear -Hb Hsel Hbr. revert r Hsel Hbr.
    induction Hb as [|s0 b0 sel bs H0 _ IH]; intros [|r] Hsel Hbr; try discriminate.
    - cbn [nth_error] in Hsel, Hbr. apply Some_inj in Hsel, Hbr. subst. exact H0.
    - eapply IH; eauto. }
  destruct (best_entry model_dict rows better f b Hlen Hbest)
    as (k & best & proba' & Hk & -> & Harg).
  exists best. split; [exact Hv|]. intros ->.
  assert (k = j).
  { apply (proj1 (NoDup_nth_error (map fst model_dict)) Hnd).
    - rewrite length_map. apply nth_error_Some. congruence.
    - rewrite !nth_error_map, Hk, Hj. reflexivity. }
  subst k.
  destruct (Hrows i name proba Hi) as (s & Hs & Hc & _).
  destruct (Hrows j name' proba Hj) as (s' & Hs' & Hc' & _).
  rewrite Hc in Hc'. apply Ok_inj in Hc'. subst s'.
  apply (first_best_not_later_copy better (map f rows) i j); auto.
  - eapply selectors_better. eapply nth_error_In; eauto.
  - rewrite !nth_error_map, Hs, Hs'. reflexivity.
Qed.

Lemma later_copy_is_never_best_witness :
  exists best,
    table_value (table_of twin_models 0.5) "Best Model" "AUC ROC" = Ok (CStr best)
    /\ best <> "B".
Proof.
  apply (later_copy_is_never_best example_labels twin_models 0.5
           (table_of twin_models 0.5) 0 1 "A" "B" example_proba "AUC ROC").
  - vm_compute. reflexivity.
  - repeat constructor; simpl; intuition discriminate.
  - reflexivity.
  - reflexivity.
  - lia.
  - left. reflexivity.
Defined.


(** ** A model that predicts the labels *)

(** *** The order of the samples *)






(** *** Scores equal to the labels *)








(** *** Areas of curves with three points *)



(** *** The scores of the model *)





(** * Further properties of [move_column_before] *)

Lemma list_index_absent (x : cell) (l : list cell) :
  py.contains x l = false -> py.list_index x l = Raise ValueError.
Proof.
  unfold py.contains. induction l as [|c l IH]; cbn [existsb py.list_index];
    [reflexivity|].
  destruct (cell_eqb x c); cbn [orb]; [discriminate|].
  intros H. rewrite (IH H). reflexivity.
Qed.

Lemma list_index_nth (x : cell) (l : list cell) : forall i,
  py.list_index x l = Ok i ->
  exists c, nth_error l i = Some c /\ cell_eqb x c = true
            /\ py.contains x (firstn i l) = false.
Proof.
  induction l as [|c l IH]; intros i H; cbn [py.list_index] in H; [discriminate|].
  destruct (cell_eqb x c) eqn:E.
  - apply Ok_inj in H. subst i. exists c. auto.
  - apply bind_ok in H. destruct H as (i' & Hi' & H). apply Ok_inj in H. subst i.
    destruct (IH i' Hi') as (c' & Hc' & E' & Hno). exists c'.
    split; [exact Hc'|]. split; [exact E'|].
    cbn [firstn]. unfold py.contains in *. cbn [existsb]. rewrite E. exact Hno.
Qed.

(** The labels of a frame with distinct labels, apart from one of them. *)
Lemma distinct_without (L1 : list (cell * list cell)) c L2 :
  distinct_labels (map fst (L1 ++ c :: L2)) = true ->
  py.contains (fst c) (map fst (L1 ++ L2)) = false
  /\ distinct_labels (map fst (L1 ++ L2)) = true.
Proof.
  induction L1 as [|a L1 IH]; cbn [app map distinct_labels]; intros H;
    apply andb_prop in H; destruct H as [Ha H].
  - apply negb_true_iff in Ha. auto.
  - destruct (IH H) as [Hc Hd]. apply negb_true_iff in Ha.
    rewrite map_app, contains_app in Ha. cbn [map] in Ha.
    unfold py.contains in Ha at 2. cbn [existsb] in Ha.
    apply orb_false_iff in Ha. destruct Ha as [Ha1 Ha2].
    apply orb_false_iff in Ha2. destruct Ha2 as [Hac Ha2].
    split.
    + unfold py.contains. cbn [existsb]. rewrite cell_eqb_sym, Hac. exact Hc.
    + rewrite Hd, andb_true_r, map_app, contains_app. unfold py.contains in *.
      rewrite Ha1, Ha2. reflexivity.
Qed.

(** What the call does when both names are column labels. *)
Lemma move_column_before_result (df : pd.DataFrame) (target_column before_column : string) :
  py.contains (CStr target_column) (pd.columns df) = true ->
  py.contains (CStr before_column) (pd.columns df) = true ->
  target_column <> before_column ->
  distinct_labels (pd.columns df) = true ->
  exists L1 c L2 i,
    pd.cols df = L1 ++ c :: L2 /\ fst c = CStr target_column
    /\ nth_error (map fst (L1 ++ L2)) i = Some (CStr before_column)
    /\ py.contains (CStr before_column) (firstn i (map fst (L1 ++ L2))) = false
    /\ move_column_before df target_column before_column
       = ([], Ok {| pd.index := pd.index df;
                    pd.cols := firstn i (L1 ++ L2) ++ c :: skipn i (L1 ++ L2) |}).
Proof.
  intros Ht Hb Hne Hd. unfold move_column_before. rewrite Ht, Hb. cbn [negb orb].
  unfold pd.columns in *.
  destruct (remove_label (pd.cols df) target_column Ht)
    as (L1 & c & L2 & HL & Hc & Hr).
  rewrite Hr. cbn [bind].
  assert (Hb' : py.contains (CStr before_column) (map fst (L1 ++ L2)) = true).
  { rewrite HL, map_app, contains_app in Hb. cbn [map] in Hb.
    unfold py.contains in Hb at 2. cbn [existsb] in Hb.
    rewrite Hc in Hb. cbn [cell_eqb] in Hb.
    destruct (String.eqb_spec before_column target_column) as [E|_];
      [congruence|].
    rewrite map_app, contains_app. exact Hb. }
  destruct (index_label _ _ Hb') as (i & Hi & _).
  destruct (list_index_nth _ _ _ Hi) as (b' & Hnth & Eb & Hfirst).
  apply cell_eqb_str in Eb. subst b'.
  exists L1, c, L2, i. split; [exact HL|]. split; [exact Hc|].
  split; [exact Hnth|]. split; [exact Hfirst|].
  rewrite Hi. cbn [bind]. rewrite list_insert_split.
  set (M := firstn i (L1 ++ L2) ++ c :: skipn i (L1 ++ L2)).
  assert (Hkeys : firstn i (map fst (L1 ++ L2))
                  ++ CStr target_column :: skipn i (map fst (L1 ++ L2))
                  = map fst M).
  { unfold M.
    rewrite (map_app fst (firstn i (L1 ++ L2)) (c :: skipn i (L1 ++ L2))).
    rewrite map_cons, Hc, firstn_map, skipn_map. reflexivity. }
  assert (Hperm : Permutation M (pd.cols df)).
  { unfold M. rewrite HL. rewrite <- Permutation_middle.
    rewrite firstn_skipn. apply Permutation_middle. }
  rewrite Hkeys. unfold pd.getitem_list, pd.columns.
  assert (Hall : forallb (fun k => existsb (cell_eqb k) (map fst (pd.cols df)))
                   (map fst M) = true).
  { apply forallb_forall. intros k Hk. apply contains_In.
    apply in_map_iff in Hk. destruct Hk as (m & <- & Hm).
    apply in_map. eapply Permutation_in; eauto. }
  rewrite Hall.
  rewrite (lookup_columns (pd.cols df) M Hd)
    by (intros x Hx; eapply Permutation_in; eauto).
  reflexivity.
Qed.

Lemma same_name_raises (df : pd.DataFrame) (column : string) :
  py.contains (CStr column) (pd.columns df) = true ->
  distinct_labels (pd.columns df) = true ->
  move_column_before df column column = ([], Raise ValueError).
Proof.
  intros Hc Hd. unfold move_column_before. rewrite Hc. cbn [negb orb].
  unfold pd.columns in *.
  destruct (remove_label (pd.cols df) column Hc) as (L1 & c & L2 & HL & Hl & Hr).
  rewrite Hr. cbn [bind]. rewrite HL in Hd.
  destruct (distinct_without L1 c L2 Hd) as [Hno _]. rewrite Hl in Hno.
  rewrite (list_index_absent _ _ Hno). reflexivity.
Qed.

(** X8. Moving a column before itself raises ValueError, and prints nothing,
    whenever the name is a column label of a frame with distinct labels:
    once the name is removed from the list of labels, [index] does not find
    it. *)
Theorem move_column_before_same_name_raises (df : pd.DataFrame) (column : string) :
  py.contains (CStr column) (pd.columns df) = true ->
  distinct_labels (pd.columns df) = true ->
  move_column_before df column column = ([], Raise ValueError).
Proof.
  intros Hc Hd. unfold move_column_before. rewrite Hc. cbn [negb orb].
  unfold pd.columns in *.
  destruct (remove_label (pd.cols df) column Hc) as (L1 & c & L2 & HL & Hl & Hr).
  rewrite Hr. cbn [bind]. rewrite HL in Hd.
  destruct (distinct_without L1 c L2 Hd) as [Hno _]. rewrite Hl in Hno.
  rewrite (list_index_absent _ _ Hno). reflexivity.
Qed.

Lemma filter_firstn_skipn {A} (f : A -> bool) (l : list A) (i : nat) (x : A) :
  f x = false ->
  List.filter f (firstn i l ++ x :: skipn i l) = List.filter f l.
Proof.
  intros Hx. rewrite List.filter_app. cbn [List.filter]. rewrite Hx.
  rewrite <- List.filter_app, firstn_skipn. reflexivity.
Qed.

Lemma move_column_before_same_name_raises_witness :
  move_column_before two_columns "a" "a" = ([], Raise ValueError).
Proof.
  apply (move_column_before_same_name_raises two_columns "a"); reflexivity.
Defined.

(** X9. The move leaves the other columns alone: apart from the moved
    column, the returned frame holds the same columns with the same content
    in the same relative order as the frame it was given. *)
Theorem move_column_before_keeps_other_columns (df : pd.DataFrame)
  (target_column before_column : string) :
  py.contains (CStr target_column) (pd.columns df) = true ->
  py.contains (CStr before_column) (pd.columns df) = true ->
  target_column <> before_column ->
  distinct_labels (pd.columns df) = true ->
  exists df',
    move_column_before df target_column before_column = ([], Ok df')
    /\ other_columns target_column df' = other_columns target_column df.
Proof.
  intros Ht Hb Hne Hd.
  destruct (move_column_before_result df _ _ Ht Hb Hne Hd)
    as (L1 & c & L2 & i & HL & Hc & _ & _ & Hm).
  eexists. split; [exact Hm|]. unfold other_columns. cbn [pd.cols].
  assert (Hx : negb (cell_eqb (CStr target_column) (fst c)) = false)
    by (rewrite Hc, cell_eqb_refl; reflexivity).
  rewrite filter_firstn_skipn by exact Hx.
  rewrite HL, !List.filter_app. cbn [List.filter]. rewrite Hx. reflexivity.
Qed.

Lemma move_column_before_keeps_other_columns_witness :
  exists df',
    move_column_before two_columns "b" "a" = ([], Ok df')
    /\ other_columns "b" df' = other_columns "b" two_columns.
Proof.
  apply (move_column_before_keeps_other_columns two_columns "b" "a");
    first [reflexivity | discriminate].
Defined.

(** ** Looking a column up by its name *)

Lemma getitem_find (idx : list cell) (L : list (cell * list cell)) (key : cell) :
  pd.getitem {| pd.index := idx; pd.cols := L |} key
  = match find (fun c => cell_eqb key (fst c)) L with
    | Some c => Ok {| pd.s_index := idx; pd.s_values := snd c |}
    | None => Raise KeyError
    end.
Proof.
  unfold pd.getitem, pd.columns. cbn [pd.index pd.cols].
  induction L as [|c L IH]; cbn [map pd.position find]; [reflexivity|].
  destruct (cell_eqb key (fst c)); [reflexivity|].
  destruct (pd.position key (map fst L)) as [j|]; cbn [option_map] in *.
  - destruct (find (fun c => cell_eqb key (fst c)) L); [|discriminate].
    cbn [nth]. exact IH.
  - destruct (find (fun c => cell_eqb key (fst c)) L); [discriminate|reflexivity].
Qed.

Lemma find_label_distinct (L : list (cell * list cell)) (name : string) c :
  distinct_labels (map fst L) = true -> In c L -> fst c = CStr name ->
  find (fun c => cell_eqb (CStr name) (fst c)) L = Some c.
Proof.
  induction L as [|a L IH]; cbn [map distinct_labels find]; intros Hd Hin Hc;
    [destruct Hin|].
  apply andb_prop in Hd. destruct Hd as [Ha Hd]. apply negb_true_iff in Ha.
  destruct Hin as [->|Hin].
  - rewrite Hc, cell_eqb_refl. reflexivity.
  - destruct (cell_eqb (CStr name) (fst a)) eqn:E; [|apply IH; assumption].
    apply cell_eqb_str in E. rewrite E, <- Hc in Ha.
    rewrite contains_In in Ha by (apply in_map; exact Hin). discriminate.
Qed.

Lemma find_label_perm (L M : list (cell * list cell)) (name : string) :
  distinct_labels (map fst L) = true -> Permutation M L ->
  find (fun c => cell_eqb (CStr name) (fst c)) M
  = find (fun c => cell_eqb (CStr name) (fst c)) L.
Proof.
  intros Hd Hp.
  destruct (find (fun c => cell_eqb (CStr name) (fst c)) M) as [c|] eqn:E.
  - apply find_some in E. destruct E as [Hin E]. apply cell_eqb_str in E.
    symmetry. apply find_label_distinct; [exact Hd| |exact E].
    eapply Permutation_in; eauto.
  - destruct (find (fun c => cell_eqb (CStr name) (fst c)) L) as [c|] eqn:E';
      [|reflexivity].
    apply find_some in E'. destruct E' as [Hin E'].
    rewrite (find_none _ _ E c) in E'; [discriminate|].
    eapply Permutation_in; [symmetry; exact Hp|exact Hin].
Qed.

(** X10. After the move every column is found under its name with the
    content it had: [df[name]] gives the same series on the returned frame as
    on the given one, and the same KeyError for a name that is no label. *)
Theorem move_column_before_keeps_columns_by_name (df : pd.DataFrame)
  (target_column before_column : string) :
  py.contains (CStr target_column) (pd.columns df) = true ->
  py.contains (CStr before_column) (pd.columns df) = true ->
  target_column <> before_column ->
  distinct_labels (pd.columns df) = true ->
  exists df',
    move_column_before df target_column before_column = ([], Ok df')
    /\ forall name, pd.getitem df' (CStr name) = pd.getitem df (CStr name).
Proof.
  intros Ht Hb Hne Hd.
  destruct (move_column_before_result df _ _ Ht Hb Hne Hd)
    as (L1 & c & L2 & i & HL & Hc & _ & _ & Hm).
  eexists. split; [exact Hm|]. intros name.
  destruct df as [idx L]. cbn [pd.index pd.cols] in *. unfold pd.columns in Hd.
  cbn [pd.cols] in Hd. rewrite !getitem_find.
  rewrite (find_label_perm L); [reflexivity|exact Hd|].
  rewrite HL, <- Permutation_middle, firstn_skipn. apply Permutation_middle.
Qed.

Lemma move_column_before_keeps_columns_by_name_witness :
  exists df',
    move_column_before two_columns "b" "a" = ([], Ok df')
    /\ forall name, pd.getitem df' (CStr name) = pd.getitem two_columns (CStr name).
Proof.
  apply (move_column_before_keeps_columns_by_name two_columns "b" "a");
    first [reflexivity | discriminate].
Defined.

(** ** Moving a column that is already in place *)

Lemma list_remove_middle (x : cell) (l1 : list cell) c l2 :
  py.contains x l1 = false -> cell_eqb x c = true ->
  py.list_remove x (l1 ++ c :: l2) = Ok (l1 ++ l2).
Proof.
  unfold py.contains. intros H E.
  induction l1 as [|a l1 IH]; cbn [app py.list_remove existsb] in *.
  - rewrite E. reflexivity.
  - apply orb_false_iff in H. destruct H as [-> H]. rewrite (IH H). reflexivity.
Qed.

Lemma list_index_middle (x : cell) (l1 : list cell) c l2 :
  py.contains x l1 = false -> cell_eqb x c = true ->
  py.list_index x (l1 ++ c :: l2) = Ok (length l1).
Proof.
  unfold py.contains. intros H E.
  induction l1 as [|a l1 IH]; cbn [app py.list_index existsb length] in *.
  - rewrite E. reflexivity.
  - apply orb_false_iff in H. destruct H as [-> H]. rewrite (IH H). reflexivity.
Qed.

Lemma list_insert_middle (x : cell) (l1 l2 : list cell) :
  py.list_insert (length l1) x (l1 ++ l2) = l1 ++ x :: l2.
Proof.
  induction l1 as [|a l1 IH]; cbn [length app py.list_insert].
  - destruct l2; reflexivity.
  - rewrite IH. reflexivity.
Qed.

Lemma getitem_list_columns (df : pd.DataFrame) :
  distinct_labels (pd.columns df) = true ->
  pd.getitem_list df (pd.columns df) = Ok df.
Proof.
  intros Hd. unfold pd.getitem_list.
  assert (Hall : forallb (fun k => existsb (cell_eqb k) (pd.columns df))
                   (pd.columns df) = true).
  { apply forallb_forall. intros k Hk. apply contains_In. exact Hk. }
  rewrite Hall. unfold pd.columns in *.
  rewrite (lookup_columns (pd.cols df) (pd.cols df) Hd) by apply incl_refl.
  destruct df. reflexivity.
Qed.

Lemma in_place (df : pd.DataFrame) (target_column before_column : string) P c b S :
  pd.cols df = P ++ c :: b :: S ->
  fst c = CStr target_column -> fst b = CStr before_column ->
  distinct_labels (pd.columns df) = true ->
  move_column_before df target_column before_column = ([], Ok df).
Proof.
  intros HL Hc Hb Hd. unfold move_column_before.
  pose proof Hd as Hd'. unfold pd.columns in Hd'. rewrite HL in Hd'.
  destruct (distinct_without P c (b :: S) Hd') as [Hnc Hd1].
  destruct (distinct_without P b S Hd1) as [Hnb _].
  rewrite Hc in Hnc. rewrite Hb in Hnb.
  rewrite map_app, contains_app in Hnc, Hnb.
  apply orb_false_iff in Hnc, Hnb. destruct Hnc as [Hnc _], Hnb as [Hnb _].
  assert (Hcols : pd.columns df
                  = map fst P ++ CStr target_column :: CStr before_column :: map fst S).
  { unfold pd.columns. rewrite HL, map_app. cbn [map]. rewrite Hc, Hb. reflexivity. }
  assert (Ht : py.contains (CStr target_column) (pd.columns df) = true).
  { rewrite Hcols. apply contains_In. apply in_or_app. right. left. reflexivity. }
  assert (Hbc : py.contains (CStr before_column) (pd.columns df) = true).
  { rewrite Hcols. apply contains_In. apply in_or_app. right. right. left. reflexivity. }
  rewrite Ht, Hbc. cbn [negb orb]. f_equal.
  rewrite Hcols at 1.
  rewrite (list_remove_middle _ _ _ _ Hnc (cell_eqb_refl _)). cbn [bind].
  rewrite (list_index_middle _ _ _ _ Hnb (cell_eqb_refl _)). cbn [bind].
  rewrite list_insert_middle, <- Hcols. apply getitem_list_columns. exact Hd.
Qed.



Lemma distinct_insert (x : cell) (l1 l2 : list cell) :
  distinct_labels (l1 ++ l2) = true -> py.contains x (l1 ++ l2) = false ->
  distinct_labels (l1 ++ x :: l2) = true.
Proof.
  induction l1 as [|a l1 IH]; cbn [app distinct_labels]; intros Hd Hx.
  - rewrite Hx, Hd. reflexivity.
  - apply andb_prop in Hd. destruct Hd as [Ha Hd].
    unfold py.contains in Hx. cbn [existsb] in Hx.
    apply orb_false_iff in Hx. destruct Hx as [Hxa Hx].
    rewrite (IH Hd Hx), andb_true_r.
    apply negb_true_iff in Ha. rewrite contains_app in Ha |- *.
    apply orb_false_iff in Ha. destruct Ha as [Ha1 Ha2].
    unfold py.contains at 2. cbn [existsb].
    rewrite Ha1, cell_eqb_sym, Hxa. unfold py.contains in Ha2. rewrite Ha2.
    reflexivity.
Qed.

(** X12. The call is idempotent on frames with distinct labels: applied to
    the frame it returned, with the same two names, it returns that frame
    again and prints the same. *)
Theorem move_column_before_idempotent (df df' : pd.DataFrame)
  (target_column before_column : string) (out : list string) :
  distinct_labels (pd.columns df) = true ->
  move_column_before df target_column before_column = (out, Ok df') ->
  move_column_before df' target_column before_column = (out, Ok df').
Proof.
  intros Hd H.
  destruct (py.contains (CStr target_column) (pd.columns df)) eqn:Ht;
    [destruct (py.contains (CStr before_column) (pd.columns df)) eqn:Hb|].
  - destruct (String.eqb_spec target_column before_column) as [->|Hne].
    { rewrite (same_name_raises df before_column Hb Hd) in H. discriminate. }
    destruct (move_column_before_result df _ _ Ht Hb Hne Hd)
      as (L1 & c & L2 & i & HL & Hc & Hnth & Hfirst & Hm).
    rewrite Hm in H. apply pair_equal_spec in H. destruct H as [<- H].
    apply Ok_inj in H. subst df'.
    unfold pd.columns in Hd. rewrite HL in Hd.
    destruct (distinct_without L1 c L2 Hd) as [Hnc Hd1].
    rewrite nth_error_map in Hnth.
    destruct (nth_error (L1 ++ L2) i) as [b|] eqn:Eb; [|discriminate].
    cbn [option_map] in Hnth. apply Some_inj in Hnth.
    destruct (nth_error_split _ _ Eb) as (P & S & HX & Hlen).
    assert (Hf : firstn i (L1 ++ L2) = P).
    { rewrite HX, <- Hlen, firstn_app, Nat.sub_diag, firstn_all, firstn_O.
      apply app_nil_r. }
    assert (Hs : skipn i (L1 ++ L2) = b :: S).
    { rewrite HX, <- Hlen, skipn_app, Nat.sub_diag, skipn_all. reflexivity. }
    rewrite Hf, Hs.
    apply (in_place _ _ _ P c b S); [reflexivity|exact Hc|exact Hnth|].
    unfold pd.columns. cbn [pd.cols]. rewrite map_app. cbn [map].
    apply distinct_insert.
    + change (map fst P ++ fst b :: map fst S) with (map fst P ++ map fst (b :: S)).
      rewrite <- map_app, <- HX. exact Hd1.
    + change (map fst P ++ fst b :: map fst S) with (map fst P ++ map fst (b :: S)).
      rewrite <- map_app, <- HX. exact Hnc.
  - unfold move_column_before in H. rewrite Ht, Hb in H. cbn [negb orb] in H.
    apply pair_equal_spec in H. destruct H as [<- H]. apply Ok_inj in H. subst df'.
    unfold move_column_before. rewrite Ht, Hb. reflexivity.
  - unfold move_column_before in H. rewrite Ht in H. cbn [negb orb] in H.
    apply pair_equal_spec in H. destruct H as [<- H]. apply Ok_inj in H. subst df'.
    unfold move_column_before. rewrite Ht. reflexivity.
Qed.

Lemma move_column_before_idempotent_witness :
  move_column_before two_columns "b" "a" = ([], Ok two_columns_moved)
  /\ move_column_before two_columns_moved "b" "a" = ([], Ok two_columns_moved).
Proof.
  split; [reflexivity|].
  apply (move_column_before_idempotent two_columns two_columns_moved "b" "a" []);
    reflexivity.
Defined.


(** * [plot_calibration_curves] *)

Lemma brier_ok_valid y_true y_proba s :
  sklearn.brier_score_loss y_true y_proba = Ok s ->
  valid_proba y_true y_proba /\ y_true <> [].
Proof.
  intros H. pose proof (brier_ok_range _ _ _ H) as Hr.
  unfold sklearn.brier_score_loss, sklearn.check_consistent_length in H.
  destruct (Nat.eqb_spec (length y_true) (length y_proba)) as [E|E];
    [|discriminate].
  cbn [bind] in H. split; [split; [symmetry; exact E|exact Hr]|].
  intros ->. destruct y_proba; [discriminate|discriminate].
Qed.

Lemma brier_raises y_true y_proba e :
  sklearn.brier_score_loss y_true y_proba = Raise e -> e = ValueError.
Proof.
  unfold sklearn.brier_score_loss, sklearn.check_consistent_length.
  destruct (length y_true =? length y_proba)%nat; cbn [bind]; [|congruence].
  destruct y_proba; [congruence|].
  repeat match goal with |- context [if ?b then _ else _] => destruct b end;
    congruence.
Qed.

Lemma brier_scores_of_raises y_true items : forall d e,
  brier_scores_of y_true items d = Raise e -> e = ValueError.
Proof.
  induction items as [|[name proba] rest IH]; intros d e H; cbn in H;
    [discriminate|].
  destruct (sklearn.brier_score_loss y_true proba) as [b|e'] eqn:E; cbn [bind] in H.
  - eapply IH; eauto.
  - apply brier_raises in E. congruence.
Qed.

Lemma brier_scores_of_invalid y_true items name proba :
  In (name, proba) items -> ~ (valid_proba y_true proba /\ y_true <> []) ->
  forall d, brier_scores_of y_true items d = Raise ValueError.
Proof.
  intros Hin Hbad. induction items as [|[n p] rest IH]; intros d; [destruct Hin|].
  cbn [brier_scores_of].
  destruct (sklearn.brier_score_loss y_true p) as [b|e] eqn:E; cbn [bind].
  - destruct Hin as [Hin|Hin]; [|apply IH; exact Hin].
    apply pair_equal_spec in Hin. destruct Hin as [-> ->].
    destruct Hbad. eapply brier_ok_valid; eauto.
  - apply brier_raises in E. subst e. reflexivity.
Qed.



(** ** Reading the table by names *)




(** ** The calls of a computation that plots *)

Lemma quiet_ret {A} (a : A) : quiet (plot_ret a).
Proof. intros tr. exists []. split; [symmetry; apply app_nil_r|constructor]. Qed.

Lemma quiet_lift {A} (r : result A) : quiet (plot_lift r).
Proof. intros tr. exists []. split; [symmetry; apply app_nil_r|constructor]. Qed.

Lemma quiet_bind {A B} (c : Plot A) (k : A -> Plot B) :
  quiet c -> (forall a, quiet (k a)) -> quiet (plot_bind c k).
Proof.
  intros Hc Hk tr. unfold plot_bind. destruct (Hc tr) as (l1 & E1 & H1).
  destruct (c tr) as [[a|e] tr']; cbn [snd] in E1; subst tr'.
  - destruct (Hk a (tr ++ l1)) as (l2 & E2 & H2). exists (l1 ++ l2).
    rewrite E2, app_assoc. split; [reflexivity|]. apply Forall_app. auto.
  - exists l1. auto.
Qed.

Lemma quiet_for {A} (l : list A) (body : A -> Plot unit) :
  (forall a, quiet (body a)) -> quiet (plot_for l body).
Proof.
  intros H. induction l as [|a l IH]; cbn [plot_for]; [apply quiet_ret|].
  apply quiet_bind; [apply H|]. intros _. exact IH.
Qed.

Lemma fails_lift {A} (e : exn) : fails (plot_lift (A := A) (Raise e)).
Proof. intros tr. exists e. reflexivity. Qed.

Lemma fails_bind_l {A B} (c : Plot A) (k : A -> Plot B) :
  fails c -> fails (plot_bind c k).
Proof.
  intros Hc tr. unfold plot_bind. destruct (Hc tr) as (e & E).
  destruct (c tr) as [[a|e'] tr']; cbn [fst] in E; [discriminate|]. eauto.
Qed.

Lemma fails_bind_r {A B} (c : Plot A) (k : A -> Plot B) :
  (forall a, fails (k a)) -> fails (plot_bind c k).
Proof.
  intros Hk tr. unfold plot_bind.
  destruct (c tr) as [[a|e'] tr']; [apply Hk|]. eauto.
Qed.

Lemma quiet_bind_fails {A B} (c : Plot A) (k : A -> Plot B) :
  quiet c -> fails c -> quiet (plot_bind c k).
Proof.
  intros Hc Hf tr. unfold plot_bind. destruct (Hc tr) as (l & E & H).
  destruct (Hf tr) as (e & Ee).
  destruct (c tr) as [[a|e'] tr']; cbn [fst snd] in *; [discriminate|]. eauto.
Qed.



Lemma plot_bind_lift {A B} (a : A) (k : A -> Plot B) tr :
  plot_bind (plot_lift (Ok a)) k tr = k a tr.
Proof. reflexivity. Qed.

(** ** Dicts *)


Lemma setitem_keys {V} (d : list (string * V)) k v k' :
  In k' (map fst (dict.setitem d k v)) <-> k' = k \/ In k' (map fst d).
Proof.
  induction d as [|[k0 v0] d IH]; cbn [dict.setitem map In fst].
  - intuition congruence.
  - destruct (String.eqb_spec k k0) as [->|_]; cbn [map In fst].
    + intuition congruence.
    + rewrite IH. intuition congruence.
Qed.

Lemma getitem_present {V} (d : list (string * V)) k :
  In k (map fst d) -> exists v, dict.getitem d k = Ok v.
Proof.
  induction d as [|[k0 v0] d IH]; cbn [dict.getitem map In fst]; intros H;
    [destruct H|].
  destruct (String.eqb_spec k k0) as [->|Hne]; [eauto|].
  apply IH. destruct H; [congruence|assumption].
Qed.


(** ** The Brier scores of the models *)


Lemma brier_scores_of_keys y_true items : forall d r,
  brier_scores_of y_true items d = Ok r ->
  forall k, In k (map fst d) \/ In k (map fst items) -> In k (map fst r).
Proof.
  induction items as [|[name proba] rest IH]; intros d r H k Hk;
    cbn [brier_scores_of] in H.
  - apply Ok_inj in H. subst r. destruct Hk as [Hk|[]]. exact Hk.
  - apply bind_ok in H. destruct H as (b & Hb & H).
    apply (IH _ _ H). cbn [map fst In] in Hk. rewrite setitem_keys.
    intuition congruence.
Qed.

Lemma brier_scores_of_valid y_true items : forall d,
  y_true <> [] ->
  Forall (fun item => valid_proba y_true (snd item)) items ->
  Forall (fun kv : string * score => unit_score (snd kv)) d ->
  exists r, brier_scores_of y_true items d = Ok r
            /\ Forall (fun kv : string * score => unit_score (snd kv)) r.
Proof.
  intros d Hne Hv. revert d.
  induction Hv as [|[name proba] rest Hp _ IH]; intros d Hd; cbn [brier_scores_of].
  - eauto.
  - destruct (brier_unit y_true proba Hne Hp) as (q & -> & Hq). cbn [bind].
    apply IH. clear -Hd Hq.
    induction Hd as [|[k v] d Hk Hd IHd]; cbn [dict.setitem].
    + constructor; [exists q; auto|constructor].
    + destruct (String.eqb name k).
      * constructor; [exists q; auto|exact Hd].
      * constructor; [exact Hk|exact IHd].
Qed.



Lemma calibration_curve_ok y_true y_prob n_bins :
  valid_proba y_true y_prob -> y_true <> [] -> n_bins <> 0%nat ->
  exists r, calibration.calibration_curve y_true y_prob n_bins = Ok r.
Proof.
  intros [Hlen Hp] Hne Hn. unfold calibration.calibration_curve.
  destruct (Nat.eqb_spec n_bins 0) as [E|_]; [contradiction|].
  unfold sklearn.check_consistent_length.
  rewrite (proj2 (Nat.eqb_eq _ _) (eq_sym Hlen)). cbn [bind].
  destruct y_prob as [|p0 ps] eqn:E.
  { destruct y_true; [congruence|discriminate]. }
  rewrite <- E in *.
  assert (E0 : existsb (fun p => Qltb p 0) y_prob = false).
  { apply existsb_false_Forall. eapply List.Forall_impl; [|exact Hp].
    intros p [H0 _]. apply Qltb_ge. exact H0. }
  assert (E1 : existsb (fun p => Qltb 1 p) y_prob = false).
  { apply existsb_false_Forall. eapply List.Forall_impl; [|exact Hp].
    intros p [_ H1]. apply Qltb_ge. exact H1. }
  rewrite E0, E1. cbn [orb]. eauto.
Qed.

Lemma path_join_none a b :
  a = None \/ b = None -> os.path_join a b = Raise TypeError.
Proof. intros [-> | ->]; [|destruct a]; reflexivity. Qed.

(** ** The points of a calibration curve *)

Lemma calibration_curve_documented :
  match calibration.calibration_curve doc_calibration_labels
          doc_calibration_scores 3 with
  | Ok (prob_true, prob_pred) =>
      same_numbers prob_true [0; 0.5; 1]%Q
      && same_numbers prob_pred [0.2; 0.525; 0.85]%Q
  | Raise _ => false
  end = true.
Proof. vm_compute. reflexivity. Qed.

Lemma bin_sum_bounds (ids : list nat) (k : nat) : forall (w ones : list Q),
  length w = length ones ->
  Forall unit_interval w -> Forall (fun o => o = 1%Q) ones ->
  (0 <= bin_sum ids w k <= bin_sum ids ones k)%Q.
Proof.
  unfold bin_sum.
  induction ids as [|i ids IH]; intros [|x w] [|o ones] Hlen Hw Ho;
    try discriminate; cbn [combine List.filter map fold_right];
    try (split; apply Qle_refl).
  inversion Hw as [|? ? [Hx0 Hx1] Hw']; subst.
  inversion Ho as [|? ? Ho1 Ho']; subst.
  injection Hlen as Hlen. specialize (IH w ones Hlen Hw' Ho').
  cbn [fst]. destruct (i =? k)%nat; cbn [map snd fold_right]; lra.
Qed.

Lemma bin_sum_empty (ids : list nat) (w : list Q) (k : nat) :
  Forall (fun i => i <> k) ids -> bin_sum ids w k = 0%Q.
Proof.
  unfold bin_sum. intros H. revert w.
  induction H as [|i ids Hi _ IH]; intros [|x w]; try reflexivity.
  cbn [combine List.filter fst]. destruct (Nat.eqb_spec i k); [contradiction|].
  apply IH.
Qed.

Lemma select_bins (f total : nat -> Q) (bins : list nat) :
  map fst
    (List.filter snd
       (combine (map f bins) (map (fun t => negb (Qeq_bool t 0)) (map total bins))))
  = map f (List.filter (fun k => negb (Qeq_bool (total k) 0)) bins).
Proof.
  induction bins as [|k bins IH]; [reflexivity|].
  cbn [map combine List.filter snd]. destruct (negb (Qeq_bool (total k) 0));
    cbn [map fst]; rewrite IH; reflexivity.
Qed.

Lemma zip_with_maps {A B C D} (f : B -> C -> D) (g : A -> B) (h : A -> C) (l : list A) :
  np.zip_with f (map g l) (map h l) = map (fun a => f (g a) (h a)) l.
Proof.
  induction l as [|a l IH]; [reflexivity|]. cbn [map np.zip_with]. rewrite IH.
  reflexivity.
Qed.

Lemma searchsorted_le (a : list Q) (v : Q) :
  (calibration.searchsorted a v <= length a)%nat.
Proof. unfold calibration.searchsorted. apply List.filter_length_le. Qed.

Lemma linspace_length n : length (calibration.linspace n) = S n.
Proof. unfold calibration.linspace. rewrite length_map, length_seq. reflexivity. Qed.

Lemma list_max_below (l : list nat) (n : nat) :
  Forall (fun i => (i < S n)%nat) l -> (list_max l < S n)%nat.
Proof.
  induction 1 as [|i l Hi _ IH]; cbn [list_max fold_right]; [lia|].
  fold (list_max l). lia.
Qed.

(** What [calibration_curve] returns for valid arguments. *)
Lemma calibration_curve_points y_true y_prob n_bins :
  valid_proba y_true y_prob -> y_true <> [] -> n_bins <> 0%nat ->
  exists prob_true prob_pred,
    calibration.calibration_curve y_true y_prob n_bins = Ok (prob_true, prob_pred)
    /\ length prob_true = length prob_pred
    /\ (length prob_pred <= n_bins)%nat
    /\ Forall unit_interval prob_true
    /\ Forall unit_interval prob_pred.
Proof.
  intros [Hlen Hp] Hne Hn. unfold calibration.calibration_curve.
  destruct (Nat.eqb_spec n_bins 0) as [E|_]; [contradiction|].
  unfold sklearn.check_consistent_length.
  rewrite (proj2 (Nat.eqb_eq _ _) (eq_sym Hlen)). cbn [bind].
  destruct y_prob as [|p0 ps] eqn:E.
  { destruct y_true; [congruence|discriminate]. }
  rewrite <- E in *. clear E p0 ps.
  assert (E0 : existsb (fun p => Qltb p 0) y_prob = false).
  { apply existsb_false_Forall. eapply List.Forall_impl; [|exact Hp].
    intros p [H0 _]. apply Qltb_ge. exact H0. }
  assert (E1 : existsb (fun p => Qltb 1 p) y_prob = false).
  { apply existsb_false_Forall. eapply List.Forall_impl; [|exact Hp].
    intros p [_ H1]. apply Qltb_ge. exact H1. }
  rewrite E0, E1. cbn [orb].
  set (inner := removelast (tl (calibration.linspace n_bins))).
  set (ids := map (calibration.searchsorted inner) y_prob).
  set (ones := map (fun _ : Q => 1%Q) y_prob).
  assert (Hinner : length inner = (n_bins - 1)%nat).
  { unfold inner. rewrite removelast_length, length_tl, linspace_length. lia. }
  assert (Hids : Forall (fun i => (i < n_bins)%nat) ids).
  { unfold ids. apply Forall_map. apply List.Forall_forall. intros p _.
    pose proof (searchsorted_le inner p). lia. }
  assert (Hmax : Nat.max (length (calibration.linspace n_bins)) (S (list_max ids))
                 = S n_bins).
  { rewrite linspace_length.
    assert (list_max ids < S n_bins)%nat; [|lia].
    apply list_max_below. eapply List.Forall_impl; [|exact Hids].
    cbn beta. intros. lia. }
  unfold calibration.bincount. rewrite Hmax.
  fold (bin_sum ids y_prob). fold (bin_sum ids (map b2q y_true)).
  fold (bin_sum ids ones).
  change (map (fun k => bin_sum ids ?w k)) with (map (bin_sum ids w)).
  rewrite !select_bins, !zip_with_maps.
  set (K := List.filter (fun k => negb (Qeq_bool (bin_sum ids ones k) 0))
              (seq 0 (S n_bins))).
  assert (HK : forall k, In k K ->
             (0 < bin_sum ids ones k)%Q /\ (k < n_bins)%nat).
  { intros k Hk. unfold K in Hk. apply filter_In in Hk. destruct Hk as [_ Hk].
    apply negb_true_iff in Hk.
    assert (Hnz : ~ (bin_sum ids ones k == 0)%Q).
    { intros Hz. apply Qeq_bool_iff in Hz. congruence. }
    assert (Hone : Forall (fun o => o = 1%Q) ones).
    { unfold ones. apply Forall_map. apply List.Forall_forall. reflexivity. }
    destruct (bin_sum_bounds ids k ones ones eq_refl) as [Hge _]; [|exact Hone|].
    { eapply List.Forall_impl; [|exact Hone]. intros o ->. split; discriminate. }
    split; [lra|].
    destruct (Nat.lt_ge_cases k n_bins) as [Hlt|Hge']; [exact Hlt|].
    destruct Hnz. rewrite bin_sum_empty; [reflexivity|].
    eapply List.Forall_impl; [|exact Hids]. cbn beta. intros. lia. }
  assert (Hunit : forall w, length w = length ones -> Forall unit_interval w ->
             Forall unit_interval
               (map (fun k => bin_sum ids w k / bin_sum ids ones k)%Q K)).
  { intros w Hw Hwu. apply Forall_map. apply List.Forall_forall. intros k Hk.
    destruct (HK k Hk) as [Hpos _].
    destruct (bin_sum_bounds ids k w ones Hw Hwu) as [H0 H1].
    { unfold ones. apply Forall_map. apply List.Forall_forall. reflexivity. }
    split.
    - apply Qle_shift_div_l; [exact Hpos|]. lra.
    - apply Qle_shift_div_r; [exact Hpos|]. lra. }
  eexists _, _. split; [reflexivity|]. rewrite !length_map.
  split; [reflexivity|]. split; [|split].
  - assert (Hsub : K = List.filter (fun k => negb (Qeq_bool (bin_sum ids ones k) 0))
                         (seq 0 n_bins)).
    { unfold K. rewrite seq_S, List.filter_app. cbn [List.filter Nat.add].
      destruct (negb (Qeq_bool (bin_sum ids ones n_bins) 0)) eqn:Elast;
        [|apply app_nil_r].
      exfalso. destruct (HK n_bins) as [_ Hlt]; [|lia].
      unfold K. apply filter_In. split; [apply in_seq; lia|exact Elast]. }
    rewrite Hsub. etransitivity; [apply List.filter_length_le|].
    rewrite length_seq. lia.
  - apply Hunit.
    + unfold ones. rewrite !length_map. symmetry. exact Hlen.
    + apply Forall_map. apply List.Forall_forall. intros [|] _; split; discriminate.
  - apply Hunit; [unfold ones; rewrite length_map; reflexivity|exact Hp].
Qed.

Section PlottingFacts.

Variable backend : list plt.call -> plt.call -> result unit.
Variable format_fixed : nat -> score -> string.

Lemma quiet_call (c : plt.call) :
  plt.is_savefig c = false -> plt.is_show c = false ->
  quiet (plt_call backend c).
Proof.
  intros H1 H2 tr. exists [c]. split; [reflexivity|].
  constructor; [auto|constructor].
Qed.

(** X13. [plot_calibration_curves] validates every model before it plots:
    when the probabilities of some model do not have the length of the labels
    or leave [0, 1], or when there is a model and no label, the call raises
    ValueError and has made no call to the plotting library at all. *)
Theorem plot_calibration_curves_validates_first (y_true : list bool)
  (model_dict : ModelMap) figsize n_bins image_path img_string
  (name : string) (proba : list Q) (tr : list plt.call) :
  In (name, proba) model_dict ->
  ~ (valid_proba y_true proba /\ y_true <> []) ->
  plot_calibration_curves backend format_fixed y_true model_dict figsize n_bins
    image_path img_string tr
  = (Raise ValueError, tr).
Proof.
  intros Hin Hbad. unfold plot_calibration_curves, plot_bind, plot_lift.
  rewrite (brier_scores_of_invalid y_true model_dict name proba Hin Hbad).
  reflexivity.
Qed.

(** X14. Without a directory or without a file name (both default to
    [None]) [plot_calibration_curves] never returns the Brier scores: it
    raises, whatever the plotting library answers, and by then it has neither
    saved nor shown a figure. *)
Theorem plot_calibration_curves_needs_a_path (y_true : list bool)
  (model_dict : ModelMap) figsize n_bins image_path img_string
  (tr : list plt.call) :
  image_path = None \/ img_string = None ->
  exists e calls,
    plot_calibration_curves backend format_fixed y_true model_dict figsize n_bins
      image_path img_string tr
    = (Raise e, tr ++ calls)
    /\ draws_only calls.
Proof.
  intros Hnone.
  set (c := plot_calibration_curves backend format_fixed y_true model_dict figsize
              n_bins image_path img_string).
  assert (Hq : quiet c /\ fails c).
  { unfold c, plot_calibration_curves. rewrite (path_join_none _ _ Hnone). split.
    - repeat first
        [ apply quiet_bind_fails; [apply quiet_lift|apply fails_lift]
        | apply quiet_bind; [|intros ?]
        | apply quiet_lift
        | apply quiet_call; reflexivity
        | apply quiet_for; intros [? ?]
        | match goal with |- quiet (let '(_, _) := ?p in _) => destruct p end ].
    - repeat first [ apply fails_bind_l, fails_lift
                   | apply fails_bind_r; intros ? ]. }
  destruct Hq as [Hq Hf]. destruct (Hq tr) as (calls & E & Hd).
  destruct (Hf tr) as (e & Ee). exists e, calls.
  destruct (c tr) as [r tr']. cbn [fst snd] in *. subst. auto.
Qed.



Hypothesis backend_accepts : forall tr c, backend tr c = Ok tt.

Lemma run_call {B} (c : plt.call) (k : unit -> Plot B) tr :
  plot_bind (plt_call backend c) k tr = k tt (tr ++ [c]).
Proof. unfold plot_bind, plt_call. rewrite backend_accepts. reflexivity. Qed.

Lemma run_calibration_loop (y_true : list bool) (n_bins : nat)
  (brier_scores : list (string * score)) (items : ModelMap) :
  y_true <> [] -> n_bins <> 0%nat ->
  Forall (fun item => valid_proba y_true (snd item)) items ->
  (forall name, In name (map fst items) -> In name (map fst brier_scores)) ->
  forall tr, exists calls,
    plot_for items
      (fun '(name, proba) =>
         plot_bind (plot_lift (calibration.calibration_curve y_true proba n_bins))
           (fun '(prob_true, prob_pred) =>
              plot_bind (plot_lift (dict.getitem brier_scores name))
                (fun brier =>
                   plt_call backend
                     (plt.plot
                        {| plt.xdata := map Fin prob_pred;
                           plt.ydata := map Fin prob_true;
                           plt.fmt := None; plt.marker := Some "o";
                           plt.linestyle := None;
                           plt.label :=
                             Some (calibration_label format_fixed name brier) |}))))
      tr
    = (Ok tt, tr ++ calls)
    /\ length calls = length items
    /\ Forall (calibration_line n_bins) calls.
Proof.
  intros Hne Hn Hv. induction Hv as [|[name proba] rest Hp _ IH]; intros Hkeys tr.
  - exists []. cbn [plot_for plot_ret]. rewrite app_nil_r. auto.
  - cbn [plot_for]. unfold plot_bind at 1.
    destruct (calibration_curve_points y_true proba n_bins Hp Hne Hn)
      as (pt & pp & Hc & Hl & Hle & Hut & Hup).
    cbn [snd] in Hc. unfold plot_bind at 1. unfold plot_lift at 1. rewrite Hc.
    destruct (getitem_present brier_scores name) as (b & Hb).
    { apply Hkeys. left. reflexivity. }
    unfold plot_bind at 1. unfold plot_lift at 1. rewrite Hb.
    unfold plt_call at 1. rewrite backend_accepts.
    edestruct IH as (calls & Hrun & Hlen & Hplots).
    { intros n Hin. apply Hkeys. right. exact Hin. }
    rewrite Hrun. eexists (_ :: calls). rewrite <- app_assoc.
    split; [reflexivity|]. split; [cbn [length]; congruence|].
    constructor; [|exact Hplots].
    eexists. split; [reflexivity|]. unfold in_unit_square.
    cbn [plt.xdata plt.ydata plt.marker]. rewrite !length_map. split; [|split; [exact Hle|reflexivity]].
    split; [symmetry; exact Hl|].
    split; apply Forall_map;
      (eapply List.Forall_impl; [|eassumption]); intros q Hq; exists q; auto.
Qed.

Lemma calibration_lines_are_plots (n_bins : nat) (calls : list plt.call) :
  Forall (calibration_line n_bins) calls ->
  Forall (fun c => plt.is_plot c = true) calls.
Proof.
  intros H. eapply List.Forall_impl; [|exact H].
  intros c (l & -> & _). reflexivity.
Qed.

Lemma last_app_nonempty {A} (l1 l2 : list A) (d : A) :
  l2 <> [] -> List.last (l1 ++ l2) d = List.last l2 d.
Proof.
  intros H. induction l1 as [|a l1 IH]; [reflexivity|].
  cbn [app]. destruct (l1 ++ l2) eqn:E; [|exact IH].
  apply app_eq_nil in E. destruct E. contradiction.
Qed.

Lemma filter_plots_savefig (calls : list plt.call) :
  Forall (fun c => plt.is_plot c = true) calls ->
  List.filter plt.is_savefig calls = []
  /\ List.filter plt.is_plot calls = calls.
Proof.
  induction 1 as [|c calls Hc _ [IH1 IH2]]; [auto|].
  cbn [List.filter]. rewrite Hc, IH1, IH2.
  destruct c; try discriminate. auto.
Qed.

(** X16. On labels and models that are valid (at least one label, every
    probability vector of the length of the labels with values in [0, 1]),
    with at least one bin, a directory, a file name and a plotting library
    that accepts every call, [plot_calibration_curves] returns a dict with a
    key for every model and values in [0, 1]; it has plotted one curve per
    model and the reference line, saved the figure once, under the joined
    path, and shown it last. *)
Theorem plot_calibration_curves_on_valid_input (y_true : list bool)
  (model_dict : ModelMap) figsize n_bins (image_path img_string : string) tr :
  y_true <> [] ->
  Forall (fun item => valid_proba y_true (snd item)) model_dict ->
  n_bins <> 0%nat ->
  exists scores calls path,
    plot_calibration_curves backend format_fixed y_true model_dict figsize n_bins
      (Some image_path) (Some img_string) tr
    = (Ok scores, tr ++ calls)
    /\ Forall (fun kv : string * score => unit_score (snd kv)) scores
    /\ (forall name, In name (map fst model_dict) -> In name (map fst scores))
    /\ os.path_join (Some image_path) (Some img_string) = Ok path
    /\ List.filter plt.is_savefig calls = [plt.savefig path]
    /\ length (List.filter plt.is_plot calls) = S (length model_dict)
    /\ List.last calls (plt.title "") = plt.show.
Proof.
  intros Hne Hv Hn.
  destruct (brier_scores_of_valid y_true model_dict [] Hne Hv (List.Forall_nil _))
    as (scores & Hs & Hunit).
  assert (Hkeys : forall name, In name (map fst model_dict) -> In name (map fst scores)).
  { intros name Hin. eapply brier_scores_of_keys; eauto. }
  unfold plot_calibration_curves. rewrite Hs, plot_bind_lift, run_call.
  unfold plot_bind at 1.
  destruct (run_calibration_loop y_true n_bins scores model_dict Hne Hn Hv Hkeys
              (tr ++ [plt.figure figsize])) as (calls & -> & Hlen & Hlines).
  pose proof (calibration_lines_are_plots n_bins calls Hlines) as Hplots.
  rewrite !run_call.
  destruct (os.path_join (Some image_path) (Some img_string)) as [path|e] eqn:Ej;
    [|discriminate].
  rewrite plot_bind_lift, !run_call. unfold plot_ret.
  destruct (filter_plots_savefig calls Hplots) as [Hf1 Hf2].
  eexists scores, _, path. rewrite <- !app_assoc.
  split; [reflexivity|]. split; [exact Hunit|]. split; [exact Hkeys|].
  split; [reflexivity|]. cbn [app]. split; [|split].
  - cbn [List.filter plt.is_savefig]. rewrite List.filter_app, Hf1. reflexivity.
  - cbn [List.filter plt.is_plot]. rewrite List.filter_app, Hf2.
    cbn [List.filter plt.is_plot length]. rewrite length_app. cbn [length]. lia.
  - rewrite app_comm_cons, last_app_nonempty by discriminate. reflexivity.
Qed.


End PlottingFacts.

Lemma plot_calibration_curves_validates_first_witness :
  plot_calibration_curves accepting no_digits example_labels [("A", [0.5]%Q)]
    (8, 6)%Q 10 None None []
  = (Raise ValueError, []).
Proof.
  apply (plot_calibration_curves_validates_first accepting no_digits example_labels
           [("A", [0.5]%Q)] (8, 6)%Q 10 None None "A" [0.5]%Q []).
  - left. reflexivity.
  - intros [[Hlen _] _]. discriminate.
Defined.

Lemma plot_calibration_curves_needs_a_path_witness :
  exists e calls,
    plot_calibration_curves accepting no_digits example_labels example_models
      (8, 6)%Q 10 None None []
    = (Raise e, [] ++ calls)
    /\ draws_only calls.
Proof.
  apply (plot_calibration_curves_needs_a_path accepting no_digits example_labels
           example_models (8, 6)%Q 10 None None []).
  left. reflexivity.
Defined.


Lemma plot_calibration_curves_on_valid_input_witness :
  exists scores calls path,
    plot_calibration_curves accepting no_digits example_labels example_models
      (8, 6)%Q 10 (Some "images") (Some "calibration.png") []
    = (Ok scores, [] ++ calls)
    /\ Forall (fun kv : string * score => unit_score (snd kv)) scores
    /\ (forall name, In name (map fst example_models) -> In name (map fst scores))
    /\ os.path_join (Some "images") (Some "calibration.png") = Ok path
    /\ List.filter plt.is_savefig calls = [plt.savefig path]
    /\ length (List.filter plt.is_plot calls) = S (length example_models)
    /\ List.last calls (plt.title "") = plt.show.
Proof.
  apply (plot_calibration_curves_on_valid_input accepting no_digits
           (fun _ _ => eq_refl) example_labels example_models (8, 6)%Q 10
           "images" "calibration.png" []).
  - discriminate.
  - repeat (apply List.Forall_cons;
            [split; [reflexivity|];
             repeat (apply List.Forall_cons;
                     [split; [unfold Qle; simpl; lia|unfold Qle; simpl; lia]|]);
             apply List.Forall_nil|]).
    apply List.Forall_nil.
  - discriminate.
Defined.


(** * [plot_roc_curves_by_category] *)

Lemma plot_bind_ok {A B} (c : Plot A) (k : A -> Plot B) tr b tr' :
  plot_bind c k tr = (Ok b, tr') ->
  exists a tr1, c tr = (Ok a, tr1) /\ k a tr1 = (Ok b, tr').
Proof.
  unfold plot_bind. destruct (c tr) as [[a|e] tr1]; [eauto|discriminate].
Qed.

Lemma plot_lift_ok {A} (r : result A) tr a tr' :
  plot_lift r tr = (Ok a, tr') -> r = Ok a.
Proof. unfold plot_lift. intros H. injection H as -> _. reflexivity. Qed.

Lemma plot_for_ok {A} (l : list A) (body : A -> Plot unit) : forall tr tr',
  plot_for l body tr = (Ok tt, tr') ->
  forall a, In a l -> exists tr1 tr2, body a tr1 = (Ok tt, tr2).
Proof.
  induction l as [|x l IH]; intros tr tr' H a Hin; [destruct Hin|].
  cbn [plot_for] in H. apply plot_bind_ok in H. destruct H as ([] & tr1 & Hx & H).
  destruct Hin as [<-|Hin]; [eauto|]. eapply IH; eauto.
Qed.

Lemma value_count_ok labels label n :
  series.value_count labels label = Ok n -> In label labels.
Proof.
  unfold series.value_count.
  destruct (Z.eqb_spec (sklearn.count (Bool.eqb label) labels) 0) as [E|E];
    [discriminate|]. intros _.
  destruct (in_dec Bool.bool_dec label labels) as [Hin|Hout]; [exact Hin|].
  destruct E. apply count_zero. intros a Ha.
  destruct (Bool.eqb label a) eqn:Eq; [|reflexivity].
  apply Bool.eqb_prop in Eq. subst a. contradiction.
Qed.

Lemma value_count_in labels label :
  In label labels -> exists n, series.value_count labels label = Ok n.
Proof.
  intros H. unfold series.value_count.
  pose proof (count_pos_In (Bool.eqb label) labels label H (Bool.eqb_reflx label)).
  destruct (Z.eqb_spec (sklearn.count (Bool.eqb label) labels) 0); [lia|eauto].
Qed.

Lemma select_length {A B} (a : list A) (b : list B) (mask : list bool) :
  length a = length b ->
  length (series.select a mask) = length (series.select b mask).
Proof.
  unfold series.select. rewrite !length_map. revert b mask.
  induction a as [|x a IH]; intros [|y b] [|m mask] H; try discriminate;
    try reflexivity.
  cbn [combine List.filter snd]. injection H as H. specialize (IH b mask H).
  destruct m; cbn [length]; congruence.
Qed.

Lemma series_getitem_listed {V} (d : list (cell * V)) (k : cell) :
  series.contains d k = true -> exists v, series.getitem d k = Ok v.
Proof.
  unfold series.contains.
  induction d as [|[k' v] d IH]; cbn [existsb series.getitem fst]; [discriminate|].
  destruct (series.eq k k'); [eauto|exact IH].
Qed.

Section ByCategoryFacts.

Variable backend : list plt.call -> plt.call -> result unit.
Variable format_fixed : nat -> score -> string.
Variable str : Z -> string.

Lemma quiet_category vals y_test predictions category_labels outcome category :
  quiet (plot_category backend format_fixed str vals y_test predictions
           category_labels outcome category).
Proof.
  unfold plot_category. destruct (series.contains category_labels category);
    [|apply quiet_ret].
  repeat first
    [ apply quiet_bind; [|intros ?]
    | apply quiet_lift
    | apply quiet_call; reflexivity
    | match goal with |- quiet (let '(_, _) := ?p in _) => destruct p end ].
Qed.

(** X18. Without a directory or without a file name (both default to
    [None]) [plot_roc_curves_by_category] never completes: it raises, whatever
    the data and whatever the plotting library answers, and by then it has
    neither saved nor shown a figure. *)
Theorem plot_roc_curves_by_category_needs_a_path (X_test : pd.DataFrame)
  (y_test : LabelFrame) (predictions : list Q) (feature : string)
  (category_labels : list (cell * string)) (outcome title : string)
  (image_path img_string : option string) (tr : list plt.call) :
  image_path = None \/ img_string = None ->
  exists e calls,
    plot_roc_curves_by_category backend format_fixed str X_test y_test predictions
      feature category_labels outcome title image_path img_string tr
    = (Raise e, tr ++ calls)
    /\ draws_only calls.
Proof.
  intros Hnone.
  set (c := plot_roc_curves_by_category backend format_fixed str X_test y_test
              predictions feature category_labels outcome title image_path
              img_string).
  assert (Hq : quiet c /\ fails c).
  { unfold c, plot_roc_curves_by_category. rewrite (path_join_none _ _ Hnone). split.
    - repeat first
        [ apply quiet_bind_fails; [apply quiet_lift|apply fails_lift]
        | apply quiet_bind; [|intros ?]
        | apply quiet_lift
        | apply quiet_call; reflexivity
        | apply quiet_for; intros ?; apply quiet_category ].
    - repeat first [ apply fails_bind_l, fails_lift
                   | apply fails_bind_r; intros ? ]. }
  destruct Hq as [Hq Hf]. destruct (Hq tr) as (calls & E & Hd).
  destruct (Hf tr) as (e & Ee). exists e, calls.
  destruct (c tr) as [r tr']. cbn [fst snd] in *. subst. auto.
Qed.

(** X19. When [plot_roc_curves_by_category] completes, the feature is a
    column of [X_test], and for every value of that column that is a key of
    [category_labels]: the labels and the predictions have one entry per row
    of [X_test], [outcome] is the name of the label column, and the rows of
    that category hold both a 0 and a 1 label.  A listed category with one
    class only makes the call raise. *)
Theorem plot_roc_curves_by_category_needs_both_classes (X_test : pd.DataFrame)
  (y_test : LabelFrame) (predictions : list Q) (feature : string)
  (category_labels : list (cell * string)) (outcome title : string)
  (image_path img_string : option string) (tr tr' : list plt.call) :
  plot_roc_curves_by_category backend format_fixed str X_test y_test predictions
    feature category_labels outcome title image_path img_string tr
  = (Ok tt, tr') ->
  exists column,
    pd.getitem X_test (CStr feature) = Ok column
    /\ forall category,
         In category (listed_categories (pd.s_values column) category_labels) ->
         length (outcome_labels y_test) = length (pd.s_values column)
         /\ length predictions = length (pd.s_values column)
         /\ outcome = outcome_column y_test
         /\ both_classes (category_rows (pd.s_values column) y_test category).
Proof.
  unfold plot_roc_curves_by_category. intros H.
  do 4 (apply plot_bind_ok in H; destruct H as (? & ? & _ & H)).
  apply plot_bind_ok in H. destruct H as (column & tr1 & Hcol & H).
  apply plot_lift_ok in Hcol. exists column. split; [exact Hcol|].
  apply plot_bind_ok in H. destruct H as ([] & tr2 & Hloop & _).
  intros category Hin. unfold listed_categories in Hin.
  apply filter_In in Hin. destruct Hin as [Hin Hlisted].
  destruct (plot_for_ok _ _ _ _ Hloop category Hin) as (t1 & t2 & Hbody).
  unfold plot_category in Hbody. rewrite Hlisted in Hbody.
  apply plot_bind_ok in Hbody. destruct Hbody as (ys & ? & Hys & Hbody).
  apply plot_lift_ok in Hys.
  apply plot_bind_ok in Hbody. destruct Hbody as (ps & ? & Hps & Hbody).
  apply plot_lift_ok in Hps.
  apply plot_bind_ok in Hbody. destruct Hbody as ([fpr tpr] & ? & _ & Hbody).
  apply plot_bind_ok in Hbody. destruct Hbody as (a & ? & _ & Hbody).
  apply plot_bind_ok in Hbody. destruct Hbody as (d & ? & _ & Hbody).
  apply plot_bind_ok in Hbody. destruct Hbody as (c0 & ? & Hc0 & Hbody).
  apply plot_lift_ok in Hc0.
  apply plot_bind_ok in Hbody. destruct Hbody as (h0 & ? & Hh0 & Hbody).
  apply plot_lift_ok in Hh0.
  apply plot_bind_ok in Hbody. destruct Hbody as (c1 & ? & Hc1 & Hbody).
  apply plot_lift_ok in Hc1.
  apply plot_bind_ok in Hbody. destruct Hbody as (h1 & ? & Hh1 & _).
  apply plot_lift_ok in Hh1.
  unfold frame_select in Hys. unfold array_select in Hps.
  unfold series.eq_values in Hys, Hps. rewrite length_map in Hys, Hps.
  destruct (Nat.eqb_spec (length (pd.s_values column)) (length (outcome_labels y_test)))
    as [E1|]; [|discriminate].
  destruct (Nat.eqb_spec (length (pd.s_values column)) (length predictions))
    as [E2|]; [|discriminate].
  apply Ok_inj in Hys. subst ys.
  unfold frame_getitem in Hc0, Hc1. cbn [outcome_column outcome_labels] in Hc0, Hc1.
  destruct (String.eqb_spec outcome (outcome_column y_test)) as [E3|]; [|discriminate].
  apply Ok_inj in Hc0, Hc1. subst c0 c1.
  apply value_count_ok in Hh0, Hh1.
  split; [auto|]. split; [auto|]. split; [exact E3|]. split; assumption.
Qed.

Hypothesis backend_accepts : forall tr c, backend tr c = Ok tt.

Lemma run_category vals y_test predictions category_labels outcome category tr :
  length (outcome_labels y_test) = length vals ->
  length predictions = length vals ->
  outcome = outcome_column y_test ->
  series.contains category_labels category = true ->
  both_classes (category_rows vals y_test category) ->
  exists line,
    plot_category backend format_fixed str vals y_test predictions category_labels
      outcome category tr
    = (Ok tt, tr ++ [plt.plot line]).
Proof.
  intros Hy Hp Ho Hlisted [Ht Hf]. unfold plot_category. rewrite Hlisted.
  unfold frame_select, array_select, series.eq_values. rewrite length_map.
  rewrite (proj2 (Nat.eqb_eq _ _) (eq_sym Hy)), (proj2 (Nat.eqb_eq _ _) (eq_sym Hp)).
  rewrite !plot_bind_lift. cbn [outcome_labels].
  fold (series.eq_values vals category).
  change (series.select (outcome_labels y_test) (series.eq_values vals category))
    with (category_rows vals y_test category).
  destruct (roc_auc_unit (category_rows vals y_test category)
              (series.select predictions (series.eq_values vals category)))
    as (fpr & tpr & a & Hroc & Hauc & _); [|exact Ht|exact Hf|].
  { unfold category_rows. apply select_length. congruence. }
  rewrite Hroc, plot_bind_lift, Hauc, plot_bind_lift.
  destruct (series_getitem_listed category_labels category Hlisted) as (d & ->).
  rewrite plot_bind_lift.
  unfold frame_getitem. cbn [outcome_column outcome_labels].
  rewrite (proj2 (String.eqb_eq _ _) Ho), !plot_bind_lift.
  destruct (value_count_in _ false Hf) as (h0 & ->). rewrite !plot_bind_lift.
  destruct (value_count_in _ true Ht) as (h1 & ->). rewrite !plot_bind_lift. unfold plt_call. rewrite backend_accepts. eauto.
Qed.

Lemma run_categories vals y_test predictions category_labels outcome
  (categories : list cell) :
  length (outcome_labels y_test) = length vals ->
  length predictions = length vals ->
  outcome = outcome_column y_test ->
  (forall category,
     In category (List.filter (series.contains category_labels) categories) ->
     both_classes (category_rows vals y_test category)) ->
  forall tr, exists calls,
    plot_for categories
      (plot_category backend format_fixed str vals y_test predictions
         category_labels outcome) tr
    = (Ok tt, tr ++ calls)
    /\ length calls
       = length (List.filter (series.contains category_labels) categories)
    /\ Forall (fun c => plt.is_plot c = true) calls.
Proof.
  intros Hy Hp Ho. induction categories as [|c l IH]; intros Hall tr.
  - exists []. cbn [plot_for plot_ret]. rewrite app_nil_r. auto.
  - cbn [plot_for List.filter] in *. unfold plot_bind at 1.
    destruct (series.contains category_labels c) eqn:Hlisted.
    + destruct (run_category vals y_test predictions category_labels outcome c tr
                  Hy Hp Ho Hlisted) as (line & ->).
      { apply Hall. left. reflexivity. }
      destruct (IH (fun x Hx => Hall x (or_intror Hx)) (tr ++ [plt.plot line]))
        as (calls & -> & Hlen & Hplots).
      exists (plt.plot line :: calls). rewrite <- app_assoc.
      split; [reflexivity|]. split; [cbn [length]; congruence|].
      constructor; [reflexivity|exact Hplots].
    + unfold plot_category at 1. rewrite Hlisted. unfold plot_ret at 1.
      apply IH. exact Hall.
Qed.

(** X20. When the feature is a column of [X_test] (a frame with distinct
    column labels), the labels and the predictions have one entry per row,
    [outcome] names the label column, every listed category has both classes
    among its rows, a directory and a file name are given and the plotting
    library accepts every call, then [plot_roc_curves_by_category] completes:
    it has plotted the chance line and one curve per listed category (the
    other categories are skipped), saved the figure once under the joined
    path, and shown it last. *)
Theorem plot_roc_curves_by_category_on_valid_input (X_test : pd.DataFrame)
  (y_test : LabelFrame) (predictions : list Q) (feature : string)
  (category_labels : list (cell * string)) (outcome title : string)
  (image_path img_string : string) (column : pd.Series) (tr : list plt.call) :
  distinct_labels (pd.columns X_test) = true ->
  pd.getitem X_test (CStr feature) = Ok column ->
  length (outcome_labels y_test) = length (pd.s_values column) ->
  length predictions = length (pd.s_values column) ->
  outcome = outcome_column y_test ->
  (forall category,
     In category (listed_categories (pd.s_values column) category_labels) ->
     both_classes (category_rows (pd.s_values column) y_test category)) ->
  exists calls path,
    plot_roc_curves_by_category backend format_fixed str X_test y_test predictions
      feature category_labels outcome title (Some image_path) (Some img_string) tr
    = (Ok tt, tr ++ calls)
    /\ os.path_join (Some image_path) (Some img_string) = Ok path
    /\ List.filter plt.is_savefig calls = [plt.savefig path]
    /\ length (List.filter plt.is_plot calls)
       = S (length (listed_categories (pd.s_values column) category_labels))
    /\ List.last calls (plt.title "") = plt.show.
Proof.
  intros _ Hcol Hy Hp Ho Hall. unfold plot_roc_curves_by_category.
  rewrite !(run_call backend backend_accepts), Hcol, plot_bind_lift.
  unfold plot_bind at 1.
  destruct (run_categories (pd.s_values column) y_test predictions category_labels
              outcome (series.unique (pd.s_values column)) Hy Hp Ho Hall
              ((((tr ++ [plt.title title]) ++ [plt.plot chance_line])
                ++ [plt.xlabel "False Positive Rate"])
               ++ [plt.ylabel "True Positive Rate"]))
    as (calls & -> & Hlen & Hplots).
  rewrite (run_call backend backend_accepts).
  destruct (os.path_join (Some image_path) (Some img_string)) as [path|e] eqn:Ej;
    [|discriminate].
  rewrite plot_bind_lift, (run_call backend backend_accepts).
  unfold plt_call. rewrite backend_accepts.
  destruct (filter_plots_savefig calls Hplots) as [Hf1 Hf2].
  eexists _, path. rewrite <- !app_assoc.
  split; [reflexivity|]. split; [reflexivity|]. cbn [app]. split; [|split].
  - cbn [List.filter plt.is_savefig]. rewrite List.filter_app, Hf1. reflexivity.
  - cbn [List.filter plt.is_plot]. rewrite List.filter_app, Hf2.
    cbn [List.filter plt.is_plot length]. rewrite length_app. cbn [length].
    unfold listed_categories. lia.
  - rewrite (last_app_nonempty
               (plt.title title :: plt.plot chance_line
                :: plt.xlabel "False Positive Rate"
                :: plt.ylabel "True Positive Rate" :: calls)
               [plt.legend (Some "lower right"); plt.savefig path; plt.show])
      by discriminate.
    reflexivity.
Qed.

End ByCategoryFacts.

Lemma plot_roc_curves_by_category_needs_a_path_witness :
  exists e calls,
    plot_roc_curves_by_category accepting no_digits no_str example_features
      example_outcomes example_predictions "sex" example_category_labels
      "outcome" "ROC by sex" None None []
    = (Raise e, [] ++ calls)
    /\ draws_only calls.
Proof.
  apply (plot_roc_curves_by_category_needs_a_path accepting no_digits no_str
           example_features example_outcomes example_predictions "sex"
           example_category_labels "outcome" "ROC by sex" None None []).
  left. reflexivity.
Defined.

Lemma plot_roc_curves_by_category_needs_both_classes_witness :
  exists calls,
    plot_roc_curves_by_category accepting no_digits no_str example_features
      example_outcomes example_predictions "sex" example_category_labels
      "outcome" "ROC by sex" (Some "images") (Some "roc.png") []
    = (Ok tt, calls)
    /\ exists column,
         pd.getitem example_features (CStr "sex") = Ok column
         /\ forall category,
              In category
                (listed_categories (pd.s_values column) example_category_labels) ->
              length (outcome_labels example_outcomes) = length (pd.s_values column)
              /\ length example_predictions = length (pd.s_values column)
              /\ "outcome" = outcome_column example_outcomes
              /\ both_classes
                   (category_rows (pd.s_values column) example_outcomes category).
Proof.
  eexists. split; [vm_compute; reflexivity|].
  eapply (plot_roc_curves_by_category_needs_both_classes accepting no_digits no_str
            example_features example_outcomes example_predictions "sex"
            example_category_labels "outcome" "ROC by sex" (Some "images")
            (Some "roc.png") [] _).
  vm_compute. reflexivity.
Defined.

Lemma plot_roc_curves_by_category_on_valid_input_witness :
  exists calls path,
    plot_roc_curves_by_category accepting no_digits no_str example_features
      example_outcomes example_predictions "sex" example_category_labels
      "outcome" "ROC by sex" (Some "images") (Some "roc.png") []
    = (Ok tt, [] ++ calls)
    /\ os.path_join (Some "images") (Some "roc.png") = Ok path
    /\ List.filter plt.is_savefig calls = [plt.savefig path]
    /\ length (List.filter plt.is_plot calls)
       = S (length (listed_categories
                      (pd.s_values (example_series "sex"))
                      example_category_labels))
    /\ List.last calls (plt.title "") = plt.show.
Proof.
  apply (plot_roc_curves_by_category_on_valid_input accepting no_digits no_str
           (fun _ _ => eq_refl) example_features example_outcomes
           example_predictions "sex" example_category_labels "outcome"
           "ROC by sex" "images" "roc.png" (example_series "sex") []);
    try reflexivity.
  intros category Hin. vm_compute in Hin.
  destruct Hin as [<-|[<-|[]]]; split; vm_compute; tauto.
Defined.

(** * The table for any metrics of one model *)

Section MetricsFacts.

Variable metrics : list bool -> list Q -> Q -> result Scores.

Lemma evaluate_models_with_rows y_test threshold items : forall names rows,
  evaluate_models_with metrics y_test threshold items (dict_rows names rows)
  = let* ss := all_scores_with metrics y_test threshold items in
    Ok (dict_rows (names ++ map fst items) (rows ++ ss)).
Proof.
  induction items as [|[name proba] rest IH]; intros names rows; simpl.
  - rewrite !app_nil_r. reflexivity.
  - destruct (metrics y_test proba threshold) as [s|e]; simpl; [|reflexivity].
    rewrite append_scores_rows, IH.
    destruct (all_scores_with metrics y_test threshold rest) as [ss|e]; simpl;
      [|reflexivity].
    rewrite <- !app_assoc. reflexivity.
Qed.

Lemma all_scores_with_length y_test threshold items : forall ss,
  all_scores_with metrics y_test threshold items = Ok ss ->
  length ss = length items.
Proof.
  induction items as [|[name proba] rest IH]; intros ss H; simpl in H.
  - injection H as <-. reflexivity.
  - inv_bind H. inv_bind H. injection H as <-. simpl. f_equal. eauto.
Qed.

Lemma all_scores_with_nth y_test threshold items : forall ss,
  all_scores_with metrics y_test threshold items = Ok ss ->
  forall j name proba, nth_error items j = Some (name, proba) ->
  exists s, nth_error ss j = Some s
            /\ metrics y_test proba threshold = Ok s.
Proof.
  induction items as [|[n p] rest IH]; intros ss H j name proba Hj.
  - destruct j; discriminate.
  - simpl in H. inv_bind H. inv_bind H. injection H as <-.
    destruct j as [|j]; simpl in *.
    + injection Hj as <- <-. eauto.
    + eauto.
Qed.

(** The loops of [evaluate_model_metrics] in closed form, for any metrics. *)
Lemma evaluate_with_closed_form y_test model_dict threshold :
  evaluate_model_metrics_with metrics y_test model_dict threshold
  = let* rows := all_scores_with metrics y_test threshold model_dict in
    let* best_models := best_models_of (map fst model_dict) rows selectors in
    final_table (map fst model_dict) rows best_models.
Proof.
  unfold evaluate_model_metrics_with.
  change metrics_dict_init with (dict_rows [] []).
  rewrite evaluate_models_with_rows. cbn [app].
  destruct (all_scores_with metrics y_test threshold model_dict) as [rows|e] eqn:E;
    [|reflexivity].
  cbn [bind].
  assert (Hlen : length (map fst model_dict) = length rows).
  { rewrite length_map. symmetry. eapply all_scores_with_length; eauto. }
  rewrite of_dict_rows by exact Hlen. cbn [bind].
  rewrite select_best_frame by exact Hlen.
  destruct (best_models_of (map fst model_dict) rows selectors) as [bests|e];
    [|reflexivity].
  cbn [bind]. unfold final_table. f_equal.
  unfold pd.set_index, pd.columns, metrics_frame.
  cbn [pd.cols dict_rows map fst snd pd.position cell_eqb String.eqb Ascii.eqb
       Bool.eqb nth bind].
  unfold pd.T. cbn [pd.index pd.cols pd.columns].
  rewrite length_map, Hlen.
  pose proof (transposed_rows rows) as Ht.
  cbn [dict_rows map fst snd pd.remove_nth] in Ht.
  unfold pd.columns. cbn [pd.remove_nth pd.cols map fst snd]. rewrite Ht.
  rewrite combine_columns. reflexivity.
Qed.

Lemma evaluate_with_ok_inv y_test model_dict threshold df :
  evaluate_model_metrics_with metrics y_test model_dict threshold = Ok df ->
  exists rows bests,
    all_scores_with metrics y_test threshold model_dict = Ok rows
    /\ best_models_of (map fst model_dict) rows selectors = Ok bests
    /\ final_table (map fst model_dict) rows bests = Ok df.
Proof.
  rewrite evaluate_with_closed_form. intros H.
  apply bind_ok in H. destruct H as (rows & Hr & H).
  apply bind_ok in H. destruct H as (bests & Hb & H).
  eauto.
Qed.

Lemma evaluate_with_rows y_test model_dict threshold df :
  evaluate_model_metrics_with metrics y_test model_dict threshold = Ok df ->
  exists rows bests,
    scores_in_table_with metrics y_test threshold model_dict df rows
    /\ best_models_of (map fst model_dict) rows selectors = Ok bests
    /\ pd.getitem df (CStr "Best Model")
       = Ok {| pd.s_index := map CStr metric_names; pd.s_values := bests |}.
Proof.
  intros H.
  destruct (evaluate_with_ok_inv _ _ _ _ H) as (rows & bests & Hr & Hb & Hf).
  destruct (final_table_inv bests _ _ _ Hf) as (_ & Hcols & Hg & _).
  exists rows, bests. split; [|split; assumption].
  split; [eapply all_scores_with_length; eauto|].
  intros j name proba Hj.
  destruct (all_scores_with_nth _ _ _ _ Hr j name proba Hj) as (s & Hs & Hc).
  exists s. split; [exact Hs|]. split; [exact Hc|]. intros Hne.
  rewrite (Hcols j name s); [|rewrite nth_error_map, Hj; reflexivity|exact Hs].
  destruct (String.eqb_spec "Best Model" name); [congruence|reflexivity].
Qed.

Lemma evaluate_with_empty y_test threshold :
  evaluate_model_metrics_with metrics y_test [] threshold = Raise ValueError.
Proof. reflexivity. Qed.

(** C1. Whatever scores the loop body computes for the models (exact or
    rounded): on every model map for which a table is returned (none is
    returned for an empty one), the "Best Model" entry of each metric row is
    the name of the model at the first position, in insertion order, of the
    highest score of that row, and of the lowest score for the Brier Score
    row.  The scores compared are the ones that the loop body returned, which
    the table shows in the column of each model. *)
Theorem best_model_is_first_extreme y_test model_dict threshold df :
  evaluate_model_metrics_with metrics y_test model_dict threshold = Ok df ->
  model_dict <> []
  /\ exists rows,
       scores_in_table_with metrics y_test threshold model_dict df rows
       /\ forall r metric,
            nth_error metric_names r = Some metric ->
            exists k name proba,
              nth_error model_dict k = Some (name, proba)
              /\ table_value df "Best Model" metric = Ok (CStr name)
              /\ if String.eqb metric "Brier Score"
                 then first_lowest (map (metric_score r) rows) k
                 else first_highest (map (metric_score r) rows) k.
Proof.
  intros H. split.
  { intros ->. rewrite evaluate_with_empty in H. discriminate. }
  destruct (evaluate_with_rows _ _ _ _ H) as (rows & bests & Hrows & Hb & Hg).
  exists rows. split; [exact Hrows|].
  destruct Hrows as [Hlen _].
  destruct (best_models_inv _ _ _ Hb)
    as (b0 & b1 & b2 & b3 & b4 & b5 & b6 & -> & B0 & B1 & B2 & B3 & B4 & B5 & B6).
  intros r metric Hr. unfold table_value. rewrite Hg. cbn [bind].
  unfold metric_names in Hr.
  destruct r as [|[|[|[|[|[|[|r]]]]]]]; cbn [nth_error] in Hr;
    try (destruct r; discriminate);
    apply Some_inj in Hr; subst metric;
    match goal with
    | Hbest : best_of _ _ (map ?f rows) = Ok ?b
      |- context [metric_score ?n] =>
        lazymatch b with
        | b0 => constr_eq n 0%nat | b1 => constr_eq n 1%nat
        | b2 => constr_eq n 2%nat | b3 => constr_eq n 3%nat
        | b4 => constr_eq n 4%nat | b5 => constr_eq n 5%nat
        | b6 => constr_eq n 6%nat
        end;
        destruct (best_entry model_dict rows _ f b Hlen Hbest)
          as (k & name & proba & Hk & -> & Harg);
        exists k, name, proba; split; [exact Hk|]; split; [reflexivity|];
        change (map (metric_score n) rows) with (map f rows)
    end;
    cbn [String.eqb Ascii.eqb Bool.eqb];
    first [apply higher_first_best; exact Harg | apply lower_first_best; exact Harg].
Qed.

End MetricsFacts.

(** [evaluate_model_metrics] is the function over the exact scores. *)
Lemma evaluate_models_exact y_test threshold items : forall d,
  evaluate_models y_test threshold items d
  = evaluate_models_with compute_scores y_test threshold items d.
Proof.
  induction items as [|[name proba] rest IH]; intros d; simpl; [reflexivity|].
  destruct (compute_scores y_test proba threshold); simpl; [apply IH|reflexivity].
Qed.

Lemma evaluate_model_metrics_exact y_test model_dict threshold :
  evaluate_model_metrics y_test model_dict threshold
  = evaluate_model_metrics_with compute_scores y_test model_dict threshold.
Proof.
  unfold evaluate_model_metrics, evaluate_model_metrics_with.
  rewrite evaluate_models_exact. reflexivity.
Qed.

(** The theorem on the two separating models, in doubles: model B, whose
    PR AUC and Average Precision round to 1.0000000000000002, is the best
    model of these two rows, ahead of model A with 1.0. *)
Lemma best_model_is_first_extreme_witness :
  evaluate_model_metrics_with (fl.compute_scores binary64.round)
    separated_labels separated_models 0.5 = Ok separated_table
  /\ table_value separated_table "Best Model" "PR AUC" = Ok (CStr "B")
  /\ separated_models <> []
  /\ exists rows,
       scores_in_table_with (fl.compute_scores binary64.round)
         separated_labels 0.5 separated_models separated_table rows
       /\ forall r metric,
            nth_error metric_names r = Some metric ->
            exists k name proba,
              nth_error separated_models k = Some (name, proba)
              /\ table_value separated_table "Best Model" metric = Ok (CStr name)
              /\ if String.eqb metric "Brier Score"
                 then first_lowest (map (metric_score r) rows) k
                 else first_highest (map (metric_score r) rows) k.
Proof.
  split; [vm_compute; reflexivity|].
  split; [vm_compute; reflexivity|].
  apply (best_model_is_first_extreme (fl.compute_scores binary64.round)
           separated_labels separated_models 0.5 separated_table).
  vm_compute. reflexivity.
Defined.

(** * Rounded arithmetic *)

Lemma zip_with_lift_fin (f : Q -> Q -> Q) (a : list Q) : forall b : list Q,
  np.zip_with (s_lift2 f) (map Fin a) (map Fin b) = map Fin (np.zip_with f a b).
Proof.
  induction a as [|x a IH]; intros [|y b]; simpl; try reflexivity.
  rewrite IH. reflexivity.
Qed.

Lemma diff_lift_fin (f : Q -> Q -> Q) (xs : list Q) :
  np.diff (s_lift2 f) (map Fin xs) = map Fin (np.diff f xs).
Proof.
  induction xs as [|a xs IH]; [reflexivity|].
  destruct xs as [|b xs]; [reflexivity|].
  change (s_lift2 f (Fin b) (Fin a) :: np.diff (s_lift2 f) (map Fin (b :: xs))
          = Fin (f b a) :: map Fin (np.diff f (b :: xs))).
  rewrite IH. reflexivity.
Qed.

Lemma tl_map {A B} (f : A -> B) (l : list A) : tl (map f l) = map f (tl l).
Proof. destruct l; reflexivity. Qed.

Lemma tl_Forall {A} (P : A -> Prop) (l : list A) : Forall P l -> Forall P (tl l).
Proof. intros H. destruct H; [constructor|assumption]. Qed.

Lemma firstn_Forall {A} (P : A -> Prop) (n : nat) : forall l : list A,
  Forall P l -> Forall P (firstn n l).
Proof.
  induction n as [|n IH]; intros l H; [constructor|].
  destruct H; [constructor|]. simpl. constructor; auto.
Qed.

Lemma skipn_Forall {A} (P : A -> Prop) (n : nat) : forall l : list A,
  Forall P l -> Forall P (skipn n l).
Proof.
  induction n as [|n IH]; intros l H; [exact H|].
  destruct H; [constructor|]. simpl. auto.
Qed.

Lemma zip_with_Forall_both {A B C} (f : A -> B -> C) (P : A -> Prop)
  (Q : B -> Prop) (R : C -> Prop) (a : list A) : forall b : list B,
  Forall P a -> Forall Q b -> (forall x y, P x -> Q y -> R (f x y)) ->
  Forall R (np.zip_with f a b).
Proof.
  induction a as [|x a IH]; intros [|y b] Ha Hb Hf; simpl; try constructor.
  - inversion Ha; inversion Hb; subst. apply Hf; assumption.
  - inversion Ha; inversion Hb; subst. apply IH; assumption.
Qed.

Lemma existsb_fin (f : Q -> bool) (g : score -> bool) (l : list Q) :
  (forall q, g (Fin q) = f q) -> existsb g (map Fin l) = existsb f l.
Proof.
  intros H. induction l as [|d l IH]; [reflexivity|].
  simpl. rewrite H, IH. reflexivity.
Qed.

Lemma forallb_fin (f : Q -> bool) (g : score -> bool) (l : list Q) :
  (forall q, g (Fin q) = f q) -> forallb g (map Fin l) = forallb f l.
Proof.
  intros H. induction l as [|d l IH]; [reflexivity|].
  simpl. rewrite H, IH. reflexivity.
Qed.

Section RoundedFacts.

Variable rnd : Q -> Q.
Hypothesis Hrnd : rounding rnd.

Lemma rnd_mono x y : (x <= y)%Q -> (rnd x <= rnd y)%Q.
Proof. apply Hrnd. Qed.

Lemma rnd_int k : Z.abs k <= 2 ^ 53 -> (rnd (inject_Z k) == inject_Z k)%Q.
Proof. apply Hrnd. Qed.

Lemma rnd_eq x y : (x == y)%Q -> (rnd x == rnd y)%Q.
Proof.
  intros H. apply Qle_antisym; apply rnd_mono; rewrite H; apply Qle_refl.
Qed.

Lemma rnd_zero : (rnd 0 == 0)%Q.
Proof. apply (rnd_int 0). simpl. lia. Qed.

Lemma rnd_one : (rnd 1 == 1)%Q.
Proof. apply (rnd_int 1). simpl. lia. Qed.

Lemma rnd_nonneg x : (0 <= x)%Q -> (0 <= rnd x)%Q.
Proof. intros H. rewrite <- rnd_zero. apply rnd_mono. exact H. Qed.

Lemma rnd_nonpos x : (x <= 0)%Q -> (rnd x <= 0)%Q.
Proof. intros H. rewrite <- rnd_zero. apply rnd_mono. exact H. Qed.

Lemma rnd_le_int x k :
  Z.abs k <= 2 ^ 53 -> (x <= inject_Z k)%Q -> (rnd x <= inject_Z k)%Q.
Proof. intros Hk H. rewrite <- (rnd_int k Hk). apply rnd_mono. exact H. Qed.

Lemma rnd_ge_int x k :
  Z.abs k <= 2 ^ 53 -> (inject_Z k <= x)%Q -> (inject_Z k <= rnd x)%Q.
Proof. intros Hk H. rewrite <- (rnd_int k Hk). apply rnd_mono. exact H. Qed.

Lemma rnd_unit x : unit_interval x -> unit_interval (rnd x).
Proof.
  intros [H0 H1]. split; [apply rnd_nonneg; exact H0|].
  apply (rnd_le_int x 1); [simpl; lia|exact H1].
Qed.

(** ** Sums

    A property of the sum of an array follows from the property of its
    elements when the addition keeps it; [P m] is the property of a sum of
    [m] elements. *)

Section Sums.

Variable P : nat -> score -> Prop.
Hypothesis P_zero : P 0 (Fin 0).
Hypothesis P_add : forall m k a b,
  P m a -> P k b -> P (m + k) (fl.s_add rnd a b).

Lemma fold_left_sum (a : list score) : forall m acc,
  P m acc -> Forall (P 1%nat) a ->
  P (m + length a) (fold_left (fl.s_add rnd) a acc).
Proof.
  induction a as [|x a IH]; intros m acc Hacc Ha.
  - simpl. rewrite Nat.add_0_r. exact Hacc.
  - inversion Ha as [|? ? Hx Ha']; subst. cbn [fold_left length].
    replace (m + S (length a))%nat with ((m + 1) + length a)%nat by lia.
    apply IH; [|exact Ha']. apply P_add; assumption.
Qed.

Lemma add_blocks_sum (k : nat) : forall j r a,
  length r = 8%nat -> Forall (P j) r -> Forall (P 1%nat) a ->
  (8 * k <= length a)%nat ->
  length (fst (fl.add_blocks rnd k r a)) = 8%nat
  /\ Forall (P (j + k)) (fst (fl.add_blocks rnd k r a))
  /\ Forall (P 1%nat) (snd (fl.add_blocks rnd k r a))
  /\ length (snd (fl.add_blocks rnd k r a)) = (length a - 8 * k)%nat.
Proof.
  induction k as [|k IH]; intros j r a Hr Hj Ha Hk.
  - cbn [fl.add_blocks fst snd]. rewrite Nat.add_0_r.
    repeat split; try assumption. lia.
  - cbn [fl.add_blocks].
    assert (Hf : length (firstn 8 a) = 8%nat) by (rewrite length_firstn; lia).
    destruct (IH (j + 1)%nat (np.zip_with (fl.s_add rnd) r (firstn 8 a))
                (skipn 8 a)) as (H1 & H2 & H3 & H4).
    + rewrite zip_with_length_min, Hr, Hf. reflexivity.
    + apply (zip_with_Forall_both _ (P j) (P 1%nat)); [exact Hj| |].
      * apply firstn_Forall. exact Ha.
      * intros x y Hx Hy. apply P_add; assumption.
    + apply skipn_Forall. exact Ha.
    + rewrite length_skipn. lia.
    + split; [exact H1|]. split.
      * replace (j + S k)%nat with (j + 1 + k)%nat by lia. exact H2.
      * split; [exact H3|]. rewrite H4, length_skipn. lia.
Qed.

Lemma block_sum_sum (a : list score) :
  (8 <= length a)%nat -> Forall (P 1%nat) a ->
  P (length a) (fl.block_sum rnd a).
Proof.
  intros Hn Ha. unfold fl.block_sum.
  pose proof (Nat.div_mod_eq (length a) 8) as Hdiv.
  pose proof (Nat.mod_upper_bound (length a) 8 ltac:(lia)) as Hmod.
  set (k := (length a / 8 - 1)%nat).
  assert (Hk : (8 * (length a / 8) = 8 * k + 8)%nat).
  { unfold k. assert (1 <= length a / 8)%nat; [|lia].
    apply Nat.div_le_lower_bound; lia. }
  destruct (add_blocks_sum k 1%nat (firstn 8 a) (skipn 8 a))
    as (H1 & H2 & H3 & H4).
  - rewrite length_firstn. lia.
  - apply firstn_Forall. exact Ha.
  - apply skipn_Forall. exact Ha.
  - rewrite length_skipn. lia.
  - destruct (fl.add_blocks rnd k (firstn 8 a) (skipn 8 a)) as [r rest].
    cbn [fst snd] in *.
    destruct r as [|r0 [|r1 [|r2 [|r3 [|r4 [|r5 [|r6 [|r7 [|x r]]]]]]]]];
      try discriminate.
    repeat match goal with
           | H : Forall _ (_ :: _) |- _ => inversion H; clear H; subst
           end.
    replace (length a)
      with ((((1 + k) + (1 + k)) + ((1 + k) + (1 + k))
             + (((1 + k) + (1 + k)) + ((1 + k) + (1 + k)))) + length rest)%nat
      by (rewrite H4, length_skipn; lia).
    apply fold_left_sum; [|exact H3].
    repeat apply P_add; assumption.
Qed.

Lemma pairwise_sum_eq (fuel : nat) (a : list score) :
  fl.pairwise_sum rnd fuel a
  = if (length a <? 8)%nat then fold_left (fl.s_add rnd) a (Fin 0)
    else
      match fuel with
      | O => fl.block_sum rnd a
      | S fuel' =>
          if (length a <=? 128)%nat then fl.block_sum rnd a
          else
            let n2 := (length a / 2 - (length a / 2) mod 8)%nat in
            fl.s_add rnd (fl.pairwise_sum rnd fuel' (firstn n2 a))
              (fl.pairwise_sum rnd fuel' (skipn n2 a))
      end.
Proof. destruct fuel; reflexivity. Qed.

Lemma pairwise_sum_sum (fuel : nat) : forall a,
  Forall (P 1%nat) a -> P (length a) (fl.pairwise_sum rnd fuel a).
Proof.
  induction fuel as [|fuel IH]; intros a Ha; rewrite pairwise_sum_eq;
    destruct (Nat.ltb_spec (length a) 8) as [H8|H8];
    try (apply (fold_left_sum a 0%nat); assumption);
    try (apply block_sum_sum; assumption).
  destruct (Nat.leb_spec (length a) 128) as [Hb|Hb];
    [apply block_sum_sum; assumption|].
  cbn zeta. set (n2 := (length a / 2 - (length a / 2) mod 8)%nat).
  assert (Hn2 : (n2 <= length a)%nat).
  { unfold n2. pose proof (Nat.div_mod_eq (length a) 2). lia. }
  replace (length a) with (length (firstn n2 a) + length (skipn n2 a))%nat
    by (rewrite length_firstn, length_skipn; lia).
  apply P_add; apply IH; [apply firstn_Forall|apply skipn_Forall]; exact Ha.
Qed.

Lemma sum_sum (a : list score) :
  Forall (P 1%nat) a -> P (length a) (fl.sum rnd a).
Proof.
  intros Ha. unfold fl.sum. change (length a) with (0 + length a)%nat.
  apply P_add; [exact P_zero|]. apply pairwise_sum_sum. exact Ha.
Qed.

End Sums.

Lemma sum_nonneg (l : list Q) :
  Forall (fun q => 0 <= q)%Q l -> nonneg_score (fl.sum rnd (map Fin l)).
Proof.
  intros H. apply (sum_sum (fun _ => nonneg_score)).
  - exists 0%Q. split; [reflexivity|apply Qle_refl].
  - intros _ _ a b (x & -> & Hx) (y & -> & Hy). eexists. split; [reflexivity|].
    apply rnd_nonneg. lra.
  - apply Forall_map. eapply List.Forall_impl; [|exact H].
    intros q Hq. exists q. auto.
Qed.

Lemma sum_nonpos (l : list Q) :
  Forall (fun q => q <= 0)%Q l -> nonpos_score (fl.sum rnd (map Fin l)).
Proof.
  intros H. apply (sum_sum (fun _ => nonpos_score)).
  - exists 0%Q. split; [reflexivity|apply Qle_refl].
  - intros _ _ a b (x & -> & Hx) (y & -> & Hy). eexists. split; [reflexivity|].
    apply rnd_nonpos. lra.
  - apply Forall_map. eapply List.Forall_impl; [|exact H].
    intros q Hq. exists q. auto.
Qed.

Lemma sum_counted (l : list Q) :
  Forall unit_interval l -> counted_score (length l) (fl.sum rnd (map Fin l)).
Proof.
  intros H. rewrite <- (length_map Fin l). apply (sum_sum counted_score).
  - intros _. exists 0%Q. split; [reflexivity|]. split; apply Qle_refl.
  - intros m k a b Ha Hb Hmk.
    destruct Ha as (x & -> & Hx0 & Hx1); [lia|].
    destruct Hb as (y & -> & Hy0 & Hy1); [lia|].
    eexists. split; [reflexivity|]. split.
    + apply rnd_nonneg. lra.
    + apply rnd_le_int; [lia|].
      rewrite Nat2Z.inj_add, inject_Z_plus. lra.
  - apply Forall_map. eapply List.Forall_impl; [|exact H].
    intros q [Hq0 Hq1] _. exists q. split; [reflexivity|]. split; [exact Hq0|].
    exact Hq1.
Qed.

(** ** Rates and areas *)

Lemma fl_rate_positive (counts : list Z) :
  0 < List.last counts 0 ->
  fl.rate rnd counts
  = map Fin (map (fun c => rnd (ratio (List.last counts 0) c)) counts).
Proof.
  intros H. unfold fl.rate.
  destruct (Z.leb_spec (List.last counts 0) 0); [lia|].
  rewrite map_map. reflexivity.
Qed.

Lemma rnd_ratio_unit t c : 0 < t -> 0 <= c <= t -> unit_interval (rnd (ratio t c)).
Proof. intros Ht Hc. apply rnd_unit. apply ratio_unit; assumption. Qed.

(** The rounded rates of a sampled count, after the origin: they increase and
    stay in [0, 1]. *)
Lemma fl_rates_of_counts (counts : list Z) (total : Z) :
  0 < total -> counts <> [] -> chain Z.le counts ->
  Forall (fun c => 0 <= c <= total) counts -> List.last counts 0 = total ->
  let rates := map (fun c => rnd (ratio total c)) (0 :: counts) in
  fl.rate rnd (0 :: counts) = map Fin rates
  /\ chain Qle rates
  /\ Forall unit_interval rates.
Proof.
  intros Ht Hne Hc Hr Hl. cbn zeta.
  assert (Hlast : List.last (0 :: counts) 0 = total).
  { rewrite last_cons_default. exact Hl. }
  repeat split.
  - rewrite fl_rate_positive by lia. rewrite Hlast. reflexivity.
  - eapply chain_map;
      [intros x y Hxy; apply rnd_mono; apply ratio_mono; [exact Ht|exact Hxy]|].
    apply chain_cons; [exact Hc|]. intros b Hb.
    rewrite List.Forall_forall in Hr. apply Hr in Hb. lia.
  - apply Forall_map. constructor; [apply rnd_ratio_unit; lia|].
    eapply List.Forall_impl; [|exact Hr].
    intros c Hc'. apply rnd_ratio_unit; assumption.
Qed.

Lemma diff_nonneg (xs : list Q) :
  chain Qle xs -> Forall (fun d => 0 <= d)%Q (np.diff (fl.sub rnd) xs).
Proof.
  induction xs as [|a xs IH]; [constructor|].
  destruct xs as [|b xs]; [constructor|].
  intros [Hab Hc].
  change (np.diff (fl.sub rnd) (a :: b :: xs))
    with (rnd (b - a) :: np.diff (fl.sub rnd) (b :: xs)).
  constructor; [apply rnd_nonneg; lra|apply IH; exact Hc].
Qed.

Lemma diff_nonpos (xs : list Q) :
  chain (fun a b => b <= a)%Q xs ->
  Forall (fun d => d <= 0)%Q (np.diff (fl.sub rnd) xs).
Proof.
  induction xs as [|a xs IH]; [constructor|].
  destruct xs as [|b xs]; [constructor|].
  intros [Hab Hc].
  change (np.diff (fl.sub rnd) (a :: b :: xs))
    with (rnd (b - a) :: np.diff (fl.sub rnd) (b :: xs)).
  constructor; [apply rnd_nonpos; lra|apply IH; exact Hc].
Qed.

Lemma fl_trapz_fin (X Y : list Q) :
  fl.trapz rnd (map Fin Y) (map Fin X)
  = fl.sum rnd
      (map Fin
         (np.zip_with (fun d s => fl.div rnd (fl.mul rnd d s) 2)
            (np.diff (fl.sub rnd) X)
            (np.zip_with (fl.add rnd) (tl Y) (removelast Y)))).
Proof.
  unfold fl.trapz, fl.s_sub, fl.s_add.
  rewrite diff_lift_fin, tl_map, removelast_map, zip_with_lift_fin.
  f_equal. clear.
  generalize (np.diff (fl.sub rnd) X)
             (np.zip_with (fl.add rnd) (tl Y) (removelast Y)).
  induction l as [|d l IH]; intros [|s l']; simpl; try reflexivity.
  rewrite IH. reflexivity.
Qed.

Lemma half_nonneg d s : (0 <= d)%Q -> (0 <= s)%Q ->
  (0 <= fl.div rnd (fl.mul rnd d s) 2)%Q.
Proof.
  intros Hd Hs. unfold fl.div, fl.mul. apply rnd_nonneg.
  assert (0 <= rnd (d * s))%Q by (apply rnd_nonneg; nra).
  unfold Qdiv. change (/ 2)%Q with (1 # 2)%Q. lra.
Qed.

Lemma half_nonpos d s : (d <= 0)%Q -> (0 <= s)%Q ->
  (fl.div rnd (fl.mul rnd d s) 2 <= 0)%Q.
Proof.
  intros Hd Hs. unfold fl.div, fl.mul. apply rnd_nonpos.
  assert (rnd (d * s) <= 0)%Q by (apply rnd_nonpos; nra).
  unfold Qdiv. change (/ 2)%Q with (1 # 2)%Q. lra.
Qed.

Lemma pair_sums_nonneg (Y : list Q) :
  Forall (fun y => 0 <= y)%Q Y ->
  Forall (fun s => 0 <= s)%Q (np.zip_with (fl.add rnd) (tl Y) (removelast Y)).
Proof.
  intros H.
  apply (zip_with_Forall_both _ (fun y => 0 <= y)%Q (fun y => 0 <= y)%Q).
  - apply tl_Forall. exact H.
  - apply removelast_Forall. exact H.
  - intros x y Hx Hy. apply rnd_nonneg. lra.
Qed.

(** [auc] over a curve whose abscissas increase or decrease and whose
    ordinates are not negative: it returns a number that is not negative. *)
Lemma fl_auc_nonneg (X Y : list Q) :
  length X = length Y -> (2 <= length X)%nat ->
  Forall (fun y => 0 <= y)%Q Y ->
  chain Qle X \/ chain (fun a b => b <= a)%Q X ->
  exists a, fl.auc rnd (map Fin X) (map Fin Y) = Ok (Fin a) /\ (0 <= a)%Q.
Proof.
  intros Hlen H2 Hy Hx. unfold fl.auc, sklearn.check_consistent_length.
  rewrite !length_map, Hlen, Nat.eqb_refl. cbn [bind].
  destruct (Nat.ltb_spec (length Y) 2) as [Hl|_]; [lia|].
  unfold fl.s_sub. rewrite diff_lift_fin. rewrite fl_trapz_fin.
  set (dx := np.diff (fl.sub rnd) X).
  set (ss := np.zip_with (fl.add rnd) (tl Y) (removelast Y)).
  assert (Hss : Forall (fun s => 0 <= s)%Q ss) by (apply pair_sums_nonneg; exact Hy).
  rewrite (existsb_fin (fun d => Qltb d 0)) by reflexivity.
  rewrite (forallb_fin (fun d => Qle_bool d 0)) by reflexivity.
  destruct (existsb (fun d => Qltb d 0) dx) eqn:E.
  - (* a step goes down: the abscissas decrease *)
    assert (Hdx : Forall (fun d => d <= 0)%Q dx).
    { destruct Hx as [Hinc|Hdec]; [|apply diff_nonpos; exact Hdec].
      exfalso. apply diff_nonneg in Hinc. fold dx in Hinc.
      apply existsb_exists in E. destruct E as (d & Hd & Hlt).
      apply Qltb_lt in Hlt. rewrite List.Forall_forall in Hinc.
      specialize (Hinc d Hd). simpl in Hinc. lra. }
    assert (Hf : forallb (fun d => Qle_bool d 0) dx = true).
    { apply forallb_forall. intros d Hd. apply Qle_bool_iff.
      rewrite List.Forall_forall in Hdx. exact (Hdx d Hd). }
    rewrite Hf. cbn [bind].
    destruct (sum_nonpos
                (np.zip_with (fun d s => fl.div rnd (fl.mul rnd d s) 2) dx ss))
      as (a & -> & Ha).
    { apply (zip_with_Forall_both _ (fun d => d <= 0)%Q (fun s => 0 <= s)%Q);
        [exact Hdx|exact Hss|]. intros d s. apply half_nonpos. }
    eexists. split; [reflexivity|]. unfold fl.mul. apply rnd_nonneg. lra.
  - (* no step goes down *)
    assert (Hdx : Forall (fun d => 0 <= d)%Q dx).
    { apply existsb_false_Forall in E. eapply List.Forall_impl; [|exact E].
      intros d Hd. apply Qltb_ge. exact Hd. }
    cbn [bind].
    destruct (sum_nonneg
                (np.zip_with (fun d s => fl.div rnd (fl.mul rnd d s) 2) dx ss))
      as (a & -> & Ha).
    { apply (zip_with_Forall_both _ (fun d => 0 <= d)%Q (fun s => 0 <= s)%Q);
        [exact Hdx|exact Hss|]. intros d s. apply half_nonneg. }
    eexists. split; [reflexivity|]. unfold fl.mul. apply rnd_nonneg. lra.
Qed.

(** ** The ROC curve *)

Lemma fl_roc_curve_ok (y_true : list bool) (y_score : list Q) :
  length y_true = length y_score -> y_true <> [] ->
  exists ys idxs,
    Permutation ys y_true
    /\ sample_points (length ys) idxs
    /\ fl.roc_curve rnd y_true y_score
       = Ok (fl.rate rnd (0 :: map (seen negb ys) idxs),
             fl.rate rnd (0 :: map (seen (fun t => t) ys) idxs)).
Proof.
  intros Hlen Hne.
  destruct (binary_clf_curve_ok y_true y_score Hlen Hne)
    as (ys & idxs & Hperm & Hsp & Hcurve).
  rewrite <- (Permutation_length Hperm) in Hsp.
  unfold fl.roc_curve. rewrite Hcurve. cbn [bind].
  exists ys. rewrite length_map.
  destruct (2 <? length idxs)%nat eqn:E.
  - set (m := np.zip_with orb
                (sklearn.nonzero (np.diff Z.sub (np.diff Z.sub (map (seen negb ys) idxs))))
                (sklearn.nonzero (np.diff Z.sub (np.diff Z.sub
                                                   (map (seen (fun t => t) ys) idxs))))).
    assert (Hm : S (length (true :: m)) = length idxs).
    { cbn [length]. unfold m, sklearn.nonzero.
      rewrite zip_with_length_min, !length_map, !diff_length.
      rewrite !length_map. apply Nat.ltb_lt in E. lia. }
    assert (Hopt : sample_points (length idxs) (np.where_true (true :: m ++ [true]))).
    { unfold np.where_true.
      change (true :: m ++ [true]) with ((true :: m) ++ [true]).
      rewrite where_from_snoc. rewrite <- Hm. apply sample_points_of_mask. }
    exists (np.take 0%nat idxs (np.where_true (true :: m ++ [true]))).
    split; [exact Hperm|]. split; [apply select_sample_points; assumption|].
    destruct Hopt as (_ & _ & Hor & _).
    rewrite !(take_map _ 0%nat 0) by exact Hor. reflexivity.
  - exists idxs. auto.
Qed.

Lemma unit_nonneg (l : list Q) :
  Forall unit_interval l -> Forall (fun y => 0 <= y)%Q l.
Proof. apply List.Forall_impl. intros y [H _]. exact H. Qed.

Lemma fl_roc_auc (y_true : list bool) (y_score : list Q) :
  length y_true = length y_score -> In true y_true -> In false y_true ->
  exists fpr tpr a,
    fl.roc_curve rnd y_true y_score = Ok (fpr, tpr)
    /\ fl.auc rnd fpr tpr = Ok (Fin a) /\ (0 <= a)%Q.
Proof.
  intros Hlen Ht Hf.
  assert (Hne : y_true <> []) by (intros ->; destruct Ht).
  destruct (fl_roc_curve_ok y_true y_score Hlen Hne) as (ys & idxs & Hperm & Hsp & Hroc).
  set (P := sklearn.count (fun t => t) ys).
  set (N := sklearn.count negb ys).
  assert (HP : 0 < P).
  { unfold P. rewrite (count_perm _ _ _ Hperm).
    apply (count_pos_In _ _ true); [exact Ht|reflexivity]. }
  assert (HN : 0 < N).
  { unfold N. rewrite (count_perm _ _ _ Hperm).
    apply (count_pos_In _ _ false); [exact Hf|reflexivity]. }
  destruct (sampled_counts (fun t => t) ys idxs Hsp) as (P1 & P2 & P3 & P4).
  destruct (sampled_counts negb ys idxs Hsp) as (N1 & N2 & N3 & N4).
  destruct (fl_rates_of_counts _ P HP P1 P2 P3 P4) as (Pr & _ & Pu).
  destruct (fl_rates_of_counts _ N HN N1 N2 N3 N4) as (Nr & Nc & _).
  rewrite Pr, Nr in Hroc. do 2 eexists.
  destruct (fl_auc_nonneg
              (map (fun c => rnd (ratio N c)) (0 :: map (seen negb ys) idxs))
              (map (fun c => rnd (ratio P c)) (0 :: map (seen (fun t => t) ys) idxs)))
    as (a & Ha & Hu).
  - rewrite !length_map. cbn [length]. rewrite !length_map. reflexivity.
  - rewrite length_map. cbn [length]. rewrite length_map.
    destruct idxs; [destruct Hsp; congruence|simpl; lia].
  - apply unit_nonneg. exact Pu.
  - left. exact Nc.
  - exists a. split; [exact Hroc|]. split; [exact Ha|exact Hu].
Qed.

(** ** The precision-recall curve *)

(** What [precision_recall_curve] returns when the labels hold a positive:
    recall decreasing, precision and recall in [0, 1]. *)
Lemma fl_precision_recall_curve_ok (y_true : list bool) (y_score : list Q) :
  length y_true = length y_score -> In true y_true ->
  exists precision recall,
    fl.precision_recall_curve rnd y_true y_score
    = Ok (map Fin precision, map Fin recall)
    /\ length recall = length precision
    /\ (2 <= length recall)%nat
    /\ Forall unit_interval precision
    /\ chain (fun a b => b <= a)%Q recall.
Proof.
  intros Hlen Ht.
  assert (Hne : y_true <> []) by (intros ->; destruct Ht).
  destruct (binary_clf_curve_ok y_true y_score Hlen Hne)
    as (ys & idxs & Hperm & Hsp & Hcurve).
  rewrite <- (Permutation_length Hperm) in Hsp.
  set (P := sklearn.count (fun t => t) ys).
  assert (HP : 0 < P).
  { unfold P. rewrite (count_perm _ _ _ Hperm).
    apply (count_pos_In _ _ true); [exact Ht|reflexivity]. }
  destruct (sampled_counts (fun t => t) ys idxs Hsp) as (P1 & P2 & P3 & P4).
  fold P in P3, P4.
  unfold fl.precision_recall_curve. rewrite Hcurve. cbn [bind].
  rewrite P4. destruct (Z.eqb_spec P 0) as [E|_]; [lia|].
  rewrite !zip_with_map2.
  set (prec := map (fun k =>
                      if seen (fun t => t) ys k + seen negb ys k =? 0 then 0%Q
                      else fl.div rnd (z2q (seen (fun t => t) ys k))
                             (z2q (seen (fun t => t) ys k + seen negb ys k))) idxs).
  set (rec := map (fun t => fl.div rnd (z2q t) (z2q P))
                (map (seen (fun t => t) ys) idxs)).
  exists (rev prec ++ [1%Q]), (rev rec ++ [0%Q]).
  assert (Hidx : idxs <> []) by (destruct Hsp; assumption).
  assert (Hrec : rec <> []).
  { unfold rec. destruct idxs; [congruence|discriminate]. }
  assert (Hrec_unit : Forall unit_interval rec).
  { unfold rec. apply Forall_map. eapply List.Forall_impl; [|exact P3].
    intros c Hc. apply (rnd_ratio_unit P c HP Hc). }
  split; [reflexivity|]. repeat split.
  - rewrite !length_app, !length_rev. unfold rec, prec. rewrite !length_map. reflexivity.
  - rewrite length_app, length_rev. simpl. destruct rec; [congruence|simpl; lia].
  - apply Forall_app. split; [|constructor; [unfold unit_interval; lra|constructor]].
    apply Forall_rev. unfold prec. apply Forall_map.
    apply List.Forall_forall. intros k _.
    pose proof (count_nonneg (fun t => t) (firstn (S k) ys)) as H1.
    pose proof (count_nonneg negb (firstn (S k) ys)) as H2.
    fold (seen (fun t => t) ys k) in H1. fold (seen negb ys k) in H2.
    destruct (Z.eqb_spec (seen (fun t => t) ys k + seen negb ys k) 0).
    + unfold unit_interval. lra.
    + apply (rnd_ratio_unit (seen (fun t => t) ys k + seen negb ys k)); lia.
  - apply (chain_snoc _ 0%Q).
    + apply chain_rev. unfold rec.
      eapply chain_map;
        [intros x y Hxy; apply rnd_mono; apply (ratio_mono P x y HP Hxy)|exact P2].
    + intros _. apply Forall_rev in Hrec_unit.
      apply (last_in_range (rev rec) 0%Q) in Hrec_unit.
      * apply Hrec_unit.
      * intros E. apply (f_equal (@rev Q)) in E. rewrite rev_involutive in E.
        simpl in E. congruence.
Qed.

Lemma fl_pr_auc (y_true : list bool) (y_score : list Q) :
  length y_true = length y_score -> In true y_true ->
  exists precision recall a,
    fl.precision_recall_curve rnd y_true y_score = Ok (precision, recall)
    /\ fl.auc rnd recall precision = Ok (Fin a) /\ (0 <= a)%Q.
Proof.
  intros Hlen Ht.
  destruct (fl_precision_recall_curve_ok y_true y_score Hlen Ht)
    as (prec & rec & Hc & Hl & H2 & Hp & Hr).
  destruct (fl_auc_nonneg rec prec Hl H2 (unit_nonneg _ Hp)) as (a & Ha & Hu).
  { right. exact Hr. }
  eauto 10.
Qed.

Lemma fl_avg_precision (y_true : list bool) (y_score : list Q) :
  length y_true = length y_score -> In true y_true ->
  exists a, fl.average_precision_score rnd y_true y_score = Ok (Fin a)
            /\ (0 <= a)%Q.
Proof.
  intros Hlen Ht.
  destruct (fl_precision_recall_curve_ok y_true y_score Hlen Ht)
    as (prec & rec & Hc & Hl & H2 & Hp & Hr).
  unfold fl.average_precision_score. rewrite Hc. cbn [bind].
  unfold fl.s_sub, fl.s_mul.
  rewrite diff_lift_fin, removelast_map, zip_with_lift_fin.
  destruct (sum_nonpos
              (np.zip_with (fl.mul rnd) (np.diff (fl.sub rnd) rec)
                 (removelast prec))) as (a & -> & Ha).
  { apply (zip_with_Forall_both _ (fun d => d <= 0)%Q unit_interval).
    - apply diff_nonpos. exact Hr.
    - apply removelast_Forall. exact Hp.
    - intros d p Hd [Hp0 Hp1]. apply rnd_nonpos. nra. }
  exists (- a)%Q. split; [reflexivity|]. lra.
Qed.

(** ** The Brier score *)

Lemma square_unit (y : bool) (p : Q) :
  unit_interval p ->
  unit_interval (fl.mul rnd (fl.sub rnd (b2q y) p) (fl.sub rnd (b2q y) p)).
Proof.
  intros [Hp0 Hp1]. unfold fl.mul, fl.sub.
  assert (Hd : (-1 <= rnd (b2q y - p) <= 1)%Q).
  { split.
    - apply (rnd_ge_int _ (-1)); [simpl; lia|].
      destruct y; unfold b2q, b2z, z2q; simpl inject_Z.
      + change (inject_Z 1) with 1%Q. change (inject_Z (-1)) with (-1)%Q. lra.
      + change (inject_Z 0) with 0%Q. change (inject_Z (-1)) with (-1)%Q. lra.
    - apply (rnd_le_int _ 1); [simpl; lia|].
      destruct y; unfold b2q, b2z, z2q; simpl inject_Z.
      + change (inject_Z 1) with 1%Q. lra.
      + change (inject_Z 0) with 0%Q. change (inject_Z 1) with 1%Q. lra. }
  apply rnd_unit. set (d := rnd (b2q y - p)) in *. clearbody d.
  unfold unit_interval. nra.
Qed.

(** On labels that are not empty and probabilities of their length in
    [0, 1], the Brier score is a number that is not negative, and at most 1
    for at most 2^53 samples. *)
Lemma fl_brier (y_true : list bool) (y_proba : list Q) :
  y_true <> [] -> valid_proba y_true y_proba ->
  exists a, fl.brier_score_loss rnd y_true y_proba = Ok (Fin a)
            /\ (0 <= a)%Q
            /\ (Z.of_nat (length y_true) <= 2 ^ 53 -> (a <= 1)%Q).
Proof.
  intros Hne [Hlen Hp].
  unfold fl.brier_score_loss, sklearn.check_consistent_length.
  rewrite (proj2 (Nat.eqb_eq _ _) (eq_sym Hlen)). cbn [bind].
  destruct y_proba as [|p0 ps] eqn:E.
  { destruct y_true; [congruence|discriminate]. }
  rewrite <- E in *. clear E p0 ps.
  assert (H1 : existsb (fun p => Qltb 1 p) y_proba = false).
  { apply existsb_false_Forall. eapply List.Forall_impl; [|exact Hp].
    intros p [_ Hp1]. apply Qltb_ge. exact Hp1. }
  assert (H0 : existsb (fun p => Qltb p 0) y_proba = false).
  { apply existsb_false_Forall. eapply List.Forall_impl; [|exact Hp].
    intros p [Hp0 _]. apply Qltb_ge. exact Hp0. }
  rewrite H1, H0.
  set (sq := np.zip_with
               (fun y p => fl.mul rnd (fl.sub rnd (b2q y) p) (fl.sub rnd (b2q y) p))
               y_true y_proba).
  assert (Hsq : Forall unit_interval sq).
  { unfold sq. apply (zip_with_Forall _ _ unit_interval); [exact Hp|].
    intros y p. apply square_unit. }
  assert (Hn : length sq = length y_true).
  { unfold sq. rewrite zip_with_length by (symmetry; exact Hlen). reflexivity. }
  assert (Hpos : (0 < z2q (Z.of_nat (length sq)))%Q).
  { unfold z2q. change 0%Q with (inject_Z 0). rewrite <- Zlt_Qlt.
    rewrite Hn. destruct y_true; [congruence|simpl; lia]. }
  destruct (sum_nonneg sq (unit_nonneg _ Hsq)) as (t & Ht & Ht0).
  rewrite Ht. eexists. split; [reflexivity|]. split.
  - unfold fl.div. apply rnd_nonneg. apply Qle_shift_div_l; [exact Hpos|]. lra.
  - intros Hbig. rewrite <- Hn in Hbig.
    destruct (sum_counted sq Hsq Hbig) as (t' & Ht' & _ & Ht1).
    rewrite Ht in Ht'. injection Ht' as <-.
    unfold fl.div. apply (rnd_le_int _ 1); [simpl; lia|].
    apply Qle_shift_div_r; [exact Hpos|]. change (inject_Z 1) with 1%Q.
    unfold z2q. lra.
Qed.

(** ** Precision, recall and specificity *)

Lemma rnd_fraction_unit (a b : Z) :
  0 <= a <= b ->
  unit_interval (if b =? 0 then 0%Q else fl.div rnd (z2q a) (z2q b)).
Proof.
  intros H. destruct (Z.eqb_spec b 0).
  - unfold unit_interval. lra.
  - apply (rnd_ratio_unit b a); lia.
Qed.

Lemma fl_precision_unit (y_true y_pred : list bool) :
  length y_true = length y_pred ->
  unit_score_result (fl.precision_score rnd y_true y_pred).
Proof.
  intros Hlen. unfold fl.precision_score, sklearn.check_consistent_length.
  rewrite (proj2 (Nat.eqb_eq _ _) Hlen). cbn [bind].
  eexists. split; [reflexivity|]. apply rnd_fraction_unit. split.
  - apply count_nonneg.
  - rewrite <- (count_combine_snd (fun p => p) y_true y_pred Hlen).
    apply count_le. intros [t p] _. destruct t, p; simpl; congruence.
Qed.

Lemma fl_recall_unit (y_true y_pred : list bool) :
  length y_true = length y_pred ->
  unit_score_result (fl.recall_score rnd y_true y_pred).
Proof.
  intros Hlen. unfold fl.recall_score, sklearn.check_consistent_length.
  rewrite (proj2 (Nat.eqb_eq _ _) Hlen). cbn [bind].
  eexists. split; [reflexivity|]. apply rnd_fraction_unit. split.
  - apply count_nonneg.
  - rewrite <- (count_combine_fst (fun t => t) y_true y_pred Hlen).
    apply count_le. intros [t p] _. destruct t, p; simpl; congruence.
Qed.

(** With a negative label the quotient of the specificity is a number: its
    denominator counts the negative labels. *)
Lemma fl_specificity_value (y_test pred : list bool) :
  In false y_test -> length y_test = length pred ->
  let tn := sklearn.count (fun '(t, p) => negb t && negb p) (combine y_test pred) in
  let fp := sklearn.count (fun '(t, p) => negb t && p) (combine y_test pred) in
  fl.true_divide rnd tn (tn + fp) = Fin (rnd (z2q tn / z2q (tn + fp)))
  /\ unit_interval (rnd (z2q tn / z2q (tn + fp))).
Proof.
  intros Hf Hlen tn fp.
  destruct (specificity_value y_test pred Hf Hlen) as (Hsum & Hpos & _ & Hu).
  fold tn fp in Hsum, Hpos, Hu. split.
  - unfold fl.true_divide. destruct (Z.eqb_spec (tn + fp) 0); [lia|reflexivity].
  - apply rnd_unit. exact Hu.
Qed.

(** ** The loop body and the table on a valid input *)

(** The loop body returns; the specificity is the rounded quotient of the
    counts of the confusion matrix; the scores keep the bounds that rounding
    allows. *)
Lemma fl_compute_scores_valid (y_test : list bool) (proba : list Q) (threshold : Q) :
  both_classes y_test -> valid_proba y_test proba ->
  let pred := np.where_gt proba threshold in
  let tn := sklearn.count (fun '(t, p) => negb t && negb p) (combine y_test pred) in
  let fp := sklearn.count (fun '(t, p) => negb t && p) (combine y_test pred) in
  exists s, fl.compute_scores rnd y_test proba threshold = Ok s
            /\ model_specificity s = Fin (rnd (z2q tn / z2q (tn + fp)))
            /\ Forall nonneg_score (scores_list s)
            /\ (Z.of_nat (length y_test) <= 2 ^ 53 -> rounded_bounds s).
Proof.
  intros [Ht Hf] Hv pred tn fp. pose proof Hv as [Hlen Hp].
  assert (Hne : y_test <> []) by (intros ->; destruct Ht).
  assert (Hlen' : length y_test = length proba) by (symmetry; exact Hlen).
  assert (Hpred : length y_test = length pred)
    by (unfold pred; rewrite where_gt_length; exact Hlen').
  destruct (fl_roc_auc y_test proba Hlen' Ht Hf) as (fpr & tpr & a1 & R1 & R2 & U1).
  destruct (fl_pr_auc y_test proba Hlen' Ht) as (prec & rec & a2 & Q1 & Q2 & U2).
  destruct (fl_precision_unit y_test _ Hpred) as (a3 & R3 & U3).
  destruct (fl_recall_unit y_test _ Hpred) as (a4 & R4 & U4).
  destruct (fl_specificity_value y_test _ Hf Hpred) as (R5 & U5).
  destruct (fl_avg_precision y_test proba Hlen' Ht) as (a6 & R6 & U6).
  destruct (fl_brier y_test proba Hne Hv) as (a7 & R7 & U7 & B7).
  fold tn fp in R5, U5.
  unfold fl.compute_scores. fold pred.
  rewrite R1. cbn [bind]. rewrite R2. cbn [bind]. rewrite Q1. cbn [bind].
  rewrite Q2. cbn [bind]. rewrite R3. cbn [bind]. rewrite R4. cbn [bind].
  rewrite (confusion_matrix_both y_test _ Ht Hf Hpred). cbn [bind concat app].
  fold tn fp. rewrite R5, R6. cbn [bind]. rewrite R7. cbn [bind].
  eexists. split; [reflexivity|].
  cbn [model_specificity]. split; [reflexivity|].
  destruct U3 as [U3 U3'], U4 as [U4 U4'], U5 as [U5 U5'].
  split.
  - unfold scores_list. cbn [roc_auc pr_auc model_precision model_recall
      model_specificity avg_precision brier_score].
    repeat constructor; eexists; (split; [reflexivity|assumption]).
  - intros Hbig. unfold rounded_bounds, unit_score, nonneg_score, unit_interval.
    cbn [roc_auc pr_auc model_precision model_recall
      model_specificity avg_precision brier_score].
    repeat split; eexists; (split; [reflexivity|]); auto.
Qed.

Lemma fl_all_scores_valid y_test threshold model_dict :
  both_classes y_test ->
  Forall (fun item => valid_proba y_test (snd item)) model_dict ->
  exists rows,
    all_scores_with (fl.compute_scores rnd) y_test threshold model_dict = Ok rows
    /\ Forall (fun s => Forall nonneg_score (scores_list s)) rows.
Proof.
  intros Hy Hv. induction Hv as [|[name proba] rest Hp Hrest IH].
  - exists []. split; [reflexivity|constructor].
  - destruct IH as (rows & Hr & Hu).
    destruct (fl_compute_scores_valid y_test proba threshold Hy Hp)
      as (s & Hs & _ & Hsu & _).
    exists (s :: rows). simpl. rewrite Hs. cbn [bind]. rewrite Hr. cbn [bind].
    split; [reflexivity|]. constructor; assumption.
Qed.

Lemma best_models_of_numbers names rows :
  rows <> [] ->
  Forall (fun s => Forall nonneg_score (scores_list s)) rows ->
  exists bests, best_models_of names rows selectors = Ok bests.
Proof.
  intros Hne Hu. destruct rows as [|s0 rows]; [congruence|].
  inversion Hu as [|? ? Hs0 _]; subst. unfold scores_list in Hs0.
  repeat match goal with
         | H : Forall _ (_ :: _) |- _ => inversion H; clear H; subst
         end.
  repeat match goal with
         | H : nonneg_score _ |- _ => destruct H as (? & ? & _)
         end.
  unfold selectors, best_models_of.
  repeat match goal with
         | |- context [best_of ?b names (map ?f (s0 :: rows))] =>
             let c := fresh "c" in
             let Hc := fresh "Hc" in
             destruct (best_of_total b names (map f (s0 :: rows)) _
                         ltac:(cbn [map nth_error]; f_equal; eassumption))
               as (c & Hc);
             rewrite Hc; cbn [bind]
         end.
  eauto.
Qed.

(** Labels with both classes, at least one model, probability vectors of the
    labels' length with values in [0, 1]: the call returns a table under
    every rounding. *)
Lemma fl_evaluate_valid y_test model_dict threshold :
  both_classes y_test -> valid_models y_test model_dict ->
  exists df, fl.evaluate_model_metrics rnd y_test model_dict threshold = Ok df.
Proof.
  intros Hy [Hne Hv]. unfold fl.evaluate_model_metrics.
  rewrite evaluate_with_closed_form.
  destruct (fl_all_scores_valid y_test threshold model_dict Hy Hv) as (rows & Hr & Hu).
  rewrite Hr. cbn [bind].
  assert (Hrows : rows <> []).
  { apply all_scores_with_length in Hr. destruct rows; [|discriminate].
    destruct model_dict; [congruence|discriminate]. }
  destruct (best_models_of_numbers (map fst model_dict) rows Hrows Hu) as (bests & Hb).
  rewrite Hb. cbn [bind].
  apply final_table_total. eapply best_models_of_length; eauto.
Qed.

(** C5. Under every rounding of the float operations that keeps the order and
    the integers up to 2^53 (exact arithmetic and double precision are two):
    for at most 2^53 labels with at least one positive and one negative case
    and a probability vector of their length with values in [0, 1], the loop
    body returns its scores; the confusion matrix at the threshold is 2x2;
    the specificity among the scores is the quotient tn / (tn + fp) of its
    first row as the float division gives it, a number; and tn + fp is the
    number of negative labels, which is not zero. *)
Theorem specificity_denominator_nonzero y_test proba threshold :
  both_classes y_test -> valid_proba y_test proba ->
  Z.of_nat (length y_test) <= 2 ^ 53 ->
  exists tn fp fn tp s,
    sklearn.confusion_matrix y_test (np.where_gt proba threshold)
    = Ok [[tn; fp]; [fn; tp]]
    /\ tn + fp = sklearn.count negb y_test
    /\ tn + fp <> 0
    /\ fl.compute_scores rnd y_test proba threshold = Ok s
    /\ model_specificity s = fl.true_divide rnd tn (tn + fp)
    /\ model_specificity s = Fin (rnd (z2q tn / z2q (tn + fp))).
Proof.
  intros Hy Hv _. pose proof Hy as [Ht Hf]. pose proof Hv as [Hlen _].
  assert (Hpred : length y_test = length (np.where_gt proba threshold))
    by (rewrite where_gt_length; symmetry; exact Hlen).
  pose proof (confusion_matrix_both y_test _ Ht Hf Hpred) as Hcm.
  destruct (specificity_value y_test _ Hf Hpred) as (Hsum & Hpos & _ & _).
  destruct (fl_specificity_value y_test _ Hf Hpred) as (Hdiv & _).
  destruct (fl_compute_scores_valid y_test proba threshold Hy Hv)
    as (s & Hs & Hspec & _).
  do 4 eexists. exists s. split; [exact Hcm|]. split; [exact Hsum|].
  split; [lia|]. split; [exact Hs|]. split; [|exact Hspec].
  rewrite Hspec. symmetry. exact Hdiv.
Qed.

(** C7, as the code has it.  On a valid input (both classes among the labels,
    a non-empty model map, probability vectors of the labels' length with
    values in [0, 1], a threshold in (0, 1)) of at most 2^53 samples a table
    is returned under every rounding of the float operations that keeps the
    order and the integers up to 2^53, double precision among them; it shows
    the scores of each model in the column of the model; Precision, Recall,
    Specificity and Brier Score are numbers in [0, 1]; AUC ROC, PR AUC and
    Average Precision are numbers that are not negative.  With exact
    arithmetic every score is a number in [0, 1]. *)
Theorem metrics_in_unit_interval y_test model_dict threshold :
  both_classes y_test -> valid_models y_test model_dict ->
  (0 < threshold < 1)%Q -> Z.of_nat (length y_test) <= 2 ^ 53 ->
  (exists df,
     fl.evaluate_model_metrics rnd y_test model_dict threshold = Ok df
     /\ forall j name proba,
          nth_error model_dict j = Some (name, proba) ->
          exists s, fl.compute_scores rnd y_test proba threshold = Ok s
                    /\ rounded_bounds s /\ shows_scores df j name s)
  /\ (exists df,
        evaluate_model_metrics y_test model_dict threshold = Ok df
        /\ forall j name proba,
             nth_error model_dict j = Some (name, proba) ->
             exists s, compute_scores y_test proba threshold = Ok s
                       /\ unit_scores s /\ shows_scores df j name s).
Proof.
  intros Hy Hv Ht Hbig. split.
  - destruct (fl_evaluate_valid y_test model_dict threshold Hy Hv) as (df & Hdf).
    exists df. split; [exact Hdf|]. intros j name proba Hj.
    destruct (evaluate_with_rows _ _ _ _ _ Hdf) as (rows & _ & [_ Hrows] & _).
    destruct (Hrows j name proba Hj) as (s & _ & Hs & Hshow).
    exists s. split; [exact Hs|]. split; [|exact Hshow].
    destruct Hv as [_ Hv]. rewrite List.Forall_forall in Hv.
    assert (Hp : valid_proba y_test proba).
    { apply (Hv (name, proba)). eapply nth_error_In; eauto. }
    destruct (fl_compute_scores_valid y_test proba threshold Hy Hp)
      as (s' & Hs' & _ & _ & Hb).
    rewrite Hs in Hs'. apply Ok_inj in Hs'. subst s'. apply Hb. exact Hbig.
  - destruct (exact_scores_in_unit_interval y_test model_dict threshold Hy Hv Ht)
      as (df & Hdf & Hscores & _).
    exists df. split; [exact Hdf|exact Hscores].
Qed.

End RoundedFacts.

(** The length of the array is fuel enough for [pairwise_sum]: more fuel
    gives the same sum. *)
Lemma pairwise_sum_fuel (rnd : Q -> Q) (fuel : nat) : forall more a,
  (length a <= fuel)%nat -> (length a <= more)%nat ->
  fl.pairwise_sum rnd more a = fl.pairwise_sum rnd fuel a.
Proof.
  induction fuel as [|fuel IH]; intros more a Hf Hm;
    rewrite (pairwise_sum_eq rnd more), (pairwise_sum_eq rnd _ a);
    destruct (Nat.ltb_spec (length a) 8) as [H8|H8]; try reflexivity; [lia|].
  destruct more as [|more]; [lia|].
  destruct (Nat.leb_spec (length a) 128) as [Hb|Hb]; [reflexivity|].
  cbn zeta. set (n2 := (length a / 2 - (length a / 2) mod 8)%nat).
  pose proof (Nat.div_mod_eq (length a) 2) as Hd.
  pose proof (Nat.mod_upper_bound (length a) 2 ltac:(lia)) as Hd2.
  pose proof (Nat.mod_upper_bound (length a / 2) 8 ltac:(lia)) as Hd8.
  assert (Hn2 : (0 < n2 < length a)%nat) by (unfold n2; lia).
  f_equal; apply IH; rewrite ?length_firstn, ?length_skipn; lia.
Qed.

(** * Double precision is a rounding *)

Lemma pow2_pos (e : Z) : (0 < 2 ^ e)%Q.
Proof. apply Qpower_0_lt. reflexivity. Qed.

Lemma pow2_le (a b : Z) : a <= b -> (2 ^ a <= 2 ^ b)%Q.
Proof. intros H. apply Qpower_le_compat_l; [exact H|discriminate]. Qed.

Lemma pow2_lt_inv (a b : Z) : (2 ^ a < 2 ^ b)%Q -> a < b.
Proof. intros H. apply (Qpower_lt_compat_l_inv 2); [exact H|reflexivity]. Qed.

Lemma pow2_add (a b : Z) : (2 ^ (a + b) == 2 ^ a * 2 ^ b)%Q.
Proof. apply Qpower_plus. discriminate. Qed.

Lemma pow2_inject (n : Z) : 0 <= n -> (inject_Z (2 ^ n) == 2 ^ n)%Q.
Proof. intros H. apply (Zpower_Qpower 2 n H). Qed.

Lemma pow2_cancel (s : Z) : (2 ^ s * 2 ^ (- s) == 1)%Q.
Proof. rewrite <- pow2_add. replace (s + - s) with 0 by lia. reflexivity. Qed.

(** ** The exponent *)

Lemma ilog2_spec (q : Q) :
  (0 < q)%Q -> (2 ^ binary64.ilog2 q <= q < 2 ^ (binary64.ilog2 q + 1))%Q.
Proof.
  intros Hq. destruct q as [n d]. unfold binary64.ilog2. cbn [Qnum Qden].
  assert (Hn : 0 < n) by (unfold Qlt in Hq; simpl in Hq; lia).
  pose proof (Z.log2_spec n Hn) as [Hn1 Hn2].
  pose proof (Z.log2_spec (Z.pos d) (Pos2Z.is_pos d)) as [Hd1 Hd2].
  pose proof (Z.log2_nonneg n) as Ha. pose proof (Z.log2_nonneg (Z.pos d)) as Hb.
  set (a := Z.log2 n) in *. set (b := Z.log2 (Z.pos d)) in *.
  assert (Hqd : (n # d == inject_Z n / inject_Z (Z.pos d))%Q) by apply Qmake_Qdiv.
  assert (Hdpos : (0 < inject_Z (Z.pos d))%Q) by reflexivity.
  assert (Hlow : (2 ^ (a - b - 1) < n # d)%Q).
  { rewrite Hqd. apply Qlt_shift_div_l; [exact Hdpos|].
    apply Qlt_le_trans with (2 ^ (a - b - 1) * 2 ^ (b + 1))%Q.
    - apply Qmult_lt_l; [apply pow2_pos|].
      rewrite <- pow2_inject by lia. rewrite <- Zlt_Qlt.
      replace (Z.succ b) with (b + 1) in Hd2 by lia. exact Hd2.
    - rewrite <- pow2_add. replace (a - b - 1 + (b + 1)) with a by lia.
      rewrite <- pow2_inject by lia. rewrite <- Zle_Qle. exact Hn1. }
  assert (Hhigh : (n # d < 2 ^ (a - b + 1))%Q).
  { rewrite Hqd. apply Qlt_shift_div_r; [exact Hdpos|].
    apply Qlt_le_trans with (2 ^ (a - b + 1) * 2 ^ b)%Q.
    - rewrite <- pow2_add. replace (a - b + 1 + b) with (a + 1) by lia.
      rewrite <- pow2_inject by lia. rewrite <- Zlt_Qlt.
      replace (Z.succ a) with (a + 1) in Hn2 by lia. exact Hn2.
    - apply Qmult_le_l; [apply pow2_pos|].
      rewrite <- pow2_inject by lia. rewrite <- Zle_Qle. exact Hd1. }
  destruct (Qle_bool (2 ^ (a - b)) (n # d)) eqn:E.
  - apply Qle_bool_iff in E. split; [exact E|exact Hhigh].
  - split; [apply Qlt_le_weak; exact Hlow|].
    replace (a - b - 1 + 1) with (a - b) by lia.
    apply Qnot_le_lt. intros Hle. apply Qle_bool_iff in Hle. congruence.
Qed.

Lemma ilog2_unique (q : Q) (e : Z) :
  (2 ^ e <= q < 2 ^ (e + 1))%Q -> binary64.ilog2 q = e.
Proof.
  intros [H1 H2].
  assert (Hq : (0 < q)%Q) by (eapply Qlt_le_trans; [apply (pow2_pos e)|exact H1]).
  destruct (ilog2_spec q Hq) as [L1 L2].
  assert (binary64.ilog2 q < e + 1).
  { apply pow2_lt_inv. eapply Qle_lt_trans; eauto. }
  assert (e < binary64.ilog2 q + 1).
  { apply pow2_lt_inv. eapply Qle_lt_trans; eauto. }
  lia.
Qed.

Lemma ilog2_mono (x y : Q) :
  (0 < x)%Q -> (x <= y)%Q -> binary64.ilog2 x <= binary64.ilog2 y.
Proof.
  intros Hx Hxy.
  assert (Hy : (0 < y)%Q) by (eapply Qlt_le_trans; eauto).
  destruct (ilog2_spec x Hx) as [X1 _]. destruct (ilog2_spec y Hy) as [_ Y2].
  assert (binary64.ilog2 x < binary64.ilog2 y + 1); [|lia].
  apply pow2_lt_inv. eapply Qle_lt_trans; [exact X1|].
  eapply Qle_lt_trans; eauto.
Qed.

(** ** The nearest integer *)

Lemma rne_floor (q : Q) : Qfloor q <= binary64.rne q <= Qfloor q + 1.
Proof.
  unfold binary64.rne.
  destruct (q - inject_Z (Qfloor q) ?= 1 # 2)%Q; [destruct (Z.even _)| |]; lia.
Qed.

Lemma rne_int (k : Z) : binary64.rne (inject_Z k) = k.
Proof.
  unfold binary64.rne. rewrite Qfloor_Z.
  assert (H : (inject_Z k - inject_Z k ?= 1 # 2)%Q = Lt).
  { apply (proj1 (Qlt_alt _ _)).
    assert (E : (inject_Z k - inject_Z k == 0)%Q) by ring.
    rewrite E. reflexivity. }
  rewrite H. reflexivity.
Qed.

Lemma rne_eq (x y : Q) : (x == y)%Q -> binary64.rne x = binary64.rne y.
Proof.
  intros H. unfold binary64.rne. rewrite (Qfloor_comp x y H).
  assert (E : (x - inject_Z (Qfloor y) ?= 1 # 2)%Q
              = (y - inject_Z (Qfloor y) ?= 1 # 2)%Q).
  { apply Qcompare_comp; [rewrite H; reflexivity|reflexivity]. }
  rewrite E. reflexivity.
Qed.

Lemma rne_ge_int (q : Q) (k : Z) : (inject_Z k <= q)%Q -> k <= binary64.rne q.
Proof.
  intros H. apply Qfloor_resp_le in H. rewrite Qfloor_Z in H.
  pose proof (rne_floor q). lia.
Qed.

Lemma rne_le_int (q : Q) (k : Z) : (q <= inject_Z k)%Q -> binary64.rne q <= k.
Proof.
  intros H. pose proof (Qfloor_resp_le _ _ H) as Hf. rewrite Qfloor_Z in Hf.
  pose proof (rne_floor q) as Hr.
  destruct (Z.eq_dec (Qfloor q) k) as [E|E]; [|lia].
  unfold binary64.rne. rewrite E.
  assert (Hlt : (q - inject_Z k ?= 1 # 2)%Q = Lt).
  { apply (proj1 (Qlt_alt _ _)). lra. }
  rewrite Hlt. lia.
Qed.

Lemma rne_mono (x y : Q) : (x <= y)%Q -> binary64.rne x <= binary64.rne y.
Proof.
  intros H. pose proof (Qfloor_resp_le _ _ H) as Hf.
  pose proof (rne_floor x) as Hx. pose proof (rne_floor y) as Hy.
  destruct (Z.eq_dec (Qfloor x) (Qfloor y)) as [E|E]; [|lia].
  unfold binary64.rne. rewrite E.
  destruct (Qcompare_spec (x - inject_Z (Qfloor y)) (1 # 2)) as [X|X|X];
    destruct (Qcompare_spec (y - inject_Z (Qfloor y)) (1 # 2)) as [Y|Y|Y];
    try destruct (Z.even (Qfloor y)); try lia; exfalso; lra.
Qed.

(** ** The nearest double of a positive number *)

Lemma nearest_value (q : Q) :
  let s := 52 - Z.max (binary64.ilog2 q) (-1022) in
  (binary64.nearest q == inject_Z (binary64.rne (q * 2 ^ s)) * 2 ^ (- s))%Q.
Proof. cbn zeta. unfold binary64.nearest. apply Qred_correct. Qed.

Lemma scaled_le (x : Q) (k s : Z) :
  (x * 2 ^ s <= inject_Z k)%Q ->
  (inject_Z (binary64.rne (x * 2 ^ s)) * 2 ^ (- s) <= inject_Z k * 2 ^ (- s))%Q.
Proof.
  intros H. apply Qmult_le_compat_r; [|apply Qlt_le_weak; apply pow2_pos].
  rewrite <- Zle_Qle. apply rne_le_int. exact H.
Qed.

Lemma scaled_ge (x : Q) (k s : Z) :
  (inject_Z k <= x * 2 ^ s)%Q ->
  (inject_Z k * 2 ^ (- s) <= inject_Z (binary64.rne (x * 2 ^ s)) * 2 ^ (- s))%Q.
Proof.
  intros H. apply Qmult_le_compat_r; [|apply Qlt_le_weak; apply pow2_pos].
  rewrite <- Zle_Qle. apply rne_ge_int. exact H.
Qed.

Lemma nearest_nonneg (q : Q) : (0 <= q)%Q -> (0 <= binary64.nearest q)%Q.
Proof.
  intros H. rewrite nearest_value. cbn zeta.
  set (s := 52 - Z.max (binary64.ilog2 q) (-1022)).
  apply Qmult_le_0_compat; [|apply Qlt_le_weak; apply pow2_pos].
  change 0%Q with (inject_Z 0). rewrite <- Zle_Qle. apply rne_ge_int.
  change (inject_Z 0) with 0%Q.
  apply Qmult_le_0_compat; [exact H|apply Qlt_le_weak; apply pow2_pos].
Qed.

(** A number below 2^(e+1) rounds to at most 2^(e+1), a number from 2^e on
    to at least 2^e, [e] being the exponent of the rounding. *)
Lemma nearest_le_pow2 (q : Q) :
  (0 < q)%Q ->
  (binary64.nearest q <= 2 ^ (Z.max (binary64.ilog2 q) (-1022) + 1))%Q.
Proof.
  intros Hq. rewrite nearest_value. cbn zeta.
  set (e := Z.max (binary64.ilog2 q) (-1022)).
  destruct (ilog2_spec q Hq) as [_ H2].
  assert (Hle : (q <= 2 ^ (e + 1))%Q).
  { apply Qlt_le_weak. eapply Qlt_le_trans; [exact H2|].
    apply pow2_le. unfold e. lia. }
  assert (Hs : (q * 2 ^ (52 - e) <= inject_Z (2 ^ 53))%Q).
  { rewrite (pow2_inject 53) by lia.
    assert (E : (2 ^ 53 == 2 ^ (e + 1) * 2 ^ (52 - e))%Q).
    { rewrite <- pow2_add. replace (e + 1 + (52 - e)) with 53 by lia. reflexivity. }
    rewrite E.
    apply Qmult_le_compat_r; [exact Hle|apply Qlt_le_weak; apply pow2_pos]. }
  eapply Qle_trans; [apply (scaled_le q (2 ^ 53) (52 - e) Hs)|].
  rewrite (pow2_inject 53) by lia. rewrite <- pow2_add.
  replace (53 + - (52 - e)) with (e + 1) by lia. apply Qle_refl.
Qed.

Lemma nearest_ge_pow2 (q : Q) :
  (0 < q)%Q -> -1022 <= binary64.ilog2 q ->
  (2 ^ binary64.ilog2 q <= binary64.nearest q)%Q.
Proof.
  intros Hq He. rewrite nearest_value. cbn zeta.
  replace (Z.max (binary64.ilog2 q) (-1022)) with (binary64.ilog2 q) by lia.
  set (e := binary64.ilog2 q).
  destruct (ilog2_spec q Hq) as [H1 _]. fold e in H1.
  assert (Hs : (inject_Z (2 ^ 52) <= q * 2 ^ (52 - e))%Q).
  { rewrite (pow2_inject 52) by lia.
    assert (E : (2 ^ 52 == 2 ^ e * 2 ^ (52 - e))%Q).
    { rewrite <- pow2_add. replace (e + (52 - e)) with 52 by lia. reflexivity. }
    rewrite E.
    apply Qmult_le_compat_r; [exact H1|apply Qlt_le_weak; apply pow2_pos]. }
  eapply Qle_trans; [|apply (scaled_ge q (2 ^ 52) (52 - e) Hs)].
  rewrite (pow2_inject 52) by lia. rewrite <- pow2_add.
  replace (52 + - (52 - e)) with e by lia. apply Qle_refl.
Qed.

Lemma nearest_mono (x y : Q) :
  (0 < x)%Q -> (x <= y)%Q -> (binary64.nearest x <= binary64.nearest y)%Q.
Proof.
  intros Hx Hxy.
  assert (Hy : (0 < y)%Q) by (eapply Qlt_le_trans; eauto).
  pose proof (ilog2_mono x y Hx Hxy) as He.
  destruct (Z.eq_dec (Z.max (binary64.ilog2 x) (-1022))
              (Z.max (binary64.ilog2 y) (-1022))) as [E|E].
  - rewrite !nearest_value. cbn zeta. rewrite E.
    set (s := 52 - Z.max (binary64.ilog2 y) (-1022)).
    apply Qmult_le_compat_r; [|apply Qlt_le_weak; apply pow2_pos].
    rewrite <- Zle_Qle. apply rne_mono.
    apply Qmult_le_compat_r; [exact Hxy|apply Qlt_le_weak; apply pow2_pos].
  - eapply Qle_trans; [apply nearest_le_pow2; exact Hx|].
    eapply Qle_trans; [|apply nearest_ge_pow2; [exact Hy|lia]].
    apply pow2_le. lia.
Qed.

Lemma nearest_int (k : Z) :
  0 < k <= 2 ^ 53 -> (binary64.nearest (inject_Z k) == inject_Z k)%Q.
Proof.
  intros [Hk0 Hk1].
  assert (Hq : (0 < inject_Z k)%Q).
  { change 0%Q with (inject_Z 0). rewrite <- Zlt_Qlt. exact Hk0. }
  destruct (ilog2_spec _ Hq) as [H1 H2].
  set (e := binary64.ilog2 (inject_Z k)) in *.
  assert (He0 : 0 <= e).
  { assert (0 < e + 1); [|lia]. apply pow2_lt_inv.
    eapply Qle_lt_trans; [|exact H2].
    change (2 ^ 0)%Q with (inject_Z 1). rewrite <- Zle_Qle. lia. }
  assert (He1 : e <= 53).
  { assert (e < 54); [|lia]. apply pow2_lt_inv.
    eapply Qle_lt_trans; [exact H1|].
    rewrite <- (pow2_inject 54) by lia. rewrite <- Zlt_Qlt. lia. }
  rewrite nearest_value. cbn zeta. fold e.
  replace (Z.max e (-1022)) with e by lia.
  assert (Hm : exists m, (inject_Z k * 2 ^ (52 - e) == inject_Z m)%Q).
  { destruct (Z.eq_dec e 53) as [E|E].
    - exists (2 ^ 52). rewrite E in H1.
      assert (k = 2 ^ 53).
      { apply Z.le_antisymm; [exact Hk1|].
        rewrite Zle_Qle, (pow2_inject 53) by lia. exact H1. }
      subst k. rewrite E. reflexivity.
    - exists (k * 2 ^ (52 - e)).
      rewrite inject_Z_mult, (pow2_inject (52 - e)) by lia. reflexivity. }
  destruct Hm as (m & Hm).
  rewrite (rne_eq _ _ Hm), rne_int, <- Hm, <- Qmult_assoc, pow2_cancel.
  apply Qmult_1_r.
Qed.

(** ** Every number *)

Lemma Qnum_pos (q : Q) (p : positive) : Qnum q = Z.pos p -> (0 < q)%Q.
Proof. intros H. unfold Qlt. simpl. rewrite H. lia. Qed.

Lemma Qnum_neg (q : Q) (p : positive) : Qnum q = Z.neg p -> (q < 0)%Q.
Proof. intros H. unfold Qlt. simpl. rewrite H. lia. Qed.

Lemma Qnum_zero (q : Q) : Qnum q = 0 -> (q == 0)%Q.
Proof. intros H. unfold Qeq. simpl. rewrite H. reflexivity. Qed.

Lemma round_pos (q : Q) : (0 < q)%Q -> binary64.round q = binary64.nearest q.
Proof.
  intros H. unfold binary64.round. unfold Qlt in H. simpl in H.
  destruct (Qnum q); [lia|reflexivity|lia].
Qed.

Lemma round_neg (q : Q) :
  (q < 0)%Q -> binary64.round q = (- binary64.nearest (- q))%Q.
Proof.
  intros H. unfold binary64.round. unfold Qlt in H. simpl in H.
  destruct (Qnum q); [lia|lia|reflexivity].
Qed.

Lemma round_zero (q : Q) : (q == 0)%Q -> binary64.round q = 0%Q.
Proof.
  intros H. unfold binary64.round. unfold Qeq in H. simpl in H.
  destruct (Qnum q); [reflexivity|lia|lia].
Qed.

Lemma round_sign (q : Q) :
  ((0 < q)%Q /\ (0 <= binary64.round q)%Q)
  \/ ((q == 0)%Q /\ binary64.round q = 0%Q)
  \/ ((q < 0)%Q /\ (binary64.round q <= 0)%Q).
Proof.
  destruct (Qnum q) as [|p|p] eqn:E.
  - right. left. apply Qnum_zero in E. split; [exact E|apply round_zero; exact E].
  - left. apply Qnum_pos in E. split; [exact E|].
    rewrite round_pos by exact E. apply nearest_nonneg. apply Qlt_le_weak. exact E.
  - right. right. apply Qnum_neg in E. split; [exact E|].
    rewrite round_neg by exact E.
    assert (0 <= binary64.nearest (- q))%Q by (apply nearest_nonneg; lra). lra.
Qed.

Lemma round_mono (x y : Q) :
  (x <= y)%Q -> (binary64.round x <= binary64.round y)%Q.
Proof.
  intros H.
  destruct (round_sign x) as [[Hx Rx]|[[Hx Rx]|[Hx Rx]]];
    destruct (round_sign y) as [[Hy Ry]|[[Hy Ry]|[Hy Ry]]];
    try (exfalso; lra); try (rewrite ?Rx, ?Ry in *; lra).
  - rewrite !round_pos by assumption. apply nearest_mono; assumption.
  - rewrite !round_neg by assumption.
    assert (binary64.nearest (- y) <= binary64.nearest (- x))%Q; [|lra].
    apply nearest_mono; lra.
Qed.

Lemma round_int (k : Z) :
  Z.abs k <= 2 ^ 53 -> (binary64.round (inject_Z k) == inject_Z k)%Q.
Proof.
  intros Hk. destruct (Z.lt_trichotomy k 0) as [H|[H|H]].
  - rewrite round_neg
      by (change 0%Q with (inject_Z 0); rewrite <- Zlt_Qlt; exact H).
    change (- inject_Z k)%Q with (inject_Z (- k)).
    rewrite nearest_int by lia. rewrite inject_Z_opp. ring.
  - subst k. reflexivity.
  - rewrite round_pos
      by (change 0%Q with (inject_Z 0); rewrite <- Zlt_Qlt; exact H).
    apply nearest_int. lia.
Qed.

(** Rounding to the nearest double keeps the order and the integers up to
    2^53. *)
Lemma binary64_rounding : rounding binary64.round.
Proof. split; [exact round_mono|exact round_int]. Qed.

Lemma exact_rounding : rounding (fun q => q).
Proof. split; [auto|intros; reflexivity]. Qed.

(** ** The rounding returns the nearest double *)

Lemma rne_near (q : Q) :
  (- (1 # 2) <= inject_Z (binary64.rne q) - q <= 1 # 2)%Q.
Proof.
  pose proof (Qfloor_le q) as H1. pose proof (Qlt_floor q) as H2.
  rewrite inject_Z_plus in H2. change (inject_Z 1) with 1%Q in H2.
  unfold binary64.rne.
  destruct (Qcompare_spec (q - inject_Z (Qfloor q)) (1 # 2)) as [E|E|E].
  - destruct (Z.even (Qfloor q)).
    + split; lra.
    + rewrite inject_Z_plus. change (inject_Z 1) with 1%Q. split; lra.
  - split; lra.
  - rewrite inject_Z_plus. change (inject_Z 1) with 1%Q. split; lra.
Qed.

Lemma round_opp (q : Q) : (binary64.round (- q) == - binary64.round q)%Q.
Proof.
  destruct (round_sign q) as [[Hq _]|[[Hq Rq]|[Hq _]]].
  - rewrite (round_neg (- q)) by lra. rewrite (round_pos q) by exact Hq.
    assert (E : (binary64.nearest (- - q) == binary64.nearest q)%Q).
    { rewrite !nearest_value. cbn zeta.
      assert (Ei : binary64.ilog2 (- - q) = binary64.ilog2 q).
      { apply ilog2_unique. rewrite Qopp_involutive. apply ilog2_spec. exact Hq. }
      rewrite Ei.
      rewrite (rne_eq (- - q * 2 ^ (52 - Z.max (binary64.ilog2 q) (-1022)))
                 (q * 2 ^ (52 - Z.max (binary64.ilog2 q) (-1022))))
        by (rewrite Qopp_involutive; reflexivity).
      reflexivity. }
    rewrite E. reflexivity.
  - rewrite Rq. rewrite round_zero by (rewrite Hq; reflexivity). reflexivity.
  - rewrite (round_pos (- q)) by lra. rewrite (round_neg q) by exact Hq. ring.
Qed.

(** The double of a positive number [q] of exponent [e] (at least -1022, the
    exponent of the subnormal numbers) is an integer of at most 53 bits times
    the spacing 2^(e-52) of the doubles at [q], and it is at most half the
    spacing away from [q]. *)
Lemma round_nearest (q : Q) :
  (0 < q)%Q ->
  exists m e,
    -1022 <= e
    /\ (e = -1022 \/ (2 ^ e <= q)%Q)
    /\ (q < 2 ^ (e + 1))%Q
    /\ 0 <= m <= 2 ^ 53
    /\ (binary64.round q == inject_Z m * 2 ^ (e - 52))%Q
    /\ (- 2 ^ (e - 53) <= binary64.round q - q <= 2 ^ (e - 53))%Q.
Proof.
  intros Hq. rewrite round_pos by exact Hq.
  destruct (ilog2_spec q Hq) as [L1 L2].
  set (e := Z.max (binary64.ilog2 q) (-1022)).
  set (s := 52 - e).
  exists (binary64.rne (q * 2 ^ s)), e.
  assert (Hs : (0 < 2 ^ s)%Q) by apply pow2_pos.
  assert (Hle : (q < 2 ^ (e + 1))%Q).
  { eapply Qlt_le_trans; [exact L2|]. apply pow2_le. unfold e. lia. }
  split; [unfold e; lia|].
  split.
  { destruct (Z.max_spec (binary64.ilog2 q) (-1022)) as [[_ E]|[_ E]].
    - left. exact E.
    - right. fold e in E. rewrite E. exact L1. }
  split; [exact Hle|].
  split.
  { split.
    - apply rne_ge_int. change (inject_Z 0) with 0%Q.
      apply Qmult_le_0_compat; apply Qlt_le_weak; assumption.
    - apply rne_le_int. rewrite (pow2_inject 53) by lia.
      assert (E : (2 ^ 53 == 2 ^ (e + 1) * 2 ^ s)%Q).
      { rewrite <- pow2_add. unfold s.
        replace (e + 1 + (52 - e)) with 53 by lia. reflexivity. }
      rewrite E. apply Qmult_le_compat_r; apply Qlt_le_weak; assumption. }
  assert (Hv : (binary64.nearest q
                == inject_Z (binary64.rne (q * 2 ^ s)) * 2 ^ (e - 52))%Q).
  { rewrite nearest_value. cbn zeta. fold e. fold s.
    replace (- s) with (e - 52) by (unfold s; lia). reflexivity. }
  split; [exact Hv|].
  rewrite Hv.
  pose proof (rne_near (q * 2 ^ s)) as [N1 N2].
  assert (Hc : (2 ^ s * 2 ^ (e - 52) == 1)%Q).
  { rewrite <- pow2_add. replace (s + (e - 52)) with 0 by (unfold s; lia).
    reflexivity. }
  assert (Hh : (2 ^ (e - 53) == (1 # 2) * 2 ^ (e - 52))%Q).
  { replace (e - 53) with (-1 + (e - 52)) by lia. rewrite pow2_add. reflexivity. }
  assert (Hp : (0 < 2 ^ (e - 52))%Q) by apply pow2_pos.
  set (r := inject_Z (binary64.rne (q * 2 ^ s))) in *.
  set (p := (2 ^ (e - 52))%Q) in *. set (t := (2 ^ s)%Q) in *.
  rewrite Hh. clearbody r p t. clear Hv Hh.
  assert (Hq' : (q == q * t * p)%Q).
  { rewrite <- Qmult_assoc, Hc. ring. }
  split.
  - assert ((- (1 # 2)) * p <= (r - q * t) * p)%Q
      by (apply Qmult_le_compat_r; [exact N1|apply Qlt_le_weak; exact Hp]).
    assert (E : (r * p - q == (r - q * t) * p)%Q).
    { rewrite Hq' at 1. ring. }
    rewrite E. lra.
  - assert ((r - q * t) * p <= (1 # 2) * p)%Q
      by (apply Qmult_le_compat_r; [exact N2|apply Qlt_le_weak; exact Hp]).
    assert (E : (r * p - q == (r - q * t) * p)%Q).
    { rewrite Hq' at 1. ring. }
    rewrite E. lra.
Qed.

(** The doubles of some numbers, as Python gives them ([Fraction(0.1)],
    [float(2**53 + 1)], [float(Fraction(3, 2**1075))]): a decimal literal, a
    negative number, two ties that go to the even neighbour, and two ties of
    the subnormal range. *)
Example round_documented :
  binary64.round 0.1 = (3602879701896397 # 36028797018963968)%Q
  /\ binary64.round (- (1 # 3)) = (- (6004799503160661 # 18014398509481984))%Q
  /\ binary64.round 9007199254740993 = 9007199254740992%Q
  /\ binary64.round 9007199254740995 = 9007199254740996%Q
  /\ (binary64.round (2 ^ (-1075)) == 0)%Q
  /\ (binary64.round (3 * 2 ^ (-1075)) == 2 ^ (-1073))%Q.
Proof. repeat split; vm_compute; reflexivity. Qed.

(** The order of the additions matters: 300 doubles summed as [np.sum] sums
    them, cut into parts of 72, 72, 72 and 84 elements that are each summed
    with 8 accumulators, and summed from left to right. *)
Example pairwise_sum_example :
  fl.sum binary64.round (harmonic_doubles 300)
  = Fin (5392269493927659 # 1125899906842624)
  /\ fold_left (fl.s_add binary64.round) (harmonic_doubles 300) (Fin 0)
     = Fin (1348067373481913 # 281474976710656).
Proof. split; vm_compute; reflexivity. Qed.

(** * The statements in double precision *)

Lemma example_doubles_valid : valid_proba example_labels example_doubles.
Proof.
  split; [reflexivity|].
  repeat constructor; vm_compute; discriminate.
Qed.

Lemma separated_models_valid : valid_models separated_labels separated_models.
Proof.
  split; [discriminate|].
  repeat constructor; vm_compute; discriminate.
Qed.

(** C3 fails as stated: in double precision the Brier score of the example
    is above 0.085, and above the double that the literal 0.085 denotes. *)
Lemma brier_score_of_example_is_not_0_085 :
  exists df q,
    fl.evaluate_model_metrics binary64.round example_labels
      [("M", example_doubles)] 0.5 = Ok df
    /\ table_value df "M" "Brier Score" = Ok (CNum (Fin q))
    /\ (0.085 < q)%Q
    /\ (binary64.round 0.085 < q)%Q.
Proof.
  exists example_table_doubles. eexists.
  split; [vm_compute; reflexivity|].
  split; [vm_compute; reflexivity|].
  split; reflexivity.
Qed.

(** C3, as the code has it.  Labels [0,0,1,1], one model with probabilities
    [0.1,0.4,0.6,0.9] and threshold 0.5: the predictions are [0,0,1,1], a
    table is returned, and in double precision it shows Precision 1, Recall
    1, Specificity 1 and the Brier Score 0.08500000000000002 for the model,
    which is less than 10^-16 above 0.085; with exact arithmetic the Brier
    Score of the table is 0.085, the mean of the squared differences. *)
Theorem end_to_end_example :
  np.where_gt example_doubles 0.5 = [false; false; true; true]
  /\ (exists df,
        fl.evaluate_model_metrics binary64.round example_labels
          [("M", example_doubles)] 0.5 = Ok df
        /\ shows df "M" "Precision" 1
        /\ shows df "M" "Recall" 1
        /\ shows df "M" "Specificity" 1
        /\ shows df "M" "Brier Score" (binary64.round 0.08500000000000002))
  /\ (0.085 < binary64.round 0.08500000000000002 < 0.0850000000000001)%Q
  /\ (exists df,
        evaluate_model_metrics example_labels [("M", example_proba)] 0.5 = Ok df
        /\ shows df "M" "Precision" 1
        /\ shows df "M" "Recall" 1
        /\ shows df "M" "Specificity" 1
        /\ shows df "M" "Brier Score" 0.085).
Proof.
  split; [reflexivity|]. split; [|split].
  - exists example_table_doubles. split; [vm_compute; reflexivity|].
    repeat split; eexists; (split; [vm_compute; reflexivity|vm_compute; reflexivity]).
  - split; reflexivity.
  - eexists. split; [vm_compute; reflexivity|].
    repeat split; eexists; (split; [vm_compute; reflexivity|reflexivity]).
Qed.

Lemma specificity_denominator_nonzero_witness :
  exists tn fp fn tp s,
    sklearn.confusion_matrix example_labels (np.where_gt example_doubles 0.5)
    = Ok [[tn; fp]; [fn; tp]]
    /\ tn + fp = sklearn.count negb example_labels
    /\ tn + fp <> 0
    /\ fl.compute_scores binary64.round example_labels example_doubles 0.5 = Ok s
    /\ model_specificity s = fl.true_divide binary64.round tn (tn + fp)
    /\ model_specificity s = Fin (binary64.round (z2q tn / z2q (tn + fp))).
Proof.
  apply (specificity_denominator_nonzero binary64.round binary64_rounding
           example_labels example_doubles 0.5).
  - split; simpl; auto.
  - exact example_doubles_valid.
  - vm_compute. discriminate.
Defined.

(** C7 fails as stated: on a valid input in double precision, one negative
    label with the lowest probability and nine positive ones, the Average
    Precision and the PR AUC of model B are 1.0000000000000002, above 1. *)
Lemma average_precision_above_one :
  both_classes separated_labels
  /\ valid_models separated_labels separated_models
  /\ (0 < 0.5 < 1)%Q
  /\ fl.evaluate_model_metrics binary64.round separated_labels
       separated_models 0.5 = Ok separated_table
  /\ exists q,
       table_value separated_table "B" "Average Precision" = Ok (CNum (Fin q))
       /\ table_value separated_table "B" "PR AUC" = Ok (CNum (Fin q))
       /\ (q == binary64.round 1.0000000000000002)%Q
       /\ (1 < q)%Q.
Proof.
  split; [split; simpl; auto|].
  split; [exact separated_models_valid|].
  split; [split; reflexivity|].
  split; [vm_compute; reflexivity|].
  eexists. split; [vm_compute; reflexivity|].
  split; [vm_compute; reflexivity|]. split; reflexivity.
Qed.

(** The AUC ROC exceeds 1 as well in double precision: for one positive label
    above 52 negative ones in tied groups the curve has nine points, and its
    eight trapezoids, of exact sum 1, add up to 1.0000000000000002 in the
    order of [pairwise_sum]. *)
Lemma roc_auc_above_one :
  both_classes tied_labels
  /\ valid_proba tied_labels tied_probabilities
  /\ exists s,
       fl.compute_scores binary64.round tied_labels tied_probabilities 0.5 = Ok s
       /\ roc_auc s = Fin (binary64.round 1.0000000000000002)
       /\ (1 < binary64.round 1.0000000000000002)%Q.
Proof.
  split; [split; simpl; auto|].
  split; [split; [reflexivity|repeat constructor; vm_compute; discriminate]|].
  eexists. split; [vm_compute; reflexivity|]. split; reflexivity.
Qed.

Lemma metrics_in_unit_interval_witness :
  (exists df,
     fl.evaluate_model_metrics binary64.round separated_labels
       separated_models 0.5 = Ok df
     /\ forall j name proba,
          nth_error separated_models j = Some (name, proba) ->
          exists s,
            fl.compute_scores binary64.round separated_labels proba 0.5 = Ok s
            /\ rounded_bounds s /\ shows_scores df j name s)
  /\ (exists df,
        evaluate_model_metrics separated_labels separated_models 0.5 = Ok df
        /\ forall j name proba,
             nth_error separated_models j = Some (name, proba) ->
             exists s, compute_scores separated_labels proba 0.5 = Ok s
                       /\ unit_scores s /\ shows_scores df j name s).
Proof.
  apply (metrics_in_unit_interval binary64.round binary64_rounding
           separated_labels separated_models 0.5).
  - split; simpl; auto.
  - exact separated_models_valid.
  - split; reflexivity.
  - vm_compute. discriminate.
Defined.
